(** * GraphData: the graph container of graph4nlp and its batching engine

    A shallow embedding of [graph4nlp/pytorch/data/data.py]: the class
    [GraphData] (node and edge growth, feature tables, the edge index map)
    and the module functions [to_batch] and [from_batch].

    Conventions.
    - A Python method of [GraphData] is a computation in the monad [M]: it
      receives the object state, and ends either normally ([Return]) or by
      an exception ([Raise]); both carry the state reached and the warnings
      issued through [warnings.warn], since a call that raises keeps the
      mutations it made before raising.
    - Python [int] values supplied by a caller are [Z]; lengths and counters
      computed by the code itself are [nat].
    - A [dict] that the code iterates over (the feature tables, [new_data])
      is an insertion-ordered association list; the edge index map, which is
      only looked up and inserted into, is a [gmap].
    - A torch tensor is its trailing shape and the list of its rows (the
      slices along dimension 0), every row flattened; scalar payloads are
      [Z], dtype and device placement are not represented. *)

From Stdlib Require Import ZArith List String Lia Bool.
From stdpp Require Import base option list gmap strings.

(** ** Python exceptions, results *)

Inductive Exn : Set :=
| ValueError
| AssertionError
| TypeError
| IndexError
| KeyError
| RuntimeError
| SizeMismatchException
| EdgeNotFoundException.

Inductive result (A : Type) : Type :=
| Ok (a : A)
| Err (e : Exn).
Arguments Ok {A} a.
Arguments Err {A} e.

#[global] Instance result_ret : MRet result := @Ok.
#[global] Instance result_bind : MBind result :=
  λ A B f r, match r with Ok a => f a | Err e => Err e end.

Definition is_Ok {A} (r : result A) : Prop := ∃ a, r = Ok a.
Definition is_Err {A} (r : result A) : Prop := ∃ e, r = Err e.

(** [l[i]] for a non-negative [i]. *)
Definition py_index {A} (l : list A) (i : nat) : result A :=
  match l !! i with
  | Some x => Ok x
  | None => Err IndexError
  end.

(** [l[i] = x] for a non-negative [i]. *)
Definition py_setitem {A} (l : list A) (i : nat) (x : A) : result (list A) :=
  if decide (i < length l) then Ok (<[i:=x]> l) else Err IndexError.

(** [l.pop(i)] for a non-negative [i]; the popped element is not used. *)
Definition py_pop {A} (l : list A) (i : nat) : result (list A) :=
  if decide (i < length l) then Ok (take i l ++ drop (S i) l) else Err IndexError.

(** [l[a:b]] for non-negative bounds. *)
Definition py_slice {A} (l : list A) (a b : nat) : list A :=
  take (b - a) (drop a l).

(** ** Insertion-ordered dictionaries with string keys *)

Fixpoint dict_get {V} (d : list (string * V)) (k : string) : option V :=
  match d with
  | [] => None
  | (k', v) :: d' => if decide (k' = k) then Some v else dict_get d' k
  end.

Fixpoint dict_set {V} (k : string) (v : V) (d : list (string * V)) : list (string * V) :=
  match d with
  | [] => [(k, v)]
  | (k', v') :: d' => if decide (k' = k) then (k, v) :: d' else (k', v') :: dict_set k v d'
  end.

Definition dict_keys {V} (d : list (string * V)) : list string := map fst d.

(** ** Tensors *)

Record Tensor := mkTensor { tshape : list nat; rows : list (list Z) }.

(** [t.shape[0]] *)
Definition shape0 (t : Tensor) : nat := length (rows t).

Definition numel (sh : list nat) : nat := foldr Nat.mul 1 sh.

Definition zero_row (sh : list nat) : list Z := replicate (numel sh) 0%Z.

(** A row has the tensor's trailing shape. *)
Definition tensor_wf (t : Tensor) : Prop :=
  Forall (λ r, length r = numel (tshape t)) (rows t).

(** A 1-D tensor without elements, which [torch.cat] skips. *)
Definition is_empty_1d (t : Tensor) : bool :=
  match tshape t, rows t with
  | [], [] => true
  | _, _ => false
  end.

(** [torch.cat(v, dim=0)]: the tensors must agree on the trailing shape,
    except for empty 1-D tensors of shape (0,), which are left out. *)
Definition torch_cat (v : list Tensor) : result Tensor :=
  match v with
  | [] => Err RuntimeError
  | _ :: _ =>
      match filter (λ t, is_empty_1d t = false) v with
      | [] => Ok (mkTensor [] [])
      | t0 :: ts =>
          if forallb (λ t, bool_decide (tshape t = tshape t0)) ts
          then Ok (mkTensor (tshape t0) (concat (map rows (t0 :: ts))))
          else Err RuntimeError
      end
  end.

(** ** Selectors: [int], [slice] or [list] indices *)

Inductive Selector :=
| SelInt (i : Z)
| SelSlice (start stop step : option Z)
| SelList (l : list Z).

(** [isinstance(nodes, slice)] *)
Definition is_slice (sel : Selector) : bool :=
  match sel with SelSlice _ _ _ => true | _ => false end.

(** [nodes == slice(None, None, None)] *)
Definition eq_slice_all (sel : Selector) : bool :=
  match sel with SelSlice None None None => true | _ => false end.

Definition slice_all : Selector := SelSlice None None None.

(** [range(start, stop, step)] for a non-zero step. *)
Definition py_range (start stop step : Z) : list Z :=
  let len :=
    if (0 <? step)%Z
    then (if (start <? stop)%Z then (stop - start - 1) / step + 1 else 0)%Z
    else (if (stop <? start)%Z then (start - stop - 1) / (- step) + 1 else 0)%Z in
  map (λ i, (start + Z.of_nat i * step)%Z) (seq 0 (Z.to_nat len)).

(** The bound of a slice adjusted to a sequence of [n] elements, as
    [slice.indices(n)] does. *)
Definition adjust_bound (n : Z) (step : Z) (dflt_pos dflt_neg : Z) (b : option Z) : Z :=
  let lower := if (0 <? step)%Z then 0%Z else (-1)%Z in
  let upper := if (0 <? step)%Z then n else (n - 1)%Z in
  match b with
  | None => if (0 <? step)%Z then dflt_pos else dflt_neg
  | Some b =>
      if (b <? 0)%Z then Z.max (b + n) lower else Z.min b upper
  end.

(** Modelled from the spec: [utils.slice_to_list] is not among the sources.
    The spec speaks of the element ids that a range selector denotes among
    the current elements; they are the ids Python gives the slice over a
    sequence of [max_len] elements (the range over its adjusted indices),
    and a zero step is a [ValueError]. *)
Definition slice_to_list (start stop step : option Z) (max_len : nat) : result (list Z) :=
  let n := Z.of_nat max_len in
  let st := default 1%Z step in
  if (st =? 0)%Z then Err ValueError
  else
    let a := adjust_bound n st 0%Z (n - 1)%Z start in
    let b := adjust_bound n st n (-1)%Z stop in
    Ok (py_range a b st).

(** An index that torch can hold: a signed integer of 64 bits. *)
Definition fits_int64 (i : Z) : bool :=
  ((- 2 ^ 63 <=? i)%Z && (i <? 2 ^ 63)%Z).

(** An [int] index into a dimension of [n] elements; negative indices count
    from the end. An index out of range is an [IndexError] when torch can
    hold it; one that does not fit 64 bits is rejected when torch converts
    it, with [ValueError] (a dimension has fewer than [2 ^ 63] elements, so
    that such an index is never in range). *)
Definition norm_index (n : nat) (i : Z) : result nat :=
  if ((0 <=? i)%Z && (i <? Z.of_nat n)%Z) then Ok (Z.to_nat i)
  else if ((i <? 0)%Z && (- Z.of_nat n <=? i)%Z) then Ok (Z.to_nat (i + Z.of_nat n))
  else if fits_int64 i then Err IndexError
  else Err ValueError.

Fixpoint mapM {A B} (f : A → result B) (l : list A) : result (list B) :=
  match l with
  | [] => Ok []
  | x :: l' => y ← f x; ys ← mapM f l'; Ok (y :: ys)
  end.

(** The row positions a slice or list selector picks in a tensor of [n]
    rows. A tensor cannot be sliced with a step that is not positive. *)
Definition selected_rows (n : nat) (sel : Selector) : result (list nat) :=
  match sel with
  | SelInt i => i' ← norm_index n i; Ok [i']
  | SelSlice start stop step =>
      if (default 1 step <=? 0)%Z then Err ValueError
      else l ← slice_to_list start stop step n; Ok (map Z.to_nat l)
  | SelList l => mapM (norm_index n) l
  end.

(** What [t[sel]] evaluates to: one element of the trailing shape for an
    [int], a tensor of the picked rows otherwise. *)
Inductive Indexed :=
| Element (sh : list nat) (r : list Z)
| Rows (t : Tensor).

Definition tensor_getitem (t : Tensor) (sel : Selector) : result Indexed :=
  idx ← selected_rows (shape0 t) sel;
  picked ← mapM (py_index (rows t)) idx;
  match sel with
  | SelInt _ => Ok (Element (tshape t) (concat picked))
  | _ => Ok (Rows (mkTensor (tshape t) picked))
  end.

(** [t[a:b]] with non-negative bounds, as [from_batch] slices a feature. *)
Definition tensor_slice (t : Tensor) (a b : nat) : Tensor :=
  mkTensor (tshape t) (py_slice (rows t) a b).

(** Broadcasting of flattened data of shape [V] to the shape [T] of the same
    rank: every dimension agrees or is 1 in [V]. *)
Definition chunks {A} (n sz : nat) (l : list A) : list (list A) :=
  map (λ i, take sz (drop (i * sz) l)) (seq 0 n).

Fixpoint broadcast_same_rank (V T : list nat) (data : list Z) : option (list Z) :=
  match V, T with
  | [], [] => Some data
  | v :: V', t :: T' =>
      match mapM (λ c, match broadcast_same_rank V' T' c with
                        | Some c' => Ok c'
                        | None => Err RuntimeError
                        end) (chunks v (numel V') data) with
      | Ok cs =>
          if decide (v = t) then Some (concat cs)
          else if decide (v = 1) then Some (concat (replicate t (concat cs)))
          else None
      | Err _ => None
      end
  | _, _ => None
  end.

Fixpoint strip_ones (k : nat) (V : list nat) : list nat :=
  match k, V with
  | S k', 1 :: V' => strip_ones k' V'
  | _, _ => V
  end.

Definition broadcast_to (V T : list nat) (data : list Z) : option (list Z) :=
  let V1 := strip_ones (length V - length T) V in
  if decide (length V1 ≤ length T)
  then broadcast_same_rank (replicate (length T - length V1) 1 ++ V1) T data
  else None.

(** [t[sel] = value]: the value is broadcast to the shape of the picked
    region and written row by row; shapes that do not broadcast are a
    [RuntimeError]. *)
Definition tensor_setitem (t : Tensor) (sel : Selector) (value : Tensor) : result Tensor :=
  idx ← selected_rows (shape0 t) sel;
  let V := shape0 value :: tshape value in
  let T := match sel with
           | SelInt _ => tshape t
           | _ => length idx :: tshape t
           end in
  match broadcast_to V T (concat (rows value)) with
  | None => Err RuntimeError
  | Some data =>
      let new_rows := chunks (length idx) (numel (tshape t)) data in
      Ok (mkTensor (tshape t)
            (foldl (λ rs '(i, r), <[i:=r]> rs) (rows t) (zip idx new_rows)))
  end.

(** Modelled from the spec: [utils.entail_zero_padding] is not among the
    sources. Per the padding policy on growth, an array that is present is
    extended by [num_rows] elements that are the zero of the array's trailing
    shape, and an array that is absent remains absent. *)
Definition entail_zero_padding (old_tensor : option Tensor) (num_rows : nat) : option Tensor :=
  match old_tensor with
  | None => None
  | Some t => Some (mkTensor (tshape t) (rows t ++ replicate num_rows (zero_row (tshape t))))
  end.

(** ** Endpoint arguments of the bulk edge operations *)

Inductive IntOrList :=
| AnInt (x : Z)
| AList (l : list Z).

(** Modelled from the spec: [utils.int_to_list] is not among the sources.
    A single endpoint stands for the list holding it. *)
Definition int_to_list (x : IntOrList) : list Z :=
  match x with
  | AnInt x => [x]
  | AList l => l
  end.

(** Modelled from the spec: [utils.check_and_expand] is not among the
    sources. Lengths must match after broadcasting: one side may be a single
    value applied to every pair in the other side; otherwise the lengths must
    be equal, else the call is rejected as an invalid argument. *)
Definition check_and_expand (x y : list Z) : result (list Z * list Z) :=
  if decide (length x = length y) then Ok (x, y)
  else match x, y with
       | [x0], _ => Ok (replicate (length y) x0, y)
       | _, [y0] => Ok (x, replicate (length x) y0)
       | _, _ => Err ValueError
       end.

(** ** The state of a [GraphData] object *)

Inductive PyVal :=
| PyNone
| PyInt (z : Z)
| PyStr (s : string).

(** An attribute record: a [dict] attached to one node or edge. *)
Definition AttrRecord : Type := list (string * PyVal).

(** A feature table: feature name to tensor, [None] while the feature is
    absent. *)
Definition FeatureTable : Type := list (string * option Tensor).

Record EdgeIndex := mkEdgeIndex { src : list Z; tgt : list Z }.

Definition res_init_node_attr : AttrRecord := [("node_attr"%string, PyNone)].
Definition res_init_node_features : FeatureTable :=
  [("node_feat"%string, None); ("node_emb"%string, None)].
Definition res_init_edge_features : FeatureTable :=
  [("edge_feat"%string, None); ("edge_emb"%string, None); ("edge_weight"%string, None)].
Definition res_init_edge_attributes : AttrRecord := [("edge_attr"%string, PyNone)].

(** [single_node_attr_factory( **res_init_node_attr)] and its edge
    counterpart build a fresh record with the default entries. *)
Definition single_node_attr_factory (d : AttrRecord) : AttrRecord := d.
Definition single_edge_attr_factory (d : AttrRecord) : AttrRecord := d.

Record GraphData := mkGraphData {
  _node_attributes : list AttrRecord;
  _node_features : FeatureTable;
  _edge_indices : EdgeIndex;
  _nids_eid_mapping : gmap (Z * Z) nat;
  _edge_features : FeatureTable;
  _edge_attributes : list AttrRecord;
  graph_attributes : list (string * PyVal);
  device : option string;
  _is_batch : bool;
  batch : option (list nat);
  batch_size : option nat;
  _batch_num_nodes : option (list nat);
  _batch_num_edges : option (list nat)
}.

(** [GraphData(device=device)], the constructor without a source graph. *)
Definition GraphData_init (dev : option string) : GraphData :=
  {| _node_attributes := [];
     _node_features := res_init_node_features;
     _edge_indices := mkEdgeIndex [] [];
     _nids_eid_mapping := ∅;
     _edge_features := res_init_edge_features;
     _edge_attributes := [];
     graph_attributes := [];
     device := dev;
     _is_batch := false;
     batch := None;
     batch_size := None;
     _batch_num_nodes := None;
     _batch_num_edges := None |}.

(** Field assignments. *)
Definition with_node_attributes (x : list AttrRecord) (g : GraphData) : GraphData :=
  mkGraphData x (_node_features g) (_edge_indices g) (_nids_eid_mapping g)
    (_edge_features g) (_edge_attributes g) (graph_attributes g) (device g)
    (_is_batch g) (batch g) (batch_size g) (_batch_num_nodes g) (_batch_num_edges g).
Definition with_node_features (x : FeatureTable) (g : GraphData) : GraphData :=
  mkGraphData (_node_attributes g) x (_edge_indices g) (_nids_eid_mapping g)
    (_edge_features g) (_edge_attributes g) (graph_attributes g) (device g)
    (_is_batch g) (batch g) (batch_size g) (_batch_num_nodes g) (_batch_num_edges g).
Definition with_edge_indices (x : EdgeIndex) (g : GraphData) : GraphData :=
  mkGraphData (_node_attributes g) (_node_features g) x (_nids_eid_mapping g)
    (_edge_features g) (_edge_attributes g) (graph_attributes g) (device g)
    (_is_batch g) (batch g) (batch_size g) (_batch_num_nodes g) (_batch_num_edges g).
Definition with_nids_eid_mapping (x : gmap (Z * Z) nat) (g : GraphData) : GraphData :=
  mkGraphData (_node_attributes g) (_node_features g) (_edge_indices g) x
    (_edge_features g) (_edge_attributes g) (graph_attributes g) (device g)
    (_is_batch g) (batch g) (batch_size g) (_batch_num_nodes g) (_batch_num_edges g).
Definition with_edge_features (x : FeatureTable) (g : GraphData) : GraphData :=
  mkGraphData (_node_attributes g) (_node_features g) (_edge_indices g) (_nids_eid_mapping g)
    x (_edge_attributes g) (graph_attributes g) (device g)
    (_is_batch g) (batch g) (batch_size g) (_batch_num_nodes g) (_batch_num_edges g).
Definition with_edge_attributes (x : list AttrRecord) (g : GraphData) : GraphData :=
  mkGraphData (_node_attributes g) (_node_features g) (_edge_indices g) (_nids_eid_mapping g)
    (_edge_features g) x (graph_attributes g) (device g)
    (_is_batch g) (batch g) (batch_size g) (_batch_num_nodes g) (_batch_num_edges g).
Definition with_device (x : option string) (g : GraphData) : GraphData :=
  mkGraphData (_node_attributes g) (_node_features g) (_edge_indices g) (_nids_eid_mapping g)
    (_edge_features g) (_edge_attributes g) (graph_attributes g) x
    (_is_batch g) (batch g) (batch_size g) (_batch_num_nodes g) (_batch_num_edges g).
Definition with_is_batch (x : bool) (g : GraphData) : GraphData :=
  mkGraphData (_node_attributes g) (_node_features g) (_edge_indices g) (_nids_eid_mapping g)
    (_edge_features g) (_edge_attributes g) (graph_attributes g) (device g)
    x (batch g) (batch_size g) (_batch_num_nodes g) (_batch_num_edges g).
Definition with_batch (x : option (list nat)) (g : GraphData) : GraphData :=
  mkGraphData (_node_attributes g) (_node_features g) (_edge_indices g) (_nids_eid_mapping g)
    (_edge_features g) (_edge_attributes g) (graph_attributes g) (device g)
    (_is_batch g) x (batch_size g) (_batch_num_nodes g) (_batch_num_edges g).
Definition with_batch_size (x : option nat) (g : GraphData) : GraphData :=
  mkGraphData (_node_attributes g) (_node_features g) (_edge_indices g) (_nids_eid_mapping g)
    (_edge_features g) (_edge_attributes g) (graph_attributes g) (device g)
    (_is_batch g) (batch g) x (_batch_num_nodes g) (_batch_num_edges g).
Definition with_batch_num_nodes (x : option (list nat)) (g : GraphData) : GraphData :=
  mkGraphData (_node_attributes g) (_node_features g) (_edge_indices g) (_nids_eid_mapping g)
    (_edge_features g) (_edge_attributes g) (graph_attributes g) (device g)
    (_is_batch g) (batch g) (batch_size g) x (_batch_num_edges g).
Definition with_batch_num_edges (x : option (list nat)) (g : GraphData) : GraphData :=
  mkGraphData (_node_attributes g) (_node_features g) (_edge_indices g) (_nids_eid_mapping g)
    (_edge_features g) (_edge_attributes g) (graph_attributes g) (device g)
    (_is_batch g) (batch g) (batch_size g) (_batch_num_nodes g) x.

(** ** The monad of methods *)

(** A warning issued by [warnings.warn]: the endpoint pair that was
    skipped. *)
Inductive Warning :=
| DuplicateEdge (endpoint_tuple : Z * Z).

Inductive outcome (A : Type) : Type :=
| Return (a : A) (g : GraphData) (w : list Warning)
| Raise (e : Exn) (g : GraphData) (w : list Warning).
Arguments Return {A} a g w.
Arguments Raise {A} e g w.

Definition M (A : Type) : Type := GraphData → outcome A.

#[global] Instance M_ret : MRet M := λ A a g, Return a g [].
(** The warnings [w] issued before the computation that ended in [o]. *)
Definition after_warnings {A} (w : list Warning) (o : outcome A) : outcome A :=
  match o with
  | Return a g w' => Return a g (w ++ w')
  | Raise e g w' => Raise e g (w ++ w')
  end.

#[global] Instance M_bind : MBind M := λ A B f m g,
  match m g with
  | Return a g' w => after_warnings w (f a g')
  | Raise e g' w => Raise e g' w
  end.

Definition get_self : M GraphData := λ g, Return g g [].
Definition modify (f : GraphData → GraphData) : M unit := λ g, Return () (f g) [].
Definition raise {A} (e : Exn) : M A := λ g, Raise e g [].
Definition warn (w : Warning) : M unit := λ g, Return () g [w].
Definition py_assert (b : bool) : M unit :=
  if b then mret () else raise AssertionError.
Definition lift {A} (r : result A) : M A :=
  match r with
  | Ok a => mret a
  | Err e => raise e
  end.

(** [for x in l: body x] *)
Fixpoint for_each {A} (l : list A) (body : A → M unit) : M unit :=
  match l with
  | [] => mret ()
  | x :: l' => body x ;; for_each l' body
  end.

(** A loop that carries a local variable. *)
Fixpoint for_fold {A S} (l : list A) (body : S → A → M S) (s : S) : M S :=
  match l with
  | [] => mret s
  | x :: l' => s' ← body s x; for_fold l' body s'
  end.

(** The value and final state of a call on an object of its own, as seen by
    a caller that holds the object: an exception propagates. *)
Definition call {A} (m : M A) (g : GraphData) : result (A * GraphData) :=
  match m g with
  | Return a g' _ => Ok (a, g')
  | Raise e _ _ => Err e
  end.

Definition exec (m : M unit) (g : GraphData) : result GraphData :=
  match m g with
  | Return _ g' _ => Ok g'
  | Raise e _ _ => Err e
  end.

(** ** Node operations *)

Definition get_node_num (g : GraphData) : nat := length (_node_attributes g).

(** The zero padding of every array of a feature table by [k] rows: the loop
    [for key in table.keys(): table[key] = entail_zero_padding(table[key], k)]
    of [add_nodes], [add_edge] and [add_edges]. *)
Definition pad_features (table : GraphData → FeatureTable)
    (with_table : FeatureTable → GraphData → GraphData) (k : nat) : M unit :=
  g ← get_self;
  for_each (dict_keys (table g)) (λ key,
    g ← get_self;
    match dict_get (table g) key with
    | None => raise KeyError
    | Some v => modify (with_table (dict_set key (entail_zero_padding v k) (table g)))
    end).

Definition add_nodes (node_num : Z) : M unit :=
  py_assert (0 <? node_num)%Z ;;
  modify (λ g, with_node_attributes
                 (_node_attributes g ++
                    replicate (Z.to_nat node_num) (single_node_attr_factory res_init_node_attr)) g) ;;
  pad_features _node_features with_node_features (Z.to_nat node_num).

Definition node_feature_names (g : GraphData) : list string := dict_keys (_node_features g).

(** [get_node_features(nodes)]: the returned [dict]. *)
Definition get_node_features (nodes : Selector) : M (list (string * option Indexed)) :=
  g ← get_self;
  for_fold (dict_keys (_node_features g)) (λ ret key,
    match dict_get (_node_features g) key with
    | None => raise KeyError
    | Some None => mret (dict_set key None ret)
    | Some (Some t) => x ← lift (tensor_getitem t nodes); mret (dict_set key (Some x) ret)
    end) [].

(** The number of ids a selector is checked to cover when a feature is new:
    [len(slice_to_list(nodes, n))]. *)
Definition covers_all (sel : Selector) (n : nat) : result bool :=
  match sel with
  | SelSlice start stop step =>
      l ← slice_to_list start stop step n; Ok (bool_decide (length l = n))
  | _ => Ok false
  end.

(** [key not in table or table[key] is None] *)
Definition is_new_feature (table : FeatureTable) (key : string) : bool :=
  match dict_get table key with
  | None | Some None => true
  | Some (Some _) => false
  end.

Definition set_node_features (nodes : Selector) (new_data : list (string * Tensor)) : M unit :=
  for_each (dict_keys new_data) (λ key,
    g ← get_self;
    if is_new_feature (_node_features g) key then
      if negb (is_slice nodes) then raise ValueError
      else
        full ← lift (covers_all nodes (get_node_num g));
        if negb full then raise ValueError else mret ()
    else mret ()) ;;
  for_each new_data (λ '(key, value),
    g ← get_self;
    py_assert (bool_decide (shape0 value = get_node_num g)) ;;
    let value_on_device := value in
    match dict_get (_node_features g) key with
    | None | Some None =>
        modify (with_node_features (dict_set key (Some value_on_device) (_node_features g)))
    | Some (Some old) =>
        if eq_slice_all nodes then
          modify (with_node_features (dict_set key (Some value_on_device) (_node_features g)))
        else
          t ← lift (tensor_setitem old nodes value_on_device);
          modify (with_node_features (dict_set key (Some t) (_node_features g)))
    end).

(** ** Edge operations *)

Definition get_edge_num (g : GraphData) : nat := length (src (_edge_indices g)).

(** The endpoint test of [add_edge] and [add_edges], as written. *)
Definition endpoint_not_in_graph (n : nat) (s t : Z) : bool :=
  ((s <? 0)%Z || (Z.of_nat n <=? s)%Z) && ((t <? 0)%Z && (Z.of_nat n <=? t)%Z).

Definition add_edge (s t : Z) : M unit :=
  g ← get_self;
  if endpoint_not_in_graph (get_node_num g) s t then raise ValueError
  else
    let endpoint_tuple := (s, t) in
    match _nids_eid_mapping g !! endpoint_tuple with
    | Some _ => warn (DuplicateEdge endpoint_tuple)
    | None =>
        let eid := get_edge_num g in
        modify (λ g, with_nids_eid_mapping (<[endpoint_tuple := eid]> (_nids_eid_mapping g)) g) ;;
        modify (λ g, with_edge_indices
                       (mkEdgeIndex (src (_edge_indices g) ++ [s]) (tgt (_edge_indices g))) g) ;;
        modify (λ g, with_edge_indices
                       (mkEdgeIndex (src (_edge_indices g)) (tgt (_edge_indices g) ++ [t])) g) ;;
        modify (λ g, with_edge_attributes
                       (_edge_attributes g ++ [single_edge_attr_factory res_init_edge_attributes]) g) ;;
        pad_features _edge_features with_edge_features 1
    end.

(** The loop of [add_edges] that registers the new pairs and collects the
    positions of the duplicates. *)
Definition add_edges_register (srcs tgts : list Z) (current_num_edges : nat) : M (list nat) :=
  for_fold (seq 0 (length srcs)) (λ duplicate_edge_indices i,
    s ← lift (py_index srcs i);
    t ← lift (py_index tgts i);
    let endpoint_tuple := (s, t) in
    g ← get_self;
    match _nids_eid_mapping g !! endpoint_tuple with
    | Some _ =>
        warn (DuplicateEdge endpoint_tuple) ;;
        mret (duplicate_edge_indices ++ [i])
    | None =>
        modify (with_nids_eid_mapping
                  (<[endpoint_tuple := current_num_edges + i]> (_nids_eid_mapping g))) ;;
        mret duplicate_edge_indices
    end) [].

(** The loop that pops the duplicates from both endpoint lists. *)
Fixpoint pop_all (indices : list nat) (srcs tgts : list Z) : result (list Z * list Z) :=
  match indices with
  | [] => Ok (srcs, tgts)
  | edge_index :: rest =>
      srcs' ← py_pop srcs edge_index;
      tgts' ← py_pop tgts edge_index;
      pop_all rest srcs' tgts'
  end.

(** [add_edges(src, tgt)] with two ints or two separate list objects (or
    one of each). The duplicates are popped from the lists of the caller;
    the call with one list object for both arguments is
    [add_edges_one_list] below. *)
Definition add_edges (s t : IntOrList) : M unit :=
  '(srcs, tgts) ← lift (check_and_expand (int_to_list s) (int_to_list t));
  py_assert (bool_decide (length srcs = length tgts)) ;;
  g ← get_self;
  for_each (zip srcs tgts) (λ '(src_idx, tgt_idx),
    if endpoint_not_in_graph (get_node_num g) src_idx tgt_idx then raise ValueError
    else mret ()) ;;
  let current_num_edges := length (_edge_attributes g) in
  duplicate_edge_indices ← add_edges_register srcs tgts current_num_edges;
  '(srcs, tgts) ← lift (pop_all (reverse duplicate_edge_indices) srcs tgts);
  let num_edges := length srcs in
  modify (λ g, with_edge_indices
                 (mkEdgeIndex (src (_edge_indices g) ++ srcs) (tgt (_edge_indices g))) g) ;;
  modify (λ g, with_edge_indices
                 (mkEdgeIndex (src (_edge_indices g)) (tgt (_edge_indices g) ++ tgts)) g) ;;
  modify (λ g, with_edge_attributes
                 (_edge_attributes g ++
                    replicate num_edges (single_edge_attr_factory res_init_edge_attributes)) g) ;;
  pad_features _edge_features with_edge_features num_edges.

(** The loop that pops the duplicates when [src] and [tgt] are one list
    object: both pops of a round take an element from the same list. *)
Fixpoint pop_all_one_list (indices : list nat) (l : list Z) : result (list Z) :=
  match indices with
  | [] => Ok l
  | edge_index :: rest =>
      l' ← py_pop l edge_index;
      l'' ← py_pop l' edge_index;
      pop_all_one_list rest l''
  end.

(** [add_edges(l, l)]: one list object is passed for both arguments, so
    that [src] and [tgt] are two names of the list [l]. *)
Definition add_edges_one_list (l : list Z) : M unit :=
  '(srcs, tgts) ← lift (check_and_expand (int_to_list (AList l)) (int_to_list (AList l)));
  py_assert (bool_decide (length srcs = length tgts)) ;;
  g ← get_self;
  for_each (zip srcs tgts) (λ '(src_idx, tgt_idx),
    if endpoint_not_in_graph (get_node_num g) src_idx tgt_idx then raise ValueError
    else mret ()) ;;
  let current_num_edges := length (_edge_attributes g) in
  duplicate_edge_indices ← add_edges_register srcs tgts current_num_edges;
  l ← lift (pop_all_one_list (reverse duplicate_edge_indices) l);
  let num_edges := length l in
  modify (λ g, with_edge_indices
                 (mkEdgeIndex (src (_edge_indices g) ++ l) (tgt (_edge_indices g))) g) ;;
  modify (λ g, with_edge_indices
                 (mkEdgeIndex (src (_edge_indices g)) (tgt (_edge_indices g) ++ l)) g) ;;
  modify (λ g, with_edge_attributes
                 (_edge_attributes g ++
                    replicate num_edges (single_edge_attr_factory res_init_edge_attributes)) g) ;;
  pad_features _edge_features with_edge_features num_edges.

Definition edge_ids (s t : IntOrList) : M (list nat) :=
  '(srcs, tgts) ← lift (check_and_expand (int_to_list s) (int_to_list t));
  g ← get_self;
  for_fold (zip srcs tgts) (λ eid_list '(src_idx, tgt_idx),
    match _nids_eid_mapping g !! (src_idx, tgt_idx) with
    | Some eid => mret (eid_list ++ [eid])
    | None => raise EdgeNotFoundException
    end) [].

Definition get_all_edges : M (list (Z * Z)) :=
  g ← get_self;
  for_fold (seq 0 (get_edge_num g)) (λ edges i,
    s ← lift (py_index (src (_edge_indices g)) i);
    t ← lift (py_index (tgt (_edge_indices g)) i);
    mret (edges ++ [(s, t)])) [].

Definition get_edge_feature_names (g : GraphData) : list string := dict_keys (_edge_features g).

Definition get_edge_feature (edges : Selector) : M (list (string * option Indexed)) :=
  g ← get_self;
  for_fold (dict_keys (_edge_features g)) (λ ret key,
    match dict_get (_edge_features g) key with
    | None => raise KeyError
    | Some None => mret (dict_set key None ret)
    | Some (Some t) => x ← lift (tensor_getitem t edges); mret (dict_set key (Some x) ret)
    end) [].

Definition set_edge_feature (edges : Selector) (new_data : list (string * Tensor)) : M unit :=
  for_each (dict_keys new_data) (λ key,
    g ← get_self;
    if is_new_feature (_edge_features g) key then
      if negb (is_slice edges) then raise SizeMismatchException
      else
        full ← lift (covers_all edges (get_edge_num g));
        if negb full then raise SizeMismatchException else mret ()
    else mret ()) ;;
  for_each new_data (λ '(key, value),
    g ← get_self;
    py_assert (bool_decide (shape0 value = get_edge_num g)) ;;
    let value_on_device := value in
    match dict_get (_edge_features g) key with
    | None | Some None =>
        modify (with_edge_features (dict_set key (Some value_on_device) (_edge_features g)))
    | Some (Some old) =>
        if eq_slice_all edges then
          modify (with_edge_features (dict_set key (Some value_on_device) (_edge_features g)))
        else
          t ← lift (tensor_setitem old edges value_on_device);
          modify (with_edge_features (dict_set key (Some t) (_edge_features g)))
    end).

(** ** Accessor views *)

(** Modelled from the spec: [views.py] is not among the sources. The
    accessor views are thin, stateless windows over the owning graph;
    [g.node_features] is the window [g.nodes[:].features] over all nodes.
    Its keys are the graph's feature names, reading a name reads the graph's
    features at the full-range selector, and assigning a name writes the
    array through [set_node_features] at the full-range selector. *)
Definition node_features_keys (g : GraphData) : list string := node_feature_names g.

Definition node_features_getitem (key : string) : M (option Tensor) :=
  ret ← get_node_features slice_all;
  match dict_get ret key with
  | None => raise KeyError
  | Some None => mret None
  | Some (Some (Rows t)) => mret (Some t)
  | Some (Some (Element _ _)) => raise TypeError
  end.

Definition node_features_setitem (key : string) (value : Tensor) : M unit :=
  set_node_features slice_all [(key, value)].

(** Modelled from the spec: [views.py] is not among the sources.
    [g.edge_features] is the window [g.edges[:].features] over all edges,
    the edge counterpart of [g.node_features]. *)
Definition edge_features_keys (g : GraphData) : list string := get_edge_feature_names g.

Definition edge_features_getitem (key : string) : M (option Tensor) :=
  ret ← get_edge_feature slice_all;
  match dict_get ret key with
  | None => raise KeyError
  | Some None => mret None
  | Some (Some (Rows t)) => mret (Some t)
  | Some (Some (Element _ _)) => raise TypeError
  end.

Definition edge_features_setitem (key : string) (value : Tensor) : M unit :=
  set_edge_feature slice_all [(key, value)].

(** ** The batch engine *)

Fixpoint foldM {A S} (f : S → A → result S) (l : list A) (s : S) : result S :=
  match l with
  | [] => Ok s
  | x :: l' => s' ← f s x; foldM f l' s'
  end.

Definition is_None {A} (o : option A) : bool :=
  match o with None => true | Some _ => false end.

(** The body of the first loop of steps 2 and 5 of [to_batch]: the array of
    [feature_name] on the graph [g], read through the view [getitem], is
    appended to the list collected for that name. *)
Definition collect_feature (getitem : string → M (option Tensor)) (g : GraphData)
    (features : list (string * list (option Tensor))) (feature_name : string)
    : result (list (string * list (option Tensor))) :=
  match dict_get features feature_name with
  | Some vs =>
      '(v, _) ← call (getitem feature_name) g;
      Ok (dict_set feature_name (vs ++ [v]) features)
  | None =>
      '(v, _) ← call (getitem feature_name) g;
      Ok (dict_set feature_name [v] features)
  end.

(** The dictionary from feature name to the list of the graphs' arrays that
    steps 2 and 5 of [to_batch] build, reading every graph through the view
    given by [keys] and [getitem]. *)
Definition collect_features (keys : GraphData → list string)
    (getitem : string → M (option Tensor)) (graphs : list GraphData)
    : result (list (string * list (option Tensor))) :=
  foldM (λ features g, foldM (collect_feature getitem g) (keys g) features) graphs [].

(** The body of the second loop of steps 2 and 5: a feature with a [None]
    entry is skipped, the others are concatenated and assigned through the
    view [setitem]. *)
Definition assign_feature (setitem : string → Tensor → M unit) (big_graph : GraphData)
    (kv : string * list (option Tensor)) : result GraphData :=
  let '(k, v) := kv in
  if existsb is_None v then Ok big_graph
  else
    feature_tensor ← torch_cat (omap id v);
    exec (setitem k feature_tensor) big_graph.

Definition assign_features (setitem : string → Tensor → M unit)
    (features : list (string * list (option Tensor))) (big_graph : GraphData)
    : result GraphData :=
  foldM (assign_feature setitem) features big_graph.

(** The body of the loops of steps 3 and 6: the [i]-th attribute record of
    a graph is stored at the next free position of the big graph's list. *)
Definition copy_attribute (attrs : list AttrRecord)
    (st : list AttrRecord * nat) (i : nat) : result (list AttrRecord * nat) :=
  let '(big_attrs, total_count) := st in
  a ← py_index attrs i;
  big_attrs' ← py_setitem big_attrs total_count a;
  Ok (big_attrs', S total_count).

Definition copy_attributes (count : GraphData → nat) (attrs : GraphData → list AttrRecord)
    (graphs : list GraphData) (big_attrs : list AttrRecord) : result (list AttrRecord) :=
  r ← foldM (λ st g, foldM (copy_attribute (attrs g)) (seq 0 (count g)) st)
         graphs (big_attrs, 0);
  Ok (fst r).

(** The body of the loop of [stack_edge_indices] over the graphs. *)
Definition stack_edges_of (st : EdgeIndex * nat) (g : GraphData) : result (EdgeIndex * nat) :=
  let '(all_edge_indices, cumulative_node_num) := st in
  '(edges, _) ← call get_all_edges g;
  let all_edge_indices :=
    foldl (λ all_edge_indices '(s, t),
             let s := (s + Z.of_nat cumulative_node_num)%Z in
             let t := (t + Z.of_nat cumulative_node_num)%Z in
             mkEdgeIndex (src all_edge_indices ++ [s]) (tgt all_edge_indices ++ [t]))
          all_edge_indices edges in
  Ok (all_edge_indices, cumulative_node_num + get_node_num g).

Definition stack_edge_indices (gs : list GraphData) : result EdgeIndex :=
  r ← foldM stack_edges_of gs (mkEdgeIndex [] [], 0);
  Ok (fst r).

Definition sum_list (l : list nat) : nat := foldr Nat.add 0 l.

Definition to_batch (graphs : list GraphData) : result GraphData :=
  match graphs with
  | [] => Err AssertionError
  | g0 :: _ =>
      let big_graph := GraphData_init None in
      let big_graph := with_is_batch true big_graph in
      let big_graph := with_device (device g0) big_graph in
      let total_num_nodes := sum_list (map get_node_num graphs) in
      (* Step 1: Add nodes *)
      big_graph ← exec (add_nodes (Z.of_nat total_num_nodes)) big_graph;
      (* Step 2: Set node features *)
      node_features ← collect_features node_features_keys node_features_getitem graphs;
      big_graph ← assign_features node_features_setitem node_features big_graph;
      (* Step 3: Set node attributes *)
      node_attrs ← copy_attributes get_node_num _node_attributes graphs
                     (_node_attributes big_graph);
      let big_graph := with_node_attributes node_attrs big_graph in
      (* Step 4: Add edges *)
      all_edge_indices ← stack_edge_indices graphs;
      big_graph ← exec (add_edges (AList (src all_edge_indices)) (AList (tgt all_edge_indices)))
                    big_graph;
      (* Step 5: Add edge features *)
      edge_features ← collect_features edge_features_keys edge_features_getitem graphs;
      big_graph ← assign_features edge_features_setitem edge_features big_graph;
      (* Step 6: Add edge attributes *)
      edge_attrs ← copy_attributes get_edge_num _edge_attributes graphs
                     (_edge_attributes big_graph);
      let big_graph := with_edge_attributes edge_attrs big_graph in
      (* Step 7: Batch information preparation *)
      let big_graph := with_batch_size (Some (length graphs)) big_graph in
      let big_graph :=
        with_batch (Some (concat (imap (λ i g, replicate (get_node_num g) i) graphs)))
          big_graph in
      let big_graph := with_batch_num_nodes (Some (map get_node_num graphs)) big_graph in
      let big_graph := with_batch_num_edges (Some (map get_edge_num graphs)) big_graph in
      Ok big_graph
  end.

(** [l[i]] where [l] may be [None]: subscripting [None] is a [TypeError]. *)
Definition py_index_opt {A} (l : option (list A)) (i : nat) : result A :=
  match l with
  | None => Err TypeError
  | Some l => py_index l i
  end.

(** A method call on the [i]-th graph of a list. *)
Definition on_child (ret : list GraphData) (i : nat) (m : M unit) : result (list GraphData) :=
  g ← py_index ret i;
  g' ← exec m g;
  Ok (<[i:=g']> ret).

(** The body of the first loop of [from_batch]: the [i]-th graph, its nodes
    and its edges. *)
Definition from_batch_child (b : GraphData) (all_edges : list (Z * Z))
    (st : list GraphData * nat * nat) (i : nat) : result (list GraphData * nat * nat) :=
  let '(ret, cum_n_nodes, cum_n_edges) := st in
  let g := GraphData_init (device b) in
  n_i ← py_index_opt (_batch_num_nodes b) i;
  g ← exec (add_nodes (Z.of_nat n_i)) g;
  e_i ← py_index_opt (_batch_num_edges b) i;
  let edges := py_slice all_edges cum_n_edges (cum_n_edges + e_i) in
  let srcs := map (λ e, (e.1 - Z.of_nat cum_n_nodes)%Z) edges in
  let tgts := map (λ e, (e.2 - Z.of_nat cum_n_nodes)%Z) edges in
  g ← exec (add_edges (AList srcs) (AList tgts)) g;
  e_i ← py_index_opt (_batch_num_edges b) i;
  let cum_n_edges := cum_n_edges + e_i in
  n_i ← py_index_opt (_batch_num_nodes b) i;
  let cum_n_nodes := cum_n_nodes + n_i in
  Ok (ret ++ [g], cum_n_nodes, cum_n_edges).

Definition from_batch_construct (b : GraphData) (all_edges : list (Z * Z)) (batch_size : nat)
    : result (list GraphData) :=
  r ← foldM (from_batch_child b all_edges) (seq 0 batch_size) ([], 0, 0);
  Ok (r.1.1).

(** The body of the loop that hands the slices of the array [v] of the
    feature [k] to the graphs, through the view [setitem]. *)
Definition from_batch_slice (counts : option (list nat)) (setitem : string → Tensor → M unit)
    (k : string) (v : Tensor) (st : list GraphData * nat) (i : nat)
    : result (list GraphData * nat) :=
  let '(ret, cum) := st in
  c_i ← py_index_opt counts i;
  ret ← on_child ret i (setitem k (tensor_slice v cum (cum + c_i)));
  c_i ← py_index_opt counts i;
  Ok (ret, cum + c_i).

(** The body of the loop over the features of the batch: an absent feature
    is passed over. *)
Definition from_batch_feature (counts : option (list nat)) (setitem : string → Tensor → M unit)
    (batch_size : nat) (ret : list GraphData) (kv : string * option Tensor)
    : result (list GraphData) :=
  let '(k, v) := kv in
  match v with
  | None => Ok ret
  | Some v =>
      r ← foldM (from_batch_slice counts setitem k v) (seq 0 batch_size) (ret, 0);
      Ok (fst r)
  end.

Definition from_batch_features (table : FeatureTable) (counts : option (list nat))
    (setitem : string → Tensor → M unit) (batch_size : nat) (ret : list GraphData)
    : result (list GraphData) :=
  foldM (from_batch_feature counts setitem batch_size) table ret.

(** [ret[graph_cnt].node_attributes[j] = batch.node_attributes[cum + j]] *)
Definition copy_node_attribute (b : GraphData) (graph_cnt cum_n_nodes : nat)
    (ret : list GraphData) (num_graph_nodes : nat) : result (list GraphData) :=
  g ← py_index ret graph_cnt;
  a ← py_index (_node_attributes b) (cum_n_nodes + num_graph_nodes);
  attrs ← py_setitem (_node_attributes g) num_graph_nodes a;
  Ok (<[graph_cnt := with_node_attributes attrs g]> ret).

(** [ret[graph_cnt].edge_attributes[j] = batch.edge_attributes[cum + j]] *)
Definition copy_edge_attribute (b : GraphData) (graph_cnt cum_n_edges : nat)
    (ret : list GraphData) (num_graph_edges : nat) : result (list GraphData) :=
  g ← py_index ret graph_cnt;
  a ← py_index (_edge_attributes b) (cum_n_edges + num_graph_edges);
  attrs ← py_setitem (_edge_attributes g) num_graph_edges a;
  Ok (<[graph_cnt := with_edge_attributes attrs g]> ret).

(** The body of the last loop of [from_batch]: the attribute records of the
    graph [graph_cnt]. *)
Definition from_batch_child_attributes (b : GraphData)
    (st : list GraphData * nat * nat) (graph_cnt : nat)
    : result (list GraphData * nat * nat) :=
  let '(ret, cum_n_nodes, cum_n_edges) := st in
  n_c ← py_index_opt (_batch_num_nodes b) graph_cnt;
  ret ← foldM (copy_node_attribute b graph_cnt cum_n_nodes) (seq 0 n_c) ret;
  e_c ← py_index_opt (_batch_num_edges b) graph_cnt;
  ret ← foldM (copy_edge_attribute b graph_cnt cum_n_edges) (seq 0 e_c) ret;
  e_c ← py_index_opt (_batch_num_edges b) graph_cnt;
  n_c ← py_index_opt (_batch_num_nodes b) graph_cnt;
  Ok (ret, cum_n_nodes + n_c, cum_n_edges + e_c).

Definition from_batch_attributes (b : GraphData) (batch_size : nat) (ret : list GraphData)
    : result (list GraphData) :=
  r ← foldM (from_batch_child_attributes b) (seq 0 batch_size) (ret, 0, 0);
  Ok (r.1.1).

(** [from_batch(batch)], a computation on the batch object: [range] of an
    absent batch size is a [TypeError]. *)
Definition from_batch : M (list GraphData) :=
  b ← get_self;
  all_edges ← get_all_edges;
  match batch_size b with
  | None => raise TypeError
  | Some batch_size =>
      ret ← lift (from_batch_construct b all_edges batch_size);
      b ← get_self;
      ret ← lift (from_batch_features (_node_features b) (_batch_num_nodes b)
                    node_features_setitem batch_size ret);
      ret ← lift (from_batch_features (_edge_features b) (_batch_num_edges b)
                    edge_features_setitem batch_size ret);
      ret ← lift (from_batch_attributes b batch_size ret);
      mret ret
  end.

(** ** Cloning, device placement *)

Definition with_graph_attributes (x : list (string * PyVal)) (g : GraphData) : GraphData :=
  mkGraphData (_node_attributes g) (_node_features g) (_edge_indices g) (_nids_eid_mapping g)
    (_edge_features g) (_edge_attributes g) x (device g)
    (_is_batch g) (batch g) (batch_size g) (_batch_num_nodes g) (_batch_num_edges g).

(** [to(device)]: the device is recorded and every array that is present is
    assigned again after [v.to(device)], which keeps its values. *)
Definition to (dev : option string) : M unit :=
  modify (with_device dev) ;;
  g ← get_self;
  for_each (_node_features g) (λ '(k, v),
    match v with
    | Some t => modify (λ g, with_node_features (dict_set k (Some t) (_node_features g)) g)
    | None => mret ()
    end) ;;
  g ← get_self;
  for_each (_edge_features g) (λ '(k, v),
    match v with
    | Some t => modify (λ g, with_edge_features (dict_set k (Some t) (_edge_features g)) g)
    | None => mret ()
    end).

Definition copy_batch_info (b : GraphData) : M unit :=
  modify (with_is_batch true) ;;
  modify (with_batch (batch b)) ;;
  modify (with_device (device b)) ;;
  modify (with_batch_size (batch_size b)) ;;
  modify (with_batch_num_edges (_batch_num_edges b)) ;;
  modify (with_batch_num_nodes (_batch_num_nodes b)).

(** [from_graphdata(src)], a computation on the clone. The endpoint lists
    of the source are handed to [add_edges]; the attribute records are
    values here, so that [copy.deepcopy] is the identity. *)
Definition from_graphdata (source : GraphData) : M unit :=
  add_nodes (Z.of_nat (get_node_num source)) ;;
  add_edges (AList (src (_edge_indices source))) (AList (tgt (_edge_indices source))) ;;
  for_each (_node_features source) (λ '(k, v),
    modify (λ g, with_node_features (dict_set k v (_node_features g)) g)) ;;
  for_each (_edge_features source) (λ '(k, v),
    modify (λ g, with_edge_features (dict_set k v (_edge_features g)) g)) ;;
  modify (with_node_attributes (_node_attributes source)) ;;
  modify (with_edge_attributes (_edge_attributes source)) ;;
  modify (with_graph_attributes (graph_attributes source)) ;;
  (if _is_batch source then copy_batch_info source else mret ()) ;;
  to (device source).

(** [GraphData(src, device)]: the constructor; a source that is given is a
    [GraphData]. *)
Definition GraphData_new (source : option GraphData) (dev : option string)
    : result GraphData :=
  let self := GraphData_init dev in
  match source with
  | None => Ok self
  | Some source => exec (from_graphdata source) self
  end.

(** ** Adjacency matrices *)

(** [torch.stack(l, dim=0)] of a list of scalars: a 1-D tensor; the list
    must not be empty. *)
Definition torch_stack (l : list Z) : result Tensor :=
  match l with
  | [] => Err RuntimeError
  | _ :: _ => Ok (mkTensor [] (map (λ x, [x]) l))
  end.

(** [torch.tensor(data)] of a 1-D array. *)
Definition torch_tensor (data : list Z) : Tensor := mkTensor [] (map (λ x, [x]) data).

(** [adj.shape[1]] of a tensor of two dimensions or more. *)
Definition shape1 (adj : Tensor) : result nat := py_index (tshape adj) 0.

(** The body of the inner loop of [from_dense_adj]. *)
Definition from_dense_adj_cell (adj : Tensor) (i : nat) (edge_weight : list Z) (j : nat)
    : M (list Z) :=
  r ← lift (py_index (rows adj) i);
  x ← lift (py_index r j);
  if bool_decide (x ≠ 0%Z) then
    add_edge (Z.of_nat i) (Z.of_nat j) ;;
    mret (edge_weight ++ [x])
  else mret edge_weight.

Definition from_dense_adj (adj : Tensor) : M unit :=
  py_assert (bool_decide (S (length (tshape adj)) = 2)) ;;
  n1 ← lift (shape1 adj);
  py_assert (bool_decide (shape0 adj = n1)) ;;
  let node_num := shape0 adj in
  add_nodes (Z.of_nat node_num) ;;
  edge_weight ← for_fold (seq 0 (shape0 adj)) (λ edge_weight i,
                  for_fold (seq 0 n1) (from_dense_adj_cell adj i) edge_weight) [];
  edge_weight ← lift (torch_stack edge_weight);
  edge_features_setitem "edge_weight" edge_weight.

(** A [scipy.sparse.coo_matrix]: its shape and the three parallel arrays of
    its entries. *)
Module coo_matrix.
Record t := mk { shape : nat * nat; row : list Z; col : list Z; data : list Z }.
End coo_matrix.

Definition from_scipy_sparse_matrix (adj : coo_matrix.t) : M unit :=
  py_assert (bool_decide ((coo_matrix.shape adj).1 = (coo_matrix.shape adj).2)) ;;
  let num_nodes := (coo_matrix.shape adj).1 in
  add_nodes (Z.of_nat num_nodes) ;;
  for_each (seq 0 (length (coo_matrix.row adj))) (λ i,
    r ← lift (py_index (coo_matrix.row adj) i);
    c ← lift (py_index (coo_matrix.col adj) i);
    add_edge r c) ;;
  edge_features_setitem "edge_weight" (torch_tensor (coo_matrix.data adj)).

(** A [dgl.DGLGraph], as far as [from_dgl] reads it: its number of nodes,
    the items of its node data, the two endpoint lists of [edges()] and the
    items of its edge data. *)
Module DGLGraph.
Record t := mk {
  number_of_nodes : nat;
  ndata : list (string * Tensor);
  edges : list Z * list Z;
  edata : list (string * Tensor)
}.
End DGLGraph.


(** ** The batch views of the features *)

(** The exceptions of the batch views: the plain [Exception] that they
    raise themselves, or the exception of a call they make. *)
Inductive BatchExn :=
| Exception
| Propagated (e : Exn).

Inductive bresult (A : Type) : Type :=
| Done (a : A)
| Failed (e : BatchExn).
Arguments Done {A} a.
Arguments Failed {A} e.

#[global] Instance bresult_ret : MRet bresult := @Done.
#[global] Instance bresult_bind : MBind bresult :=
  λ A B f r, match r with Done a => f a | Failed e => Failed e end.

Definition propagate {A} (r : result A) : bresult A :=
  match r with
  | Ok a => Done a
  | Err e => Failed (Propagated e)
  end.

(** The rows of a tensor cut into consecutive blocks of the given sizes. *)
Fixpoint split_rows (rs : list (list Z)) (sections : list nat) : list (list (list Z)) :=
  match sections with
  | [] => []
  | n :: sections' => take n rs :: split_rows (drop n rs) sections'
  end.

(** [torch.split(t, split_size_or_sections=sections)] with a list of
    sizes, which must add up to the length of the tensor; sizes that are
    [None] are a [TypeError]. *)
Definition torch_split (t : Tensor) (sections : option (list nat)) : result (list Tensor) :=
  match sections with
  | None => Err TypeError
  | Some sections =>
      if decide (sum_list sections = shape0 t)
      then Ok (mkTensor (tshape t) <$> split_rows (rows t) sections)
      else Err RuntimeError
  end.

(** The body of the loop of [split_node_features] and
    [split_edge_features]; the reads go through the view [getitem]. *)
Definition split_feature (getitem : string → M (option Tensor)) (sections : option (list nat))
    (g : GraphData) (features : list (string * list Tensor)) (feature : string)
    : result (list (string * list Tensor)) :=
  '(v, _) ← call (getitem feature) g;
  match v with
  | None => Ok features
  | Some _ =>
      '(v, _) ← call (getitem feature) g;
      match v with
      | None => Err TypeError
      | Some t =>
          parts ← torch_split t sections;
          Ok (dict_set feature parts features)
      end
  end.

Definition split_node_features (g : GraphData) : bresult (list (string * list Tensor)) :=
  if negb (_is_batch g) then Failed Exception
  else propagate (foldM (split_feature node_features_getitem (_batch_num_nodes g) g)
                    (node_features_keys g) []).

Definition split_edge_features (g : GraphData) : bresult (list (string * list Tensor)) :=
  if negb (_is_batch g) then Failed Exception
  else propagate (foldM (split_feature edge_features_getitem (_batch_num_edges g) g)
                    (edge_features_keys g) []).

(** [pad_sequence(seqs, batch_first=True)]: the sequences, which agree on
    the trailing shape, are padded with zeros to the longest one and stacked
    along a new first dimension. *)
Definition pad_sequence (seqs : list Tensor) : result Tensor :=
  match seqs with
  | [] => Err RuntimeError
  | t0 :: ts =>
      if forallb (λ t, bool_decide (tshape t = tshape t0)) ts then
        let max_len := max_list (shape0 <$> seqs) in
        Ok (mkTensor (max_len :: tshape t0)
              (map (λ t, concat (rows t)
                           ++ replicate ((max_len - shape0 t) * numel (tshape t0)) 0%Z) seqs))
      else Err RuntimeError
  end.

(** What the batch views return: the dictionary of all features when no
    name is given, the array of the named feature otherwise. *)
Inductive BatchFeatures :=
| AllFeatures (d : list (string * Tensor))
| OneFeature (t : Tensor).

Definition get_batch_features (split : GraphData → bresult (list (string * list Tensor)))
    (keys : GraphData → list string) (getitem : string → M (option Tensor))
    (item : option string) (g : GraphData) : bresult BatchFeatures :=
  if negb (_is_batch g) then Failed Exception
  else
    match item with
    | None =>
        separate_features ← split g;
        d ← propagate (foldM (λ batch_features '(k, v),
                                t ← pad_sequence v; Ok (dict_set k t batch_features))
                         separate_features []);
        Done (AllFeatures d)
    | Some item =>
        if bool_decide (item ∉ keys g) then Failed Exception
        else
          '(v, _) ← propagate (call (getitem item) g);
          if is_None v then Failed Exception
          else
            separate_features ← split g;
            match dict_get separate_features item with
            | None => Failed (Propagated KeyError)
            | Some v => t ← propagate (pad_sequence v); Done (OneFeature t)
            end
    end.

Definition _get_batch_node_features : option string → GraphData → bresult BatchFeatures :=
  get_batch_features split_node_features node_features_keys node_features_getitem.

Definition _get_batch_edge_features : option string → GraphData → bresult BatchFeatures :=
  get_batch_features split_edge_features edge_features_keys edge_features_getitem.

(** [value[i, :n]]: the first [n] elements of the [i]-th block of a tensor
    of two dimensions or more. *)
Definition batch_block (value : Tensor) (i n : nat) : result Tensor :=
  match tshape value with
  | [] => Err IndexError
  | len :: trailing =>
      r ← py_index (rows value) i;
      Ok (mkTensor trailing (take n (chunks len (numel trailing) r)))
  end.

(** [[value[i, :counts[i]] for i in range(len(counts))]] *)
Definition individual_features (counts : option (list nat)) (value : Tensor)
    : result (list Tensor) :=
  match counts with
  | None => Err TypeError
  | Some counts =>
      mapM (λ i, n ← py_index counts i; batch_block value i n) (seq 0 (length counts))
  end.

Definition _set_batch_node_features (key : string) (value : Tensor) : M unit :=
  g ← get_self;
  individual_features ← lift (individual_features (_batch_num_nodes g) value);
  t ← lift (torch_cat individual_features);
  set_node_features slice_all [(key, t)].

Definition _set_batch_edge_features (key : string) (value : Tensor) : M unit :=
  g ← get_self;
  individual_features ← lift (individual_features (_batch_num_edges g) value);
  t ← lift (torch_cat individual_features);
  set_edge_feature slice_all [(key, t)].

(** * Properties *)

(** ** The monad laws used to run a method symbolically *)

Lemma after_warnings_nil {A} (o : outcome A) : after_warnings [] o = o.
Proof. by destruct o. Qed.

Lemma bind_Return {A B} (m : M A) (f : A → M B) g a g' w :
  m g = Return a g' w → (m ≫= f) g = after_warnings w (f a g').
Proof. intros H. unfold mbind, M_bind. by rewrite H. Qed.

Lemma bind_Raise {A B} (m : M A) (f : A → M B) g e g' w :
  m g = Raise e g' w → (m ≫= f) g = Raise e g' w.
Proof. intros H. unfold mbind, M_bind. by rewrite H. Qed.

Lemma bind_get_self {B} (f : GraphData → M B) g : (get_self ≫= f) g = f g g.
Proof. unfold mbind, M_bind, get_self. apply after_warnings_nil. Qed.

Lemma bind_modify {B} (h : GraphData → GraphData) (f : unit → M B) g :
  (modify h ≫= f) g = f () (h g).
Proof. unfold mbind, M_bind, modify. apply after_warnings_nil. Qed.

Lemma bind_mret {A B} (a : A) (f : A → M B) g : (mret a ≫= f) g = f a g.
Proof. unfold mbind, M_bind, mret, M_ret. apply after_warnings_nil. Qed.

Lemma bind_raise {A B} (e : Exn) (f : A → M B) g : (raise e ≫= f) g = Raise e g [].
Proof. reflexivity. Qed.

(** ** Record updates *)

Lemma with_node_features_id g : with_node_features (_node_features g) g = g.
Proof. by destruct g. Qed.
Lemma with_edge_features_id g : with_edge_features (_edge_features g) g = g.
Proof. by destruct g. Qed.

(** A field of the object with its assignment. *)
Record lens := mkLens {
  lens_get : GraphData → FeatureTable;
  lens_set : FeatureTable → GraphData → GraphData;
  lens_get_set : ∀ x g, lens_get (lens_set x g) = x;
  lens_set_set : ∀ x y g, lens_set y (lens_set x g) = lens_set y g;
  lens_set_get : ∀ g, lens_set (lens_get g) g = g
}.

Program Definition node_features_lens : lens :=
  mkLens _node_features with_node_features _ _ _.
Next Obligation. by intros x []. Qed.
Next Obligation. by intros x y []. Qed.
Next Obligation. by intros []. Qed.

Program Definition edge_features_lens : lens :=
  mkLens _edge_features with_edge_features _ _ _.
Next Obligation. by intros x []. Qed.
Next Obligation. by intros x y []. Qed.
Next Obligation. by intros []. Qed.

(** ** Dictionaries *)

Definition dict_ok {V} (d : list (string * V)) : Prop := NoDup (dict_keys d).

#[global] Instance dict_ok_dec {V} (d : list (string * V)) : Decision (dict_ok d).
Proof. unfold dict_ok. apply _. Defined.

Lemma dict_keys_app {V} (d1 d2 : list (string * V)) :
  dict_keys (d1 ++ d2) = dict_keys d1 ++ dict_keys d2.
Proof. apply map_app. Qed.

Lemma dict_get_app_notin {V} (pre d : list (string * V)) k :
  k ∉ dict_keys pre → dict_get (pre ++ d) k = dict_get d k.
Proof.
  induction pre as [|[k' v'] pre IH]; intros Hk; [done|].
  simpl in *. apply not_elem_of_cons in Hk as [Hne Hk].
  case_decide; [congruence|]. by apply IH.
Qed.

Lemma dict_set_app_notin {V} (pre d : list (string * V)) k v :
  k ∉ dict_keys pre → dict_set k v (pre ++ d) = pre ++ dict_set k v d.
Proof.
  induction pre as [|[k' v'] pre IH]; intros Hk; [done|].
  simpl in *. apply not_elem_of_cons in Hk as [Hne Hk].
  case_decide; [congruence|]. by rewrite IH.
Qed.

Lemma dict_get_None {V} (d : list (string * V)) k :
  dict_get d k = None ↔ k ∉ dict_keys d.
Proof.
  induction d as [|[k' v'] d IH]; simpl.
  - split; [intros _; apply not_elem_of_nil|done].
  - case_decide; subst.
    + split; [done|]. intros Hn. exfalso. apply Hn. left.
    + rewrite IH, not_elem_of_cons. split; [intros ?; split; [congruence|done]|by intros [_ ?]].
Qed.

Lemma dict_get_Some_elem {V} (d : list (string * V)) k v :
  dict_get d k = Some v → (k, v) ∈ d.
Proof.
  induction d as [|[k' v'] d IH]; simpl; [done|].
  case_decide; subst.
  - intros [= ->]. left.
  - intros Hg. right. by apply IH.
Qed.

Lemma dict_get_elem {V} (d : list (string * V)) k v :
  dict_ok d → (k, v) ∈ d → dict_get d k = Some v.
Proof.
  unfold dict_ok. induction d as [|[k' v'] d IH]; simpl; intros Hnd Hin.
  - by apply elem_of_nil in Hin.
  - apply NoDup_cons in Hnd as [Hk Hnd]. apply elem_of_cons in Hin as [[= -> ->]|Hin].
    + by case_decide.
    + case_decide; subst; [|by apply IH].
      exfalso. apply Hk. apply (list_elem_of_fmap_2 fst) in Hin. done.
Qed.

Lemma dict_get_set_eq {V} (d : list (string * V)) k v : dict_get (dict_set k v d) k = Some v.
Proof.
  induction d as [|[k' v'] d IH]; simpl.
  - by case_decide.
  - case_decide; simpl; case_decide; try done.
Qed.

Lemma dict_get_set_ne {V} (d : list (string * V)) k k' v :
  k ≠ k' → dict_get (dict_set k v d) k' = dict_get d k'.
Proof.
  intros Hne. induction d as [|[k0 v0] d IH]; simpl.
  - by case_decide.
  - repeat (case_decide; simpl); congruence.
Qed.

Lemma dict_keys_set_in {V} (d : list (string * V)) k v :
  k ∈ dict_keys d → dict_keys (dict_set k v d) = dict_keys d.
Proof.
  induction d as [|[k0 v0] d IH]; simpl; intros Hin.
  - by apply elem_of_nil in Hin.
  - case_decide; subst; simpl; [done|].
    apply elem_of_cons in Hin as [->|Hin]; [done|]. by rewrite IH.
Qed.

Lemma dict_keys_set_notin {V} (d : list (string * V)) k v :
  k ∉ dict_keys d → dict_keys (dict_set k v d) = dict_keys d ++ [k].
Proof.
  induction d as [|[k0 v0] d IH]; simpl; intros Hin; [done|].
  apply not_elem_of_cons in Hin as [Hne Hin].
  case_decide; [congruence|]. simpl. by rewrite IH.
Qed.

Lemma dict_ok_set {V} (d : list (string * V)) k v : dict_ok d → dict_ok (dict_set k v d).
Proof.
  unfold dict_ok. intros Hnd. destruct (decide (k ∈ dict_keys d)).
  - by rewrite dict_keys_set_in.
  - rewrite dict_keys_set_notin by done. apply NoDup_app. split_and!; [done| |apply NoDup_singleton].
    intros x Hx Hx'. apply list_elem_of_singleton in Hx'. by subst.
Qed.

(** ** Zero padding of a feature table *)

Definition pad_table (k : nat) (d : FeatureTable) : FeatureTable :=
  map (λ kv, (kv.1, entail_zero_padding kv.2 k)) d.

Lemma dict_keys_pad_table k d : dict_keys (pad_table k d) = dict_keys d.
Proof. unfold dict_keys, pad_table. rewrite map_map. by apply map_ext. Qed.

Lemma dict_get_pad_table k d key :
  dict_get (pad_table k d) key = (λ v, entail_zero_padding v k) <$> dict_get d key.
Proof.
  induction d as [|[k' v'] d IH]; simpl; [done|]. by case_decide.
Qed.

Section pad.
Variable L : lens.
Variable k : nat.

Lemma pad_loop suf : ∀ pre g,
  lens_get L g = pre ++ suf →
  dict_ok (pre ++ suf) →
  for_each (dict_keys suf) (λ key,
    g ← get_self;
    match dict_get (lens_get L g) key with
    | None => raise KeyError
    | Some v => modify (lens_set L (dict_set key (entail_zero_padding v k) (lens_get L g)))
    end) g = Return () (lens_set L (pre ++ pad_table k suf) g) [].
Proof.
  induction suf as [|[key v] suf IH]; intros pre g Hg Hok.
  - simpl. rewrite <-Hg, lens_set_get. done.
  - assert (key ∉ dict_keys pre) as Hnotin.
    { unfold dict_ok in Hok. rewrite dict_keys_app in Hok.
      apply NoDup_app in Hok as (_ & Hok & _). intros Hin. apply (Hok _ Hin). left. }
    cbn [for_each dict_keys map fst].
    erewrite bind_Return; last first.
    { rewrite bind_get_self, Hg, dict_get_app_notin by done. simpl.
      rewrite decide_True by done. reflexivity. }
    rewrite after_warnings_nil.
    rewrite dict_set_app_notin by done. simpl. rewrite decide_True by done.
    rewrite (IH (pre ++ [(key, entail_zero_padding v k)])).
    + rewrite lens_set_set, <-app_assoc. done.
    + rewrite lens_get_set, <-app_assoc. done.
    + rewrite <-app_assoc. simpl. unfold dict_ok in *.
      rewrite dict_keys_app in *. done.
Qed.

Lemma pad_features_ok g :
  dict_ok (lens_get L g) →
  pad_features (lens_get L) (lens_set L) k g
  = Return () (lens_set L (pad_table k (lens_get L g)) g) [].
Proof.
  intros Hok. unfold pad_features. rewrite bind_get_self.
  by rewrite (pad_loop (lens_get L g) [] g).
Qed.
End pad.

(** ** Growth of nodes and edges *)

Definition default_node_attrs (k : nat) : list AttrRecord :=
  replicate k (single_node_attr_factory res_init_node_attr).
Definition default_edge_attrs (k : nat) : list AttrRecord :=
  replicate k (single_edge_attr_factory res_init_edge_attributes).

(** The state that [add_nodes k] leaves. *)
Definition nodes_added (k : nat) (g : GraphData) : GraphData :=
  with_node_features (pad_table k (_node_features g))
    (with_node_attributes (_node_attributes g ++ default_node_attrs k) g).

Lemma add_nodes_ok k g :
  (0 < k)%Z → dict_ok (_node_features g) →
  add_nodes k g = Return () (nodes_added (Z.to_nat k) g) [].
Proof.
  intros Hk Hok. unfold add_nodes.
  erewrite bind_Return; last first.
  { unfold py_assert. apply Z.ltb_lt in Hk. rewrite Hk. reflexivity. }
  rewrite after_warnings_nil, bind_modify.
  rewrite (pad_features_ok node_features_lens); [|by destruct g].
  by destruct g.
Qed.

Lemma add_nodes_not_positive k g :
  (k ≤ 0)%Z → add_nodes k g = Raise AssertionError g [].
Proof.
  intros Hk. unfold add_nodes, py_assert.
  apply Z.ltb_ge in Hk. rewrite Hk. reflexivity.
Qed.

(** The endpoint test can never succeed: its second conjunct asks for a
    target that is negative and at least the node count. *)
Lemma endpoint_not_in_graph_false n s t : endpoint_not_in_graph n s t = false.
Proof.
  unfold endpoint_not_in_graph. apply andb_false_iff. right.
  apply andb_false_iff. destruct (Z.ltb_spec t 0); [right|by left].
  apply Z.leb_gt. lia.
Qed.

(** The state that [add_edge s t] leaves when the pair is new. *)
Definition edge_added (s t : Z) (g : GraphData) : GraphData :=
  with_edge_features (pad_table 1 (_edge_features g))
    (with_edge_attributes (_edge_attributes g ++ default_edge_attrs 1)
       (with_edge_indices
          (mkEdgeIndex (src (_edge_indices g) ++ [s]) (tgt (_edge_indices g) ++ [t]))
          (with_nids_eid_mapping (<[(s, t) := get_edge_num g]> (_nids_eid_mapping g)) g))).

Lemma add_edge_new s t g :
  _nids_eid_mapping g !! (s, t) = None → dict_ok (_edge_features g) →
  add_edge s t g = Return () (edge_added s t g) [].
Proof.
  intros Hnew Hok. unfold add_edge.
  rewrite bind_get_self, endpoint_not_in_graph_false, Hnew.
  rewrite !bind_modify.
  rewrite (pad_features_ok edge_features_lens); [|by destruct g].
  by destruct g as [? ? [] ? ? ? ? ? ? ? ? ? ?].
Qed.

Lemma add_edge_duplicate s t g e :
  _nids_eid_mapping g !! (s, t) = Some e →
  add_edge s t g = Return () g [DuplicateEdge (s, t)].
Proof.
  intros Hdup. unfold add_edge.
  by rewrite bind_get_self, endpoint_not_in_graph_false, Hdup.
Qed.

Lemma edge_ids_single s t g :
  edge_ids (AnInt s) (AnInt t) g =
    match _nids_eid_mapping g !! (s, t) with
    | Some e => Return [e] g []
    | None => Raise EdgeNotFoundException g []
    end.
Proof.
  unfold edge_ids. simpl. destruct (_nids_eid_mapping g !! (s, t)) eqn:E.
  - unfold mbind, M_bind. simpl. rewrite E. reflexivity.
  - unfold mbind, M_bind. simpl. rewrite E. reflexivity.
Qed.

(** ** The edge index map against the endpoint lists *)

(** The map holds one entry per stored edge, and [(s,t)] is mapped to [e]
    exactly when the [e]-th stored edge runs from [s] to [t]. *)
Definition index_consistent (g : GraphData) : Prop :=
  size (_nids_eid_mapping g) = get_edge_num g ∧
  ∀ s t e, _nids_eid_mapping g !! (s, t) = Some e ↔
           src (_edge_indices g) !! e = Some s ∧ tgt (_edge_indices g) !! e = Some t.

(** A graph with three nodes and no edge. *)
Definition three_nodes : GraphData := nodes_added 3 (GraphData_init None).

Lemma three_nodes_built : add_nodes 3 (GraphData_init None) = Return () three_nodes [].
Proof. reflexivity. Qed.

Lemma add_edge_index_consistent s t g g' w :
  index_consistent g →
  length (src (_edge_indices g)) = length (tgt (_edge_indices g)) →
  dict_ok (_edge_features g) →
  add_edge s t g = Return () g' w →
  index_consistent g'.
Proof.
  intros [Hsize Hiff] Hlen Hok Hrun.
  destruct (_nids_eid_mapping g !! (s, t)) as [e0|] eqn:Hlook.
  - rewrite (add_edge_duplicate _ _ _ _ Hlook) in Hrun. injection Hrun as <- _. by split.
  - rewrite (add_edge_new _ _ _ Hlook Hok) in Hrun. injection Hrun as <- _.
    destruct g as [na nf [ss ts] m ef ea ga dv ib b bs bn be].
    unfold index_consistent, edge_added, get_edge_num in *. simpl in *.
    split.
    + rewrite map_size_insert_None by done. rewrite length_app. simpl. lia.
    + intros s' t' e. rewrite lookup_insert. case_decide as Hst.
      * injection Hst as <- <-. split.
        -- intros [= <-]. split.
           ++ rewrite lookup_app_r by lia. by rewrite Nat.sub_diag.
           ++ rewrite lookup_app_r by lia. by rewrite Hlen, Nat.sub_diag.
        -- intros [Hs Ht]. f_equal.
           destruct (decide (e < length ss)) as [Hlt|Hge].
           ++ rewrite lookup_app_l in Hs by done. rewrite lookup_app_l in Ht by lia.
              assert (m !! (s, t) = Some e) as Habs by (apply Hiff; done). congruence.
           ++ apply lookup_lt_Some in Hs. rewrite length_app in Hs. simpl in Hs. lia.
      * rewrite Hiff. split.
        -- intros [Hs Ht]. split; by apply lookup_app_l_Some.
        -- intros [Hs Ht].
           destruct (decide (e < length ss)) as [Hlt|Hge].
           ++ rewrite lookup_app_l in Hs by done. by rewrite lookup_app_l in Ht by lia.
           ++ assert (e = length ss) as ->.
              { apply lookup_lt_Some in Hs. rewrite length_app in Hs. simpl in Hs. lia. }
              rewrite lookup_app_r in Hs by lia. rewrite lookup_app_r in Ht by lia.
              rewrite Nat.sub_diag in Hs. rewrite Hlen, Nat.sub_diag in Ht.
              simpl in *. congruence.
Qed.

(** C1 (the code departs from the claim). On a graph with three nodes and
    no edge, whose index map is consistent, [add_edges([0,0,1], [1,1,2])]
    skips the duplicate pair [(0,1)] with a warning and stores the edges
    [(0,1)] and [(1,2)], but registers [(1,2)] under the id 2, its position
    in the argument lists, while it is the edge 1: the index map and the
    endpoint lists are no longer consistent. *)
Theorem C1_add_edges_breaks_index_consistency :
  index_consistent three_nodes ∧
  ∃ g', add_edges (AList [0; 0; 1]%Z) (AList [1; 1; 2]%Z) three_nodes
          = Return () g' [DuplicateEdge (0, 1)%Z] ∧
        _edge_indices g' = mkEdgeIndex [0; 1]%Z [1; 2]%Z ∧
        _nids_eid_mapping g' !! (1, 2)%Z = Some 2 ∧
        ¬ index_consistent g'.
Proof.
  split.
  - split; [done|]. intros s t e. simpl. rewrite lookup_empty, lookup_nil. split; [done|by intros [? _]].
  - eexists. split; [vm_compute; reflexivity|].
    split; [reflexivity|]. split; [reflexivity|].
    intros [_ Hiff]. specialize (Hiff 1%Z 2%Z 2) as [Hiff _].
    destruct Hiff as [Hs _]; [reflexivity|]. vm_compute in Hs. discriminate.
Qed.

(** C2 (the code departs from the claim). The endpoint test of [add_edge]
    and [add_edges] never rejects a pair: on the graph without nodes,
    [add_edge(5, 7)] and [add_edges([5], [7])] return normally and store the
    edge [(5,7)]. *)
Theorem C2_out_of_range_endpoints_are_accepted :
  (∃ g', add_edge 5 7 (GraphData_init None) = Return () g' [] ∧
         get_node_num g' = 0 ∧ get_edge_num g' = 1 ∧
         _edge_indices g' = mkEdgeIndex [5%Z] [7%Z]) ∧
  (∃ g', add_edges (AList [5%Z]) (AList [7%Z]) (GraphData_init None) = Return () g' [] ∧
         get_node_num g' = 0 ∧ get_edge_num g' = 1 ∧
         _edge_indices g' = mkEdgeIndex [5%Z] [7%Z]).
Proof.
  split; (eexists; split; [vm_compute; reflexivity|by repeat split]).
Qed.

(** C7. For every graph and every in-range endpoint pair [(s,t)], the call
    [add_edge(s,t)] returns, and a second call [add_edge(s,t)] returns without
    error, issues only the duplicate-edge warning, and is a no-op: it leaves
    the graph exactly as the first call left it, and with it the edge count
    and the edge id of [(s,t)]. *)
Theorem C7_add_edge_twice_is_idempotent (g : GraphData) (s t : Z) :
  dict_ok (_edge_features g) →
  (0 ≤ s < Z.of_nat (get_node_num g))%Z →
  (0 ≤ t < Z.of_nat (get_node_num g))%Z →
  ∃ g1 w1 g2 e,
    add_edge s t g = Return () g1 w1 ∧
    add_edge s t g1 = Return () g2 [DuplicateEdge (s, t)] ∧
    g2 = g1 ∧
    get_edge_num g2 = get_edge_num g1 ∧
    edge_ids (AnInt s) (AnInt t) g1 = Return [e] g1 [] ∧
    edge_ids (AnInt s) (AnInt t) g2 = Return [e] g2 [].
Proof.
  intros Hok _ _.
  assert (∃ g1 w1 e, add_edge s t g = Return () g1 w1 ∧
                     _nids_eid_mapping g1 !! (s, t) = Some e) as (g1 & w1 & e & Hrun & He).
  { destruct (_nids_eid_mapping g !! (s, t)) as [e|] eqn:Hlook.
    - exists g, [DuplicateEdge (s, t)], e. split; [by eapply add_edge_duplicate|done].
    - exists (edge_added s t g), [], (get_edge_num g).
      split; [by apply add_edge_new|].
      destruct g. simpl. apply lookup_insert_eq. }
  exists g1, w1, g1, e.
  assert (edge_ids (AnInt s) (AnInt t) g1 = Return [e] g1 []) as Hid.
  { by rewrite edge_ids_single, He. }
  split_and!; try done. by eapply add_edge_duplicate.
Qed.

Lemma C7_add_edge_twice_is_idempotent_witness :
  ∃ g1 w1 g2 e,
    add_edge 0 1 three_nodes = Return () g1 w1 ∧
    add_edge 0 1 g1 = Return () g2 [DuplicateEdge (0, 1)%Z] ∧
    g2 = g1 ∧
    get_edge_num g2 = get_edge_num g1 ∧
    edge_ids (AnInt 0) (AnInt 1) g1 = Return [e] g1 [] ∧
    edge_ids (AnInt 0) (AnInt 1) g2 = Return [e] g2 [].
Proof.
  apply (C7_add_edge_twice_is_idempotent three_nodes 0 1).
  - apply (bool_decide_unpack _). vm_compute. exact I.
  - vm_compute. split; congruence.
  - vm_compute. split; congruence.
Defined.

(** ** The bulk edge operation *)

Lemma bind_lift_Ok {A B} (r : result A) (f : A → M B) a g :
  r = Ok a → (lift r ≫= f) g = f a g.
Proof. intros ->. simpl. apply bind_mret. Qed.

Lemma bind_lift_Err {A B} (r : result A) (f : A → M B) e g :
  r = Err e → (lift r ≫= f) g = Raise e g [].
Proof. by intros ->. Qed.

Lemma check_and_expand_length x y a b :
  check_and_expand x y = Ok (a, b) → length a = length b.
Proof.
  unfold check_and_expand. case_decide as Hlen.
  - by intros [= <- <-].
  - destruct x as [|x0 [|x1 x]], y as [|y0 [|y1 y]]; intros Heq;
      try discriminate Heq; injection Heq as <- <-;
      simpl; rewrite ?length_replicate; done.
Qed.

Lemma check_and_expand_same_length x y :
  length x = length y → check_and_expand x y = Ok (x, y).
Proof. intros Hlen. unfold check_and_expand. by rewrite decide_True. Qed.

Lemma endpoint_check_loop n (l : list (Z * Z)) g :
  for_each l (λ '(src_idx, tgt_idx),
    if endpoint_not_in_graph n src_idx tgt_idx then raise ValueError else mret ()) g
  = Return () g [].
Proof.
  induction l as [|[a b] l IH]; [done|].
  cbn [for_each]. erewrite bind_Return; last first.
  { rewrite endpoint_not_in_graph_false. reflexivity. }
  by rewrite after_warnings_nil.
Qed.

(** The registering loop as a function of the pairs: the new index map, the
    positions of the duplicates and the warnings. *)
Fixpoint register_pure (pairs : list (Z * Z)) (current_num_edges i : nat)
    (m : gmap (Z * Z) nat) : gmap (Z * Z) nat * list nat * list Warning :=
  match pairs with
  | [] => (m, [], [])
  | p :: ps =>
      match m !! p with
      | Some _ =>
          let '(m', d, w) := register_pure ps current_num_edges (S i) m in
          (m', i :: d, DuplicateEdge p :: w)
      | None => register_pure ps current_num_edges (S i) (<[p := current_num_edges + i]> m)
      end
  end.

Lemma with_nids_eid_mapping_twice m m' g :
  with_nids_eid_mapping m' (with_nids_eid_mapping m g) = with_nids_eid_mapping m' g.
Proof. by destruct g. Qed.

Lemma with_nids_eid_mapping_id g : with_nids_eid_mapping (_nids_eid_mapping g) g = g.
Proof. by destruct g. Qed.

Lemma register_loop srcs tgts cur : ∀ n i dups0 g,
  length srcs = length tgts →
  i + n = length srcs →
  for_fold (seq i n) (λ duplicate_edge_indices i,
    s ← lift (py_index srcs i);
    t ← lift (py_index tgts i);
    let endpoint_tuple := (s, t) in
    g ← get_self;
    match _nids_eid_mapping g !! endpoint_tuple with
    | Some _ =>
        warn (DuplicateEdge endpoint_tuple) ;;
        mret (duplicate_edge_indices ++ [i])
    | None =>
        modify (with_nids_eid_mapping
                  (<[endpoint_tuple := cur + i]> (_nids_eid_mapping g))) ;;
        mret duplicate_edge_indices
    end) dups0 g
  = let '(m', d, w) := register_pure (drop i (zip srcs tgts)) cur i (_nids_eid_mapping g) in
    Return (dups0 ++ d) (with_nids_eid_mapping m' g) w.
Proof.
  induction n as [|n IH]; intros i dups0 g Hlen Hi.
  - rewrite drop_ge by (rewrite length_zip_with; lia). simpl.
    by rewrite app_nil_r, with_nids_eid_mapping_id.
  - destruct (lookup_lt_is_Some_2 srcs i) as [s Hs]; [lia|].
    destruct (lookup_lt_is_Some_2 tgts i) as [t Ht]; [lia|].
    assert (zip srcs tgts !! i = Some (s, t)) as Hz.
    { apply lookup_zip_with_Some. eauto. }
    rewrite (drop_S _ _ _ Hz). cbn [seq for_fold register_pure].
    destruct (_nids_eid_mapping g !! (s, t)) as [e|] eqn:Hlook.
    + erewrite bind_Return; last first.
      { erewrite bind_lift_Ok; [|by unfold py_index; rewrite Hs].
        erewrite bind_lift_Ok; [|by unfold py_index; rewrite Ht].
        rewrite bind_get_self, Hlook. reflexivity. }
      rewrite (IH (S i)) by lia.
      destruct (register_pure _ _ _ _) as [[m' d] w]. simpl.
      by rewrite <-app_assoc.
    + erewrite bind_Return; last first.
      { erewrite bind_lift_Ok; [|by unfold py_index; rewrite Hs].
        erewrite bind_lift_Ok; [|by unfold py_index; rewrite Ht].
        rewrite bind_get_self, Hlook. reflexivity. }
      rewrite (IH (S i)) by lia.
      replace (_nids_eid_mapping (with_nids_eid_mapping _ g))
        with (<[(s, t) := cur + i]> (_nids_eid_mapping g)) by (by destruct g).
      destruct (register_pure _ _ _ _) as [[m' d] w]. simpl.
      by rewrite with_nids_eid_mapping_twice.
Qed.

Lemma add_edges_register_eq srcs tgts cur g :
  length srcs = length tgts →
  add_edges_register srcs tgts cur g
  = let '(m', d, w) := register_pure (zip srcs tgts) cur 0 (_nids_eid_mapping g) in
    Return d (with_nids_eid_mapping m' g) w.
Proof.
  intros Hlen.
  exact (register_loop srcs tgts cur (length srcs) 0 [] g Hlen eq_refl).
Qed.

(** The state that [add_edges] leaves when it stores the endpoint lists
    [srcs] and [tgts] under the index map [m]. *)
Definition edges_added (srcs tgts : list Z) (m : gmap (Z * Z) nat) (g : GraphData) : GraphData :=
  with_edge_features (pad_table (length srcs) (_edge_features g))
    (with_edge_attributes (_edge_attributes g ++ default_edge_attrs (length srcs))
       (with_edge_indices
          (mkEdgeIndex (src (_edge_indices g) ++ srcs) (tgt (_edge_indices g) ++ tgts))
          (with_nids_eid_mapping m g))).

Lemma add_edges_lists srcs tgts g :
  length srcs = length tgts →
  dict_ok (_edge_features g) →
  add_edges (AList srcs) (AList tgts) g
  = let '(m', d, w) :=
      register_pure (zip srcs tgts) (length (_edge_attributes g)) 0 (_nids_eid_mapping g) in
    match pop_all (reverse d) srcs tgts with
    | Ok (srcs', tgts') => Return () (edges_added srcs' tgts' m' g) w
    | Err e => Raise e (with_nids_eid_mapping m' g) w
    end.
Proof.
  intros Hlen Hok. unfold add_edges. cbn [int_to_list].
  erewrite bind_lift_Ok; [|by apply check_and_expand_same_length].
  cbv beta iota.
  erewrite bind_Return; last first.
  { unfold py_assert. rewrite bool_decide_eq_true_2 by done. reflexivity. }
  rewrite after_warnings_nil, bind_get_self.
  erewrite bind_Return; [|apply endpoint_check_loop].
  rewrite after_warnings_nil.
  unfold mbind at 1. unfold M_bind. rewrite add_edges_register_eq by done.
  destruct (register_pure _ _ _ _) as [[m' d] w].
  destruct (pop_all (reverse d) srcs tgts) as [[srcs' tgts']|e] eqn:Hpop.
  - erewrite bind_lift_Ok by done. cbv beta iota.
    rewrite !bind_modify.
    rewrite (pad_features_ok edge_features_lens); [|by destruct g].
    simpl. rewrite app_nil_r. by destruct g as [? ? [] ? ? ? ? ? ? ? ? ? ?].
  - erewrite bind_lift_Err by done. simpl. by rewrite app_nil_r.
Qed.

(** Pairs that are new and pairwise distinct are all registered. *)
Lemma register_pure_fresh pairs cur : ∀ i m,
  NoDup pairs → (∀ p, p ∈ pairs → m !! p = None) →
  ∃ m', register_pure pairs cur i m = (m', [], []).
Proof.
  induction pairs as [|p ps IH]; intros i m Hnd Hnew; [by eexists|].
  apply NoDup_cons in Hnd as [Hp Hnd]. simpl.
  rewrite Hnew by left. apply IH; [done|].
  intros q Hq. rewrite lookup_insert_ne; [apply Hnew; by right|].
  intros ->. done.
Qed.

Lemma add_edges_fresh srcs tgts g :
  length srcs = length tgts →
  dict_ok (_edge_features g) →
  NoDup (zip srcs tgts) →
  (∀ p, p ∈ zip srcs tgts → _nids_eid_mapping g !! p = None) →
  ∃ m', add_edges (AList srcs) (AList tgts) g = Return () (edges_added srcs tgts m' g) [].
Proof.
  intros Hlen Hok Hnd Hnew. rewrite add_edges_lists by done.
  destruct (register_pure_fresh (zip srcs tgts) (length (_edge_attributes g)) 0
              (_nids_eid_mapping g) Hnd Hnew) as [m' ->].
  by exists m'.
Qed.

(** ** Feature writes *)

Lemma py_range_unit n : py_range 0 (Z.of_nat n) 1 = map Z.of_nat (seq 0 n).
Proof.
  unfold py_range. simpl.
  replace (Z.to_nat _) with n.
  - apply map_ext. intros i. lia.
  - destruct (Z.ltb_spec 0 (Z.of_nat n)).
    + rewrite Z.div_1_r. lia.
    + lia.
Qed.

Lemma slice_to_list_all n : slice_to_list None None None n = Ok (map Z.of_nat (seq 0 n)).
Proof. unfold slice_to_list. simpl. by rewrite py_range_unit. Qed.

Lemma covers_all_slice_all n : covers_all slice_all n = Ok true.
Proof.
  unfold covers_all, slice_all. rewrite slice_to_list_all. simpl.
  by rewrite length_map, length_seq, bool_decide_eq_true_2.
Qed.

(** The selector is not a slice, or it is a slice that denotes fewer or more
    ids than there are elements. *)
Definition not_full_range (sel : Selector) (n : nat) : Prop :=
  is_slice sel = false ∨
  ∃ start stop step l,
    sel = SelSlice start stop step ∧ slice_to_list start stop step n = Ok l ∧ length l ≠ n.

Lemma set_node_features_new_rejected sel key value g :
  is_new_feature (_node_features g) key = true →
  not_full_range sel (get_node_num g) →
  set_node_features sel [(key, value)] g = Raise ValueError g [].
Proof.
  intros Hnew Hsel. unfold set_node_features. cbn [dict_keys map fst for_each].
  apply bind_Raise. apply bind_Raise.
  rewrite bind_get_self, Hnew.
  destruct Hsel as [Hns|(a & b & c & l & -> & Hl & Hlen)].
  - by rewrite Hns.
  - simpl. rewrite Hl. simpl. rewrite bind_mret.
    by rewrite bool_decide_eq_false_2.
Qed.

Lemma set_edge_feature_new_rejected sel key value g :
  is_new_feature (_edge_features g) key = true →
  not_full_range sel (get_edge_num g) →
  set_edge_feature sel [(key, value)] g = Raise SizeMismatchException g [].
Proof.
  intros Hnew Hsel. unfold set_edge_feature. cbn [dict_keys map fst for_each].
  apply bind_Raise. apply bind_Raise.
  rewrite bind_get_self, Hnew.
  destruct Hsel as [Hns|(a & b & c & l & -> & Hl & Hlen)].
  - by rewrite Hns.
  - simpl. rewrite Hl. simpl. rewrite bind_mret.
    by rewrite bool_decide_eq_false_2.
Qed.

Lemma covers_all_is_slice sel n : covers_all sel n = Ok true → is_slice sel = true.
Proof. by destruct sel. Qed.

Lemma is_new_feature_false table key :
  is_new_feature table key = false ↔ ∃ t, dict_get table key = Some (Some t).
Proof.
  unfold is_new_feature. destruct (dict_get table key) as [[t|]|]; split;
    try done; try (intros [? [=]]). by exists t.
Qed.

Lemma set_node_features_new_full sel key value g :
  is_new_feature (_node_features g) key = true →
  covers_all sel (get_node_num g) = Ok true →
  shape0 value = get_node_num g →
  set_node_features sel [(key, value)] g
  = Return () (with_node_features (dict_set key (Some value) (_node_features g)) g) [].
Proof.
  intros Hnew Hfull Hlen. unfold set_node_features. cbn [dict_keys map fst for_each].
  erewrite bind_Return; last first.
  { erewrite bind_Return; [|rewrite bind_get_self, Hnew,
      (covers_all_is_slice _ _ Hfull); simpl; erewrite bind_lift_Ok by done; reflexivity].
    reflexivity. }
  rewrite after_warnings_nil. erewrite bind_Return; last first.
  { rewrite bind_get_self. erewrite bind_Return; last first.
    { unfold py_assert. rewrite bool_decide_eq_true_2 by done. reflexivity. }
    rewrite after_warnings_nil. unfold is_new_feature in Hnew.
    destruct (dict_get (_node_features g) key) as [[t|]|]; [done|reflexivity..]. }
  reflexivity.
Qed.

Lemma set_edge_feature_new_full sel key value g :
  is_new_feature (_edge_features g) key = true →
  covers_all sel (get_edge_num g) = Ok true →
  shape0 value = get_edge_num g →
  set_edge_feature sel [(key, value)] g
  = Return () (with_edge_features (dict_set key (Some value) (_edge_features g)) g) [].
Proof.
  intros Hnew Hfull Hlen. unfold set_edge_feature. cbn [dict_keys map fst for_each].
  erewrite bind_Return; last first.
  { erewrite bind_Return; [|rewrite bind_get_self, Hnew,
      (covers_all_is_slice _ _ Hfull); simpl; erewrite bind_lift_Ok by done; reflexivity].
    reflexivity. }
  rewrite after_warnings_nil. erewrite bind_Return; last first.
  { rewrite bind_get_self. erewrite bind_Return; last first.
    { unfold py_assert. rewrite bool_decide_eq_true_2 by done. reflexivity. }
    rewrite after_warnings_nil. unfold is_new_feature in Hnew.
    destruct (dict_get (_edge_features g) key) as [[t|]|]; [done|reflexivity..]. }
  reflexivity.
Qed.

Lemma set_node_features_wrong_length sel key value g :
  is_new_feature (_node_features g) key = false →
  shape0 value ≠ get_node_num g →
  set_node_features sel [(key, value)] g = Raise AssertionError g [].
Proof.
  intros Hold Hlen. unfold set_node_features. cbn [dict_keys map fst for_each].
  erewrite bind_Return; last first.
  { erewrite bind_Return; [|rewrite bind_get_self, Hold; reflexivity]. reflexivity. }
  rewrite after_warnings_nil. apply bind_Raise. rewrite bind_get_self. apply bind_Raise.
  unfold py_assert. by rewrite bool_decide_eq_false_2.
Qed.

Lemma set_edge_feature_wrong_length sel key value g :
  is_new_feature (_edge_features g) key = false →
  shape0 value ≠ get_edge_num g →
  set_edge_feature sel [(key, value)] g = Raise AssertionError g [].
Proof.
  intros Hold Hlen. unfold set_edge_feature. cbn [dict_keys map fst for_each].
  erewrite bind_Return; last first.
  { erewrite bind_Return; [|rewrite bind_get_self, Hold; reflexivity]. reflexivity. }
  rewrite after_warnings_nil. apply bind_Raise. rewrite bind_get_self. apply bind_Raise.
  unfold py_assert. by rewrite bool_decide_eq_false_2.
Qed.

Lemma set_node_features_replace key value g :
  is_new_feature (_node_features g) key = false →
  shape0 value = get_node_num g →
  set_node_features slice_all [(key, value)] g
  = Return () (with_node_features (dict_set key (Some value) (_node_features g)) g) [].
Proof.
  intros Hold Hlen. unfold set_node_features. cbn [dict_keys map fst for_each].
  erewrite bind_Return; last first.
  { erewrite bind_Return; [|rewrite bind_get_self, Hold; reflexivity]. reflexivity. }
  rewrite after_warnings_nil. erewrite bind_Return; last first.
  { rewrite bind_get_self. erewrite bind_Return; last first.
    { unfold py_assert. rewrite bool_decide_eq_true_2 by done. reflexivity. }
    rewrite after_warnings_nil. apply is_new_feature_false in Hold as [t ->]. reflexivity. }
  reflexivity.
Qed.

Lemma set_edge_feature_replace key value g :
  is_new_feature (_edge_features g) key = false →
  shape0 value = get_edge_num g →
  set_edge_feature slice_all [(key, value)] g
  = Return () (with_edge_features (dict_set key (Some value) (_edge_features g)) g) [].
Proof.
  intros Hold Hlen. unfold set_edge_feature. cbn [dict_keys map fst for_each].
  erewrite bind_Return; last first.
  { erewrite bind_Return; [|rewrite bind_get_self, Hold; reflexivity]. reflexivity. }
  rewrite after_warnings_nil. erewrite bind_Return; last first.
  { rewrite bind_get_self. erewrite bind_Return; last first.
    { unfold py_assert. rewrite bool_decide_eq_true_2 by done. reflexivity. }
    rewrite after_warnings_nil. apply is_new_feature_false in Hold as [t ->]. reflexivity. }
  reflexivity.
Qed.

(** Writing through the full-range view. *)
Lemma node_features_setitem_ok key value g :
  shape0 value = get_node_num g →
  node_features_setitem key value g
  = Return () (with_node_features (dict_set key (Some value) (_node_features g)) g) [].
Proof.
  intros Hlen. unfold node_features_setitem.
  destruct (is_new_feature (_node_features g) key) eqn:Hnew.
  - apply set_node_features_new_full; [done|apply covers_all_slice_all|done].
  - by apply set_node_features_replace.
Qed.

Lemma node_features_setitem_wrong_length key value g :
  shape0 value ≠ get_node_num g →
  node_features_setitem key value g = Raise AssertionError g [].
Proof.
  intros Hlen. unfold node_features_setitem.
  destruct (is_new_feature (_node_features g) key) eqn:Hnew.
  - unfold set_node_features. cbn [dict_keys map fst for_each].
    erewrite bind_Return; last first.
    { erewrite bind_Return; [|rewrite bind_get_self, Hnew;
        change (negb (is_slice slice_all)) with false; cbv iota;
        erewrite bind_lift_Ok by apply covers_all_slice_all; reflexivity]. reflexivity. }
    rewrite after_warnings_nil. apply bind_Raise. rewrite bind_get_self. apply bind_Raise.
    unfold py_assert. by rewrite bool_decide_eq_false_2.
  - by apply set_node_features_wrong_length.
Qed.

Lemma edge_features_setitem_ok key value g :
  shape0 value = get_edge_num g →
  edge_features_setitem key value g
  = Return () (with_edge_features (dict_set key (Some value) (_edge_features g)) g) [].
Proof.
  intros Hlen. unfold edge_features_setitem.
  destruct (is_new_feature (_edge_features g) key) eqn:Hnew.
  - apply set_edge_feature_new_full; [done|apply covers_all_slice_all|done].
  - by apply set_edge_feature_replace.
Qed.

(** ** The two feature tables and their owners *)

(** The elements that own a feature table. *)
Inductive Owner := Nodes | Edges.

Definition owner_table (o : Owner) (g : GraphData) : FeatureTable :=
  match o with Nodes => _node_features g | Edges => _edge_features g end.

Definition with_owner_table (o : Owner) (x : FeatureTable) (g : GraphData) : GraphData :=
  match o with Nodes => with_node_features x g | Edges => with_edge_features x g end.

Definition owner_count (o : Owner) (g : GraphData) : nat :=
  match o with Nodes => get_node_num g | Edges => get_edge_num g end.

(** [set_node_features], respectively [set_edge_feature]. *)
Definition write_features (o : Owner) (sel : Selector) (new_data : list (string * Tensor))
    : M unit :=
  match o with
  | Nodes => set_node_features sel new_data
  | Edges => set_edge_feature sel new_data
  end.

(** The exception raised for a new feature that does not cover all
    elements. *)
Definition new_feature_error (o : Owner) : Exn :=
  match o with Nodes => ValueError | Edges => SizeMismatchException end.

(** Three nodes whose feature [node_feat] is set. *)
Definition three_nodes_feat : GraphData :=
  with_node_features
    (dict_set "node_feat" (Some (mkTensor [1] [[1]; [2]; [3]]%Z)) (_node_features three_nodes))
    three_nodes.

(** Three nodes and the edges [(0,1)] and [(1,2)]. *)
Definition two_edges : GraphData := edge_added 1 2 (edge_added 0 1 three_nodes).

Lemma two_edges_built :
  (add_edge 0 1 ;; add_edge 1 2) three_nodes = Return () two_edges [].
Proof. vm_compute. reflexivity. Qed.


(** C8, refuted as stated. On a graph with two edges, writing the new edge
    feature [w] at the selector [0:1], which denotes one edge of two, fails
    with [SizeMismatchException], not with [ValueError]. *)
Lemma C8_counterexample :
  is_new_feature (_edge_features two_edges) "w" = true ∧
  get_edge_num two_edges = 2 ∧
  slice_to_list (Some 0%Z) (Some 1%Z) None (get_edge_num two_edges) = Ok [0%Z] ∧
  set_edge_feature (SelSlice (Some 0%Z) (Some 1%Z) None)
    [("w"%string, mkTensor [] [[5%Z]])] two_edges
  = Raise SizeMismatchException two_edges [] ∧
  SizeMismatchException ≠ ValueError.
Proof. split_and!; try (vm_compute; reflexivity). discriminate. Qed.

(** C6. For every graph with a present node feature [f] and every
    [k > 0], [add_nodes(k)] returns and extends the array of [f] by exactly
    [k] trailing rows that are the zero of its trailing shape, so that its
    leading length is the new node count when it was the old one before;
    features that are absent remain absent. Likewise [add_edge] of a pair that
    is new extends every present edge feature by one zero row and leaves the
    absent ones absent. *)
Theorem C6_growth_pads_present_features (g : GraphData) (k : Z) (f : string) (t : Tensor) :
  dict_ok (_node_features g) →
  dict_ok (_edge_features g) →
  (0 < k)%Z →
  dict_get (_node_features g) f = Some (Some t) →
  (∃ g',
     let t' := mkTensor (tshape t) (rows t ++ replicate (Z.to_nat k) (zero_row (tshape t))) in
     add_nodes k g = Return () g' [] ∧
     get_node_num g' = get_node_num g + Z.to_nat k ∧
     dict_get (_node_features g') f = Some (Some t') ∧
     shape0 t' = shape0 t + Z.to_nat k ∧
     (shape0 t = get_node_num g → shape0 t' = get_node_num g') ∧
     (∀ f', dict_get (_node_features g) f' = Some None →
            dict_get (_node_features g') f' = Some None)) ∧
  (∀ s d fe te,
     _nids_eid_mapping g !! (s, d) = None →
     dict_get (_edge_features g) fe = Some (Some te) →
     ∃ g',
       let te' := mkTensor (tshape te) (rows te ++ [zero_row (tshape te)]) in
       add_edge s d g = Return () g' [] ∧
       get_edge_num g' = get_edge_num g + 1 ∧
       dict_get (_edge_features g') fe = Some (Some te') ∧
       shape0 te' = shape0 te + 1 ∧
       (∀ f', dict_get (_edge_features g) f' = Some None →
              dict_get (_edge_features g') f' = Some None)).
Proof.
  intros Hokn Hoke Hk Hf. split.
  - exists (nodes_added (Z.to_nat k) g). cbv zeta.
    assert (get_node_num (nodes_added (Z.to_nat k) g) = get_node_num g + Z.to_nat k) as Hn.
    { destruct g. unfold get_node_num, nodes_added, default_node_attrs. simpl.
      by rewrite length_app, length_replicate. }
    assert (∀ v, dict_get (_node_features (nodes_added (Z.to_nat k) g)) v
                 = (λ x, entail_zero_padding x (Z.to_nat k)) <$> dict_get (_node_features g) v)
      as Hget.
    { intros v. destruct g. apply dict_get_pad_table. }
    split_and!.
    + by apply add_nodes_ok.
    + done.
    + by rewrite Hget, Hf.
    + unfold shape0. simpl. by rewrite length_app, length_replicate.
    + intros Hlen. unfold shape0 in *. simpl. rewrite length_app, length_replicate. lia.
    + intros f' Hf'. by rewrite Hget, Hf'.
  - intros s d fe te Hnew Hfe. exists (edge_added s d g). cbv zeta.
    assert (∀ v, dict_get (_edge_features (edge_added s d g)) v
                 = (λ x, entail_zero_padding x 1) <$> dict_get (_edge_features g) v) as Hget.
    { intros v. destruct g. apply dict_get_pad_table. }
    split_and!.
    + by apply add_edge_new.
    + destruct g as [? ? [] ? ? ? ? ? ? ? ? ? ?]. unfold get_edge_num. simpl.
      by rewrite length_app.
    + by rewrite Hget, Hfe.
    + unfold shape0. simpl. by rewrite length_app.
    + intros f' Hf'. by rewrite Hget, Hf'.
Qed.

Lemma C6_growth_pads_present_features_witness :
  ∃ g',
    add_nodes 2 three_nodes_feat = Return () g' [] ∧
    get_node_num g' = 5 ∧
    dict_get (_node_features g') "node_feat"
    = Some (Some (mkTensor [1] [[1]; [2]; [3]; [0]; [0]]%Z)) ∧
    dict_get (_node_features g') "node_emb" = Some None.
Proof.
  destruct (C6_growth_pads_present_features three_nodes_feat 2 "node_feat"
              (mkTensor [1] [[1]; [2]; [3]]%Z)) as [(g' & Hrun & Hn & Hf & _ & _ & Hnone) _].
  - apply (bool_decide_unpack _). vm_compute. exact I.
  - apply (bool_decide_unpack _). vm_compute. exact I.
  - lia.
  - reflexivity.
  - exists g'. split_and!; [done|done|done|]. by apply Hnone.
Defined.

(** ** The state a computation ends in *)

Definition final {A} (o : outcome A) : GraphData :=
  match o with
  | Return _ g _ => g
  | Raise _ g _ => g
  end.

Lemma final_after_warnings {A} w (o : outcome A) : final (after_warnings w o) = final o.
Proof. by destruct o. Qed.

Lemma final_bind {A B} (m : M A) (f : A → M B) g :
  final ((m ≫= f) g) =
    match m g with
    | Return a g1 _ => final (f a g1)
    | Raise _ g1 _ => g1
    end.
Proof.
  unfold mbind, M_bind. destruct (m g); [apply final_after_warnings|done].
Qed.


Lemma for_each_final {A} (P : GraphData → Prop) (l : list A) (body : A → M unit) :
  (∀ x g, x ∈ l → P g → P (final (body x g))) →
  ∀ g, P g → P (final (for_each l body g)).
Proof.
  induction l as [|x l IH]; intros Hbody g Hg; [done|].
  cbn [for_each]. rewrite final_bind.
  pose proof (Hbody x g (list_elem_of_here _ _) Hg) as Hx.
  destruct (body x g) as [[] g1 w|e g1 w]; simpl in Hx; [|done].
  apply IH; [|done]. intros y g' Hy. apply Hbody. by right.
Qed.

Lemma for_fold_final {A S} (P : GraphData → Prop) (l : list A) (body : S → A → M S) :
  (∀ s x g, x ∈ l → P g → P (final (body s x g))) →
  ∀ s g, P g → P (final (for_fold l body s g)).
Proof.
  induction l as [|x l IH]; intros Hbody s g Hg; [done|].
  cbn [for_fold]. rewrite final_bind.
  pose proof (Hbody s x g (list_elem_of_here _ _) Hg) as Hx.
  destruct (body s x g) as [s' g1 w|e g1 w]; simpl in Hx; [|done].
  apply IH; [|done]. intros s0 y g' Hy. apply Hbody. by right.
Qed.

(** ** Reading features *)

(** The body of the loop of [get_node_features] and [get_edge_feature] over
    the table [d]. *)
Definition read_body (d : FeatureTable) (sel : Selector)
    (ret : list (string * option Indexed)) (key : string)
    : M (list (string * option Indexed)) :=
  match dict_get d key with
  | None => raise KeyError
  | Some None => mret (dict_set key None ret)
  | Some (Some t) => x ← lift (tensor_getitem t sel); mret (dict_set key (Some x) ret)
  end.

(** The loop leaves the object as it is, and a feature that is absent in the
    table is absent in the returned dictionary. *)
Lemma read_loop (d : FeatureTable) (sel : Selector) : ∀ ks ret0 g,
  (∃ ret, for_fold ks (read_body d sel) ret0 g = Return ret g [] ∧
          ∀ name, dict_get d name = Some None →
                  name ∈ ks ∨ dict_get ret0 name = Some None →
                  dict_get ret name = Some None) ∨
  (∃ e, for_fold ks (read_body d sel) ret0 g = Raise e g []).
Proof.
  induction ks as [|key ks IH]; intros ret0 g.
  - left. exists ret0. split; [done|]. intros name _ [Hin|Hret]; [|done].
    by apply elem_of_nil in Hin.
  - cbn [for_fold].
    assert (∀ ret', read_body d sel ret0 key g = Return ret' g [] →
      (∀ name, dict_get d name = Some None →
               name ∈ key :: ks ∨ dict_get ret0 name = Some None →
               name ∈ ks ∨ dict_get ret' name = Some None) →
      (∃ ret, (read_body d sel ret0 key ≫= for_fold ks (read_body d sel)) g = Return ret g [] ∧
          ∀ name, dict_get d name = Some None →
                  name ∈ key :: ks ∨ dict_get ret0 name = Some None →
                  dict_get ret name = Some None) ∨
      (∃ e, (read_body d sel ret0 key ≫= for_fold ks (read_body d sel)) g = Raise e g []))
      as Hstep.
    { intros ret' Hhead Hret'. rewrite (bind_Return _ _ _ _ _ _ Hhead), after_warnings_nil.
      destruct (IH ret' g) as [(ret & Hrun & Hret)|[e Hrun]].
      - left. exists ret. split; [exact Hrun|]. intros name Hd Hname.
        apply Hret; [done|]. by apply Hret'.
      - right. by exists e. }
    assert (∀ e, read_body d sel ret0 key g = Raise e g [] →
      ∃ e, (read_body d sel ret0 key ≫= for_fold ks (read_body d sel)) g = Raise e g [])
      as Hfail.
    { intros e Hhead. exists e. by apply bind_Raise. }
    destruct (dict_get d key) as [[t|]|] eqn:Hkey.
    + destruct (tensor_getitem t sel) as [x|e] eqn:Hx.
      * apply (Hstep (dict_set key (Some x) ret0)).
        { unfold read_body. rewrite Hkey. by erewrite bind_lift_Ok. }
        intros name Hd [Hin|Hret].
        -- apply elem_of_cons in Hin as [->|Hin]; [congruence|by left].
        -- right. rewrite dict_get_set_ne; [done|]. intros ->. congruence.
      * right. apply (Hfail e). unfold read_body. rewrite Hkey. by erewrite bind_lift_Err.
    + apply (Hstep (dict_set key None ret0)).
      { unfold read_body. by rewrite Hkey. }
      intros name Hd [Hin|Hret].
      * apply elem_of_cons in Hin as [->|Hin]; [|by left].
        right. apply dict_get_set_eq.
      * right. destruct (decide (key = name)) as [->|Hne].
        -- apply dict_get_set_eq.
        -- by rewrite dict_get_set_ne.
    + right. apply (Hfail KeyError). unfold read_body. by rewrite Hkey.
Qed.

Lemma get_node_features_unfold sel g :
  get_node_features sel g
  = for_fold (dict_keys (_node_features g)) (read_body (_node_features g) sel) [] g.
Proof. unfold get_node_features. by rewrite bind_get_self. Qed.

Lemma get_edge_feature_unfold sel g :
  get_edge_feature sel g
  = for_fold (dict_keys (_edge_features g)) (read_body (_edge_features g) sel) [] g.
Proof. unfold get_edge_feature. by rewrite bind_get_self. Qed.

Lemma dict_get_Some_key {V} (d : list (string * V)) k v :
  dict_get d k = Some v → k ∈ dict_keys d.
Proof.
  intros Hget. destruct (decide (k ∈ dict_keys d)) as [|Hn]; [done|].
  apply dict_get_None in Hn. congruence.
Qed.



(** A read leaves the object as it is, however it ends. *)
Lemma get_node_features_final sel g : final (get_node_features sel g) = g.
Proof.
  rewrite get_node_features_unfold.
  destruct (read_loop (_node_features g) sel (dict_keys (_node_features g)) [] g)
    as [(ret1 & Hrun1 & _)|[e Hrun1]]; by rewrite Hrun1.
Qed.

Lemma get_edge_feature_final sel g : final (get_edge_feature sel g) = g.
Proof.
  rewrite get_edge_feature_unfold.
  destruct (read_loop (_edge_features g) sel (dict_keys (_edge_features g)) [] g)
    as [(ret1 & Hrun1 & _)|[e Hrun1]]; by rewrite Hrun1.
Qed.

Lemma add_edges_Return_inv s t g g' w :
  dict_ok (_edge_features g) →
  add_edges s t g = Return () g' w →
  ∃ srcs tgts m, g' = edges_added srcs tgts m g.
Proof.
  intros Hok Hrun.
  destruct (check_and_expand (int_to_list s) (int_to_list t)) as [[a b]|e] eqn:Hce.
  - pose proof (check_and_expand_length _ _ _ _ Hce) as Hlen.
    assert (add_edges s t g = add_edges (AList a) (AList b) g) as Heq.
    { unfold add_edges. cbn [int_to_list].
      erewrite (bind_lift_Ok (check_and_expand (int_to_list s) (int_to_list t))) by done.
      by erewrite (bind_lift_Ok (check_and_expand a b))
        by (by apply check_and_expand_same_length). }
    rewrite Heq, add_edges_lists in Hrun by done.
    destruct (register_pure _ _ _ _) as [[m' d] w'].
    destruct (pop_all _ _ _) as [[srcs' tgts']|e]; [|done].
    injection Hrun as <- _. by exists srcs', tgts', m'.
  - unfold add_edges in Hrun. by erewrite bind_lift_Err in Hrun.
Qed.






Lemma dict_ok_pad_table k d : dict_ok d → dict_ok (pad_table k d).
Proof. unfold dict_ok. by rewrite dict_keys_pad_table. Qed.


(** ** Packing and unpacking on small graphs *)

(** [unpack(pack(graphs))] *)
Definition unpack_pack (graphs : list GraphData) : result (list GraphData) :=
  b ← to_batch graphs;
  '(ret, _) ← call from_batch b;
  Ok ret.

(** One node, no edge. *)
Definition one_node : GraphData := nodes_added 1 (GraphData_init None).

(** One node that carries the node feature [x]. *)
Definition one_node_x : GraphData :=
  with_node_features (dict_set "x" (Some (mkTensor [] [[5%Z]])) (_node_features one_node))
    one_node.

(** Two nodes, the edge [(0,1)] and the edge feature [w]. *)
Definition one_edge_w : GraphData :=
  let g := edge_added 0 1 (nodes_added 2 (GraphData_init None)) in
  with_edge_features (dict_set "w" (Some (mkTensor [] [[9%Z]])) (_edge_features g)) g.

Lemma one_node_x_built :
  (add_nodes 1 ;; node_features_setitem "x" (mkTensor [] [[5%Z]])) (GraphData_init None)
  = Return () one_node_x [].
Proof. vm_compute. reflexivity. Qed.

Lemma one_edge_w_built :
  (add_nodes 2 ;; add_edge 0 1 ;; edge_features_setitem "w" (mkTensor [] [[9%Z]]))
    (GraphData_init None)
  = Return () one_edge_w [].
Proof. vm_compute. reflexivity. Qed.

(** C4 (the code departs from the claim). The feature [x] is present on
    the first graph and not registered on the second: [to_batch] does not
    drop it but concatenates the one array it collected and fails on the
    assertion of the feature write, since the array has one row for two
    nodes. When the graph that lacks the feature has no element to pad, as for
    the edge feature [w] of a graph without edges, the feature is carried into
    the batch although it is not present on every graph. *)
Theorem C4_pack_with_feature_missing_on_a_graph :
  dict_get (_node_features one_node_x) "x" = Some (Some (mkTensor [] [[5%Z]])) ∧
  dict_get (_node_features one_node) "x" = None ∧
  to_batch [one_node_x; one_node] = Err AssertionError ∧
  dict_get (_edge_features one_node) "w" = None ∧
  dict_get (_edge_features one_edge_w) "w" = Some (Some (mkTensor [] [[9%Z]])) ∧
  ∃ b, to_batch [one_node; one_edge_w] = Ok b ∧
       dict_get (_edge_features b) "w" = Some (Some (mkTensor [] [[9%Z]])).
Proof.
  split_and!; try reflexivity.
  eexists. split; [vm_compute; reflexivity|reflexivity].
Qed.

(** C3, refuted as stated. The list holding one new graph, which has no
    node, is a nonempty list of graphs; packing it fails on the assertion of
    [add_nodes], so that unpacking the pack returns no list. *)
Lemma C3_counterexample :
  [GraphData_init None] ≠ [] ∧
  to_batch [GraphData_init None] = Err AssertionError ∧
  unpack_pack [GraphData_init None] = Err AssertionError.
Proof. split_and!; [done|reflexivity|reflexivity]. Qed.

(** C9, refuted as stated. Packing a graph without nodes together with
    a graph of one node succeeds and yields a batch of batch size 2; unpacking
    that batch fails on the assertion of [add_nodes] and returns no graph. *)
Lemma C9_counterexample :
  ∃ b, to_batch [GraphData_init None; one_node] = Ok b ∧
       batch_size b = Some 2 ∧
       _batch_num_nodes b = Some [0; 1] ∧
       from_batch b = Raise AssertionError b [].
Proof.
  eexists. split; [vm_compute; reflexivity|]. split_and!; try reflexivity.
Qed.

(** ** Lists: sums, slices and pointwise updates *)

(** The sum of the first [i] counts: the running offset of the batch
    engine. *)
Definition cum (l : list nat) (i : nat) : nat := sum_list (take i l).

Lemma sum_list_app l1 l2 : sum_list (l1 ++ l2) = sum_list l1 + sum_list l2.
Proof. induction l1 as [|x l1 IH]; simpl; [done|]. rewrite IH. lia. Qed.

Lemma cum_0 l : cum l 0 = 0.
Proof. done. Qed.

Lemma cum_S l i x : l !! i = Some x → cum l (S i) = cum l i + x.
Proof.
  intros Hx. unfold cum. rewrite (take_S_r _ _ _ Hx), sum_list_app. simpl. lia.
Qed.

Lemma cum_all l n : length l ≤ n → cum l n = sum_list l.
Proof. intros Hn. unfold cum. by rewrite take_ge. Qed.

Lemma cum_le l i x : l !! i = Some x → cum l i + x ≤ sum_list l.
Proof.
  intros Hx. rewrite <-(cum_S _ _ _ Hx). unfold cum.
  rewrite <-(take_drop (S i) l) at 2. rewrite sum_list_app. lia.
Qed.

Lemma lookup_total_Some (l : list nat) i : i < length l → l !! i = Some (l !!! i).
Proof.
  intros Hi. destruct (lookup_lt_is_Some_2 l i Hi) as [x Hx].
  by rewrite (list_lookup_total_correct _ _ _ Hx).
Qed.

Lemma py_slice_length {A} (l : list A) a b :
  b ≤ length l → length (py_slice l a b) = b - a.
Proof. intros Hb. unfold py_slice. rewrite length_take, length_drop. lia. Qed.

Lemma py_slice_middle {A} (l1 l2 l3 : list A) :
  py_slice (l1 ++ l2 ++ l3) (length l1) (length l1 + length l2) = l2.
Proof.
  unfold py_slice. rewrite drop_app_length.
  replace (length l1 + length l2 - length l1) with (length l2) by lia.
  apply take_app_length.
Qed.

Lemma py_slice_sublist {A} (l : list A) a b : py_slice l a b `sublist_of` l.
Proof.
  unfold py_slice. etransitivity; [apply sublist_take|apply sublist_drop].
Qed.

Lemma zip_fmap_same {A B C} (f : A → B) (h : A → C) (l : list A) :
  zip (f <$> l) (h <$> l) = (λ x, (f x, h x)) <$> l.
Proof. induction l as [|x l IH]; [done|]. csimpl. by rewrite IH. Qed.

(** ** Reading the edges *)

Lemma get_all_edges_loop (ss ts : list Z) : ∀ k i acc g,
  length ss = length ts → i + k = length ss →
  for_fold (seq i k) (λ edges i,
    s ← lift (py_index ss i);
    t ← lift (py_index ts i);
    mret (edges ++ [(s, t)])) acc g
  = Return (acc ++ drop i (zip ss ts)) g [].
Proof.
  induction k as [|k IH]; intros i acc g Hlen Hi.
  - rewrite drop_ge by (rewrite length_zip_with; lia). simpl. by rewrite app_nil_r.
  - destruct (lookup_lt_is_Some_2 ss i) as [s Hs]; [lia|].
    destruct (lookup_lt_is_Some_2 ts i) as [t Ht]; [lia|].
    assert (zip ss ts !! i = Some (s, t)) as Hz.
    { apply lookup_zip_with_Some. eauto. }
    rewrite (drop_S _ _ _ Hz). cbn [seq for_fold].
    erewrite bind_Return; last first.
    { erewrite bind_lift_Ok; [|by unfold py_index; rewrite Hs].
      erewrite bind_lift_Ok; [|by unfold py_index; rewrite Ht]. reflexivity. }
    rewrite after_warnings_nil, (IH (S i)) by lia.
    by rewrite <-app_assoc.
Qed.

(** The edges of a graph in the order of their ids. *)
Definition edges_of (g : GraphData) : list (Z * Z) :=
  zip (src (_edge_indices g)) (tgt (_edge_indices g)).

Lemma get_all_edges_ok g :
  length (src (_edge_indices g)) = length (tgt (_edge_indices g)) →
  get_all_edges g = Return (edges_of g) g [].
Proof.
  intros Hlen. unfold get_all_edges. rewrite bind_get_self.
  exact (get_all_edges_loop _ _ (get_edge_num g) 0 [] g Hlen eq_refl).
Qed.

Lemma get_all_edges_final g : final (get_all_edges g) = g.
Proof.
  unfold get_all_edges. rewrite bind_get_self.
  apply (for_fold_final (λ g', g' = g)); [|done].
  intros edges i g' _ ->. rewrite final_bind.
  destruct (py_index _ i); simpl; [|done]. rewrite final_bind.
  by destruct (py_index _ i).
Qed.

(** ** Unpacking: the graphs that [from_batch] builds *)

Definition registered (pairs : list (Z * Z)) (current_num_edges : nat)
    (m : gmap (Z * Z) nat) : gmap (Z * Z) nat :=
  (register_pure pairs current_num_edges 0 m).1.1.

Lemma add_edges_fresh_registered srcs tgts g :
  length srcs = length tgts →
  dict_ok (_edge_features g) →
  NoDup (zip srcs tgts) →
  (∀ p, p ∈ zip srcs tgts → _nids_eid_mapping g !! p = None) →
  add_edges (AList srcs) (AList tgts) g
  = Return () (edges_added srcs tgts
                 (registered (zip srcs tgts) (length (_edge_attributes g))
                    (_nids_eid_mapping g)) g) [].
Proof.
  intros Hlen Hok Hnd Hnew. rewrite add_edges_lists by done. unfold registered.
  destruct (register_pure_fresh (zip srcs tgts) (length (_edge_attributes g)) 0
              (_nids_eid_mapping g) Hnd Hnew) as [m' ->].
  done.
Qed.

Lemma exec_Return (m : M unit) g g' w : m g = Return () g' w → exec m g = Ok g'.
Proof. intros H. unfold exec. by rewrite H. Qed.

Lemma exec_Raise (m : M unit) g e g' w : m g = Raise e g' w → exec m g = Err e.
Proof. intros H. unfold exec. by rewrite H. Qed.

Lemma dict_ok_init_node dev : dict_ok (_node_features (GraphData_init dev)).
Proof. apply (bool_decide_unpack _). vm_compute. exact I. Qed.

Lemma dict_ok_init_edge dev : dict_ok (_edge_features (GraphData_init dev)).
Proof. apply (bool_decide_unpack _). vm_compute. exact I. Qed.

Section children.
Variable dev : option string.
Variables nn ne : list nat.
Variable all_edges : list (Z * Z).

(** The edges of the [i]-th graph, rebased to its own node ids. *)
Definition child_edges (i : nat) : list (Z * Z) :=
  (λ e, (e.1 - Z.of_nat (cum nn i), e.2 - Z.of_nat (cum nn i))%Z)
    <$> py_slice all_edges (cum ne i) (cum ne i + ne !!! i).

(** The [i]-th graph after the first loop of [from_batch]. *)
Definition child_built (i : nat) : GraphData :=
  edges_added (child_edges i).*1 (child_edges i).*2
    (registered (child_edges i) 0 ∅)
    (nodes_added (nn !!! i) (GraphData_init dev)).

Lemma child_edges_NoDup i : NoDup all_edges → NoDup (child_edges i).
Proof.
  intros Hnd. unfold child_edges. apply NoDup_fmap_2.
  - intros [a1 a2] [b1 b2] [= H1 H2]. f_equal; lia.
  - eapply sublist_NoDup; [done|apply py_slice_sublist].
Qed.
End children.

Lemma from_batch_child_ok b nn ne all_edges ret i :
  _batch_num_nodes b = Some nn → _batch_num_edges b = Some ne →
  i < length nn → i < length ne →
  0 < nn !!! i →
  NoDup all_edges →
  from_batch_child b all_edges (ret, cum nn i, cum ne i) i
  = Ok (ret ++ [child_built (device b) nn ne all_edges i], cum nn (S i), cum ne (S i)).
Proof.
  intros Hnn Hne Hlnn Hlne Hposi Hnd. unfold from_batch_child.
  pose proof (lookup_total_Some nn i Hlnn) as Hni.
  pose proof (lookup_total_Some ne i Hlne) as Hei.
  rewrite Hnn, Hne. cbn [py_index_opt]. unfold py_index. rewrite Hni, Hei.
  cbn [mbind result_bind].
  assert (0 < Z.of_nat (nn !!! i))%Z as Hposz by lia.
  rewrite (exec_Return _ _ _ _ (add_nodes_ok _ _ Hposz (dict_ok_init_node _))).
  cbn [mbind result_bind]. rewrite Nat2Z.id.
  set (E := py_slice all_edges (cum ne i) (cum ne i + ne !!! i)).
  pose proof (zip_fmap_same (λ e : Z * Z, (e.1 - Z.of_nat (cum nn i))%Z)
                (λ e : Z * Z, (e.2 - Z.of_nat (cum nn i))%Z) E) as Hzip.
  assert (child_edges nn ne all_edges i
          = (λ x : Z * Z, ((x.1 - Z.of_nat (cum nn i))%Z, (x.2 - Z.of_nat (cum nn i))%Z)) <$> E)
    as Hce by done.
  change (map ?f E) with (f <$> E).
  erewrite exec_Return; last first.
  { apply add_edges_fresh_registered.
    - by rewrite !length_fmap.
    - apply dict_ok_init_edge.
    - rewrite Hzip, <-Hce. by apply child_edges_NoDup.
    - intros p _. apply lookup_empty. }
  cbn [mbind result_bind].
  rewrite <-(cum_S _ _ _ Hni), <-(cum_S _ _ _ Hei).
  do 4 f_equal. unfold child_built. rewrite Hzip, Hce.
  rewrite <-!list_fmap_compose. done.
Qed.

Lemma from_batch_construct_ok b nn ne all_edges n :
  _batch_num_nodes b = Some nn → _batch_num_edges b = Some ne →
  length nn = n → length ne = n →
  Forall (λ x, 0 < x) nn →
  NoDup all_edges →
  from_batch_construct b all_edges n
  = Ok (child_built (device b) nn ne all_edges <$> seq 0 n).
Proof.
  intros Hnn Hne Hlnn Hlne Hpos Hnd. unfold from_batch_construct.
  assert (∀ k i ret, i + k = n →
    foldM (from_batch_child b all_edges) (seq i k) (ret, cum nn i, cum ne i)
    = Ok (ret ++ (child_built (device b) nn ne all_edges <$> seq i k), cum nn n, cum ne n))
    as Hloop.
  { induction k as [|k IH]; intros i ret Hi.
    - simpl. rewrite app_nil_r. by replace i with n by lia.
    - cbn [seq foldM].
      rewrite (from_batch_child_ok b nn ne) by
        (try done; try lia;
         apply (Forall_lookup_1 _ _ _ _ Hpos (lookup_total_Some nn i ltac:(lia)))).
      cbn [mbind result_bind]. rewrite (IH (S i)) by lia.
      by rewrite <-app_assoc. }
  pose proof (Hloop n 0 [] eq_refl) as H0.
  change (cum nn 0) with 0 in H0. change (cum ne 0) with 0 in H0.
  by rewrite H0.
Qed.

(** A loop over the positions of a list that rewrites the element at each
    position; [mk] pairs the list with the other loop variables. *)
Lemma foldM_seq_update {St X} (mk : list GraphData → St → X)
    (step : X → nat → result X)
    (f : nat → GraphData → GraphData) (acc : nat → St) (ret0 : list GraphData) (n : nat) :
  length ret0 = n →
  (∀ i ret g, i < n → ret0 !! i = Some g → ret !! i = Some g → length ret = n →
     step (mk ret (acc i)) i = Ok (mk (<[i := f i g]> ret) (acc (S i)))) →
  foldM step (seq 0 n) (mk ret0 (acc 0)) = Ok (mk (imap f ret0) (acc n)).
Proof.
  intros Hlen Hstep.
  assert (∀ k i, i + k = n →
    foldM step (seq i k) (mk (take i (imap f ret0) ++ drop i ret0) (acc i))
    = Ok (mk (imap f ret0) (acc n))) as Hloop.
  { induction k as [|k IH]; intros i Hi.
    - replace i with n by lia. simpl.
      rewrite take_ge by (rewrite length_imap; lia).
      rewrite drop_ge by lia. by rewrite app_nil_r.
    - cbn [seq foldM].
      destruct (lookup_lt_is_Some_2 ret0 i) as [g Hg]; [lia|].
      assert (length (take i (imap f ret0)) = i) as Hti.
      { rewrite length_take, length_imap. lia. }
      rewrite (Hstep i _ g); [|lia|done| |].
      + cbn [mbind result_bind]. rewrite <-(IH (S i)) by lia. do 2 f_equal.
        rewrite insert_app_r_alt by lia. rewrite Hti, Nat.sub_diag.
        rewrite (drop_S _ _ _ Hg). cbn [insert list_insert].
        rewrite (take_S_r (imap f ret0) i (f i g)).
        * by rewrite <-app_assoc.
        * by rewrite list_lookup_imap, Hg.
      + rewrite lookup_app_r by lia. rewrite Hti, Nat.sub_diag.
        by rewrite lookup_drop, Nat.add_0_r.
      + rewrite length_app, Hti, length_drop. lia. }
  exact (Hloop n 0 eq_refl).
Qed.

Lemma imap_imap {A} (f h : nat → A → A) (l : list A) :
  imap f (imap h l) = imap (λ i x, f i (h i x)) l.
Proof.
  apply list_eq. intros i. rewrite !list_lookup_imap. by destruct (l !! i).
Qed.

Lemma imap_ext_lookup {A B} (f h : nat → A → B) (l : list A) :
  (∀ i x, l !! i = Some x → f i x = h i x) → imap f l = imap h l.
Proof.
  intros Hfh. apply list_eq. intros i. rewrite !list_lookup_imap.
  destruct (l !! i) as [x|] eqn:Hx; [|done]. simpl. by rewrite (Hfh i x).
Qed.

(** ** Unpacking: the features *)

(** The table of the [i]-th graph after the slices of the batch table [tbl]
    were assigned over the table [d0]. *)
Definition child_table (counts : list nat) (tbl : FeatureTable) (i : nat)
    (d0 : FeatureTable) : FeatureTable :=
  foldl (λ d kv,
           match kv.2 with
           | None => d
           | Some v =>
               dict_set kv.1
                 (Some (tensor_slice v (cum counts i) (cum counts i + counts !!! i))) d
           end) d0 tbl.

Lemma shape0_tensor_slice v a b :
  b ≤ shape0 v → shape0 (tensor_slice v a b) = b - a.
Proof. intros Hb. unfold shape0, tensor_slice. simpl. by apply py_slice_length. Qed.

Section features.
Variable o : Owner.
Lemma owner_table_with x g : owner_table o (with_owner_table o x g) = x.
Proof. by destruct o, g. Qed.
Lemma with_owner_table_twice x y g :
  with_owner_table o y (with_owner_table o x g) = with_owner_table o y g.
Proof. by destruct o, g. Qed.
Lemma with_owner_table_id g : with_owner_table o (owner_table o g) g = g.
Proof. by destruct o, g. Qed.
Lemma owner_count_with x g : owner_count o (with_owner_table o x g) = owner_count o g.
Proof. by destruct o, g. Qed.

Variable setitem : string → Tensor → M unit.
Hypothesis setitem_ok : ∀ k v g,
  shape0 v = owner_count o g →
  setitem k v g = Return () (with_owner_table o (dict_set k (Some v) (owner_table o g)) g) [].

Variable counts : list nat.
Variable n : nat.
Hypothesis counts_length : length counts = n.

Lemma from_batch_slice_ok k v ret i g :
  i < n → ret !! i = Some g →
  owner_count o g = counts !!! i →
  sum_list counts ≤ shape0 v →
  from_batch_slice (Some counts) setitem k v (ret, cum counts i) i
  = Ok (<[i := with_owner_table o
                 (dict_set k (Some (tensor_slice v (cum counts i)
                                      (cum counts i + counts !!! i)))
                    (owner_table o g)) g]> ret,
        cum counts (S i)).
Proof.
  intros Hi Hg Hcount Hshape. unfold from_batch_slice.
  pose proof (lookup_total_Some counts i ltac:(lia)) as Hci.
  cbn [py_index_opt]. unfold py_index. rewrite Hci.
  cbn [mbind result_bind]. unfold on_child, py_index. rewrite Hg.
  cbn [mbind result_bind].
  erewrite exec_Return; last first.
  { apply setitem_ok. rewrite shape0_tensor_slice.
    - lia.
    - pose proof (cum_le _ _ _ Hci). lia. }
  cbn [mbind result_bind]. by rewrite (cum_S _ _ _ Hci).
Qed.

Lemma from_batch_features_ok tbl : ∀ ret,
  length ret = n →
  (∀ i g, ret !! i = Some g → owner_count o g = counts !!! i) →
  (∀ k v, (k, Some v) ∈ tbl → sum_list counts ≤ shape0 v) →
  from_batch_features tbl (Some counts) setitem n ret
  = Ok (imap (λ i g, with_owner_table o (child_table counts tbl i (owner_table o g)) g) ret).
Proof.
  unfold from_batch_features.
  induction tbl as [|[k [v|]] tbl IH]; intros ret Hlen Hcount Hshape.
  - simpl. f_equal. apply list_eq. intros i. rewrite list_lookup_imap.
    destruct (ret !! i) as [g|]; [|done]. simpl. by rewrite with_owner_table_id.
  - cbn [foldM from_batch_feature].
    rewrite (foldM_seq_update pair _
               (λ i g, with_owner_table o
                  (dict_set k (Some (tensor_slice v (cum counts i)
                                       (cum counts i + counts !!! i)))
                     (owner_table o g)) g) (cum counts) ret n Hlen).
    + cbn [mbind result_bind fst]. rewrite IH.
      * rewrite imap_imap. f_equal. apply imap_ext_lookup. intros i g _.
        by rewrite with_owner_table_twice, owner_table_with.
      * by rewrite length_imap.
      * intros i g Hg. rewrite list_lookup_imap in Hg.
        destruct (ret !! i) as [g0|] eqn:Hg0; [|done]. injection Hg as <-.
        rewrite owner_count_with. by apply Hcount.
      * intros k' v' Hin. apply (Hshape k' v'). by right.
    + intros i ret' g Hi Hg0 Hg Hlen'. apply from_batch_slice_ok; try done.
      * by apply Hcount.
      * apply (Hshape k v). left.
  - cbn [foldM from_batch_feature mbind result_bind]. rewrite IH; try done.
    intros k' v' Hin. apply (Hshape k' v'). by right.
Qed.
End features.

(** ** Unpacking: the attribute records *)

Section attributes.
Variable get : GraphData → list AttrRecord.
Variable set : list AttrRecord → GraphData → GraphData.
Hypothesis get_set : ∀ x g, get (set x g) = x.
Hypothesis set_set : ∀ x y g, set y (set x g) = set y g.
Hypothesis set_get : ∀ g, set (get g) g = g.

Variable battrs : list AttrRecord.
Variables graph_cnt cum_n : nat.

Definition copy_generic (ret : list GraphData) (j : nat) : result (list GraphData) :=
  g ← py_index ret graph_cnt;
  a ← py_index battrs (cum_n + j);
  attrs ← py_setitem (get g) j a;
  Ok (<[graph_cnt := set attrs g]> ret).

Lemma copy_generic_loop g c :
  length (get g) = c → cum_n + c ≤ length battrs →
  ∀ ret, ret !! graph_cnt = Some g →
  foldM copy_generic (seq 0 c) ret
  = Ok (<[graph_cnt := set (py_slice battrs cum_n (cum_n + c)) g]> ret).
Proof.
  intros Hlen Hb.
  set (sl := py_slice battrs cum_n (cum_n + c)).
  assert (length sl = c) as HS.
  { unfold sl. rewrite py_slice_length by lia. lia. }
  set (upd := λ j, set (take j sl ++ drop j (get g)) g).
  assert (∀ k j ret, j + k = c → ret !! graph_cnt = Some (upd j) →
    foldM copy_generic (seq j k) ret = Ok (<[graph_cnt := upd c]> ret)) as Hloop.
  { induction k as [|k IH]; intros j ret Hj Hret.
    - replace j with c in * by lia. simpl. by rewrite list_insert_id.
    - cbn [seq foldM].
      assert (battrs !! (cum_n + j) = sl !! j) as Hb'.
      { unfold sl, py_slice. rewrite lookup_take_lt by lia. by rewrite lookup_drop. }
      destruct (lookup_lt_is_Some_2 sl j) as [a Ha]; [lia|].
      assert (<[j:=a]> (take j sl ++ drop j (get g)) = take (S j) sl ++ drop (S j) (get g))
        as Hins.
      { rewrite insert_app_r_alt by (rewrite length_take; lia).
        rewrite length_take. replace (j - j `min` length sl) with 0 by lia.
        destruct (lookup_lt_is_Some_2 (get g) j) as [a0 Ha0]; [lia|].
        rewrite (drop_S _ _ _ Ha0). cbn [insert list_insert].
        rewrite (take_S_r _ _ _ Ha). by rewrite <-app_assoc. }
      assert (copy_generic ret j = Ok (<[graph_cnt := upd (S j)]> ret)) as ->.
      { unfold copy_generic, py_index. rewrite Hret. cbn [mbind result_bind].
        rewrite Hb', Ha. cbn [mbind result_bind].
        unfold upd. rewrite get_set. unfold py_setitem.
        rewrite decide_True; last first.
        { rewrite length_app, length_take, length_drop. lia. }
        cbn [mbind result_bind]. by rewrite set_set, Hins. }
      cbn [mbind result_bind].
      rewrite (IH (S j)); [|lia|].
      + by rewrite list_insert_insert_eq.
      + apply list_lookup_insert_eq. by apply lookup_lt_Some in Hret. }
  intros ret Hret. rewrite (Hloop c 0 ret eq_refl).
  - unfold upd. rewrite take_ge by lia. rewrite drop_ge by lia. by rewrite app_nil_r.
  - unfold upd. rewrite take_0, drop_0. cbn [app]. by rewrite set_get.
Qed.
End attributes.

Lemma imap_fmap_seq {A B} (f : nat → A → B) (h : nat → A) n :
  imap f (h <$> seq 0 n) = (λ i, f i (h i)) <$> seq 0 n.
Proof.
  apply list_eq. intros i. rewrite list_lookup_imap, !list_lookup_fmap.
  destruct (seq 0 n !! i) as [j|] eqn:Hj; [|done].
  apply lookup_seq in Hj as [-> _]. done.
Qed.

Lemma lookup_fmap_seq {A} (h : nat → A) n i x :
  (h <$> seq 0 n) !! i = Some x → x = h i ∧ i < n.
Proof.
  rewrite list_lookup_fmap. destruct (seq 0 n !! i) as [j|] eqn:Hj; [|done].
  apply lookup_seq in Hj as [-> Hi]. by intros [= <-].
Qed.

Lemma from_batch_child_attributes_ok b nn ne ret i g :
  _batch_num_nodes b = Some nn → _batch_num_edges b = Some ne →
  i < length nn → i < length ne →
  ret !! i = Some g →
  length (_node_attributes g) = nn !!! i →
  length (_edge_attributes g) = ne !!! i →
  sum_list nn ≤ length (_node_attributes b) →
  sum_list ne ≤ length (_edge_attributes b) →
  from_batch_child_attributes b (ret, cum nn i, cum ne i) i
  = Ok (<[i := with_edge_attributes
                 (py_slice (_edge_attributes b) (cum ne i) (cum ne i + ne !!! i))
                 (with_node_attributes
                    (py_slice (_node_attributes b) (cum nn i) (cum nn i + nn !!! i)) g)]> ret,
        cum nn (S i), cum ne (S i)).
Proof.
  intros Hnn Hne Hlnn Hlne Hg Hna Hea Hbn Hbe. unfold from_batch_child_attributes.
  pose proof (lookup_total_Some nn i Hlnn) as Hni.
  pose proof (lookup_total_Some ne i Hlne) as Hei.
  rewrite Hnn, Hne. cbn [py_index_opt]. unfold py_index. rewrite Hni, Hei.
  cbn [mbind result_bind].
  change (copy_node_attribute b i (cum nn i))
    with (copy_generic _node_attributes with_node_attributes (_node_attributes b) i (cum nn i)).
  rewrite (copy_generic_loop _node_attributes with_node_attributes) with (g := g);
    [|by intros ? []|by intros ? ? []|by intros []|done| |done].
  2:{ pose proof (cum_le _ _ _ Hni). lia. }
  cbn [mbind result_bind].
  change (copy_edge_attribute b i (cum ne i))
    with (copy_generic _edge_attributes with_edge_attributes (_edge_attributes b) i (cum ne i)).
  erewrite (copy_generic_loop _edge_attributes with_edge_attributes);
    [|by intros ? []|by intros ? ? []|by intros []| | |].
  - cbn [mbind result_bind]. rewrite list_insert_insert_eq.
    by rewrite (cum_S _ _ _ Hni), (cum_S _ _ _ Hei).
  - by destruct g.
  - pose proof (cum_le _ _ _ Hei). lia.
  - apply list_lookup_insert_eq. by apply lookup_lt_Some in Hg.
Qed.

(** ** Unpacking a well-formed batch *)

(** The invariants of the data model on a batch of [n] graphs with the
    per-graph node counts [nn] and edge counts [ne], all node counts
    positive. *)
Definition batch_wf (b : GraphData) (n : nat) (nn ne : list nat) : Prop :=
  batch_size b = Some n ∧
  _batch_num_nodes b = Some nn ∧ _batch_num_edges b = Some ne ∧
  length nn = n ∧ length ne = n ∧
  Forall (λ x, 0 < x) nn ∧
  sum_list nn = get_node_num b ∧ sum_list ne = get_edge_num b ∧
  length (src (_edge_indices b)) = length (tgt (_edge_indices b)) ∧
  length (_edge_attributes b) = get_edge_num b ∧
  (∀ k t, (k, Some t) ∈ _node_features b → shape0 t = get_node_num b) ∧
  (∀ k t, (k, Some t) ∈ _edge_features b → shape0 t = get_edge_num b) ∧
  NoDup (edges_of b).

(** The [i]-th graph that [from_batch] returns. *)
Definition child (b : GraphData) (nn ne : list nat) (i : nat) : GraphData :=
  let g1 := child_built (device b) nn ne (edges_of b) i in
  let g2 := with_node_features (child_table nn (_node_features b) i (_node_features g1)) g1 in
  let g3 := with_edge_features (child_table ne (_edge_features b) i (_edge_features g2)) g2 in
  with_edge_attributes (py_slice (_edge_attributes b) (cum ne i) (cum ne i + ne !!! i))
    (with_node_attributes
       (py_slice (_node_attributes b) (cum nn i) (cum nn i + nn !!! i)) g3).

Lemma length_edges_of g :
  length (src (_edge_indices g)) = length (tgt (_edge_indices g)) →
  length (edges_of g) = get_edge_num g.
Proof. intros Hlen. unfold edges_of, get_edge_num. rewrite length_zip_with. lia. Qed.

Lemma length_child_edges nn ne all_edges i :
  i < length ne → sum_list ne ≤ length all_edges →
  length (child_edges nn ne all_edges i) = ne !!! i.
Proof.
  intros Hi Hsum. unfold child_edges. rewrite length_fmap.
  pose proof (cum_le _ _ _ (lookup_total_Some ne i Hi)).
  rewrite py_slice_length by lia. lia.
Qed.

Theorem from_batch_ok b n nn ne :
  batch_wf b n nn ne →
  from_batch b = Return (child b nn ne <$> seq 0 n) b [].
Proof.
  intros (Hbs & Hnn & Hne & Hlnn & Hlne & Hpos & Hsn & Hse & Hlen & Hea & Hnf & Hef & Hnd).
  unfold from_batch. rewrite bind_get_self.
  erewrite bind_Return; [|by apply get_all_edges_ok].
  rewrite after_warnings_nil, Hbs.
  erewrite bind_lift_Ok; [|by eapply from_batch_construct_ok].
  rewrite bind_get_self.
  pose proof (length_edges_of b Hlen) as Hle.
  erewrite bind_lift_Ok; last first.
  { rewrite Hnn.
    apply (from_batch_features_ok Nodes node_features_setitem) with (n := n).
    - intros k v g Hs. by apply node_features_setitem_ok.
    - done.
    - by rewrite length_fmap, length_seq.
    - intros i g Hg. apply lookup_fmap_seq in Hg as [-> Hi].
      unfold child_built. simpl. unfold get_node_num. simpl.
      unfold default_node_attrs. by rewrite length_replicate.
    - intros k v Hin. rewrite (Hnf k v Hin). lia. }
  rewrite imap_fmap_seq.
  erewrite bind_lift_Ok; last first.
  { rewrite Hne.
    apply (from_batch_features_ok Edges edge_features_setitem) with (n := n).
    - intros k v g Hs. by apply edge_features_setitem_ok.
    - done.
    - by rewrite length_fmap, length_seq.
    - intros i g Hg. apply lookup_fmap_seq in Hg as [-> Hi].
      unfold child_built. simpl. unfold get_edge_num. simpl.
      rewrite length_fmap. apply length_child_edges; lia.
    - intros k v Hin. rewrite (Hef k v Hin). lia. }
  rewrite imap_fmap_seq.
  erewrite bind_lift_Ok; last first.
  { unfold from_batch_attributes.
    rewrite (foldM_seq_update (λ ret '(a, c), (ret, a, c)) _
               (λ i g, with_edge_attributes
                  (py_slice (_edge_attributes b) (cum ne i) (cum ne i + ne !!! i))
                  (with_node_attributes
                     (py_slice (_node_attributes b) (cum nn i) (cum nn i + nn !!! i)) g))
               (λ i, (cum nn i, cum ne i)) _ n).
    - cbn [mbind result_bind fst]. reflexivity.
    - by rewrite length_fmap, length_seq.
    - intros i ret g Hi Hg0 Hg Hlret. apply lookup_fmap_seq in Hg0 as [Hg0 _].
      apply (from_batch_child_attributes_ok b nn ne); try done; try lia.
      + subst g. simpl. unfold default_node_attrs. by rewrite length_replicate.
      + subst g. simpl. unfold default_edge_attrs. rewrite length_replicate, length_fmap.
        apply length_child_edges; lia.
      + unfold get_node_num in Hsn. lia. }
  rewrite imap_fmap_seq. reflexivity.
Qed.

Lemma from_batch_final b : final (from_batch b) = b.
Proof.
  unfold from_batch. rewrite bind_get_self, final_bind.
  pose proof (get_all_edges_final b) as Hfin.
  destruct (get_all_edges b) as [all_edges g1 w|e g1 w]; simpl in Hfin; subst g1; [|done].
  destruct (batch_size b) as [n|]; [|done].
  rewrite final_bind.
  destruct (from_batch_construct b all_edges n) as [ret|e]; [|done]. simpl.
  rewrite bind_get_self, final_bind.
  destruct (from_batch_features _ _ _ _ _) as [ret1|e]; [|done]. simpl.
  rewrite final_bind.
  destruct (from_batch_features _ _ _ _ _) as [ret2|e]; [|done]. simpl.
  rewrite final_bind.
  destruct (from_batch_attributes _ _ _) as [ret3|e]; done.
Qed.

Lemma from_batch_no_batch_size b :
  batch_size b = None → ∃ e w, from_batch b = Raise e b w.
Proof.
  intros Hbs. pose proof (from_batch_final b) as Hfin.
  unfold from_batch in *. rewrite bind_get_self in *.
  unfold mbind, M_bind in *.
  destruct (get_all_edges b) as [all_edges g1 w|e g1 w]; simpl in Hfin.
  - rewrite Hbs in *. simpl in *. subst g1. by eexists _, _.
  - subst g1. by eexists _, _.
Qed.

(** The batch of the graph with one node and the graph with two nodes, the
    edge [(0,1)] and the edge feature [w]: three nodes, the edge [(1,2)]. *)
Definition small_batch : GraphData :=
  {| _node_attributes := default_node_attrs 3;
     _node_features := res_init_node_features;
     _edge_indices := mkEdgeIndex [1%Z] [2%Z];
     _nids_eid_mapping := {[ (1, 2)%Z := 0 ]};
     _edge_features := dict_set "w" (Some (mkTensor [] [[9%Z]])) res_init_edge_features;
     _edge_attributes := default_edge_attrs 1;
     graph_attributes := [];
     device := None;
     _is_batch := true;
     batch := Some [0; 1; 1];
     batch_size := Some 2;
     _batch_num_nodes := Some [1; 2];
     _batch_num_edges := Some [0; 1] |}.


Lemma small_batch_wf : batch_wf small_batch 2 [1; 2] [0; 1].
Proof.
  unfold batch_wf. split_and!; try reflexivity.
  - repeat constructor.
  - intros k t Hin.
    change (_node_features small_batch)
      with [("node_feat"%string, @None Tensor); ("node_emb"%string, None)] in Hin.
    repeat (apply elem_of_cons in Hin as [[=]|Hin]). by apply elem_of_nil in Hin.
  - intros k t Hin.
    change (_edge_features small_batch)
      with [("edge_feat"%string, None); ("edge_emb"%string, None);
            ("edge_weight"%string, None);
            ("w"%string, Some (mkTensor [] [[9%Z]]))] in Hin.
    repeat (apply elem_of_cons in Hin as [Heq|Hin];
            [by (discriminate Heq || (injection Heq as _ ->))|]).
    by apply elem_of_nil in Hin.
  - apply (bool_decide_unpack _). vm_compute. exact I.
Qed.

(** C9, amended. Unpacking a graph whose batch size is absent fails and
    returns no graph; unpacking a batch that satisfies the invariants of the
    data model, with [n] graphs of at least one node each, returns exactly
    [n] graphs; and however the call ends, the batch is as it was. *)
Theorem C9_unpack_of_a_batch (b : GraphData) (n : nat) (nn ne : list nat) :
  (batch_size b = None → ∃ e w, from_batch b = Raise e b w) ∧
  (batch_wf b n nn ne → ∃ ret, from_batch b = Return ret b [] ∧ length ret = n) ∧
  final (from_batch b) = b.
Proof.
  split_and!.
  - apply from_batch_no_batch_size.
  - intros Hwf. eexists. split; [by apply from_batch_ok|].
    by rewrite length_fmap, length_seq.
  - apply from_batch_final.
Qed.

Lemma C9_unpack_of_a_batch_witness :
  (∃ e w, from_batch one_node = Raise e one_node w) ∧
  (∃ ret, from_batch small_batch = Return ret small_batch [] ∧ length ret = 2).
Proof.
  split.
  - apply (C9_unpack_of_a_batch one_node 0 [] []). reflexivity.
  - apply (C9_unpack_of_a_batch small_batch 2 [1; 2] [0; 1]). apply small_batch_wf.
Defined.

(** ** Packing: reading the features through the views *)

Lemma py_index_Some {A} (l : list A) i x : l !! i = Some x → py_index l i = Ok x.
Proof. intros H. unfold py_index. by rewrite H. Qed.

Lemma mapM_py_index_seq {A} (l : list A) : ∀ k i,
  i + k ≤ length l → mapM (py_index l) (seq i k) = Ok (take k (drop i l)).
Proof.
  induction k as [|k IH]; intros i Hi; [done|].
  destruct (lookup_lt_is_Some_2 l i) as [x Hx]; [lia|].
  cbn [seq mapM]. rewrite (py_index_Some _ _ _ Hx). cbn [mbind result_bind].
  rewrite (IH (S i)) by lia. cbn [mbind result_bind].
  by rewrite (drop_S _ _ _ Hx).
Qed.

Lemma tensor_getitem_slice_all t : tensor_getitem t slice_all = Ok (Rows t).
Proof.
  unfold tensor_getitem, slice_all, selected_rows. cbn [default Z.leb Z.compare].
  rewrite slice_to_list_all. cbn [mbind result_bind].
  rewrite <-list_fmap_compose.
  assert (Z.to_nat ∘ Z.of_nat <$> seq 0 (shape0 t) = seq 0 (shape0 t)) as ->.
  { rewrite <-(list_fmap_id (seq 0 (shape0 t))) at 2. apply list_fmap_ext.
    intros i x _. simpl. lia. }
  unfold shape0. rewrite mapM_py_index_seq by lia.
  cbn [mbind result_bind]. rewrite drop_0, firstn_all. by destruct t.
Qed.

Lemma read_loop_all (d : FeatureTable) : ∀ ks ret0 g,
  (∀ key, key ∈ ks → is_Some (dict_get d key)) →
  ∃ ret, for_fold ks (read_body d slice_all) ret0 g = Return ret g [] ∧
         ∀ name v, dict_get d name = Some v →
                   name ∈ ks ∨ dict_get ret0 name = Some (Rows <$> v) →
                   dict_get ret name = Some (Rows <$> v).
Proof.
  induction ks as [|key ks IH]; intros ret0 g Hks.
  - exists ret0. split; [done|]. intros name v _ [Hin|Hret]; [|done].
    by apply elem_of_nil in Hin.
  - destruct (Hks key (list_elem_of_here _ _)) as [vk Hvk].
    assert (read_body d slice_all ret0 key g
            = Return (dict_set key (Rows <$> vk) ret0) g []) as Hhead.
    { unfold read_body. rewrite Hvk. destruct vk as [t|]; [|done].
      erewrite bind_lift_Ok by apply tensor_getitem_slice_all. done. }
    destruct (IH (dict_set key (Rows <$> vk) ret0) g) as (ret & Hrun & Hret).
    { intros k Hk. apply Hks. by right. }
    exists ret. split.
    + cbn [for_fold]. by rewrite (bind_Return _ _ _ _ _ _ Hhead), after_warnings_nil.
    + intros name v Hd [Hin|Hret0].
      * apply elem_of_cons in Hin as [->|Hin].
        -- apply Hret; [done|]. right. rewrite dict_get_set_eq. congruence.
        -- apply Hret; [done|]. by left.
      * apply Hret; [done|]. right. destruct (decide (key = name)) as [->|Hne].
        -- rewrite dict_get_set_eq. congruence.
        -- by rewrite dict_get_set_ne.
Qed.

Lemma view_read_loop (d : FeatureTable) key v g :
  dict_get d key = Some v →
  ∃ ret, for_fold (dict_keys d) (read_body d slice_all) [] g = Return ret g [] ∧
         dict_get ret key = Some (Rows <$> v).
Proof.
  intros Hkey. destruct (read_loop_all d (dict_keys d) [] g) as (ret & Hrun & Hret).
  - intros k Hk. destruct (dict_get d k) eqn:E; [done|].
    apply dict_get_None in E. done.
  - exists ret. split; [done|]. apply Hret; [done|]. left. by eapply dict_get_Some_key.
Qed.

Lemma node_features_getitem_ok key v g :
  dict_get (_node_features g) key = Some v →
  node_features_getitem key g = Return v g [].
Proof.
  intros Hkey. unfold node_features_getitem.
  destruct (view_read_loop _ key v g Hkey) as (ret & Hrun & Hret).
  erewrite bind_Return; [|rewrite get_node_features_unfold; exact Hrun].
  rewrite after_warnings_nil, Hret. by destruct v.
Qed.

Lemma edge_features_getitem_ok key v g :
  dict_get (_edge_features g) key = Some v →
  edge_features_getitem key g = Return v g [].
Proof.
  intros Hkey. unfold edge_features_getitem.
  destruct (view_read_loop _ key v g Hkey) as (ret & Hrun & Hret).
  erewrite bind_Return; [|rewrite get_edge_feature_unfold; exact Hrun].
  rewrite after_warnings_nil, Hret. by destruct v.
Qed.

(** ** Packing: the collected arrays *)

Section collect.
Variable o : Owner.
Variable getitem : string → M (option Tensor).
Hypothesis getitem_ok : ∀ key v g,
  dict_get (owner_table o g) key = Some v → getitem key g = Return v g [].

(** The arrays of the feature [k] on the graphs that register it, in the
    order of the graphs. *)
Definition gathered (k : string) (graphs : list GraphData) : list (option Tensor) :=
  omap (λ g, dict_get (owner_table o g) k) graphs.

(** The list collected for a name after more arrays were collected. *)
Definition extend (old : option (list (option Tensor))) (more : list (option Tensor))
    : option (list (option Tensor)) :=
  match more with
  | [] => old
  | _ => Some (default [] old ++ more)
  end.

Lemma collect_feature_ok g features name v :
  dict_get (owner_table o g) name = Some v →
  collect_feature getitem g features name
  = Ok (dict_set name (default [] (dict_get features name) ++ [v]) features).
Proof.
  intros Hv. unfold collect_feature, call. rewrite (getitem_ok _ _ _ Hv).
  by destruct (dict_get features name).
Qed.

Lemma collect_graph_loop g : ∀ ks features,
  NoDup ks → (∀ k, k ∈ ks → is_Some (dict_get (owner_table o g) k)) →
  dict_ok features →
  ∃ features',
    foldM (collect_feature getitem g) ks features = Ok features' ∧
    dict_ok features' ∧
    ∀ k, dict_get features' k =
         if decide (k ∈ ks)
         then Some (default [] (dict_get features k)
                      ++ option_list (dict_get (owner_table o g) k))
         else dict_get features k.
Proof.
  induction ks as [|key ks IH]; intros features Hnd Hks Hok.
  - exists features. split_and!; [done|done|]. intros k.
    rewrite decide_False; [done|]. apply not_elem_of_nil.
  - apply NoDup_cons in Hnd as [Hkey Hnd].
    destruct (Hks key (list_elem_of_here _ _)) as [v Hv].
    destruct (IH (dict_set key (default [] (dict_get features key) ++ [v]) features))
      as (features' & Hrun & Hok' & Hget); [done| |by apply dict_ok_set|].
    { intros k Hk. apply Hks. by right. }
    exists features'. split_and!; [|done|].
    + cbn [foldM]. rewrite (collect_feature_ok _ _ _ _ Hv). exact Hrun.
    + intros k. rewrite Hget. destruct (decide (k = key)) as [->|Hne].
      * rewrite decide_False by done. rewrite decide_True by left.
        by rewrite dict_get_set_eq, Hv.
      * rewrite dict_get_set_ne by done.
        destruct (decide (k ∈ ks)) as [Hin|Hnin].
        -- rewrite decide_True; [done|by right].
        -- rewrite decide_False; [done|]. by apply not_elem_of_cons.
Qed.

Lemma collect_features_loop : ∀ graphs features,
  Forall (λ g, dict_ok (owner_table o g)) graphs →
  dict_ok features →
  ∃ features',
    foldM (λ features g, foldM (collect_feature getitem g) (dict_keys (owner_table o g)) features)
      graphs features = Ok features' ∧
    dict_ok features' ∧
    ∀ k, dict_get features' k = extend (dict_get features k) (gathered k graphs).
Proof.
  induction graphs as [|g graphs IH]; intros features Hoks Hok.
  - exists features. by split_and!.
  - apply Forall_cons in Hoks as [Hokg Hoks].
    destruct (collect_graph_loop g (dict_keys (owner_table o g)) features)
      as (f1 & Hrun1 & Hok1 & Hget1); [done| |done|].
    { intros k Hk. destruct (dict_get (owner_table o g) k) eqn:E; [done|].
      by apply dict_get_None in E. }
    destruct (IH f1 Hoks Hok1) as (f2 & Hrun2 & Hok2 & Hget2).
    exists f2. split_and!; [|done|].
    + cbn [foldM]. rewrite Hrun1. exact Hrun2.
    + intros k. rewrite Hget2, Hget1. unfold gathered. cbn [omap list_omap].
      destruct (dict_get (owner_table o g) k) as [v|] eqn:Hv.
      * rewrite decide_True by (by eapply dict_get_Some_key).
        simpl. unfold extend. destruct (omap _ graphs) as [|x l]; [done|].
        simpl. by rewrite <-app_assoc.
      * rewrite decide_False; [done|]. by apply dict_get_None.
Qed.
End collect.

(** The views of the two feature tables. *)
Definition view_keys (o : Owner) : GraphData → list string :=
  match o with Nodes => node_features_keys | Edges => edge_features_keys end.
Definition view_getitem (o : Owner) : string → M (option Tensor) :=
  match o with Nodes => node_features_getitem | Edges => edge_features_getitem end.
Definition view_setitem (o : Owner) : string → Tensor → M unit :=
  match o with Nodes => node_features_setitem | Edges => edge_features_setitem end.

Lemma view_getitem_ok o key v g :
  dict_get (owner_table o g) key = Some v → view_getitem o key g = Return v g [].
Proof.
  destruct o; [apply node_features_getitem_ok|apply edge_features_getitem_ok].
Qed.

Lemma view_setitem_ok o k v g :
  shape0 v = owner_count o g →
  view_setitem o k v g
  = Return () (with_owner_table o (dict_set k (Some v) (owner_table o g)) g) [].
Proof.
  destruct o; [apply node_features_setitem_ok|apply edge_features_setitem_ok].
Qed.

Lemma collect_features_ok o graphs :
  Forall (λ g, dict_ok (owner_table o g)) graphs →
  ∃ features,
    collect_features (view_keys o) (view_getitem o) graphs = Ok features ∧
    dict_ok features ∧
    ∀ k, dict_get features k = extend None (gathered o k graphs).
Proof.
  intros Hoks.
  destruct (collect_features_loop o (view_getitem o) (view_getitem_ok o) graphs [] Hoks)
    as (f & Hrun & Hok & Hf); [apply NoDup_nil_2|].
  exists f. split_and!; [|done|done].
  unfold collect_features. rewrite <-Hrun. by destruct o.
Qed.

(** ** Packing: the assignment of the concatenated arrays *)

Section assign.
Variable o : Owner.

(** The entry of the batch table for a name, given the list collected for
    it and the entry [old] that the table had. *)
Definition assigned (collected : option (list (option Tensor))) (old : option (option Tensor))
    : option (option Tensor) :=
  match collected with
  | Some v =>
      if existsb is_None v then old
      else match torch_cat (omap id v) with
           | Ok t => Some (Some t)
           | Err _ => old
           end
  | None => old
  end.

Lemma assign_features_loop : ∀ features big,
  dict_ok features →
  (∀ k v, (k, v) ∈ features → existsb is_None v = false →
          ∃ t, torch_cat (omap id v) = Ok t ∧ shape0 t = owner_count o big) →
  ∃ T, assign_features (view_setitem o) features big = Ok (with_owner_table o T big) ∧
       (dict_ok (owner_table o big) → dict_ok T) ∧
       ∀ k, dict_get T k = assigned (dict_get features k) (dict_get (owner_table o big) k).
Proof.
  unfold assign_features.
  induction features as [|[k0 v0] features IH]; intros big Hok Hcat.
  - exists (owner_table o big). split_and!; [|done|done].
    simpl. by rewrite with_owner_table_id.
  - apply NoDup_cons in Hok as [Hk0 Hok].
    assert (dict_get features k0 = None) as Hnone by (by apply dict_get_None).
    cbn [foldM assign_feature].
    destruct (existsb is_None v0) eqn:Hskip.
    + cbn [mbind result_bind].
      destruct (IH big Hok) as (T & Hrun & HokT & HT).
      { intros k v Hin. apply (Hcat k v). by right. }
      exists T. split_and!; [done|done|].
      intros k. rewrite HT. simpl. case_decide as Hk.
      * subst k. rewrite Hnone. simpl. by rewrite Hskip.
      * done.
    + destruct (Hcat k0 v0 (list_elem_of_here _ _) Hskip) as (t & Ht & Hshape).
      rewrite Ht. cbn [mbind result_bind].
      rewrite (exec_Return _ _ _ _ (view_setitem_ok o k0 t big Hshape)).
      cbn [mbind result_bind].
      destruct (IH (with_owner_table o (dict_set k0 (Some t) (owner_table o big)) big) Hok)
        as (T & Hrun & HokT & HT).
      { intros k v Hin Hs. rewrite owner_count_with. apply (Hcat k v); [by right|done]. }
      exists T. split_and!.
      * by rewrite Hrun, with_owner_table_twice.
      * intros Hb. apply HokT. rewrite owner_table_with. by apply dict_ok_set.
      * intros k. rewrite HT, owner_table_with. simpl. case_decide as Hk.
        -- subst k. rewrite Hnone. simpl. by rewrite Hskip, Ht, dict_get_set_eq.
        -- by rewrite dict_get_set_ne.
Qed.
End assign.

(** ** Packing: the attribute records *)

Lemma copy_attribute_loop (attrs : list AttrRecord) : ∀ k j big tot,
  j + k ≤ length attrs → tot + k ≤ length big →
  foldM (copy_attribute attrs) (seq j k) (big, tot)
  = Ok (take tot big ++ take k (drop j attrs) ++ drop (tot + k) big, tot + k).
Proof.
  induction k as [|k IH]; intros j big tot Hj Htot.
  - simpl. by rewrite Nat.add_0_r, take_drop.
  - destruct (lookup_lt_is_Some_2 attrs j) as [a Ha]; [lia|].
    cbn [seq foldM].
    assert (copy_attribute attrs (big, tot) j = Ok (<[tot:=a]> big, S tot)) as ->.
    { unfold copy_attribute. rewrite (py_index_Some _ _ _ Ha). cbn [mbind result_bind].
      unfold py_setitem. by rewrite decide_True by lia. }
    cbn [mbind result_bind].
    rewrite (IH (S j)); [|lia|rewrite length_insert; lia].
    rewrite (drop_S _ _ _ Ha). f_equal. f_equal; [|lia].
    rewrite take_insert_lt by lia.
    rewrite (take_S_r big tot) with (x := default a (big !! tot)); last first.
    { destruct (lookup_lt_is_Some_2 big tot) as [x Hx]; [lia|]. by rewrite Hx. }
    rewrite insert_app_r_alt by (rewrite length_take; lia).
    rewrite length_take. replace (tot - tot `min` length big) with 0 by lia.
    rewrite drop_insert_lt by lia.
    replace (S tot + k) with (tot + S k) by lia.
    cbn [insert list_insert take]. by rewrite <-app_assoc.
Qed.

Lemma copy_attributes_loop (count : GraphData → nat) (attrs : GraphData → list AttrRecord) :
  ∀ (graphs : list GraphData) big tot,
  Forall (λ g, count g = length (attrs g)) graphs →
  tot + sum_list (count <$> graphs) ≤ length big →
  foldM (λ st g, foldM (copy_attribute (attrs g)) (seq 0 (count g)) st) graphs (big, tot)
  = Ok (take tot big ++ concat (attrs <$> graphs)
          ++ drop (tot + sum_list (count <$> graphs)) big,
        tot + sum_list (count <$> graphs)).
Proof.
  induction graphs as [|g graphs IH]; intros big tot Hcount Hlen.
  - simpl. by rewrite Nat.add_0_r, take_drop.
  - apply Forall_cons in Hcount as [Hg Hcount]. cbv beta in Hg.
    rewrite !fmap_cons in *.
    change (sum_list (count g :: (count <$> graphs)))
      with (count g + sum_list (count <$> graphs)) in *.
    cbn [foldM concat].
    rewrite copy_attribute_loop by lia. cbn [mbind result_bind].
    rewrite IH; [|done|].
    + rewrite drop_0, Hg, firstn_all. rewrite Hg in Hlen. f_equal. f_equal; [|lia].
      assert (length (take tot big ++ attrs g) = tot + length (attrs g)) as Hl.
      { rewrite length_app, length_take. lia. }
      rewrite (app_assoc (take tot big) (attrs g)).
      rewrite take_app_length' by done.
      rewrite <-(Nat.add_assoc tot), <-Hl, drop_app.
      rewrite drop_ge by lia.
      replace (length (take tot big ++ attrs g) + sum_list (count <$> graphs)
               - length (take tot big ++ attrs g))
        with (sum_list (count <$> graphs)) by lia.
      rewrite drop_drop, ?Hl. cbn [app]. rewrite <-!app_assoc. do 4 f_equal. lia.
    + rewrite drop_0, Hg, firstn_all, !length_app, length_take, length_drop.
      rewrite Hg in Hlen. lia.
Qed.

Lemma copy_attributes_ok (count : GraphData → nat) (attrs : GraphData → list AttrRecord)
    (graphs : list GraphData) big :
  Forall (λ g, count g = length (attrs g)) graphs →
  length big = sum_list (count <$> graphs) →
  copy_attributes count attrs graphs big = Ok (concat (attrs <$> graphs)).
Proof.
  intros Hcount Hlen. unfold copy_attributes.
  rewrite copy_attributes_loop by (try done; lia).
  cbn [mbind result_bind fst]. rewrite take_0, drop_ge by lia.
  by rewrite app_nil_r.
Qed.

(** ** Slices of a concatenation *)

Lemma cum_cons x l i : cum (x :: l) (S i) = x + cum l i.
Proof. done. Qed.

Lemma py_slice_app_r {A} (l1 l2 : list A) a b :
  py_slice (l1 ++ l2) (length l1 + a) (length l1 + b) = py_slice l2 a b.
Proof.
  unfold py_slice. rewrite drop_app, drop_ge by lia.
  replace (length l1 + a - length l1) with a by lia.
  replace (length l1 + b - (length l1 + a)) with (b - a) by lia. done.
Qed.

Lemma py_slice_prefix {A} (l1 l2 : list A) :
  py_slice (l1 ++ l2) 0 (0 + length l1) = l1.
Proof.
  unfold py_slice. rewrite drop_0, Nat.sub_0_r. apply take_app_length.
Qed.

Lemma concat_slice {A} (parts : list (list A)) : ∀ i p,
  parts !! i = Some p →
  py_slice (concat parts) (cum (length <$> parts) i) (cum (length <$> parts) i + length p) = p.
Proof.
  induction parts as [|x parts IH]; intros i p Hp; [done|].
  destruct i as [|i]; simpl in Hp.
  - injection Hp as ->. rewrite fmap_cons. cbn [concat]. apply py_slice_prefix.
  - rewrite fmap_cons, cum_cons. cbn [concat].
    rewrite <-Nat.add_assoc, py_slice_app_r. by apply IH.
Qed.

(** ** Concatenation of tensors of one trailing shape *)

Lemma concat_rows_filter (ts : list Tensor) :
  concat (rows <$> filter (λ t, is_empty_1d t = false) ts) = concat (rows <$> ts).
Proof.
  induction ts as [|t ts IH]; [done|].
  rewrite filter_cons. case_decide as Ht.
  - rewrite !fmap_cons. cbn [concat]. by rewrite IH.
  - rewrite fmap_cons. cbn [concat]. rewrite IH.
    apply not_false_is_true in Ht. unfold is_empty_1d in Ht.
    destruct (tshape t); [|done]. by destruct (rows t).
Qed.

Lemma torch_cat_same_shape t0 ts :
  Forall (λ t, tshape t = tshape t0) ts →
  torch_cat (t0 :: ts) = Ok (mkTensor (tshape t0) (concat (rows <$> t0 :: ts))).
Proof.
  intros Hsh. unfold torch_cat.
  assert (Forall (λ t, tshape t = tshape t0) (t0 :: ts)) as Hall by (by constructor).
  pose proof (concat_rows_filter (t0 :: ts)) as Hrows.
  assert (Forall (λ t, tshape t = tshape t0)
            (filter (λ t, is_empty_1d t = false) (t0 :: ts))) as Hfil.
  { apply Forall_forall. intros t Ht. apply list_elem_of_filter in Ht as [_ Ht].
    by apply (proj1 (Forall_forall _ _) Hall). }
  destruct (filter (λ t, is_empty_1d t = false) (t0 :: ts)) as [|t1 ts1] eqn:Hf.
  - rewrite <-Hrows. cbn [fmap list_fmap concat].
    assert (is_empty_1d t0 = true) as He.
    { destruct (is_empty_1d t0) eqn:E; [done|].
      assert (t0 ∈ filter (λ t, is_empty_1d t = false) (t0 :: ts)) as Hin.
      { apply list_elem_of_filter. split; [done|left]. }
      rewrite Hf in Hin. by apply elem_of_nil in Hin. }
    unfold is_empty_1d in He. destruct (tshape t0); [done|discriminate].
  - apply Forall_cons in Hfil as [H1 Hfil].
    rewrite (proj2 (forallb_forall _ _)).
    + by rewrite H1, <-Hrows.
    + intros t Ht. apply bool_decide_eq_true. rewrite H1.
      apply (proj1 (Forall_forall _ _) Hfil). by apply list_elem_of_In.
Qed.

(** ** Packing: the edges *)

(** The edge [e] of a graph placed at the node offset [c]. *)
Definition shift (c : nat) (e : Z * Z) : Z * Z :=
  ((e.1 + Z.of_nat c)%Z, (e.2 + Z.of_nat c)%Z).

(** The edges of the graphs [gs] placed one graph after the other, the
    first at the node offset [c]. *)
Fixpoint stacked (c : nat) (gs : list GraphData) : list (Z * Z) :=
  match gs with
  | [] => []
  | g :: gs' => (shift c <$> edges_of g) ++ stacked (c + get_node_num g) gs'
  end.

Lemma stack_foldl c : ∀ (edges : list (Z * Z)) ei,
  foldl (λ all_edge_indices '(s, t),
           let s := (s + Z.of_nat c)%Z in
           let t := (t + Z.of_nat c)%Z in
           mkEdgeIndex (src all_edge_indices ++ [s]) (tgt all_edge_indices ++ [t]))
        ei edges
  = mkEdgeIndex (src ei ++ (shift c <$> edges).*1) (tgt ei ++ (shift c <$> edges).*2).
Proof.
  induction edges as [|[s t] edges IH]; intros ei.
  - simpl. rewrite !app_nil_r. by destruct ei.
  - cbn [foldl]. rewrite IH. cbn [src tgt]. rewrite !fmap_cons, <-!app_assoc. done.
Qed.

Lemma stack_loop : ∀ gs ei c,
  Forall (λ g, length (src (_edge_indices g)) = length (tgt (_edge_indices g))) gs →
  foldM stack_edges_of gs (ei, c)
  = Ok (mkEdgeIndex (src ei ++ (stacked c gs).*1) (tgt ei ++ (stacked c gs).*2),
        c + sum_list (get_node_num <$> gs)).
Proof.
  induction gs as [|g gs IH]; intros ei c Hlen.
  - simpl. rewrite !app_nil_r, Nat.add_0_r. by destruct ei.
  - apply Forall_cons in Hlen as [Hg Hlen]. cbn [foldM].
    assert (stack_edges_of (ei, c) g
            = Ok (mkEdgeIndex (src ei ++ (shift c <$> edges_of g).*1)
                    (tgt ei ++ (shift c <$> edges_of g).*2), c + get_node_num g)) as ->.
    { unfold stack_edges_of, call. rewrite (get_all_edges_ok _ Hg).
      cbn [mbind result_bind]. by rewrite stack_foldl. }
    cbn [mbind result_bind]. rewrite IH by done. cbn [src tgt stacked].
    rewrite !fmap_app, <-!app_assoc, fmap_cons.
    change (sum_list (get_node_num g :: (get_node_num <$> gs)))
      with (get_node_num g + sum_list (get_node_num <$> gs)).
    by rewrite Nat.add_assoc.
Qed.

Lemma stack_edge_indices_ok gs :
  Forall (λ g, length (src (_edge_indices g)) = length (tgt (_edge_indices g))) gs →
  stack_edge_indices gs = Ok (mkEdgeIndex (stacked 0 gs).*1 (stacked 0 gs).*2).
Proof.
  intros Hlen. unfold stack_edge_indices. by rewrite stack_loop.
Qed.

(** The stacked edges as the concatenation of the graphs' shifted edges. *)
Definition stacked_parts (c : nat) (gs : list GraphData) : list (list (Z * Z)) :=
  imap (λ i g, shift (c + cum (get_node_num <$> gs) i) <$> edges_of g) gs.

Lemma stacked_concat : ∀ gs c, stacked c gs = concat (stacked_parts c gs).
Proof.
  induction gs as [|g gs IH]; intros c; [done|].
  unfold stacked_parts. cbn [stacked imap concat]. rewrite IH.
  rewrite cum_0, Nat.add_0_r. f_equal. f_equal. unfold stacked_parts.
  apply imap_ext. intros i x _. unfold compose. cbv beta.
  rewrite fmap_cons, cum_cons. by rewrite Nat.add_assoc.
Qed.

(** The endpoints of every edge are node ids of the graph. *)
Definition endpoints_in_range (g : GraphData) : Prop :=
  Forall (λ e, (0 ≤ e.1 < Z.of_nat (get_node_num g))%Z ∧
               (0 ≤ e.2 < Z.of_nat (get_node_num g))%Z) (edges_of g).

Lemma stacked_lower_bound : ∀ gs c e,
  Forall endpoints_in_range gs → e ∈ stacked c gs → (Z.of_nat c ≤ e.1)%Z.
Proof.
  induction gs as [|g gs IH]; intros c e Hr He.
  - by apply elem_of_nil in He.
  - apply Forall_cons in Hr as [Hg Hr]. cbn [stacked] in He.
    apply elem_of_app in He as [He|He].
    + apply list_elem_of_fmap in He as (e0 & -> & He0).
      pose proof (proj1 (Forall_forall _ _) Hg e0 He0) as [H1 _]. simpl. lia.
    + pose proof (IH _ _ Hr He). lia.
Qed.

Lemma stacked_NoDup : ∀ gs c,
  Forall endpoints_in_range gs →
  Forall (λ g, NoDup (edges_of g)) gs →
  NoDup (stacked c gs).
Proof.
  induction gs as [|g gs IH]; intros c Hr Hnd; [apply NoDup_nil_2|].
  pose proof Hr as Hr'. apply Forall_cons in Hr' as [Hg Hr'].
  apply Forall_cons in Hnd as [Hndg Hnd]. cbn [stacked].
  apply NoDup_app. split_and!.
  - apply NoDup_fmap_2; [|done].
    intros [a1 a2] [b1 b2] [= H1 H2]. f_equal; lia.
  - intros e He He'. apply list_elem_of_fmap in He as (e0 & -> & He0).
    pose proof (proj1 (Forall_forall _ _) Hg e0 He0) as [H1 _].
    pose proof (stacked_lower_bound _ _ _ Hr' He') as Hlow. simpl in Hlow. lia.
  - by apply IH.
Qed.

Lemma length_stacked : ∀ gs c,
  Forall (λ g, length (src (_edge_indices g)) = length (tgt (_edge_indices g))) gs →
  length (stacked c gs) = sum_list (get_edge_num <$> gs).
Proof.
  induction gs as [|g gs IH]; intros c Hlen; [done|].
  apply Forall_cons in Hlen as [Hg Hlen]. cbn [stacked].
  rewrite length_app, length_fmap, (IH _ Hlen), (length_edges_of _ Hg). done.
Qed.

(** ** Packing: the features carried into the batch *)

(** The array of the feature [k] on the graph [g], if it is present. *)
Definition present (o : Owner) (k : string) (g : GraphData) : option Tensor :=
  match dict_get (owner_table o g) k with
  | Some (Some t) => Some t
  | _ => None
  end.

Definition present_on_all (o : Owner) (k : string) (graphs : list GraphData) : Prop :=
  Forall (λ g, is_Some (present o k g)) graphs.

(** A feature name that is present on one graph is registered, present or
    absent, on every graph. *)
Definition registered_everywhere (o : Owner) (graphs : list GraphData) : Prop :=
  ∀ k g g', g ∈ graphs → g' ∈ graphs →
            is_Some (present o k g) → k ∈ dict_keys (owner_table o g').

(** The arrays of a feature that is present on all graphs have one trailing
    shape. *)
Definition shapes_agree (o : Owner) (graphs : list GraphData) : Prop :=
  ∀ k g g' t t', present_on_all o k graphs → g ∈ graphs → g' ∈ graphs →
                 present o k g = Some t → present o k g' = Some t' →
                 tshape t = tshape t'.

(** Every present array has one row per element. *)
Definition rows_match (o : Owner) (g : GraphData) : Prop :=
  ∀ k t, present o k g = Some t → shape0 t = owner_count o g.

Lemma present_Some o k g t :
  present o k g = Some t ↔ dict_get (owner_table o g) k = Some (Some t).
Proof.
  unfold present. destruct (dict_get (owner_table o g) k) as [[t'|]|]; split;
    intros [=]; by subst.
Qed.

Section packed_features.
Variable o : Owner.
Variable k : string.

Lemma gathered_present_all graphs :
  present_on_all o k graphs →
  gathered o k graphs = Some <$> omap (present o k) graphs ∧
  length (omap (present o k) graphs) = length graphs.
Proof.
  induction 1 as [|g graphs [t Ht] _ [IH1 IH2]]; [done|].
  unfold gathered in *. cbn [omap list_omap]. rewrite Ht.
  apply present_Some in Ht. rewrite Ht. csimpl. by rewrite IH1, IH2.
Qed.

Lemma omap_present_lookup graphs i g :
  present_on_all o k graphs → graphs !! i = Some g →
  omap (present o k) graphs !! i = present o k g.
Proof.
  intros Hall. revert i. induction Hall as [|g0 graphs [t Ht] _ IH]; intros i Hi; [done|].
  cbn [omap list_omap]. rewrite Ht. destruct i as [|i]; simpl in *.
  - injection Hi as <-. done.
  - by apply IH.
Qed.

Lemma shape0_present_all graphs :
  present_on_all o k graphs → Forall (rows_match o) graphs →
  (length ∘ rows) <$> omap (present o k) graphs = owner_count o <$> graphs.
Proof.
  induction 1 as [|g graphs [t Ht] _ IH]; intros Hrows; [done|].
  apply Forall_cons in Hrows as [Hg Hrows].
  cbn [omap list_omap]. rewrite Ht. csimpl. rewrite IH by done.
  f_equal. apply (Hg k t Ht).
Qed.

Lemma length_concat_rows (ts : list Tensor) :
  length (concat (rows <$> ts)) = sum_list ((length ∘ rows) <$> ts).
Proof.
  induction ts as [|t ts IH]; [done|]. csimpl. rewrite length_app, IH. done.
Qed.

(** When no collected array is [None], the feature is present on all
    graphs. *)
Lemma gathered_no_None graphs v :
  registered_everywhere o graphs →
  extend None (gathered o k graphs) = Some v →
  existsb is_None v = false →
  present_on_all o k graphs.
Proof.
  intros Hreg Hext Hnone.
  assert (v = gathered o k graphs ∧ v ≠ []) as [-> Hne].
  { unfold extend in Hext. destruct (gathered o k graphs); [done|].
    by injection Hext as <-. }
  assert (∀ x, x ∈ gathered o k graphs → is_Some x) as Hsome.
  { intros x Hx. destruct x; [done|]. exfalso.
    assert (existsb is_None (gathered o k graphs) = true); [|congruence].
    apply existsb_exists. exists None. split; [by apply list_elem_of_In|done]. }
  assert (∃ g, g ∈ graphs ∧ is_Some (present o k g)) as (g & Hg & Hpg).
  { destruct (gathered o k graphs) as [|x l] eqn:E; [done|].
    assert (x ∈ x :: l) as Hx by left.
    pose proof (Hsome x Hx) as [t ->]. rewrite <-E in Hx.
    apply list_elem_of_omap in Hx as (g & Hg & Hx).
    exists g. split; [done|]. exists t. by apply present_Some. }
  apply Forall_forall. intros g' Hg'.
  pose proof (Hreg k g g' Hg Hg' Hpg) as Hkey.
  destruct (dict_get (owner_table o g') k) as [x|] eqn:Hx.
  - assert (x ∈ gathered o k graphs) as Hin.
    { apply list_elem_of_omap. by exists g'. }
    destruct (Hsome x Hin) as [t ->]. exists t. by apply present_Some.
  - apply dict_get_None in Hx. done.
Qed.
End packed_features.

Lemma omap_id_Some {A} (l : list A) : omap id (Some <$> l) = l.
Proof. induction l as [|x l IH]; [done|]. csimpl. by rewrite IH. Qed.

Lemma existsb_is_None_Some {A} (l : list A) : existsb is_None (Some <$> l) = false.
Proof. induction l as [|x l IH]; [done|]. done. Qed.

Lemma extend_None_inv more v : extend None more = Some v → v = more ∧ more ≠ [].
Proof. unfold extend. destruct more; [done|]. by intros [= <-]. Qed.

Lemma extend_None_cons x more : extend None (x :: more) = Some (x :: more).
Proof. done. Qed.

Lemma features_packed o graphs big :
  graphs ≠ [] →
  Forall (λ g, dict_ok (owner_table o g)) graphs →
  Forall (rows_match o) graphs →
  registered_everywhere o graphs →
  shapes_agree o graphs →
  owner_count o big = sum_list (owner_count o <$> graphs) →
  dict_ok (owner_table o big) →
  (∀ k, present o k big = None) →
  ∃ features T,
    collect_features (view_keys o) (view_getitem o) graphs = Ok features ∧
    assign_features (view_setitem o) features big = Ok (with_owner_table o T big) ∧
    dict_ok T ∧
    (∀ k t, dict_get T k = Some (Some t) → shape0 t = owner_count o big) ∧
    (∀ k, present_on_all o k graphs →
          ∃ t, dict_get T k = Some (Some t) ∧
               rows t = concat (rows <$> omap (present o k) graphs) ∧
               ∀ t', t' ∈ omap (present o k) graphs → tshape t = tshape t').
Proof.
  intros Hne Hoks Hrows Hreg Hshapes Hcount Hokb Hbnone.
  destruct (collect_features_ok o graphs Hoks) as (F & Hcollect & HokF & HF).
  (* the concatenation of a feature that is present on all graphs *)
  assert (∀ k, present_on_all o k graphs →
    ∃ t, torch_cat (omap (present o k) graphs) = Ok t ∧
         shape0 t = owner_count o big ∧
         rows t = concat (rows <$> omap (present o k) graphs) ∧
         ∀ t', t' ∈ omap (present o k) graphs → tshape t = tshape t') as Hcat.
  { intros k Hall.
    destruct (gathered_present_all o k graphs Hall) as [_ Hlen].
    destruct (omap (present o k) graphs) as [|t0 ts] eqn:Hts.
    { destruct graphs; [done|discriminate]. }
    assert (∀ t', t' ∈ t0 :: ts → tshape t' = tshape t0) as Hsame.
    { intros t' Ht'. rewrite <-Hts in Ht'.
      apply list_elem_of_omap in Ht' as (g' & Hg' & Hpg').
      assert (t0 ∈ omap (present o k) graphs) as Ht0 by (rewrite Hts; left).
      apply list_elem_of_omap in Ht0 as (g0 & Hg0 & Hpg0).
      by apply (Hshapes k g' g0 t' t0). }
    exists (mkTensor (tshape t0) (concat (rows <$> t0 :: ts))). split_and!.
    - apply torch_cat_same_shape. apply Forall_forall. intros t' Ht'.
      apply Hsame. by right.
    - unfold shape0. cbn [rows]. rewrite length_concat_rows, <-Hts.
      by rewrite (shape0_present_all o k graphs Hall Hrows), Hcount.
    - done.
    - intros t' Ht'. cbn [tshape]. symmetry. by apply Hsame. }
  destruct (assign_features_loop o F big HokF) as (T & Hassign & HokT & HT).
  { intros k v Hin Hnone.
    assert (dict_get F k = Some v) as Hk by (by apply dict_get_elem).
    rewrite HF in Hk.
    pose proof (gathered_no_None o k graphs v Hreg Hk Hnone) as Hall.
    destruct (Hcat k Hall) as (t & Ht & Hshape & _).
    exists t. split; [|done].
    destruct (gathered_present_all o k graphs Hall) as [Hg _].
    rewrite Hg in Hk. apply extend_None_inv in Hk as [-> _].
    by rewrite omap_id_Some. }
  exists F, T. split_and!; [done|done|by apply HokT| |].
  - intros k t Hk. rewrite HT in Hk.
    assert (dict_get (owner_table o big) k ≠ Some (Some t)) as Hb.
    { intros Hb. apply present_Some in Hb. by rewrite Hbnone in Hb. }
    unfold assigned in Hk. destruct (dict_get F k) as [v|] eqn:HFk; [|done].
    destruct (existsb is_None v) eqn:Hnone; [done|].
    rewrite HF in HFk.
    pose proof (gathered_no_None o k graphs v Hreg HFk Hnone) as Hall.
    destruct (Hcat k Hall) as (t1 & Ht1 & Hshape & _).
    destruct (gathered_present_all o k graphs Hall) as [Hg _].
    assert (omap id v = omap (present o k) graphs) as Hv.
    { rewrite Hg in HFk. apply extend_None_inv in HFk as [-> _]. apply omap_id_Some. }
    rewrite Hv, Ht1 in Hk. by injection Hk as <-.
  - intros k Hall. destruct (Hcat k Hall) as (t & Ht & _ & Hr & Hs).
    exists t. split_and!; [|done|done].
    rewrite HT, HF.
    destruct (gathered_present_all o k graphs Hall) as [Hg Hlen].
    rewrite Hg.
    destruct (omap (present o k) graphs) as [|t0 ts] eqn:Hts.
    { destruct graphs; [done|discriminate]. }
    rewrite fmap_cons, extend_None_cons. unfold assigned.
    change (Some t0 :: (Some <$> ts)) with (Some <$> (t0 :: ts)).
    by rewrite existsb_is_None_Some, omap_id_Some, Ht.
Qed.

(** ** Packing well-formed graphs *)

(** The invariants of the data model on one graph: the feature tables are
    dictionaries, every present array has one row per element (I2), there is
    one attribute record per edge (I1), and the endpoint pairs are distinct
    (I3) pairs of node ids. *)
Definition graph_wf (g : GraphData) : Prop :=
  (∀ o, dict_ok (owner_table o g)) ∧
  (∀ o, rows_match o g) ∧
  length (src (_edge_indices g)) = length (tgt (_edge_indices g)) ∧
  length (_edge_attributes g) = get_edge_num g ∧
  NoDup (edges_of g) ∧
  endpoints_in_range g.

(** The lists of graphs that [to_batch] packs: nonempty, every graph
    well-formed and with at least one node, every feature name that is
    present on a graph registered on all, and one trailing shape for a feature
    that is present on all. *)
Definition packable (graphs : list GraphData) : Prop :=
  graphs ≠ [] ∧
  Forall graph_wf graphs ∧
  Forall (λ g, 0 < get_node_num g) graphs ∧
  (∀ o, registered_everywhere o graphs) ∧
  (∀ o, shapes_agree o graphs).

(** The batch of the graphs, with the feature tables [Tn] and [Te] and the
    index map [m]. *)
Definition packed (graphs : list GraphData) (dev : option string)
    (Tn Te : FeatureTable) (m : gmap (Z * Z) nat) : GraphData :=
  {| _node_attributes := concat (_node_attributes <$> graphs);
     _node_features := Tn;
     _edge_indices := mkEdgeIndex (stacked 0 graphs).*1 (stacked 0 graphs).*2;
     _nids_eid_mapping := m;
     _edge_features := Te;
     _edge_attributes := concat (_edge_attributes <$> graphs);
     graph_attributes := [];
     device := dev;
     _is_batch := true;
     batch := Some (concat (imap (λ i g, replicate (get_node_num g) i) graphs));
     batch_size := Some (length graphs);
     _batch_num_nodes := Some (get_node_num <$> graphs);
     _batch_num_edges := Some (get_edge_num <$> graphs) |}.

(** What the batch tables hold for the features of the graphs. *)
Definition table_packed (o : Owner) (graphs : list GraphData) (total : nat)
    (T : FeatureTable) : Prop :=
  dict_ok T ∧
  (∀ k t, dict_get T k = Some (Some t) → shape0 t = total) ∧
  (∀ k, present_on_all o k graphs →
        ∃ t, dict_get T k = Some (Some t) ∧
             rows t = concat (rows <$> omap (present o k) graphs) ∧
             ∀ t', t' ∈ omap (present o k) graphs → tshape t = tshape t').

Lemma sum_list_pos (l : list nat) : l ≠ [] → Forall (λ x, 0 < x) l → 0 < sum_list l.
Proof. intros Hne Hpos. destruct Hpos; [done|]. simpl. lia. Qed.

Lemma to_batch_packed g0 gs :
  packable (g0 :: gs) →
  ∃ Tn Te,
    to_batch (g0 :: gs)
    = Ok (packed (g0 :: gs) (device g0) Tn Te
            (registered (zip (stacked 0 (g0 :: gs)).*1 (stacked 0 (g0 :: gs)).*2) 0 ∅)) ∧
    table_packed Nodes (g0 :: gs) (sum_list (get_node_num <$> g0 :: gs)) Tn ∧
    table_packed Edges (g0 :: gs) (sum_list (get_edge_num <$> g0 :: gs)) Te.
Proof.
  intros (Hne & Hwf & Hpos & Hreg & Hshapes).
  set (graphs := g0 :: gs) in *.
  set (N := sum_list (get_node_num <$> graphs)).
  assert (0 < N) as HN.
  { apply sum_list_pos; [done|]. by apply Forall_fmap. }
  assert (Forall (λ g, length (src (_edge_indices g)) = length (tgt (_edge_indices g)))
            graphs) as Hlens.
  { eapply Forall_impl; [exact Hwf|]. by intros g (_ & _ & ? & _). }
  (* Step 1 *)
  set (big1 := mkGraphData (default_node_attrs N) res_init_node_features
                 (mkEdgeIndex [] []) ∅ res_init_edge_features [] [] (device g0)
                 true None None None None).
  assert (exec (add_nodes (Z.of_nat N))
            (with_device (device g0) (with_is_batch true (GraphData_init None)))
          = Ok big1) as Hstep1.
  { erewrite exec_Return; [|apply add_nodes_ok; [lia|apply dict_ok_init_node]].
    by rewrite Nat2Z.id. }
  (* Step 2 *)
  destruct (features_packed Nodes graphs big1) as (Fn & Tn & Hcn & Han & HokTn & HTn2 & HTn3);
    try done.
  { eapply Forall_impl; [exact Hwf|]. intros g (Hd & _). apply (Hd Nodes). }
  { eapply Forall_impl; [exact Hwf|]. intros g (_ & Hr & _). apply (Hr Nodes). }
  { simpl. unfold get_node_num. simpl. unfold default_node_attrs.
    by rewrite length_replicate. }
  { apply dict_ok_init_node with (dev := None). }
  { intros k. unfold present. simpl. repeat case_decide; done. }
  (* Step 3 *)
  assert (copy_attributes get_node_num _node_attributes graphs (default_node_attrs N)
          = Ok (concat (_node_attributes <$> graphs))) as Hstep3.
  { apply copy_attributes_ok.
    - by apply Forall_forall.
    - unfold default_node_attrs. by rewrite length_replicate. }
  (* Step 4 *)
  set (S0 := stacked 0 graphs).
  set (big3 := mkGraphData (concat (_node_attributes <$> graphs)) Tn
                 (mkEdgeIndex [] []) ∅ res_init_edge_features [] [] (device g0)
                 true None None None None).
  set (m := registered (zip S0.*1 S0.*2) 0 ∅).
  set (big4 := mkGraphData (concat (_node_attributes <$> graphs)) Tn
                 (mkEdgeIndex S0.*1 S0.*2) m res_init_edge_features
                 (default_edge_attrs (length S0)) [] (device g0)
                 true None None None None).
  assert (exec (add_edges (AList S0.*1) (AList S0.*2)) big3 = Ok big4) as Hstep4.
  { erewrite exec_Return; last first.
    { apply add_edges_fresh_registered.
      - by rewrite !length_fmap.
      - apply dict_ok_init_edge with (dev := None).
      - rewrite zip_fst_snd. apply stacked_NoDup.
        + eapply Forall_impl; [exact Hwf|]. by intros g (_ & _ & _ & _ & _ & ?).
        + eapply Forall_impl; [exact Hwf|]. by intros g (_ & _ & _ & _ & ? & _).
      - intros p _. apply lookup_empty. }
    unfold edges_added, big3, big4. simpl. by rewrite length_fmap. }
  (* Step 5 *)
  assert (length S0 = sum_list (get_edge_num <$> graphs)) as HlenS.
  { by apply length_stacked. }
  destruct (features_packed Edges graphs big4) as (Fe & Te & Hce & Hae & HokTe & HTe2 & HTe3);
    try done.
  { eapply Forall_impl; [exact Hwf|]. intros g (Hd & _). apply (Hd Edges). }
  { eapply Forall_impl; [exact Hwf|]. intros g (_ & Hr & _). apply (Hr Edges). }
  { simpl. unfold get_edge_num. simpl. by rewrite length_fmap. }
  { apply dict_ok_init_edge with (dev := None). }
  { intros k. unfold present. simpl. repeat case_decide; done. }
  (* Step 6 *)
  assert (copy_attributes get_edge_num _edge_attributes graphs (default_edge_attrs (length S0))
          = Ok (concat (_edge_attributes <$> graphs))) as Hstep6.
  { apply copy_attributes_ok.
    - eapply Forall_impl; [exact Hwf|]. by intros g (_ & _ & _ & ? & _).
    - unfold default_edge_attrs. by rewrite length_replicate. }
  exists Tn, Te. split_and!.
  - unfold to_batch. unfold graphs at 1. cbv iota.
    change (sum_list (map get_node_num graphs)) with N.
    rewrite Hstep1. cbn [mbind result_bind].
    change node_features_keys with (view_keys Nodes).
    change node_features_getitem with (view_getitem Nodes).
    change node_features_setitem with (view_setitem Nodes).
    change edge_features_keys with (view_keys Edges).
    change edge_features_getitem with (view_getitem Edges).
    change edge_features_setitem with (view_setitem Edges).
    rewrite Hcn. cbn [mbind result_bind]. rewrite Han. cbn [mbind result_bind].
    cbn [with_owner_table with_node_features big1 _node_attributes].
    cbn [_node_features _edge_indices _nids_eid_mapping _edge_features _edge_attributes
         graph_attributes device _is_batch batch batch_size _batch_num_nodes
         _batch_num_edges].
    rewrite Hstep3. cbn [mbind result_bind].
    rewrite stack_edge_indices_ok by done. cbn [mbind result_bind src tgt].
    cbn [with_node_attributes].
    cbn [_node_attributes _node_features _edge_indices _nids_eid_mapping _edge_features
         _edge_attributes graph_attributes device _is_batch batch batch_size
         _batch_num_nodes _batch_num_edges].
    fold S0.
    change (with_node_attributes (concat (_node_attributes <$> graphs))
              (with_node_features Tn big1)) with big3.
    rewrite Hstep4. cbn [mbind result_bind].
    rewrite Hce. cbn [mbind result_bind]. rewrite Hae. cbn [mbind result_bind].
    cbn [with_owner_table with_edge_features big4].
    cbn [_node_attributes _node_features _edge_indices _nids_eid_mapping _edge_features
         _edge_attributes graph_attributes device _is_batch batch batch_size
         _batch_num_nodes _batch_num_edges].
    change (_edge_attributes (with_edge_features Te big4))
      with (default_edge_attrs (length S0)).
    rewrite Hstep6. cbn [mbind result_bind]. reflexivity.
  - split_and!; [done| |done]. intros k t Hk. rewrite (HTn2 k t Hk).
    simpl. unfold get_node_num. simpl. unfold default_node_attrs.
    by rewrite length_replicate.
  - split_and!; [done| |done]. intros k t Hk. rewrite (HTe2 k t Hk).
    simpl. unfold get_edge_num. simpl. by rewrite length_fmap.
Qed.

Lemma to_batch_ok g0 gs :
  packable (g0 :: gs) →
  ∃ Tn Te m,
    to_batch (g0 :: gs) = Ok (packed (g0 :: gs) (device g0) Tn Te m) ∧
    table_packed Nodes (g0 :: gs) (sum_list (get_node_num <$> g0 :: gs)) Tn ∧
    table_packed Edges (g0 :: gs) (sum_list (get_edge_num <$> g0 :: gs)) Te.
Proof.
  intros Hpack. destruct (to_batch_packed g0 gs Hpack) as (Tn & Te & Hb & HTn & HTe).
  by exists Tn, Te, (registered (zip (stacked 0 (g0 :: gs)).*1 (stacked 0 (g0 :: gs)).*2) 0 ∅).
Qed.

(** ** The round trip *)

Lemma child_table_lookup counts tbl i k : ∀ d0,
  dict_ok tbl →
  dict_get (child_table counts tbl i d0) k =
    match dict_get tbl k with
    | Some (Some v) =>
        Some (Some (tensor_slice v (cum counts i) (cum counts i + counts !!! i)))
    | _ => dict_get d0 k
    end.
Proof.
  unfold child_table.
  induction tbl as [|[k0 v0] tbl IH]; intros d0 Hok; [done|].
  unfold dict_ok in Hok. cbn [dict_keys map fst] in Hok.
  apply NoDup_cons in Hok as [Hk0 Hok]. cbn [foldl fst snd]. rewrite (IH _ Hok).
  cbn [dict_get]. case_decide as Hk.
  - subst k0. apply dict_get_None in Hk0. rewrite Hk0.
    destruct v0 as [v|]; [|done]. by rewrite dict_get_set_eq.
  - destruct (dict_get tbl k) as [[v|]|]; [done| |];
      (destruct v0 as [v0|]; [by rewrite dict_get_set_ne|done]).
Qed.

Lemma length_concat_sum {A} (ls : list (list A)) :
  length (concat ls) = sum_list (length <$> ls).
Proof. induction ls as [|l ls IH]; [done|]. csimpl. by rewrite length_app, IH. Qed.

Lemma child_feature_restored o graphs total T i g k d0 :
  table_packed o graphs total T →
  Forall (rows_match o) graphs →
  graphs !! i = Some g →
  present_on_all o k graphs →
  dict_get (child_table (owner_count o <$> graphs) T i d0) k
  = dict_get (owner_table o g) k.
Proof.
  intros (HokT & _ & HT) Hrows Hg Hall.
  destruct (HT k Hall) as (t & Ht & Hr & Hs).
  rewrite child_table_lookup, Ht by done.
  pose proof (omap_present_lookup o k graphs i g Hall Hg) as Hi.
  destruct (proj1 (Forall_forall _ _) Hall g) as [tg Htg].
  { by eapply list_elem_of_lookup_2. }
  rewrite Htg in Hi. rewrite (proj1 (present_Some o k g tg) Htg). do 2 f_equal.
  pose proof (proj1 (Forall_forall _ _) Hrows g (list_elem_of_lookup_2 _ _ _ Hg) k tg Htg)
    as Hcount.
  assert ((owner_count o <$> graphs) !!! i = length (rows tg)) as ->.
  { apply list_lookup_total_correct. rewrite list_lookup_fmap, Hg. simpl.
    by rewrite <-Hcount. }
  unfold tensor_slice. rewrite Hr.
  rewrite <-(shape0_present_all o k graphs Hall Hrows), list_fmap_compose.
  rewrite concat_slice.
  - rewrite (Hs tg); [by destruct tg|]. by eapply list_elem_of_lookup_2.
  - by rewrite list_lookup_fmap, Hi.
Qed.

Lemma packed_wf graphs dev Tn Te m :
  graphs ≠ [] →
  Forall graph_wf graphs →
  Forall (λ g, 0 < get_node_num g) graphs →
  table_packed Nodes graphs (sum_list (get_node_num <$> graphs)) Tn →
  table_packed Edges graphs (sum_list (get_edge_num <$> graphs)) Te →
  batch_wf (packed graphs dev Tn Te m) (length graphs)
    (get_node_num <$> graphs) (get_edge_num <$> graphs).
Proof.
  intros Hne Hwf Hpos (HokTn & HTn & _) (HokTe & HTe & _).
  assert (Forall (λ g, length (src (_edge_indices g)) = length (tgt (_edge_indices g)))
            graphs) as Hlens.
  { eapply Forall_impl; [exact Hwf|]. by intros g (_ & _ & ? & _). }
  assert (get_node_num (packed graphs dev Tn Te m) = sum_list (get_node_num <$> graphs))
    as Hn.
  { unfold get_node_num. cbn [packed _node_attributes].
    by rewrite length_concat_sum, <-list_fmap_compose. }
  assert (get_edge_num (packed graphs dev Tn Te m) = sum_list (get_edge_num <$> graphs))
    as He.
  { unfold get_edge_num. cbn [packed _edge_indices src].
    by rewrite length_fmap, length_stacked. }
  unfold batch_wf. split_and!; try done.
  - by rewrite length_fmap.
  - by rewrite length_fmap.
  - by apply Forall_fmap.
  - cbn [packed _edge_indices src tgt]. by rewrite !length_fmap.
  - rewrite He. cbn [packed _edge_attributes].
    rewrite length_concat_sum, <-list_fmap_compose. f_equal.
    apply Forall_fmap_ext_1. eapply Forall_impl; [exact Hwf|].
    by intros g (_ & _ & _ & ? & _).
  - intros k t Hin. rewrite Hn. apply (HTn k t). by apply dict_get_elem.
  - intros k t Hin. rewrite He. apply (HTe k t). by apply dict_get_elem.
  - unfold edges_of. cbn [packed _edge_indices src tgt]. rewrite zip_fst_snd.
    apply stacked_NoDup.
    + eapply Forall_impl; [exact Hwf|]. by intros g (_ & _ & _ & _ & _ & ?).
    + eapply Forall_impl; [exact Hwf|]. by intros g (_ & _ & _ & _ & ? & _).
Qed.

(** A property of all the present arrays of a graph, read off its table. *)
Lemma present_Forall o g (P : string → Tensor → Prop) :
  Forall (λ kv, ∀ t, kv.2 = Some t → P kv.1 t) (owner_table o g) →
  ∀ k t, present o k g = Some t → P k t.
Proof.
  intros Hall k t Ht. apply present_Some, dict_get_Some_elem in Ht.
  exact (proj1 (Forall_forall _ _) Hall (k, Some t) Ht t eq_refl).
Qed.

(** Two nodes, the edge [(0,1)] and the node feature [x]. *)
Definition two_nodes_x : GraphData :=
  let g := edge_added 0 1 (nodes_added 2 (GraphData_init None)) in
  with_node_features (dict_set "x" (Some (mkTensor [] [[6%Z]; [7%Z]])) (_node_features g)) g.

Lemma two_nodes_x_built :
  (add_nodes 2 ;; add_edge 0 1 ;; node_features_setitem "x" (mkTensor [] [[6%Z]; [7%Z]]))
    (GraphData_init None)
  = Return () two_nodes_x [].
Proof. vm_compute. reflexivity. Qed.

Ltac table_cases :=
  vm_compute; repeat (apply Forall_cons; split); try apply Forall_nil_2;
  intros ? [=]; subst.

Lemma one_node_x_wf : graph_wf one_node_x.
Proof.
  unfold graph_wf. split_and!; try reflexivity.
  - intros []; apply (bool_decide_unpack _); vm_compute; exact I.
  - intros o; unfold rows_match;
      apply (present_Forall o one_node_x (λ _ t, shape0 t = owner_count o one_node_x));
      destruct o; table_cases; reflexivity.
  - apply (bool_decide_unpack _). vm_compute. exact I.
  - apply Forall_nil_2.
Qed.

Lemma two_nodes_x_wf : graph_wf two_nodes_x.
Proof.
  unfold graph_wf. split_and!; try reflexivity.
  - intros []; apply (bool_decide_unpack _); vm_compute; exact I.
  - intros o; unfold rows_match;
      apply (present_Forall o two_nodes_x (λ _ t, shape0 t = owner_count o two_nodes_x));
      destruct o; table_cases; reflexivity.
  - apply (bool_decide_unpack _). vm_compute. exact I.
  - unfold endpoints_in_range.
    change (edges_of two_nodes_x) with [(0, 1)%Z].
    change (get_node_num two_nodes_x) with 2.
    apply Forall_cons. split; [simpl; lia|apply Forall_nil_2].
Qed.

Lemma x_graphs_packable : packable [one_node_x; two_nodes_x].
Proof.
  unfold packable. split_and!.
  - done.
  - repeat (apply Forall_cons; split); [apply one_node_x_wf|apply two_nodes_x_wf|].
    apply Forall_nil_2.
  - repeat (apply Forall_cons; split); try apply Forall_nil_2;
      cbv beta; [change (get_node_num one_node_x) with 1
                |change (get_node_num two_nodes_x) with 2]; lia.
  - intros o k g g' Hg Hg' [t Ht]. revert k t Ht.
    apply elem_of_cons in Hg as [->|Hg];
      [|apply elem_of_cons in Hg as [->|Hg]; [|by apply elem_of_nil in Hg]];
      (apply elem_of_cons in Hg' as [->|Hg'];
        [|apply elem_of_cons in Hg' as [->|Hg']; [|by apply elem_of_nil in Hg']]);
      destruct o;
      match goal with
      | |- ∀ k t, present ?o _ ?g = _ → _ ∈ dict_keys (owner_table _ ?g') =>
          apply (present_Forall o g (λ k _, k ∈ dict_keys (owner_table o g')))
      end;
      table_cases; repeat constructor.
  - intros o k g g' t t' _ Hg Hg' Ht Ht'. revert k t Ht t' Ht'.
    apply elem_of_cons in Hg as [->|Hg];
      [|apply elem_of_cons in Hg as [->|Hg]; [|by apply elem_of_nil in Hg]];
      (apply elem_of_cons in Hg' as [->|Hg'];
        [|apply elem_of_cons in Hg' as [->|Hg']; [|by apply elem_of_nil in Hg']]);
      destruct o;
      match goal with
      | |- ∀ k t, present ?o _ ?g = _ → ∀ t', present _ _ ?g' = _ → _ =>
          apply (present_Forall o g
                   (λ k t, ∀ t', present o k g' = Some t' → tshape t = tshape t'))
      end;
      table_cases; intros ? [=]; subst; reflexivity.
Qed.

(** C3, amended. For every nonempty list of graphs that satisfy the
    invariants of the data model, that have at least one node each, that
    register on every graph the feature names present on some graph, and that
    agree on the trailing shape of a feature present on all of them,
    [unpack(pack(graphs))] returns a list of the same length whose [i]-th
    graph has the node count, the ordered endpoint lists and the node and
    edge attribute records of the [i]-th graph, and the same array for every
    feature that is present on all the graphs. *)
Theorem C3_unpack_pack_restores (graphs : list GraphData) :
  packable graphs →
  ∃ ret,
    unpack_pack graphs = Ok ret ∧
    length ret = length graphs ∧
    ∀ i g r, graphs !! i = Some g → ret !! i = Some r →
      get_node_num r = get_node_num g ∧
      _edge_indices r = _edge_indices g ∧
      _node_attributes r = _node_attributes g ∧
      _edge_attributes r = _edge_attributes g ∧
      (∀ k, present_on_all Nodes k graphs →
            dict_get (_node_features r) k = dict_get (_node_features g) k) ∧
      (∀ k, present_on_all Edges k graphs →
            dict_get (_edge_features r) k = dict_get (_edge_features g) k).
Proof.
  intros Hpack. pose proof Hpack as (Hne & Hwf & Hpos & Hreg & Hshapes).
  destruct graphs as [|g0 gs]; [done|].
  destruct (to_batch_ok g0 gs Hpack) as (Tn & Te & m & Hb & HTn & HTe).
  set (graphs := g0 :: gs) in *.
  set (b := packed graphs (device g0) Tn Te m) in *.
  set (nn := get_node_num <$> graphs). set (ne := get_edge_num <$> graphs).
  pose proof (packed_wf graphs (device g0) Tn Te m Hne Hwf Hpos HTn HTe) as Hbwf.
  pose proof (from_batch_ok b (length graphs) nn ne Hbwf) as Hfrom.
  exists (child b nn ne <$> seq 0 (length graphs)). split_and!.
  - unfold unpack_pack, call. rewrite Hb. cbn [mbind result_bind]. by rewrite Hfrom.
  - by rewrite length_fmap, length_seq.
  - intros i g r Hg Hr. apply lookup_fmap_seq in Hr as [-> Hi].
    assert (Forall (λ g, length (src (_edge_indices g)) = length (tgt (_edge_indices g)))
              graphs) as Hlens.
    { eapply Forall_impl; [exact Hwf|]. by intros g' (_ & _ & ? & _). }
    pose proof (proj1 (Forall_forall _ _) Hwf g (list_elem_of_lookup_2 _ _ _ Hg))
      as (Hdg & Hrg & Hlg & Hag & Hndg & Hrange).
    assert (nn !!! i = get_node_num g) as Hnni.
    { apply list_lookup_total_correct. unfold nn. by rewrite list_lookup_fmap, Hg. }
    assert (ne !!! i = get_edge_num g) as Hnei.
    { apply list_lookup_total_correct. unfold ne. by rewrite list_lookup_fmap, Hg. }
    assert (_node_attributes (child b nn ne i) = _node_attributes g) as Hna.
    { cbn [child with_edge_attributes with_node_attributes _node_attributes].
      cbn [b packed _node_attributes]. rewrite Hnni. unfold nn, get_node_num.
      rewrite (list_fmap_compose _node_attributes length).
      apply concat_slice. by rewrite list_lookup_fmap, Hg. }
    assert (_edge_attributes (child b nn ne i) = _edge_attributes g) as Hea.
    { cbn [child with_edge_attributes with_node_attributes _edge_attributes].
      cbn [b packed _edge_attributes]. rewrite Hnei, <-Hag.
      assert (ne = length <$> (_edge_attributes <$> graphs)) as ->.
      { unfold ne. rewrite <-list_fmap_compose. apply Forall_fmap_ext_1.
        eapply Forall_impl; [exact Hwf|]. by intros g' (_ & _ & _ & ? & _). }
      apply concat_slice. by rewrite list_lookup_fmap, Hg. }
    assert (child_edges nn ne (edges_of b) i = edges_of g) as Hce.
    { unfold child_edges, edges_of at 1. cbn [b packed _edge_indices src tgt].
      rewrite zip_fst_snd, stacked_concat, Hnei, <-(length_edges_of g Hlg).
      assert (stacked_parts 0 graphs !! i = Some (shift (cum nn i) <$> edges_of g)) as Hp.
      { unfold stacked_parts. by rewrite list_lookup_imap, Hg. }
      assert (ne = length <$> stacked_parts 0 graphs) as ->.
      { unfold ne, stacked_parts. apply list_eq. intros j.
        rewrite !list_lookup_fmap, list_lookup_imap.
        destruct (graphs !! j) as [gj|] eqn:Hgj; [|done]. simpl.
        rewrite length_fmap, length_edges_of; [done|].
        apply (proj1 (Forall_forall _ _) Hlens gj). by eapply list_elem_of_lookup_2. }
      rewrite <-(length_fmap (shift (cum nn i)) (edges_of g)).
      rewrite (concat_slice _ _ _ Hp), <-list_fmap_compose.
      rewrite <-(list_fmap_id (edges_of g)) at 2. apply list_fmap_ext.
      intros j [e1 e2] _. unfold shift. simpl. f_equal; lia. }
    split_and!.
    + unfold get_node_num. by rewrite Hna.
    + cbn [child with_edge_attributes with_node_attributes with_edge_features
           with_node_features _edge_indices child_built edges_added with_edge_indices
           with_nids_eid_mapping nodes_added GraphData_init src tgt].
      rewrite Hce. unfold edges_of. rewrite fst_zip, snd_zip by lia.
      by destruct g as [? ? [] ? ? ? ? ? ? ? ? ? ?].
    + done.
    + done.
    + intros k Hall.
      cbn [child with_edge_attributes with_node_attributes with_edge_features
           with_node_features _node_features].
      apply (child_feature_restored Nodes graphs _ Tn i g k _ HTn); try done.
      eapply Forall_impl; [exact Hwf|]. intros g' (_ & Hr & _). apply (Hr Nodes).
    + intros k Hall.
      cbn [child with_edge_attributes with_node_attributes with_edge_features
           with_node_features _edge_features].
      apply (child_feature_restored Edges graphs _ Te i g k _ HTe); try done.
      eapply Forall_impl; [exact Hwf|]. intros g' (_ & Hr & _). apply (Hr Edges).
Qed.

Lemma C3_unpack_pack_restores_witness :
  packable [one_node_x; two_nodes_x] ∧
  ∃ ret,
    unpack_pack [one_node_x; two_nodes_x] = Ok ret ∧
    length ret = 2 ∧
    ∀ i g r, [one_node_x; two_nodes_x] !! i = Some g → ret !! i = Some r →
      get_node_num r = get_node_num g ∧
      _edge_indices r = _edge_indices g ∧
      _node_attributes r = _node_attributes g ∧
      _edge_attributes r = _edge_attributes g ∧
      (∀ k, present_on_all Nodes k [one_node_x; two_nodes_x] →
            dict_get (_node_features r) k = dict_get (_node_features g) k) ∧
      (∀ k, present_on_all Edges k [one_node_x; two_nodes_x] →
            dict_get (_edge_features r) k = dict_get (_edge_features g) k).
Proof.
  split; [exact x_graphs_packable|].
  exact (C3_unpack_pack_restores [one_node_x; two_nodes_x] x_graphs_packable).
Defined.

(** ** Growth and feature writes keep the arrays aligned *)

(** Every array that is present in the table has [n] rows. *)
Definition table_rows (d : FeatureTable) (n : nat) : Prop :=
  ∀ k t, dict_get d k = Some (Some t) → shape0 t = n.

Lemma rows_match_table o g : rows_match o g ↔ table_rows (owner_table o g) (owner_count o g).
Proof.
  unfold rows_match, table_rows. split; intros H k t Hk; apply (H k t);
    by apply present_Some.
Qed.

Lemma table_rows_pad d n k : table_rows d n → table_rows (pad_table k d) (n + k).
Proof.
  intros Hd key t. rewrite dict_get_pad_table.
  destruct (dict_get d key) as [[t0|]|] eqn:Hkey; [|done..].
  intros [= <-]. unfold shape0. simpl. rewrite length_app, length_replicate.
  f_equal. apply (Hd key t0 Hkey).
Qed.

Lemma table_rows_set d n key t :
  table_rows d n → shape0 t = n → table_rows (dict_set key (Some t) d) n.
Proof.
  intros Hd Ht k t'. destruct (decide (key = k)) as [->|Hne].
  - rewrite dict_get_set_eq. by intros [= <-].
  - rewrite dict_get_set_ne by done. apply Hd.
Qed.

Lemma pad_table_pad_table a b d : pad_table b (pad_table a d) = pad_table (a + b) d.
Proof.
  unfold pad_table. rewrite <-list_fmap_compose. apply list_fmap_ext.
  intros _ [k [t|]] _; [|done]. simpl. do 3 f_equal.
  by rewrite <-app_assoc, replicate_add.
Qed.

Lemma tensor_setitem_shape0 old sel value t :
  tensor_setitem old sel value = Ok t → shape0 t = shape0 old.
Proof.
  unfold tensor_setitem. destruct (selected_rows (shape0 old) sel) as [idx|]; [|done].
  cbn [mbind result_bind]. destruct (broadcast_to _ _ _) as [data|]; [|done].
  intros [= <-]. unfold shape0. cbn [rows].
  generalize (zip idx (chunks (length idx) (numel (tshape old)) data)).
  generalize (rows old). intros rs l. revert rs.
  induction l as [|[i r] l IH]; intros rs; [done|].
  cbn [foldl]. by rewrite IH, length_insert.
Qed.

Lemma pop_all_lengths d : ∀ srcs tgts srcs' tgts',
  length srcs = length tgts →
  pop_all d srcs tgts = Ok (srcs', tgts') → length srcs' = length tgts'.
Proof.
  induction d as [|x d IH]; intros srcs tgts srcs' tgts' Hlen; cbn [pop_all].
  - by intros [= <- <-].
  - unfold py_pop. repeat case_decide; try done. cbn [mbind result_bind].
    apply IH. rewrite !length_app, !length_take, !length_drop. lia.
Qed.

(** The counts that the data model keeps aligned: the two endpoint lists,
    the edge attribute records, and the rows of every array that is
    present; the names of a table are distinct. *)
Definition aligned (g : GraphData) : Prop :=
  length (src (_edge_indices g)) = length (tgt (_edge_indices g)) ∧
  length (_edge_attributes g) = get_edge_num g ∧
  (∀ o, dict_ok (owner_table o g)) ∧
  (∀ o, rows_match o g).

(** The methods that change a graph. *)
Inductive Mutation :=
| AddNodes (node_num : Z)
| AddEdge (s t : Z)
| AddEdges (s t : IntOrList)
| SetNodeFeatures (nodes : Selector) (new_data : list (string * Tensor))
| SetEdgeFeature (edges : Selector) (new_data : list (string * Tensor)).

Definition run (op : Mutation) : M unit :=
  match op with
  | AddNodes node_num => add_nodes node_num
  | AddEdge s t => add_edge s t
  | AddEdges s t => add_edges s t
  | SetNodeFeatures nodes new_data => set_node_features nodes new_data
  | SetEdgeFeature edges new_data => set_edge_feature edges new_data
  end.

Lemma aligned_dict_ok o g : aligned g → dict_ok (owner_table o g).
Proof. intros (_ & _ & H & _). apply H. Qed.

Lemma aligned_with_nids_eid_mapping m g : aligned g → aligned (with_nids_eid_mapping m g).
Proof.
  intros (H1 & H2 & H3 & H4). by split_and!.
Qed.

Lemma aligned_nodes_added k g : aligned g → aligned (nodes_added k g).
Proof.
  intros (H1 & H2 & H3 & H4). split_and!; try done.
  - intros []; [|apply (H3 Edges)]. apply dict_ok_pad_table, (H3 Nodes).
  - intros []; [|apply (H4 Edges)]. apply rows_match_table.
    cbn [owner_table owner_count nodes_added with_node_features _node_features].
    unfold get_node_num.
    cbn [nodes_added with_node_features with_node_attributes _node_attributes].
    rewrite length_app. unfold default_node_attrs. rewrite length_replicate.
    apply table_rows_pad. apply (rows_match_table Nodes), H4.
Qed.

Lemma aligned_edges_added srcs tgts m g :
  length srcs = length tgts → aligned g → aligned (edges_added srcs tgts m g).
Proof.
  intros Hlen (H1 & H2 & H3 & H4). split_and!.
  - cbn. rewrite !length_app. lia.
  - unfold get_edge_num. cbn. rewrite !length_app. unfold default_edge_attrs.
    rewrite length_replicate. unfold get_edge_num in H2. lia.
  - intros []; [apply (H3 Nodes)|]. apply dict_ok_pad_table, (H3 Edges).
  - intros []; [apply (H4 Nodes)|]. apply rows_match_table.
    cbn [owner_table owner_count edges_added with_edge_features _edge_features].
    unfold get_edge_num. cbn. rewrite length_app.
    apply table_rows_pad. apply (rows_match_table Edges), H4.
Qed.

Lemma aligned_set_feature o key t g :
  aligned g → shape0 t = owner_count o g →
  aligned (with_owner_table o (dict_set key (Some t) (owner_table o g)) g).
Proof.
  intros (H1 & H2 & H3 & H4) Ht. destruct o.
  - split_and!; try done.
    + intros []; [|apply (H3 Edges)]. apply dict_ok_set, (H3 Nodes).
    + intros []; [|apply (H4 Edges)]. apply rows_match_table.
      apply table_rows_set; [|done]. exact (proj1 (rows_match_table Nodes g) (H4 Nodes)).
  - split_and!; try done.
    + intros []; [apply (H3 Nodes)|]. apply dict_ok_set, (H3 Edges).
    + intros []; [apply (H4 Nodes)|]. apply rows_match_table.
      apply table_rows_set; [|done]. exact (proj1 (rows_match_table Edges g) (H4 Edges)).
Qed.

Lemma add_edges_final s t g :
  aligned g → aligned (final (add_edges s t g)).
Proof.
  intros Hg.
  destruct (check_and_expand (int_to_list s) (int_to_list t)) as [[a b]|e] eqn:Hce.
  - pose proof (check_and_expand_length _ _ _ _ Hce) as Hlen.
    assert (add_edges s t g = add_edges (AList a) (AList b) g) as ->.
    { unfold add_edges. cbn [int_to_list].
      erewrite (bind_lift_Ok (check_and_expand (int_to_list s) (int_to_list t))) by done.
      by erewrite (bind_lift_Ok (check_and_expand a b))
        by (by apply check_and_expand_same_length). }
    rewrite add_edges_lists; [|done|apply (aligned_dict_ok Edges g Hg)].
    destruct (register_pure _ _ _ _) as [[m' d] w'].
    destruct (pop_all _ _ _) as [[srcs' tgts']|e] eqn:Hpop; cbn [final].
    + apply aligned_edges_added; [|done]. by eapply pop_all_lengths.
    + by apply aligned_with_nids_eid_mapping.
  - unfold add_edges. by erewrite bind_lift_Err.
Qed.

Lemma write_features_final o sel new_data g :
  aligned g → aligned (final (write_features o sel new_data g)).
Proof.
  intros Hg.
  assert (∀ (body : string → M unit),
            (∀ key g', final (body key g') = g') →
            final (for_each (dict_keys new_data) body g) = g) as Hcheck.
  { intros body Hbody. apply (for_each_final (λ g', g' = g)); [|done].
    intros key g' _ ->. apply Hbody. }
  destruct o; cbn [write_features].
  - unfold set_node_features. rewrite final_bind.
    match goal with |- context [for_each (dict_keys new_data) ?body g] =>
      pose proof (Hcheck body) as Hc; destruct (for_each (dict_keys new_data) body g)
        as [[] g1 w|e g1 w] eqn:Hrun end.
    all: cbn [final] in Hc; rewrite Hc; try done.
    2,3: intros key g'; rewrite bind_get_self; destruct (is_new_feature _ _); [|done];
         destruct (negb (is_slice sel)); [done|]; rewrite final_bind;
         destruct (covers_all sel (get_node_num g')) as [[]|]; done.
    apply (for_each_final aligned); [|done].
    intros [key value] g' _ Hg'. rewrite bind_get_self, final_bind.
    unfold py_assert. case_bool_decide as Hshape; [|done]. cbn.
    destruct (dict_get (_node_features g') key) as [[old|]|] eqn:Hkey.
    + destruct (eq_slice_all sel).
      * by apply (aligned_set_feature Nodes).
      * rewrite final_bind.
        destruct (tensor_setitem old sel value) as [t|] eqn:Hset; cbn; [|done].
        apply (aligned_set_feature Nodes); [done|].
        rewrite (tensor_setitem_shape0 _ _ _ _ Hset).
        destruct Hg' as (_ & _ & _ & Hrows).
        apply (Hrows Nodes key old). by apply present_Some.
    + by apply (aligned_set_feature Nodes).
    + by apply (aligned_set_feature Nodes).
  - unfold set_edge_feature. rewrite final_bind.
    match goal with |- context [for_each (dict_keys new_data) ?body g] =>
      pose proof (Hcheck body) as Hc; destruct (for_each (dict_keys new_data) body g)
        as [[] g1 w|e g1 w] eqn:Hrun end.
    all: cbn [final] in Hc; rewrite Hc; try done.
    2,3: intros key g'; rewrite bind_get_self; destruct (is_new_feature _ _); [|done];
         destruct (negb (is_slice sel)); [done|]; rewrite final_bind;
         destruct (covers_all sel (get_edge_num g')) as [[]|]; done.
    apply (for_each_final aligned); [|done].
    intros [key value] g' _ Hg'. rewrite bind_get_self, final_bind.
    unfold py_assert. case_bool_decide as Hshape; [|done]. cbn.
    destruct (dict_get (_edge_features g') key) as [[old|]|] eqn:Hkey.
    + destruct (eq_slice_all sel).
      * by apply (aligned_set_feature Edges).
      * rewrite final_bind.
        destruct (tensor_setitem old sel value) as [t|] eqn:Hset; cbn; [|done].
        apply (aligned_set_feature Edges); [done|].
        rewrite (tensor_setitem_shape0 _ _ _ _ Hset).
        destruct Hg' as (_ & _ & _ & Hrows).
        apply (Hrows Edges key old). by apply present_Some.
    + by apply (aligned_set_feature Edges).
    + by apply (aligned_set_feature Edges).
Qed.

Lemma aligned_init dev : aligned (GraphData_init dev).
Proof.
  split_and!; try done.
  - intros []; [apply dict_ok_init_node|apply dict_ok_init_edge].
  - intros [] k t; unfold present; cbn; repeat case_decide; done.
Qed.

(** X1. The counts that the data model keeps aligned stay aligned under
    every mutating method, whether the call returns or raises: in the state
    that [add_nodes], [add_edge], [add_edges], [set_node_features] or
    [set_edge_feature] leaves, the endpoint lists have one length, there is
    one attribute record per edge, the names of each feature table are
    distinct and every array that is present has one row per node (or per
    edge). *)
Theorem aligned_preserved (op : Mutation) (g : GraphData) :
  aligned g → aligned (final (run op g)).
Proof.
  intros Hg. destruct op as [k|s t|s t|sel new_data|sel new_data]; cbn [run].
  - destruct (decide (0 < k)%Z) as [Hk|Hk].
    + rewrite add_nodes_ok; [|done|apply (aligned_dict_ok Nodes g Hg)]. by apply aligned_nodes_added.
    + by rewrite add_nodes_not_positive by lia.
  - destruct (_nids_eid_mapping g !! (s, t)) as [e|] eqn:Hst.
    + by erewrite add_edge_duplicate.
    + rewrite add_edge_new; [|done|apply (aligned_dict_ok Edges g Hg)].
      by apply (aligned_edges_added [s] [t]).
  - by apply add_edges_final.
  - by apply (write_features_final Nodes).
  - by apply (write_features_final Edges).
Qed.

Lemma aligned_preserved_witness :
  aligned (GraphData_init None) ∧
  aligned (final (run (AddEdges (AList [0; 0]%Z) (AList [1; 1]%Z)) (GraphData_init None))).
Proof.
  split; [apply aligned_init|]. apply aligned_preserved, aligned_init.
Defined.

(** ** How the growth operations compose *)

Lemma nodes_added_nodes_added a b g :
  nodes_added b (nodes_added a g) = nodes_added (a + b) g.
Proof.
  destruct g as [a1 a2 a3 a4 a5 a6 a7 a8 a9 a10 a11 a12 a13].
  unfold nodes_added, with_node_features, with_node_attributes.
  cbn [_node_attributes _node_features _edge_indices _nids_eid_mapping _edge_features
       _edge_attributes graph_attributes device _is_batch batch batch_size
       _batch_num_nodes _batch_num_edges].
  rewrite pad_table_pad_table. unfold default_node_attrs.
  by rewrite <-app_assoc, <-replicate_add.
Qed.

(** X2. Adding [a] nodes and then [b] nodes is adding [a + b] nodes at
    once: both leave the same graph, with the same zero padding of the
    arrays that are present. *)
Theorem add_nodes_add_nodes (a b : Z) (g : GraphData) :
  (0 < a)%Z → (0 < b)%Z → dict_ok (_node_features g) →
  (add_nodes a ;; add_nodes b) g = add_nodes (a + b) g.
Proof.
  intros Ha Hb Hok.
  erewrite bind_Return; [|by apply add_nodes_ok].
  rewrite after_warnings_nil, !add_nodes_ok; try done; try lia.
  - by rewrite nodes_added_nodes_added, Z2Nat.inj_add by lia.
  - cbn. by apply dict_ok_pad_table.
Qed.

Lemma add_nodes_add_nodes_witness :
  (add_nodes 2 ;; add_nodes 3) three_nodes_feat = add_nodes (2 + 3) three_nodes_feat.
Proof.
  apply add_nodes_add_nodes; [lia|lia|]. apply (bool_decide_unpack _). vm_compute. exact I.
Defined.

(** *** The edges that [add_edges] keeps *)

(** The pairs that are not in [seen], each at its first occurrence. *)
Fixpoint first_new (seen : gset (Z * Z)) (pairs : list (Z * Z)) : list (Z * Z) :=
  match pairs with
  | [] => []
  | p :: ps =>
      if decide (p ∈ seen) then first_new seen ps
      else p :: first_new ({[p]} ∪ seen) ps
  end.

(** The pairs that are passed over, in the order of the call. *)
Fixpoint skipped (seen : gset (Z * Z)) (pairs : list (Z * Z)) : list (Z * Z) :=
  match pairs with
  | [] => []
  | p :: ps =>
      if decide (p ∈ seen) then p :: skipped seen ps
      else skipped ({[p]} ∪ seen) ps
  end.

Lemma first_new_sublist : ∀ pairs seen, first_new seen pairs `sublist_of` pairs.
Proof.
  induction pairs as [|p ps IH]; intros seen; cbn [first_new]; [done|].
  case_decide; [apply sublist_cons|apply sublist_skip]; apply IH.
Qed.

Lemma first_new_elem : ∀ pairs seen p,
  p ∈ first_new seen pairs ↔ p ∈ pairs ∧ p ∉ seen.
Proof.
  induction pairs as [|q ps IH]; intros seen p; cbn [first_new].
  - split; [by intros ?%elem_of_nil|by intros [?%elem_of_nil _]].
  - case_decide as Hq.
    + rewrite IH, elem_of_cons. split; [tauto|]. intros [[->|?] ?]; [done|tauto].
    + rewrite !elem_of_cons, IH, not_elem_of_union, elem_of_singleton. split.
      * intros [->|[? [? ?]]]; tauto.
      * intros [[->|?] ?]; [tauto|]. destruct (decide (p = q)) as [->|]; tauto.
Qed.

Lemma first_new_NoDup : ∀ pairs seen, NoDup (first_new seen pairs).
Proof.
  induction pairs as [|q ps IH]; intros seen; cbn [first_new]; [constructor|].
  case_decide; [apply IH|]. constructor; [|apply IH].
  rewrite first_new_elem, not_elem_of_union, elem_of_singleton. tauto.
Qed.

Lemma first_new_fresh : ∀ pairs seen,
  NoDup pairs → (∀ p, p ∈ pairs → p ∉ seen) → first_new seen pairs = pairs.
Proof.
  induction pairs as [|q ps IH]; intros seen Hnd Hfresh; cbn [first_new]; [done|].
  apply NoDup_cons in Hnd as [Hq Hnd].
  rewrite decide_False by (apply Hfresh; left). f_equal. apply IH; [done|].
  intros p Hp. pose proof (Hfresh p (list_elem_of_further _ _ _ Hp)).
  rewrite not_elem_of_union, elem_of_singleton. split; [|done]. by intros ->.
Qed.

(** The positions of [d] increase, starting at [lo] or later. *)
Fixpoint increasing_from (lo : nat) (d : list nat) : Prop :=
  match d with
  | [] => True
  | x :: d' => lo ≤ x ∧ increasing_from (S x) d'
  end.

Lemma increasing_from_last : ∀ d lo x, increasing_from lo (d ++ [x]) → lo ≤ x.
Proof.
  induction d as [|y d IH]; intros lo x; cbn [app increasing_from].
  - lia.
  - intros [? Hd]. specialize (IH _ _ Hd). lia.
Qed.

Lemma increasing_from_snoc : ∀ d lo x,
  increasing_from lo (d ++ [x]) → increasing_from lo d ∧ Forall (λ y, y < x) d.
Proof.
  induction d as [|y d IH]; intros lo x; cbn [app increasing_from].
  - by split; [|constructor].
  - intros [Hlo Hd]. destruct (IH _ _ Hd) as [Hd' Hlt]. split_and!; [done..|].
    constructor; [|done]. apply increasing_from_last in Hd. lia.
Qed.

Lemma foldr_delete_zip {A B} (d : list nat) : ∀ (l : list A) (k : list B),
  zip (foldr delete l d) (foldr delete k d) = foldr delete (zip l k) d.
Proof.
  induction d as [|x d IH]; intros l k; cbn [foldr]; [done|].
  rewrite <-IH. generalize (foldr delete l d) (foldr delete k d). clear.
  intros l. revert x. induction l as [|a l IH]; intros [|x] [|b k]; cbn; try done.
  - by destruct l.
  - f_equal. apply IH.
Qed.

Lemma pop_all_sorted (d : list nat) : ∀ (srcs tgts : list Z) lo,
  length srcs = length tgts →
  increasing_from lo d → Forall (λ x, x < length srcs) d →
  pop_all (reverse d) srcs tgts = Ok (foldr delete srcs d, foldr delete tgts d).
Proof.
  induction d as [|x d IH] using rev_ind; intros srcs tgts lo Hlen Hs Hb; [done|].
  rewrite reverse_app. change (reverse [x]) with [x]. cbn [app pop_all].
  apply Forall_app in Hb as [Hb Hx]. apply Forall_inv in Hx. cbv beta in Hx.
  apply increasing_from_snoc in Hs as [Hs Hlt].
  unfold py_pop. rewrite !decide_True by lia. cbn [mbind result_bind].
  rewrite <-!delete_take_drop, !foldr_app. cbn [foldr].
  apply (IH _ _ lo).
  - rewrite !length_delete; [lia| |]; apply lookup_lt_is_Some; lia.
  - done.
  - rewrite length_delete by (apply lookup_lt_is_Some; lia).
    eapply Forall_impl; [exact Hlt|]. cbn. lia.
Qed.

Lemma register_pure_spec cur : ∀ pairs i m m' d w,
  register_pure pairs cur i m = (m', d, w) →
  increasing_from i d ∧
  Forall (λ x, x < i + length pairs) d ∧
  (∀ pre : list (Z * Z), length pre = i →
     foldr delete (pre ++ pairs) d = pre ++ first_new (dom m) pairs) ∧
  w = DuplicateEdge <$> skipped (dom m) pairs.
Proof.
  induction pairs as [|p ps IH]; intros i m m' d w; cbn [register_pure].
  - intros [= <- <- <-]. split_and!; [done|constructor| |done].
    intros pre _. done.
  - destruct (m !! p) as [e|] eqn:Hp.
    + destruct (register_pure ps cur (S i) m) as [[m1 d1] w1] eqn:Hrec.
      intros [= <- <- <-]. destruct (IH _ _ _ _ _ Hrec) as (Hs & Hb & Hdel & Hw).
      assert (p ∈ dom m) as Hin by (apply elem_of_dom; eauto).
      split_and!.
      * done.
      * constructor; [cbn; lia|]. eapply Forall_impl; [exact Hb|]. cbn. lia.
      * intros pre Hpre. cbn [foldr first_new]. rewrite decide_True by done.
        rewrite (cons_middle p pre ps), app_assoc, Hdel
          by (rewrite length_app; cbn; lia).
        rewrite <-app_assoc. cbn [app]. rewrite <-Hpre. apply delete_middle.
      * cbn [skipped]. rewrite decide_True by done. by rewrite Hw.
    + intros Hrec. destruct (IH _ _ _ _ _ Hrec) as (Hs & Hb & Hdel & Hw).
      assert (p ∉ dom m) as Hin by (by apply not_elem_of_dom).
      rewrite dom_insert_L in Hdel, Hw.
      split_and!.
      * clear -Hs. destruct d as [|x d]; [done|]. cbn in *. split; [lia|tauto].
      * eapply Forall_impl; [exact Hb|]. cbn. lia.
      * intros pre Hpre. cbn [first_new]. rewrite decide_False by done.
        rewrite (cons_middle p pre ps), app_assoc, Hdel
          by (rewrite length_app; cbn; lia).
        by rewrite <-app_assoc.
      * cbn [skipped]. by rewrite decide_False by done.
Qed.

Lemma edges_of_edges_added srcs tgts m g :
  length (src (_edge_indices g)) = length (tgt (_edge_indices g)) →
  edges_of (edges_added srcs tgts m g) = edges_of g ++ zip srcs tgts.
Proof. intros Hlen. unfold edges_of. cbn. by rewrite zip_with_app. Qed.

(** *** One list object for both arguments *)

Lemma add_edges_one_list_unfold l g :
  dict_ok (_edge_features g) →
  add_edges_one_list l g
  = let '(m', d, w) :=
      register_pure (zip l l) (length (_edge_attributes g)) 0 (_nids_eid_mapping g) in
    match pop_all_one_list (reverse d) l with
    | Ok l' => Return () (edges_added l' l' m' g) w
    | Err e => Raise e (with_nids_eid_mapping m' g) w
    end.
Proof.
  intros Hok. unfold add_edges_one_list. cbn [int_to_list].
  erewrite bind_lift_Ok; [|by apply check_and_expand_same_length].
  cbv beta iota.
  erewrite bind_Return; last first.
  { unfold py_assert. rewrite bool_decide_eq_true_2 by done. reflexivity. }
  rewrite after_warnings_nil, bind_get_self.
  erewrite bind_Return; [|apply endpoint_check_loop].
  rewrite after_warnings_nil.
  unfold mbind at 1. unfold M_bind. rewrite add_edges_register_eq by done.
  destruct (register_pure _ _ _ _) as [[m' d] w].
  destruct (pop_all_one_list (reverse d) l) as [l'|e] eqn:Hpop.
  - erewrite bind_lift_Ok by done. cbv beta iota.
    rewrite !bind_modify.
    rewrite (pad_features_ok edge_features_lens); [|by destruct g].
    simpl. rewrite app_nil_r. by destruct g as [? ? [] ? ? ? ? ? ? ? ? ? ?].
  - erewrite bind_lift_Err by done. simpl. by rewrite app_nil_r.
Qed.

(** A last pair that is passed over is the last position to be popped. *)
Lemma register_pure_last cur p : ∀ ps i m,
  p ∈ dom m ∨ p ∈ ps →
  ∃ m' d w, register_pure (ps ++ [p]) cur i m = (m', d ++ [i + length ps], w) ∧
            p ∈ dom m'.
Proof.
  induction ps as [|q ps IH]; intros i m Hp; cbn [app register_pure].
  - destruct Hp as [Hp|Hp]; [|by apply elem_of_nil in Hp].
    pose proof Hp as [e He]%elem_of_dom. rewrite He.
    exists m, [], [DuplicateEdge p]. by rewrite Nat.add_0_r.
  - destruct (m !! q) as [e|] eqn:Hq.
    + destruct (IH (S i) m) as (m' & d & w & Hrec & Hin).
      { destruct Hp as [Hp|Hp]; [by left|].
        apply elem_of_cons in Hp as [->|Hp]; [left; apply elem_of_dom; eauto|by right]. }
      rewrite Hrec. exists m', (i :: d), (DuplicateEdge q :: w).
      split; [|done]. cbn [length app]. by rewrite Nat.add_succ_r.
    + destruct (IH (S i) (<[q := cur + i]> m)) as (m' & d & w & Hrec & Hin).
      { rewrite dom_insert_L, elem_of_union, elem_of_singleton.
        destruct Hp as [Hp|Hp]; [by left; right|].
        apply elem_of_cons in Hp as [->|Hp]; [by left; left|by right]. }
      rewrite Hrec. exists m', d, w. split; [|done]. cbn [length]. by rewrite Nat.add_succ_r.
Qed.

Lemma elem_of_zip_same {A} (x : A) (l : list A) : x ∈ l → (x, x) ∈ zip l l.
Proof.
  induction l as [|y l IH]; [by intros ?%elem_of_nil|].
  intros [->|Hx]%elem_of_cons; [left|right; by apply IH].
Qed.

Lemma zip_same_fmap {A} (l : list A) : zip l l = (λ x, (x, x)) <$> l.
Proof. induction l as [|y l IH]; [done|]. cbn. by rewrite <-IH. Qed.

(** X3. A call of [add_edges] with two separate list objects of one length
    returns, and appends to the edges of the graph the pairs that the graph
    does not hold yet, each once, at its first occurrence and in the order of
    the call, with one default attribute record for each; every pair that is
    passed over is reported by a warning, in the order of the call, and the
    nodes are as they were. When one list object is passed for both
    arguments, the call does the same as long as no pair is passed over;
    when its last pair is passed over, both pops take from the one list and
    the call raises [IndexError], after the new pairs were registered and
    before an edge is stored. *)
Theorem add_edges_first_occurrences (g : GraphData) :
  dict_ok (_edge_features g) →
  length (src (_edge_indices g)) = length (tgt (_edge_indices g)) →
  (∀ srcs tgts : list Z,
     srcs ≠ [] →
     length srcs = length tgts →
     ∃ g',
       add_edges (AList srcs) (AList tgts) g
       = Return () g' (DuplicateEdge <$> skipped (dom (_nids_eid_mapping g)) (zip srcs tgts)) ∧
       edges_of g' = edges_of g ++ first_new (dom (_nids_eid_mapping g)) (zip srcs tgts) ∧
       _edge_attributes g'
       = _edge_attributes g
           ++ default_edge_attrs
                (length (first_new (dom (_nids_eid_mapping g)) (zip srcs tgts))) ∧
       _node_attributes g' = _node_attributes g ∧
       _node_features g' = _node_features g) ∧
  (∀ l : list Z,
     NoDup l → (∀ x, x ∈ l → (x, x) ∉ dom (_nids_eid_mapping g)) →
     add_edges_one_list l g = add_edges (AList l) (AList l) g) ∧
  (∀ (l0 : list Z) (x : Z),
     (x, x) ∈ dom (_nids_eid_mapping g) ∨ x ∈ l0 →
     ∃ g' w,
       add_edges_one_list (l0 ++ [x]) g = Raise IndexError g' w ∧
       (x, x) ∈ dom (_nids_eid_mapping g') ∧
       edges_of g' = edges_of g ∧
       _edge_attributes g' = _edge_attributes g).
Proof.
  intros Hok Hg. split_and!.
  - intros srcs tgts _ Hlen. rewrite add_edges_lists by done.
    destruct (register_pure _ _ _ _) as [[m' d] w] eqn:Hreg.
    apply register_pure_spec in Hreg as (Hs & Hb & Hdel & ->).
    specialize (Hdel [] eq_refl). cbn [app] in Hdel.
    assert (pop_all (reverse d) srcs tgts = Ok (foldr delete srcs d, foldr delete tgts d))
      as Hpop.
    { apply (pop_all_sorted _ _ _ 0); [done|done|].
      eapply Forall_impl; [exact Hb|]. cbn. rewrite length_zip_with. lia. }
    rewrite Hpop. pose proof (pop_all_lengths _ _ _ _ _ Hlen Hpop) as Hlen'.
    eexists. split; [reflexivity|].
    assert (zip (foldr delete srcs d) (foldr delete tgts d)
            = first_new (dom (_nids_eid_mapping g)) (zip srcs tgts)) as Hzip.
    { by rewrite foldr_delete_zip. }
    split_and!; try done.
    + by rewrite edges_of_edges_added, Hzip.
    + cbn. do 2 f_equal. rewrite <-Hzip, length_zip_with. lia.
  - intros l Hnd Hnew. rewrite add_edges_one_list_unfold, add_edges_lists by done.
    destruct (register_pure_fresh (zip l l) (length (_edge_attributes g)) 0
                (_nids_eid_mapping g)) as [m' ->]; [| |done].
    + rewrite zip_same_fmap. apply NoDup_fmap_2; [|done]. by intros a b [= ->].
    + intros p Hp. rewrite zip_same_fmap in Hp.
      apply list_elem_of_fmap in Hp as (x & -> & Hx). apply not_elem_of_dom. by apply Hnew.
  - intros l0 x Hx. rewrite add_edges_one_list_unfold by done.
    rewrite zip_with_app by done. cbn [zip_with].
    destruct (register_pure_last (length (_edge_attributes g)) (x, x) (zip l0 l0) 0
                (_nids_eid_mapping g)) as (m' & d & w & -> & Hin).
    { destruct Hx as [Hx|Hx]; [by left|right; by apply elem_of_zip_same]. }
    rewrite length_zip_with.
    replace (0 + length l0 `min` length l0) with (length l0) by lia.
    rewrite reverse_app. change (reverse [length l0]) with [length l0].
    cbn [app pop_all_one_list].
    assert (py_pop (l0 ++ [x]) (length l0) = Ok l0) as ->.
    { unfold py_pop. rewrite decide_True by (rewrite length_app; cbn; lia).
      rewrite take_app_length, drop_ge by (rewrite length_app; cbn; lia).
      by rewrite app_nil_r. }
    cbn [mbind result_bind]. unfold py_pop at 1. rewrite decide_False by lia.
    cbn [mbind result_bind].
    exists (with_nids_eid_mapping m' g), w. split_and!; [done| |done|done].
    by destruct g.
Qed.

Lemma add_edges_first_occurrences_witness :
  (∃ g',
     add_edges (AList [0; 1; 0; 1]%Z) (AList [1; 2; 1; 0]%Z) two_edges
     = Return () g'
         (DuplicateEdge <$> skipped (dom (_nids_eid_mapping two_edges))
                              (zip [0; 1; 0; 1]%Z [1; 2; 1; 0]%Z)) ∧
     edges_of g'
     = edges_of two_edges
         ++ first_new (dom (_nids_eid_mapping two_edges)) (zip [0; 1; 0; 1]%Z [1; 2; 1; 0]%Z) ∧
     _edge_attributes g'
     = _edge_attributes two_edges
         ++ default_edge_attrs
              (length (first_new (dom (_nids_eid_mapping two_edges))
                         (zip [0; 1; 0; 1]%Z [1; 2; 1; 0]%Z))) ∧
     _node_attributes g' = _node_attributes two_edges ∧
     _node_features g' = _node_features two_edges) ∧
  (∃ g' w,
     add_edges_one_list ([0%Z] ++ [0%Z]) two_edges = Raise IndexError g' w ∧
     (0, 0)%Z ∈ dom (_nids_eid_mapping g') ∧
     edges_of g' = edges_of two_edges ∧
     _edge_attributes g' = _edge_attributes two_edges).
Proof.
  assert (dict_ok (_edge_features two_edges)) as Hok.
  { apply (bool_decide_unpack _). vm_compute. exact I. }
  destruct (add_edges_first_occurrences two_edges Hok eq_refl) as (H1 & _ & H3).
  split.
  - by apply H1.
  - apply H3. right. left.
Defined.

(** *** [add_edges] against repeated [add_edge] *)

Lemma pad_table_0 d : pad_table 0 d = d.
Proof.
  unfold pad_table. rewrite <-(list_fmap_id d) at 2. apply list_fmap_ext.
  intros _ [k [[sh rs]|]] _; [|done]. cbn. by rewrite app_nil_r.
Qed.

Lemma edges_added_nil g : edges_added [] [] (_nids_eid_mapping g) g = g.
Proof.
  destruct g as [a1 a2 [ss ts] a4 a5 a6 a7 a8 a9 a10 a11 a12 a13].
  unfold edges_added, with_edge_features, with_edge_attributes,
    with_edge_indices, with_nids_eid_mapping.
  cbn [_node_attributes _node_features _edge_indices _nids_eid_mapping _edge_features
       _edge_attributes graph_attributes device _is_batch batch batch_size
       _batch_num_nodes _batch_num_edges src tgt length].
  unfold default_edge_attrs. cbn [replicate]. by rewrite pad_table_0, !app_nil_r.
Qed.

Lemma edges_added_edge_added s t srcs tgts m g :
  edges_added srcs tgts m (edge_added s t g) = edges_added (s :: srcs) (t :: tgts) m g.
Proof.
  destruct g as [a1 a2 [ss ts] a4 a5 a6 a7 a8 a9 a10 a11 a12 a13].
  assert (edge_added s t (mkGraphData a1 a2 (mkEdgeIndex ss ts) a4 a5 a6 a7 a8 a9 a10 a11
                            a12 a13)
          = mkGraphData a1 a2 (mkEdgeIndex (ss ++ [s]) (ts ++ [t]))
              (<[(s, t) := length ss]> a4) (pad_table 1 a5) (a6 ++ default_edge_attrs 1)
              a7 a8 a9 a10 a11 a12 a13) as -> by reflexivity.
  unfold edges_added, with_edge_features, with_edge_attributes,
    with_edge_indices, with_nids_eid_mapping.
  cbn [_node_attributes _node_features _edge_indices _nids_eid_mapping _edge_features
       _edge_attributes graph_attributes device _is_batch batch batch_size
       _batch_num_nodes _batch_num_edges src tgt].
  rewrite pad_table_pad_table. unfold default_edge_attrs.
  rewrite <-(app_assoc ss), <-(app_assoc ts), <-(app_assoc a6), <-replicate_add. done.
Qed.

(** The loop [for s, t in pairs: g.add_edge(s, t)]. *)
Definition add_edge_each (pairs : list (Z * Z)) : M unit :=
  for_each pairs (λ '(s, t), add_edge s t).

Lemma add_edge_each_fresh cur : ∀ pairs i g,
  NoDup pairs →
  (∀ p, p ∈ pairs → _nids_eid_mapping g !! p = None) →
  dict_ok (_edge_features g) →
  get_edge_num g = cur + i →
  add_edge_each pairs g
  = Return () (edges_added pairs.*1 pairs.*2
                 (register_pure pairs cur i (_nids_eid_mapping g)).1.1 g) [].
Proof.
  unfold add_edge_each.
  induction pairs as [|[s t] ps IH]; intros i g Hnd Hfresh Hok Hnum.
  - cbn [for_each register_pure fmap list_fmap fst]. by rewrite edges_added_nil.
  - apply NoDup_cons in Hnd as [Hp Hnd]. cbn [for_each].
    erewrite bind_Return; last first.
    { apply add_edge_new; [|done]. apply Hfresh. left. }
    rewrite after_warnings_nil. rewrite (IH (S i)); try done.
    + cbn [register_pure].
      assert (_nids_eid_mapping g !! (s, t) = None) as Hst by (apply Hfresh; left).
      rewrite Hst.
      rewrite edges_added_edge_added. cbn [edge_added with_edge_features
        with_edge_attributes with_edge_indices with_nids_eid_mapping _nids_eid_mapping].
      rewrite Hnum. reflexivity.
    + intros q Hq. cbn. rewrite lookup_insert_ne; [|by intros <-].
      apply Hfresh. by right.
    + cbn. by apply dict_ok_pad_table.
    + unfold get_edge_num in *. cbn. rewrite length_app. cbn. lia.
Qed.

Lemma add_edge_each_consistent pairs g :
  index_consistent g →
  length (src (_edge_indices g)) = length (tgt (_edge_indices g)) →
  dict_ok (_edge_features g) →
  index_consistent (final (add_edge_each pairs g)).
Proof.
  intros Hc Hlen Hok.
  enough (index_consistent (final (add_edge_each pairs g)) ∧
          length (src (_edge_indices (final (add_edge_each pairs g))))
          = length (tgt (_edge_indices (final (add_edge_each pairs g)))) ∧
          dict_ok (_edge_features (final (add_edge_each pairs g)))) as [? _]; [done|].
  apply (for_each_final (λ g, index_consistent g ∧
           length (src (_edge_indices g)) = length (tgt (_edge_indices g)) ∧
           dict_ok (_edge_features g))); [|done].
  intros [s t] g' _ (Hc' & Hlen' & Hok').
  destruct (_nids_eid_mapping g' !! (s, t)) as [e|] eqn:Hst.
  - by erewrite add_edge_duplicate.
  - pose proof (add_edge_new s t g' Hst Hok') as Hrun. rewrite Hrun. cbn [final].
    split_and!.
    + by eapply add_edge_index_consistent.
    + cbn. rewrite !length_app. cbn. lia.
    + cbn. by apply dict_ok_pad_table.
Qed.

(** X4. On two lists of one length whose pairs are distinct and not yet in
    the graph, a graph with one attribute record per edge is left by
    [add_edges] exactly as by one [add_edge] per pair, in order; an edge
    index map that was consistent with the endpoint lists is consistent
    after the call. *)
Theorem add_edges_is_repeated_add_edge (srcs tgts : list Z) (g : GraphData) :
  srcs ≠ [] →
  length srcs = length tgts →
  dict_ok (_edge_features g) →
  length (_edge_attributes g) = get_edge_num g →
  NoDup (zip srcs tgts) →
  (∀ p, p ∈ zip srcs tgts → _nids_eid_mapping g !! p = None) →
  add_edges (AList srcs) (AList tgts) g = add_edge_each (zip srcs tgts) g ∧
  (index_consistent g →
   length (src (_edge_indices g)) = length (tgt (_edge_indices g)) →
   index_consistent (final (add_edges (AList srcs) (AList tgts) g))).
Proof.
  intros _ Hlen Hok Hattrs Hnd Hfresh.
  assert (add_edges (AList srcs) (AList tgts) g = add_edge_each (zip srcs tgts) g) as Heq.
  { rewrite add_edges_fresh_registered by done.
    rewrite (add_edge_each_fresh (get_edge_num g) _ 0) by (done || lia).
    unfold registered. rewrite Hattrs, fst_zip, snd_zip by lia. done. }
  split; [done|]. intros Hc Hlens. rewrite Heq. by apply add_edge_each_consistent.
Qed.

Lemma add_edges_is_repeated_add_edge_witness :
  add_edges (AList [0; 2]%Z) (AList [2; 0]%Z) two_edges
  = add_edge_each (zip [0; 2]%Z [2; 0]%Z) two_edges ∧
  (index_consistent two_edges →
   length (src (_edge_indices two_edges)) = length (tgt (_edge_indices two_edges)) →
   index_consistent (final (add_edges (AList [0; 2]%Z) (AList [2; 0]%Z) two_edges))).
Proof.
  apply add_edges_is_repeated_add_edge.
  - discriminate.
  - reflexivity.
  - apply (bool_decide_unpack _). vm_compute. exact I.
  - reflexivity.
  - apply (bool_decide_unpack _). vm_compute. exact I.
  - intros p Hp. change (zip [0; 2]%Z [2; 0]%Z) with [(0, 2)%Z; (2, 0)%Z] in Hp.
    apply elem_of_cons in Hp as [->|Hp]; [vm_compute; reflexivity|].
    apply elem_of_cons in Hp as [->|Hp]; [vm_compute; reflexivity|].
    by apply elem_of_nil in Hp.
Defined.

(** ** Reading features *)

Definition read_features (o : Owner) (sel : Selector) : M (list (string * option Indexed)) :=
  match o with
  | Nodes => get_node_features sel
  | Edges => get_edge_feature sel
  end.

Lemma read_features_unfold o sel g :
  read_features o sel g
  = for_fold (dict_keys (owner_table o g)) (read_body (owner_table o g) sel) [] g.
Proof. destruct o; [apply get_node_features_unfold|apply get_edge_feature_unfold]. Qed.

Lemma read_loop_with (d : FeatureTable) (sel : Selector) (f : Tensor → Indexed) :
  (∀ k t, dict_get d k = Some (Some t) → tensor_getitem t sel = Ok (f t)) →
  ∀ ks ret0 g,
  (∀ key, key ∈ ks → is_Some (dict_get d key)) →
  ∃ ret, for_fold ks (read_body d sel) ret0 g = Return ret g [] ∧
         ∀ name v, dict_get d name = Some v →
                   name ∈ ks ∨ dict_get ret0 name = Some (f <$> v) →
                   dict_get ret name = Some (f <$> v).
Proof.
  intros Hf. induction ks as [|key ks IH]; intros ret0 g Hks.
  - exists ret0. split; [done|]. intros name v _ [Hin|Hret]; [|done].
    by apply elem_of_nil in Hin.
  - destruct (Hks key (list_elem_of_here _ _)) as [vk Hvk].
    assert (read_body d sel ret0 key g
            = Return (dict_set key (f <$> vk) ret0) g []) as Hhead.
    { unfold read_body. rewrite Hvk. destruct vk as [t|]; [|done].
      erewrite bind_lift_Ok by (by apply (Hf key)). done. }
    destruct (IH (dict_set key (f <$> vk) ret0) g) as (ret & Hrun & Hret).
    { intros k Hk. apply Hks. by right. }
    exists ret. split.
    + cbn [for_fold]. by rewrite (bind_Return _ _ _ _ _ _ Hhead), after_warnings_nil.
    + intros name v Hd [Hin|Hret0].
      * apply elem_of_cons in Hin as [->|Hin].
        -- apply Hret; [done|]. right. rewrite dict_get_set_eq. congruence.
        -- apply Hret; [done|]. by left.
      * apply Hret; [done|]. right. destruct (decide (key = name)) as [->|Hne].
        -- rewrite dict_get_set_eq. congruence.
        -- by rewrite dict_get_set_ne.
Qed.

Lemma read_loop_fails (d : FeatureTable) (sel : Selector) (e : Exn) :
  (∀ k t, dict_get d k = Some (Some t) → tensor_getitem t sel = Err e) →
  ∀ ks ret0 g,
  (∀ key, key ∈ ks → is_Some (dict_get d key)) →
  (∃ key t, key ∈ ks ∧ dict_get d key = Some (Some t)) →
  for_fold ks (read_body d sel) ret0 g = Raise e g [].
Proof.
  intros Hf. induction ks as [|key ks IH]; intros ret0 g Hks (k & t & Hin & Hk).
  - by apply elem_of_nil in Hin.
  - cbn [for_fold]. destruct (Hks key (list_elem_of_here _ _)) as [[tk|] Hvk].
    + apply bind_Raise. unfold read_body. rewrite Hvk.
      by erewrite bind_lift_Err by (by apply (Hf key)).
    + erewrite bind_Return; last first.
      { unfold read_body. rewrite Hvk. reflexivity. }
      rewrite after_warnings_nil. apply IH.
      * intros k' Hk'. apply Hks. by right.
      * exists k, t. split; [|done]. apply elem_of_cons in Hin as [->|Hin]; [|done].
        congruence.
Qed.

Lemma dict_keys_is_Some {V} (d : list (string * V)) key :
  key ∈ dict_keys d → is_Some (dict_get d key).
Proof.
  intros Hin. destruct (dict_get d key) eqn:Hd; [done|].
  by apply dict_get_None in Hd.
Qed.

Lemma tensor_getitem_int t i :
  (0 ≤ i < Z.of_nat (shape0 t))%Z →
  tensor_getitem t (SelInt i)
  = Ok (Element (tshape t) (default [] (rows t !! Z.to_nat i))).
Proof.
  intros Hi. unfold tensor_getitem, selected_rows, norm_index.
  assert ((0 <=? i)%Z && (i <? Z.of_nat (shape0 t))%Z = true) as ->.
  { apply andb_true_iff. split; [apply Z.leb_le|apply Z.ltb_lt]; lia. }
  cbn [mbind result_bind mapM].
  destruct (rows t !! Z.to_nat i) as [row|] eqn:Hrow.
  - rewrite (py_index_Some _ _ _ Hrow). cbn. by rewrite app_nil_r.
  - apply lookup_ge_None in Hrow. unfold shape0 in Hi. lia.
Qed.

Lemma tensor_getitem_int_out t i :
  ¬ (- Z.of_nat (shape0 t) ≤ i < Z.of_nat (shape0 t))%Z →
  tensor_getitem t (SelInt i) = Err (if fits_int64 i then IndexError else ValueError).
Proof.
  intros Hi. unfold tensor_getitem, selected_rows, norm_index.
  destruct ((0 <=? i)%Z && (i <? Z.of_nat (shape0 t))%Z) eqn:H1.
  { apply andb_true_iff in H1 as [?%Z.leb_le ?%Z.ltb_lt]. lia. }
  destruct ((i <? 0)%Z && (- Z.of_nat (shape0 t) <=? i)%Z) eqn:H2.
  { apply andb_true_iff in H2 as [?%Z.ltb_lt ?%Z.leb_le]. lia. }
  by destruct (fits_int64 i).
Qed.

(** The element that [t[i]] is, for an index in range. *)
Definition element_at (i : Z) (t : Tensor) : Indexed :=
  Element (tshape t) (default [] (rows t !! Z.to_nat i)).

(** X5. A feature written over all elements is read back: after
    [set_node_features(slice(None), {key: value})] (or [set_edge_feature])
    with one row per element, the read at an index in range returns, under
    [key], the row of [value] at that index, and under every other name
    what the graph held there before the write. *)
Theorem read_after_write (o : Owner) (g : GraphData) (key : string) (value : Tensor) (i : Z) :
  aligned g →
  shape0 value = owner_count o g →
  (0 ≤ i < Z.of_nat (owner_count o g))%Z →
  ∃ g' ret,
    write_features o slice_all [(key, value)] g = Return () g' [] ∧
    read_features o (SelInt i) g' = Return ret g' [] ∧
    dict_get ret key = Some (Some (element_at i value)) ∧
    ∀ name, name ≠ key → name ∈ dict_keys (owner_table o g) →
            dict_get ret name = Some (element_at i <$> default None (dict_get (owner_table o g) name)).
Proof.
  intros Hg Hshape Hi.
  pose proof (view_setitem_ok o key value g Hshape) as Hwrite.
  set (g' := with_owner_table o (dict_set key (Some value) (owner_table o g)) g) in *.
  assert (owner_table o g' = dict_set key (Some value) (owner_table o g)) as Htab.
  { apply owner_table_with. }
  destruct (read_loop_with (owner_table o g') (SelInt i) (element_at i))
    with (ks := dict_keys (owner_table o g')) (ret0 := @nil (string * option Indexed))
         (g := g') as (ret & Hrun & Hret).
  { intros k t Hk. apply tensor_getitem_int. rewrite Htab in Hk.
    destruct (decide (key = k)) as [->|Hne].
    - rewrite dict_get_set_eq in Hk. injection Hk as <-. by rewrite Hshape.
    - rewrite dict_get_set_ne in Hk by done.
      destruct Hg as (_ & _ & _ & Hrows).
      rewrite (Hrows o k t); [done|]. by apply present_Some. }
  { intros k. apply dict_keys_is_Some. }
  exists g', ret. split_and!.
  - destruct o; exact Hwrite.
  - by rewrite read_features_unfold.
  - apply (Hret key (Some value)).
    + rewrite Htab. apply dict_get_set_eq.
    + left. rewrite Htab. apply dict_get_Some_key with (v := Some value).
      apply dict_get_set_eq.
  - intros name Hne Hname.
    destruct (dict_keys_is_Some _ _ Hname) as [v Hv]. rewrite Hv. cbn [default].
    apply (Hret name v).
    + rewrite Htab. by rewrite dict_get_set_ne.
    + left. rewrite Htab. apply dict_get_Some_key with (v := v).
      by rewrite dict_get_set_ne.
Qed.

Lemma three_nodes_feat_aligned : aligned three_nodes_feat.
Proof.
  split_and!; try done.
  - intros []; apply (bool_decide_unpack _); vm_compute; exact I.
  - intros o; unfold rows_match;
      apply (present_Forall o three_nodes_feat
               (λ _ t, shape0 t = owner_count o three_nodes_feat));
      destruct o; table_cases; reflexivity.
Qed.

Lemma read_after_write_witness :
  ∃ g' ret,
    write_features Nodes slice_all [("x"%string, mkTensor [] [[5]; [6]; [7]]%Z)]
      three_nodes_feat = Return () g' [] ∧
    read_features Nodes (SelInt 1) g' = Return ret g' [] ∧
    dict_get ret "x" = Some (Some (element_at 1 (mkTensor [] [[5]; [6]; [7]]%Z))) ∧
    ∀ name, name ≠ "x"%string → name ∈ dict_keys (owner_table Nodes three_nodes_feat) →
            dict_get ret name
            = Some (element_at 1
                      <$> default None (dict_get (owner_table Nodes three_nodes_feat) name)).
Proof.
  apply read_after_write; [apply three_nodes_feat_aligned|reflexivity|].
  change (owner_count Nodes three_nodes_feat) with 3. lia.
Defined.

(** X6. A read at an [int] index outside the element range: when some
    feature is present the call raises, with [IndexError] for an index that
    fits 64 bits and with [ValueError] for one that does not; when no
    feature is present the call returns, with every name mapped to [None] —
    the index is only looked at by the arrays. Either way the graph is as it
    was. *)
Theorem read_out_of_range (o : Owner) (g : GraphData) (i : Z) :
  aligned g →
  ¬ (- Z.of_nat (owner_count o g) ≤ i < Z.of_nat (owner_count o g))%Z →
  ((∃ k, is_Some (present o k g)) →
     read_features o (SelInt i) g
     = Raise (if fits_int64 i then IndexError else ValueError) g []) ∧
  ((∀ k, present o k g = None) →
     ∃ ret, read_features o (SelInt i) g = Return ret g [] ∧
            ∀ k, k ∈ dict_keys (owner_table o g) → dict_get ret k = Some None).
Proof.
  intros Hg Hi. destruct Hg as (_ & _ & _ & Hrows). split.
  - intros (k & t & Ht). rewrite read_features_unfold. apply read_loop_fails.
    + intros k' t' Hk'. apply tensor_getitem_int_out.
      rewrite (Hrows o k' t'); [done|]. by apply present_Some.
    + intros key. apply dict_keys_is_Some.
    + exists k, t. apply present_Some in Ht. split; [|done].
      by apply dict_get_Some_key with (v := Some t).
  - intros Hnone. rewrite read_features_unfold.
    destruct (read_loop (owner_table o g) (SelInt i) (dict_keys (owner_table o g)) [] g)
      as [(ret & Hrun & Hret)|[e Hrun]].
    + exists ret. split; [done|]. intros k Hk. apply Hret; [|by left].
      destruct (dict_keys_is_Some _ _ Hk) as [[t|] Hv]; [|done].
      apply present_Some in Hv. by rewrite Hnone in Hv.
    + exfalso.
      destruct (read_loop_with (owner_table o g) (SelInt i) (element_at i))
        with (ks := dict_keys (owner_table o g)) (ret0 := @nil (string * option Indexed))
             (g := g) as (ret & Hrun' & _).
      * intros k t Hk. apply present_Some in Hk. by rewrite Hnone in Hk.
      * intros k. apply dict_keys_is_Some.
      * congruence.
Qed.

Lemma three_nodes_feat_present : ∃ k, is_Some (present Nodes k three_nodes_feat).
Proof. exists "node_feat"%string. by eexists. Qed.

Lemma two_edges_aligned : aligned two_edges.
Proof.
  split_and!; try reflexivity.
  - intros []; apply (bool_decide_unpack _); vm_compute; exact I.
  - intros [] k t; unfold present; cbn; repeat case_decide; done.
Qed.

Lemma two_edges_no_edge_feature k : present Edges k two_edges = None.
Proof. unfold present. cbn. repeat case_decide; done. Qed.

Lemma read_out_of_range_witness :
  read_features Nodes (SelInt 3) three_nodes_feat = Raise IndexError three_nodes_feat [] ∧
  read_features Nodes (SelInt (2 ^ 70)) three_nodes_feat
  = Raise ValueError three_nodes_feat [] ∧
  ∃ ret, read_features Edges (SelInt 2) two_edges = Return ret two_edges [] ∧
         ∀ k, k ∈ dict_keys (owner_table Edges two_edges) → dict_get ret k = Some None.
Proof.
  split_and!.
  - apply (read_out_of_range Nodes three_nodes_feat 3);
      [apply three_nodes_feat_aligned| |apply three_nodes_feat_present].
    change (owner_count Nodes three_nodes_feat) with 3. lia.
  - apply (read_out_of_range Nodes three_nodes_feat (2 ^ 70));
      [apply three_nodes_feat_aligned| |apply three_nodes_feat_present].
    change (owner_count Nodes three_nodes_feat) with 3. lia.
  - apply (read_out_of_range Edges two_edges 2).
    + apply two_edges_aligned.
    + change (owner_count Edges two_edges) with 2. lia.
    + apply two_edges_no_edge_feature.
Defined.

(** ** The batch that [to_batch] builds *)

(** X7. [to_batch] needs a node: on the empty list, and on every list of
    graphs that have no node at all, it fails with [AssertionError]. *)
Theorem to_batch_without_nodes (graphs : list GraphData) :
  sum_list (get_node_num <$> graphs) = 0 → to_batch graphs = Err AssertionError.
Proof.
  intros Hsum. destruct graphs as [|g0 gs]; [done|]. unfold to_batch.
  change (map get_node_num (g0 :: gs)) with (get_node_num <$> g0 :: gs).
  rewrite Hsum. erewrite exec_Raise; [done|]. by apply add_nodes_not_positive.
Qed.

Lemma to_batch_without_nodes_witness :
  to_batch [GraphData_init None; GraphData_init (Some "cpu"%string)] = Err AssertionError.
Proof. apply to_batch_without_nodes. reflexivity. Defined.

Lemma edges_added_consistent srcs tgts g :
  length srcs = length tgts →
  dict_ok (_edge_features g) →
  length (_edge_attributes g) = get_edge_num g →
  length (src (_edge_indices g)) = length (tgt (_edge_indices g)) →
  NoDup (zip srcs tgts) →
  (∀ p, p ∈ zip srcs tgts → _nids_eid_mapping g !! p = None) →
  index_consistent g →
  index_consistent
    (edges_added srcs tgts
       (registered (zip srcs tgts) (length (_edge_attributes g)) (_nids_eid_mapping g)) g).
Proof.
  intros Hlen Hok Hattrs Hlens Hnd Hfresh Hc.
  pose proof (add_edge_each_consistent (zip srcs tgts) g Hc Hlens Hok) as Hfinal.
  rewrite (add_edge_each_fresh (get_edge_num g) _ 0) in Hfinal by (done || lia).
  cbn [final] in Hfinal. rewrite fst_zip, snd_zip in Hfinal by lia.
  unfold registered. by rewrite Hattrs.
Qed.

Lemma index_consistent_ext g g' :
  _nids_eid_mapping g' = _nids_eid_mapping g → _edge_indices g' = _edge_indices g →
  index_consistent g → index_consistent g'.
Proof. unfold index_consistent, get_edge_num. by intros -> ->. Qed.

Lemma index_consistent_empty g :
  _nids_eid_mapping g = ∅ → _edge_indices g = mkEdgeIndex [] [] → index_consistent g.
Proof.
  unfold index_consistent, get_edge_num. intros -> ->. split; [done|].
  intros s t e. rewrite lookup_empty. cbn. rewrite lookup_nil. split; [done|]. by intros [? _].
Qed.

Lemma length_stacked_parts c gs :
  Forall (λ g, length (src (_edge_indices g)) = length (tgt (_edge_indices g))) gs →
  length <$> stacked_parts c gs = get_edge_num <$> gs.
Proof.
  intros Hlens. unfold stacked_parts. apply list_eq. intros j.
  rewrite !list_lookup_fmap, list_lookup_imap.
  destruct (gs !! j) as [gj|] eqn:Hgj; [|done]. cbn.
  rewrite length_fmap, length_edges_of; [done|].
  apply (proj1 (Forall_forall _ _) Hlens gj). by eapply list_elem_of_lookup_2.
Qed.

Lemma lookup_concat_cum {A} (parts : list (list A)) i p j x :
  parts !! i = Some p → p !! j = Some x →
  concat parts !! (cum (length <$> parts) i + j) = Some x.
Proof.
  intros Hp Hj. pose proof (concat_slice parts i p Hp) as Hslice.
  rewrite <-Hslice in Hj. unfold py_slice in Hj.
  apply lookup_take_Some in Hj as [Hj _]. by rewrite lookup_drop in Hj.
Qed.

Lemma packable_lens graphs :
  Forall graph_wf graphs →
  Forall (λ g, length (src (_edge_indices g)) = length (tgt (_edge_indices g))) graphs.
Proof. intros Hwf. eapply Forall_impl; [exact Hwf|]. by intros g (_ & _ & ? & _). Qed.

Lemma packed_aligned graphs dev Tn Te m :
  Forall graph_wf graphs →
  table_packed Nodes graphs (sum_list (get_node_num <$> graphs)) Tn →
  table_packed Edges graphs (sum_list (get_edge_num <$> graphs)) Te →
  aligned (packed graphs dev Tn Te m).
Proof.
  intros Hwf (HokTn & HTn & _) (HokTe & HTe & _).
  pose proof (packable_lens graphs Hwf) as Hlens.
  assert (get_node_num (packed graphs dev Tn Te m) = sum_list (get_node_num <$> graphs))
    as Hn.
  { unfold get_node_num. cbn [packed _node_attributes].
    by rewrite length_concat_sum, <-list_fmap_compose. }
  assert (get_edge_num (packed graphs dev Tn Te m) = sum_list (get_edge_num <$> graphs))
    as He.
  { unfold get_edge_num. cbn [packed _edge_indices src].
    by rewrite length_fmap, length_stacked. }
  split_and!.
  - cbn [packed _edge_indices src tgt]. by rewrite !length_fmap.
  - rewrite He. cbn [packed _edge_attributes].
    rewrite length_concat_sum, <-list_fmap_compose. f_equal.
    apply Forall_fmap_ext_1. eapply Forall_impl; [exact Hwf|].
    by intros g (_ & _ & _ & ? & _).
  - by intros [].
  - intros []; apply rows_match_table; cbn [owner_table owner_count packed _node_features
      _edge_features]; intros k t Hk.
    + rewrite Hn. by apply (HTn k).
    + rewrite He. by apply (HTe k).
Qed.

Lemma packed_consistent graphs dev Tn Te :
  Forall graph_wf graphs →
  index_consistent
    (packed graphs dev Tn Te
       (registered (zip (stacked 0 graphs).*1 (stacked 0 graphs).*2) 0 ∅)).
Proof.
  intros Hwf. set (S0 := stacked 0 graphs).
  set (big3 := mkGraphData (concat (_node_attributes <$> graphs)) Tn
                 (mkEdgeIndex [] []) ∅ res_init_edge_features [] [] dev
                 true None None None None).
  eapply (index_consistent_ext
            (edges_added S0.*1 S0.*2
               (registered (zip S0.*1 S0.*2) (length (_edge_attributes big3))
                  (_nids_eid_mapping big3)) big3)); [done|done|].
  apply edges_added_consistent; try done.
  - by rewrite !length_fmap.
  - apply dict_ok_init_edge with (dev := None).
  - rewrite zip_fst_snd. apply stacked_NoDup.
    + eapply Forall_impl; [exact Hwf|]. by intros g (_ & _ & _ & _ & _ & ?).
    + eapply Forall_impl; [exact Hwf|]. by intros g (_ & _ & _ & _ & ? & _).
  - by apply index_consistent_empty.
Qed.

(** X8. The batch of a packable list satisfies the invariants of the data
    model: it is flagged as a batch on the device of the first graph, its
    batch size is the number of graphs, the recorded node and edge counts
    are those of the graphs and add up to the node and edge counts of the
    batch (I4), its arrays and attribute records are aligned with its
    elements (I1, I2), and its edge index map is consistent with its
    endpoint lists (I3). *)
Theorem to_batch_invariants (graphs : list GraphData) :
  packable graphs →
  ∃ b, to_batch graphs = Ok b ∧
       _is_batch b = true ∧
       device b = default None (device <$> head graphs) ∧
       batch_wf b (length graphs) (get_node_num <$> graphs) (get_edge_num <$> graphs) ∧
       aligned b ∧
       index_consistent b.
Proof.
  intros Hpack. pose proof Hpack as (Hne & Hwf & Hpos & _).
  destruct graphs as [|g0 gs]; [done|].
  destruct (to_batch_packed g0 gs Hpack) as (Tn & Te & Hb & HTn & HTe).
  eexists. split; [exact Hb|]. split_and!; try done.
  - by apply packed_wf.
  - by apply packed_aligned.
  - by apply packed_consistent.
Qed.

Lemma to_batch_invariants_witness :
  ∃ b, to_batch [one_node_x; two_nodes_x] = Ok b ∧
       _is_batch b = true ∧
       device b = default None (device <$> head [one_node_x; two_nodes_x]) ∧
       batch_wf b (length [one_node_x; two_nodes_x])
         (get_node_num <$> [one_node_x; two_nodes_x])
         (get_edge_num <$> [one_node_x; two_nodes_x]) ∧
       aligned b ∧
       index_consistent b.
Proof. apply to_batch_invariants, x_graphs_packable. Defined.

(** X9. The offsets of the batch: the [j]-th edge of the [i]-th graph is
    the edge number [j] plus the edges of the graphs before it, with both
    endpoints moved by the nodes of the graphs before it, and the edge index
    map records it under that number; the attribute record of the node [v]
    of the [i]-th graph is at the position [v] plus the nodes before it,
    where the batch vector holds [i]. *)
Theorem to_batch_offsets (graphs : list GraphData) (i : nat) (g : GraphData) :
  packable graphs →
  graphs !! i = Some g →
  ∃ b, to_batch graphs = Ok b ∧
    let n_before := cum (get_node_num <$> graphs) i in
    let e_before := cum (get_edge_num <$> graphs) i in
    (∀ j e, edges_of g !! j = Some e →
       edges_of b !! (e_before + j) = Some (shift n_before e) ∧
       _nids_eid_mapping b !! shift n_before e = Some (e_before + j)) ∧
    (∀ v a, _node_attributes g !! v = Some a →
       _node_attributes b !! (n_before + v) = Some a ∧
       ∃ vec, batch b = Some vec ∧ vec !! (n_before + v) = Some i) ∧
    (∀ j a, _edge_attributes g !! j = Some a →
       _edge_attributes b !! (e_before + j) = Some a).
Proof.
  intros Hpack Hg.
  pose proof Hpack as (Hne & Hwf & Hpos & _).
  pose proof (packable_lens graphs Hwf) as Hlens.
  destruct graphs as [|g0 gs]; [done|].
  destruct (to_batch_packed g0 gs Hpack) as (Tn & Te & Hb & _).
  pose proof (packed_consistent (g0 :: gs) (device g0) Tn Te Hwf) as Hcons.
  set (graphs := g0 :: gs) in *.
  eexists. split; [exact Hb|]. cbv zeta. split_and!.
  - intros j e He.
    assert (edges_of (packed graphs (device g0) Tn Te
                        (registered (zip (stacked 0 graphs).*1 (stacked 0 graphs).*2) 0 ∅))
              !! (cum (get_edge_num <$> graphs) i + j)
            = Some (shift (cum (get_node_num <$> graphs) i) e)) as Hedge.
    { unfold edges_of at 1. cbn [packed _edge_indices src tgt].
      rewrite zip_fst_snd, stacked_concat, <-(length_stacked_parts 0) by done.
      apply lookup_concat_cum with (p := shift (cum (get_node_num <$> graphs) i) <$> edges_of g).
      - unfold stacked_parts. by rewrite list_lookup_imap, Hg.
      - by rewrite list_lookup_fmap, He. }
    split; [done|]. destruct Hcons as [_ Hiff].
    destruct (shift (cum (get_node_num <$> graphs) i) e) as [s t] eqn:Hse.
    apply Hiff. unfold edges_of in Hedge. apply lookup_zip_with_Some in Hedge
      as (s' & t' & [= <- <-] & Hs & Ht). done.
  - intros v a Hv. split.
    + cbn [packed _node_attributes].
      assert (get_node_num <$> graphs = length <$> (_node_attributes <$> graphs)) as ->.
      { by rewrite <-list_fmap_compose. }
      apply lookup_concat_cum with (p := _node_attributes g); [|done].
      by rewrite list_lookup_fmap, Hg.
    + eexists. split; [reflexivity|].
      assert (get_node_num <$> graphs
              = length <$> imap (λ i g, replicate (get_node_num g) i) graphs) as ->.
      { apply list_eq. intros k. rewrite !list_lookup_fmap, list_lookup_imap.
        destruct (graphs !! k); [|done]. cbn. by rewrite length_replicate. }
      apply lookup_concat_cum with (p := replicate (get_node_num g) i).
      * by rewrite list_lookup_imap, Hg.
      * apply lookup_replicate_2. apply lookup_lt_Some in Hv. done.
  - intros j a Hj. cbn [packed _edge_attributes].
    assert (get_edge_num <$> graphs = length <$> (_edge_attributes <$> graphs)) as ->.
    { rewrite <-list_fmap_compose. apply Forall_fmap_ext_1.
      eapply Forall_impl; [exact Hwf|]. by intros g' (_ & _ & _ & ? & _). }
    apply lookup_concat_cum with (p := _edge_attributes g); [|done].
    by rewrite list_lookup_fmap, Hg.
Qed.

Lemma to_batch_offsets_witness :
  ∃ b, to_batch [one_node_x; two_nodes_x] = Ok b ∧
    let n_before := cum (get_node_num <$> [one_node_x; two_nodes_x]) 1 in
    let e_before := cum (get_edge_num <$> [one_node_x; two_nodes_x]) 1 in
    (∀ j e, edges_of two_nodes_x !! j = Some e →
       edges_of b !! (e_before + j) = Some (shift n_before e) ∧
       _nids_eid_mapping b !! shift n_before e = Some (e_before + j)) ∧
    (∀ v a, _node_attributes two_nodes_x !! v = Some a →
       _node_attributes b !! (n_before + v) = Some a ∧
       ∃ vec, batch b = Some vec ∧ vec !! (n_before + v) = Some 1) ∧
    (∀ j a, _edge_attributes two_nodes_x !! j = Some a →
       _edge_attributes b !! (e_before + j) = Some a).
Proof.
  apply (to_batch_offsets [one_node_x; two_nodes_x] 1 two_nodes_x);
    [apply x_graphs_packable|reflexivity].
Defined.

(** ** The graphs that [from_batch] returns *)

Lemma dict_ok_child_table counts tbl i : ∀ d0,
  dict_ok d0 → dict_ok (child_table counts tbl i d0).
Proof.
  unfold child_table. induction tbl as [|[k [v|]] tbl IH]; intros d0 Hok; cbn [foldl snd fst].
  - done.
  - apply IH. by apply dict_ok_set.
  - by apply IH.
Qed.

Lemma pad_table_init_absent n d k :
  (∀ k, dict_get d k ≠ None → dict_get d k = Some None) →
  dict_get (pad_table n d) k ≠ None → dict_get (pad_table n d) k = Some None.
Proof.
  intros Hd. rewrite dict_get_pad_table.
  destruct (dict_get d k) as [v|] eqn:Hk; [|done].
  intros _. specialize (Hd k). rewrite Hk in Hd. by rewrite Hd.
Qed.

Lemma child_aligned b n nn ne i :
  batch_wf b n nn ne →
  (∀ o, dict_ok (owner_table o b)) →
  i < n →
  aligned (child b nn ne i) ∧ index_consistent (child b nn ne i).
Proof.
  intros (Hbs & Hnn & Hne & Hln & Hle & Hpos & Hsn & Hse & Hlens & Hattrs & HTn & HTe & Hnd)
    Hok Hi.
  assert (length (edges_of b) = get_edge_num b) as Hall by (by apply length_edges_of).
  pose proof (length_child_edges nn ne (edges_of b) i ltac:(lia) ltac:(lia)) as Hce.
  pose proof (cum_le _ _ _ (lookup_total_Some nn i ltac:(lia))) as Hcn.
  pose proof (cum_le _ _ _ (lookup_total_Some ne i ltac:(lia))) as Hcne.
  set (ce := child_edges nn ne (edges_of b) i) in *.
  assert (get_edge_num (child b nn ne i) = ne !!! i) as Hen.
  { unfold get_edge_num. cbn. by rewrite length_fmap. }
  assert (get_node_num (child b nn ne i) = nn !!! i) as Hnn'.
  { unfold get_node_num. cbn. unfold get_node_num in Hsn.
    rewrite py_slice_length by lia. lia. }
  assert (∀ o counts total,
            (∀ k t, (k, Some t) ∈ owner_table o b → shape0 t = total) →
            cum counts i + counts !!! i ≤ total →
            ∀ d0, (∀ k, dict_get d0 k ≠ None → dict_get d0 k = Some None) →
            table_rows (child_table counts (owner_table o b) i d0) (counts !!! i)) as Hrows.
  { intros o counts total HT Hc d0 Hd0 k t. rewrite child_table_lookup by apply Hok.
    destruct (dict_get (owner_table o b) k) as [[v|]|] eqn:Hk.
    - intros [= <-]. rewrite shape0_tensor_slice; [lia|].
      rewrite (HT k v); [done|]. by apply dict_get_Some_elem.
    - intros Hd. rewrite Hd0 in Hd; [done|]. by rewrite Hd.
    - intros Hd. rewrite Hd0 in Hd; [done|]. by rewrite Hd. }
  split.
  - split_and!.
    + cbn. by rewrite !length_fmap.
    + rewrite Hen. cbn. rewrite py_slice_length by lia. lia.
    + intros []; cbn.
      * apply dict_ok_child_table, (dict_ok_init_node None).
      * apply dict_ok_child_table, (dict_ok_init_edge None).
    + intros []; apply rows_match_table.
      * cbn [owner_count]. rewrite Hnn'.
        apply (Hrows Nodes nn (get_node_num b)); [done|lia|].
        intros k. cbn. repeat case_decide; done.
      * cbn [owner_count]. rewrite Hen.
        apply (Hrows Edges ne (get_edge_num b)); [done|lia|].
        intros k. cbn. repeat case_decide; done.
  - eapply (index_consistent_ext
              (edges_added ce.*1 ce.*2
                 (registered (zip ce.*1 ce.*2)
                    (length (_edge_attributes (nodes_added (nn !!! i) (GraphData_init (device b)))))
                    (_nids_eid_mapping (nodes_added (nn !!! i) (GraphData_init (device b)))))
                 (nodes_added (nn !!! i) (GraphData_init (device b))))).
    + cbn. by rewrite zip_fst_snd.
    + done.
    + apply edges_added_consistent; try done.
      * by rewrite !length_fmap.
      * apply dict_ok_init_edge with (dev := None).
      * rewrite zip_fst_snd. by apply child_edges_NoDup.
      * by apply index_consistent_empty.
Qed.

(** X10. Unpacking a well-formed batch returns, the batch unchanged, as
    many graphs as the batch size records, plain graphs on the device of
    the batch: the [i]-th graph is not a batch, has the
    recorded number of nodes, the edges of its range of the batch rebased to
    its own node ids, the attribute records and the rows of every present
    array of its range; its counts are aligned and its edge index map is
    consistent with its endpoint lists. *)
Theorem from_batch_children (b : GraphData) (n : nat) (nn ne : list nat) :
  batch_wf b n nn ne →
  (∀ o, dict_ok (owner_table o b)) →
  ∃ ret, from_batch b = Return ret b [] ∧
    length ret = n ∧
    ∀ i r, ret !! i = Some r →
      _is_batch r = false ∧ batch_size r = None ∧ device r = device b ∧
      get_node_num r = nn !!! i ∧
      edges_of r = child_edges nn ne (edges_of b) i ∧
      _node_attributes r = py_slice (_node_attributes b) (cum nn i) (cum nn i + nn !!! i) ∧
      _edge_attributes r = py_slice (_edge_attributes b) (cum ne i) (cum ne i + ne !!! i) ∧
      (∀ k t, dict_get (_node_features b) k = Some (Some t) →
         dict_get (_node_features r) k
         = Some (Some (tensor_slice t (cum nn i) (cum nn i + nn !!! i)))) ∧
      (∀ k t, dict_get (_edge_features b) k = Some (Some t) →
         dict_get (_edge_features r) k
         = Some (Some (tensor_slice t (cum ne i) (cum ne i + ne !!! i)))) ∧
      aligned r ∧ index_consistent r.
Proof.
  intros Hwf Hok. exists (child b nn ne <$> seq 0 n). split; [by apply from_batch_ok|].
  split; [by rewrite length_fmap, length_seq|].
  intros i r Hr. apply lookup_fmap_seq in Hr as [-> Hi].
  destruct (child_aligned b n nn ne i Hwf Hok Hi) as [Hal Hcons].
  destruct Hal as (Hlens & Hal). split_and!; try done.
  - pose proof Hwf as (_ & _ & _ & Hln & _ & _ & Hsn & _).
    pose proof (cum_le _ _ _ (lookup_total_Some nn i ltac:(lia))) as Hcn.
    unfold get_node_num in *. cbn. rewrite py_slice_length by lia. lia.
  - unfold edges_of at 1. cbn. by rewrite zip_fst_snd.
  - intros k t Hk. cbn. rewrite child_table_lookup by apply (Hok Nodes). by rewrite Hk.
  - intros k t Hk. cbn. rewrite child_table_lookup by apply (Hok Edges). by rewrite Hk.
Qed.

Lemma small_batch_dict_ok : ∀ o, dict_ok (owner_table o small_batch).
Proof. intros []; apply (bool_decide_unpack _); vm_compute; exact I. Qed.

Lemma from_batch_children_witness :
  ∃ ret, from_batch small_batch = Return ret small_batch [] ∧
    length ret = 2 ∧
    ∀ i r, ret !! i = Some r →
      _is_batch r = false ∧ batch_size r = None ∧ device r = device small_batch ∧
      get_node_num r = [1; 2] !!! i ∧
      edges_of r = child_edges [1; 2] [0; 1] (edges_of small_batch) i ∧
      _node_attributes r
      = py_slice (_node_attributes small_batch) (cum [1; 2] i) (cum [1; 2] i + [1; 2] !!! i) ∧
      _edge_attributes r
      = py_slice (_edge_attributes small_batch) (cum [0; 1] i) (cum [0; 1] i + [0; 1] !!! i) ∧
      (∀ k t, dict_get (_node_features small_batch) k = Some (Some t) →
         dict_get (_node_features r) k
         = Some (Some (tensor_slice t (cum [1; 2] i) (cum [1; 2] i + [1; 2] !!! i)))) ∧
      (∀ k t, dict_get (_edge_features small_batch) k = Some (Some t) →
         dict_get (_edge_features r) k
         = Some (Some (tensor_slice t (cum [0; 1] i) (cum [0; 1] i + [0; 1] !!! i)))) ∧
      aligned r ∧ index_consistent r.
Proof. apply (from_batch_children small_batch 2), small_batch_dict_ok. apply small_batch_wf. Defined.

(** ** Cloning a graph *)

Lemma dict_set_same {V} (d : list (string * V)) k v :
  dict_get d k = Some v → dict_set k v d = d.
Proof.
  induction d as [|[k' v'] d IH]; cbn; [done|].
  case_decide as Hk.
  - by intros [= ->]; subst.
  - intros Hd. by rewrite IH.
Qed.

Section tables.
Variable L : lens.

Lemma reassign_loop (items : FeatureTable) g :
  (∀ k v, (k, v) ∈ items → dict_get (lens_get L g) k = Some v) →
  for_each items (λ '(k, v),
    match v with
    | Some t => modify (λ g, lens_set L (dict_set k (Some t) (lens_get L g)) g)
    | None => mret ()
    end) g = Return () g [].
Proof.
  induction items as [|[k [t|]] items IH]; intros Hitems; cbn [for_each]; [done|..].
  - rewrite bind_modify. rewrite dict_set_same by (apply Hitems; left).
    rewrite lens_set_get. apply IH. intros k' v' Hin. apply Hitems. by right.
  - rewrite bind_mret. apply IH. intros k' v' Hin. apply Hitems. by right.
Qed.

(** The table that the loop [for k, v in items: table[k] = v] leaves. *)
Definition updated (items d0 : FeatureTable) : FeatureTable :=
  foldl (λ d kv, dict_set kv.1 kv.2 d) d0 items.

Lemma copy_loop (items : FeatureTable) : ∀ g,
  for_each items (λ '(k, v),
    modify (λ g, lens_set L (dict_set k v (lens_get L g)) g)) g
  = Return () (lens_set L (updated items (lens_get L g)) g) [].
Proof.
  induction items as [|[k v] items IH]; intros g; cbn [for_each updated foldl].
  - by rewrite lens_set_get.
  - rewrite bind_modify, IH. by rewrite lens_get_set, lens_set_set.
Qed.
End tables.

Lemma dict_get_updated items : ∀ d0 k,
  dict_ok items →
  dict_get (updated items d0) k
  = match dict_get items k with
    | Some v => Some v
    | None => dict_get d0 k
    end.
Proof.
  unfold updated. induction items as [|[k0 v0] items IH]; intros d0 k Hok; [done|].
  unfold dict_ok in Hok. cbn [dict_keys map fst] in Hok.
  apply NoDup_cons in Hok as [Hk0 Hok]. cbn [foldl fst snd]. rewrite (IH _ _ Hok).
  cbn [dict_get]. case_decide as Hk.
  - subst k0. apply dict_get_None in Hk0. rewrite Hk0. apply dict_get_set_eq.
  - destruct (dict_get items k); [done|]. by rewrite dict_get_set_ne.
Qed.

Lemma dict_ok_updated items : ∀ d0, dict_ok d0 → dict_ok (updated items d0).
Proof.
  unfold updated. induction items as [|[k v] items IH]; intros d0 Hok; [done|].
  cbn [foldl]. apply IH. by apply dict_ok_set.
Qed.

Lemma to_ok dev g :
  dict_ok (_node_features g) → dict_ok (_edge_features g) →
  to dev g = Return () (with_device dev g) [].
Proof.
  intros Hn He. unfold to. rewrite bind_modify, bind_get_self.
  erewrite bind_Return; last first.
  { apply (reassign_loop node_features_lens). intros k v Hin. by apply dict_get_elem. }
  rewrite after_warnings_nil, bind_get_self.
  apply (reassign_loop edge_features_lens). intros k v Hin. by apply dict_get_elem.
Qed.

Lemma consistent_maps_eq g g' :
  index_consistent g → index_consistent g' → _edge_indices g = _edge_indices g' →
  _nids_eid_mapping g = _nids_eid_mapping g'.
Proof.
  intros [_ H] [_ H'] Heq. apply map_eq. intros [s t]. apply option_eq. intros e.
  by rewrite H, H', Heq.
Qed.

(** The batch information of a clone. *)
Definition copied_batch_info (source g : GraphData) : GraphData :=
  if _is_batch source then
    with_batch_num_nodes (_batch_num_nodes source)
      (with_batch_num_edges (_batch_num_edges source)
         (with_batch_size (batch_size source)
            (with_device (device source)
               (with_batch (batch source) (with_is_batch true g)))))
  else g.

(** The graph that [from_graphdata] leaves in a new graph. *)
Definition cloned (source : GraphData) (dev : option string) : GraphData :=
  let ss := src (_edge_indices source) in
  let ts := tgt (_edge_indices source) in
  let g1 := nodes_added (get_node_num source) (GraphData_init dev) in
  let g2 := edges_added ss ts (registered (zip ss ts) 0 ∅) g1 in
  let g3 := with_node_features (updated (_node_features source) (_node_features g2)) g2 in
  let g4 := with_edge_features (updated (_edge_features source) (_edge_features g3)) g3 in
  let g5 := with_graph_attributes (graph_attributes source)
              (with_edge_attributes (_edge_attributes source)
                 (with_node_attributes (_node_attributes source) g4)) in
  with_device (device source) (copied_batch_info source g5).

Lemma from_graphdata_ok source dev :
  aligned source → NoDup (edges_of source) → 0 < get_node_num source →
  from_graphdata source (GraphData_init dev) = Return () (cloned source dev) [].
Proof.
  intros (Hlens & Hattrs & Hok & Hrows) Hnd Hpos. unfold from_graphdata.
  erewrite bind_Return; last first.
  { apply add_nodes_ok; [lia|apply dict_ok_init_node]. }
  rewrite after_warnings_nil, Nat2Z.id.
  erewrite bind_Return; last first.
  { apply add_edges_fresh_registered; [done| |done|].
    - apply (dict_ok_init_edge dev).
    - intros p _. apply lookup_empty. }
  rewrite after_warnings_nil.
  erewrite bind_Return; [|apply (copy_loop node_features_lens)].
  rewrite after_warnings_nil.
  erewrite bind_Return; [|apply (copy_loop edge_features_lens)].
  rewrite after_warnings_nil, !bind_modify.
  set (g5 := with_graph_attributes _ _).
  assert ((if _is_batch source then copy_batch_info source else mret ()) g5
          = Return () (copied_batch_info source g5) []) as Hbatch.
  { unfold copied_batch_info. destruct (_is_batch source); [|done].
    unfold copy_batch_info. by rewrite !bind_modify. }
  rewrite (bind_Return _ _ _ _ _ _ Hbatch), after_warnings_nil.
  rewrite to_ok; [done|..].
  - unfold copied_batch_info. destruct (_is_batch source); cbn;
      apply dict_ok_updated, (dict_ok_init_node None).
  - unfold copied_batch_info. destruct (_is_batch source); cbn;
      apply dict_ok_updated, (dict_ok_init_edge None).
Qed.

(** X11. A clone is faithful: [GraphData(src)] of a graph with at least one
    node, aligned counts, distinct endpoint pairs and a consistent edge
    index map returns a graph with the attribute records, the endpoint
    lists, the edge index map, the graph attributes and the device of the
    source, and with the entry of the source for every feature name of the
    source; the batch information is copied when the source is a batch, and
    left unset otherwise. The device given to the constructor is
    overridden. *)
Theorem clone_is_faithful (source : GraphData) (dev : option string) :
  aligned source → NoDup (edges_of source) → index_consistent source →
  0 < get_node_num source →
  ∃ g, GraphData_new (Some source) dev = Ok g ∧
    _node_attributes g = _node_attributes source ∧
    _edge_indices g = _edge_indices source ∧
    _nids_eid_mapping g = _nids_eid_mapping source ∧
    _edge_attributes g = _edge_attributes source ∧
    graph_attributes g = graph_attributes source ∧
    device g = device source ∧
    (∀ o k, k ∈ dict_keys (owner_table o source) →
            dict_get (owner_table o g) k = dict_get (owner_table o source) k) ∧
    (if _is_batch source
     then _is_batch g = true ∧ batch g = batch source ∧ batch_size g = batch_size source ∧
          _batch_num_nodes g = _batch_num_nodes source ∧
          _batch_num_edges g = _batch_num_edges source
     else _is_batch g = false ∧ batch g = None ∧ batch_size g = None ∧
          _batch_num_nodes g = None ∧ _batch_num_edges g = None).
Proof.
  intros Hal Hnd Hcons Hpos. exists (cloned source dev).
  pose proof Hal as (Hlens & Hattrs & Hok & Hrows).
  split_and!.
  - unfold GraphData_new. by erewrite exec_Return by (by apply from_graphdata_ok).
  - unfold cloned, copied_batch_info. by destruct (_is_batch source).
  - unfold cloned, copied_batch_info.
    destruct source as [a1 a2 [ss ts] a4 a5 a6 a7 a8 [] a10 a11 a12 a13]; done.
  - symmetry. apply consistent_maps_eq; [done| |].
    + eapply (index_consistent_ext
                (edges_added (src (_edge_indices source)) (tgt (_edge_indices source))
                   (registered (zip (src (_edge_indices source)) (tgt (_edge_indices source)))
                      (length (_edge_attributes
                                 (nodes_added (get_node_num source) (GraphData_init dev))))
                      (_nids_eid_mapping
                         (nodes_added (get_node_num source) (GraphData_init dev))))
                   (nodes_added (get_node_num source) (GraphData_init dev)))).
      * unfold cloned, copied_batch_info. by destruct (_is_batch source).
      * unfold cloned, copied_batch_info. by destruct (_is_batch source).
      * apply edges_added_consistent; try done.
        -- apply (dict_ok_init_edge dev).
        -- by apply index_consistent_empty.
    + unfold cloned, copied_batch_info.
      destruct source as [a1 a2 [ss ts] a4 a5 a6 a7 a8 [] a10 a11 a12 a13]; done.
  - unfold cloned, copied_batch_info. by destruct (_is_batch source).
  - unfold cloned, copied_batch_info. by destruct (_is_batch source).
  - unfold cloned, copied_batch_info. by destruct (_is_batch source).
  - intros o k Hk. destruct (dict_keys_is_Some _ _ Hk) as [v Hv].
    assert (owner_table o (cloned source dev)
            = updated (owner_table o source)
                (pad_table (owner_count o source)
                   (owner_table o (GraphData_init dev)))) as ->.
    { unfold cloned, copied_batch_info. destruct o, (_is_batch source); done. }
    rewrite dict_get_updated by apply Hok. by rewrite Hv.
  - unfold cloned, copied_batch_info. by destruct (_is_batch source).
Qed.

Lemma two_nodes_x_aligned : aligned two_nodes_x.
Proof.
  pose proof two_nodes_x_wf as (H1 & H2 & H3 & H4 & _). by split_and!.
Qed.

Lemma two_nodes_x_consistent : index_consistent two_nodes_x.
Proof.
  split; [done|]. intros s t e.
  change (_nids_eid_mapping two_nodes_x) with (<[(0, 1)%Z := 0]> (∅ : gmap (Z * Z) nat)).
  change (src (_edge_indices two_nodes_x)) with [0%Z].
  change (tgt (_edge_indices two_nodes_x)) with [1%Z].
  destruct (decide ((0, 1)%Z = (s, t))) as [[= <- <-]|Hne].
  - rewrite lookup_insert_eq. split.
    + by intros [= <-].
    + intros [He _]. apply lookup_lt_Some in He. cbn in He. f_equal. lia.
  - rewrite lookup_insert_ne, lookup_empty by done. split; [done|].
    intros [Hs Ht]. destruct e as [|e]; [|done]. cbn in Hs, Ht. congruence.
Qed.

Lemma clone_is_faithful_witness :
  ∃ g, GraphData_new (Some two_nodes_x) (Some "cpu"%string) = Ok g ∧
    _node_attributes g = _node_attributes two_nodes_x ∧
    _edge_indices g = _edge_indices two_nodes_x ∧
    _nids_eid_mapping g = _nids_eid_mapping two_nodes_x ∧
    _edge_attributes g = _edge_attributes two_nodes_x ∧
    graph_attributes g = graph_attributes two_nodes_x ∧
    device g = device two_nodes_x ∧
    (∀ o k, k ∈ dict_keys (owner_table o two_nodes_x) →
            dict_get (owner_table o g) k = dict_get (owner_table o two_nodes_x) k) ∧
    (if _is_batch two_nodes_x
     then _is_batch g = true ∧ batch g = batch two_nodes_x ∧
          batch_size g = batch_size two_nodes_x ∧
          _batch_num_nodes g = _batch_num_nodes two_nodes_x ∧
          _batch_num_edges g = _batch_num_edges two_nodes_x
     else _is_batch g = false ∧ batch g = None ∧ batch_size g = None ∧
          _batch_num_nodes g = None ∧ _batch_num_edges g = None).
Proof.
  apply clone_is_faithful.
  - apply two_nodes_x_aligned.
  - apply (bool_decide_unpack _). vm_compute. exact I.
  - apply two_nodes_x_consistent.
  - change (get_node_num two_nodes_x) with 2. lia.
Defined.

(** X12. A graph without nodes cannot be cloned: the constructor fails with
    the [AssertionError] of [add_nodes]. *)
Theorem clone_without_nodes (source : GraphData) (dev : option string) :
  get_node_num source = 0 →
  GraphData_new (Some source) dev = Err AssertionError.
Proof.
  intros Hn. unfold GraphData_new, from_graphdata. rewrite Hn.
  erewrite exec_Raise; [done|]. apply bind_Raise. by apply add_nodes_not_positive.
Qed.

Lemma clone_without_nodes_witness :
  GraphData_new (Some (GraphData_init None)) None = Err AssertionError.
Proof. apply clone_without_nodes. reflexivity. Defined.

(** ** Graphs from adjacency matrices *)

Lemma for_each_app {A} (l1 l2 : list A) (body : A → M unit) g :
  for_each (l1 ++ l2) body g = (for_each l1 body ;; for_each l2 body) g.
Proof.
  revert g. induction l1 as [|x l1 IH]; intros g; cbn [app for_each].
  - by rewrite bind_mret.
  - unfold mbind, M_bind. destruct (body x g) as [[] g1 w1|e g1 w1]; [|done].
    rewrite IH. unfold mbind, M_bind.
    destruct (for_each l1 body g1) as [[] g2 w2|e g2 w2]; cbn; [|done].
    destruct (for_each l2 body g2) as [[] g3 w3|e g3 w3]; cbn; by rewrite app_assoc.
Qed.

Lemma bind_ext_l {A B} (m m' : M A) (f : A → M B) g :
  m g = m' g → (m ≫= f) g = (m' ≫= f) g.
Proof. unfold mbind, M_bind. by intros ->. Qed.

Lemma bind_ext_r {A B} (m : M A) (f f' : A → M B) g :
  (∀ a g', f a g' = f' a g') → (m ≫= f) g = (m ≫= f') g.
Proof.
  intros Hf. unfold mbind, M_bind. destruct (m g) as [a g1 w|e g1 w]; [|done].
  by rewrite Hf.
Qed.

(** Every call of the loop of [add_edge] returns: the pairs that are new
    are appended at their first occurrence, the others are reported. *)
Lemma add_edge_each_spec : ∀ pairs g,
  dict_ok (_edge_features g) →
  ∃ m', add_edge_each pairs g
        = Return ()
            (edges_added (first_new (dom (_nids_eid_mapping g)) pairs).*1
               (first_new (dom (_nids_eid_mapping g)) pairs).*2 m' g)
            (DuplicateEdge <$> skipped (dom (_nids_eid_mapping g)) pairs).
Proof.
  unfold add_edge_each. induction pairs as [|[s t] ps IH]; intros g Hok.
  - exists (_nids_eid_mapping g). cbn [for_each first_new skipped fmap list_fmap].
    by rewrite edges_added_nil.
  - cbn [for_each first_new skipped].
    destruct (_nids_eid_mapping g !! (s, t)) as [e|] eqn:Hst.
    + rewrite decide_True by (apply elem_of_dom; eauto).
      rewrite decide_True by (apply elem_of_dom; eauto).
      erewrite bind_Return by (by eapply add_edge_duplicate).
      destruct (IH g Hok) as [m' ->]. by exists m'.
    + rewrite decide_False by (by apply not_elem_of_dom).
      rewrite decide_False by (by apply not_elem_of_dom).
      erewrite bind_Return by (by apply add_edge_new).
      rewrite after_warnings_nil.
      destruct (IH (edge_added s t g)) as [m' ->].
      { cbn. by apply dict_ok_pad_table. }
      exists m'. cbn [edge_added with_edge_features with_edge_attributes with_edge_indices
        with_nids_eid_mapping _nids_eid_mapping].
      rewrite dom_insert_L, edges_added_edge_added. done.
Qed.

Lemma length_first_new : ∀ pairs seen,
  length (first_new seen pairs) = length pairs →
  NoDup pairs ∧ ∀ p, p ∈ pairs → p ∉ seen.
Proof.
  induction pairs as [|p ps IH]; intros seen; cbn [first_new length].
  - intros _. split; [constructor|]. by intros p ?%elem_of_nil.
  - case_decide as Hp.
    + intros Hlen. pose proof (sublist_length _ _ (first_new_sublist ps seen)). lia.
    + cbn [length]. intros [= Hlen]. destruct (IH _ Hlen) as [Hnd Hfresh]. split.
      * constructor; [|done]. intros Hin. specialize (Hfresh p Hin).
        apply Hfresh, elem_of_union_l. by apply elem_of_singleton.
      * intros q [->|Hq]%elem_of_cons; [done|].
        specialize (Hfresh q Hq). intros Hs. apply Hfresh, elem_of_union_r, Hs.
Qed.

Lemma edge_features_setitem_wrong_length key value g :
  shape0 value ≠ get_edge_num g →
  edge_features_setitem key value g = Raise AssertionError g [].
Proof.
  intros Hlen. unfold edge_features_setitem.
  destruct (is_new_feature (_edge_features g) key) eqn:Hnew.
  - unfold set_edge_feature. cbn [dict_keys map fst for_each].
    erewrite bind_Return; last first.
    { erewrite bind_Return; [|rewrite bind_get_self, Hnew;
        change (negb (is_slice slice_all)) with false; cbv iota;
        erewrite bind_lift_Ok by apply covers_all_slice_all; reflexivity]. reflexivity. }
    rewrite after_warnings_nil. apply bind_Raise. rewrite bind_get_self. apply bind_Raise.
    unfold py_assert. by rewrite bool_decide_eq_false_2.
  - by apply set_edge_feature_wrong_length.
Qed.

(** The loop of [from_scipy_sparse_matrix] over the entries. *)
Lemma coo_loop (rw cl : list Z) : ∀ k i g,
  length rw = length cl → i + k = length rw →
  for_each (seq i k) (λ i,
    r ← lift (py_index rw i);
    c ← lift (py_index cl i);
    add_edge r c) g
  = add_edge_each (drop i (zip rw cl)) g.
Proof.
  unfold add_edge_each.
  induction k as [|k IH]; intros i g Hlen Hik.
  - rewrite drop_ge by (rewrite length_zip_with; lia). done.
  - destruct (lookup_lt_is_Some_2 rw i ltac:(lia)) as [r Hr].
    destruct (lookup_lt_is_Some_2 cl i ltac:(lia)) as [c Hc].
    assert (zip rw cl !! i = Some (r, c)) as Hz.
    { apply lookup_zip_with_Some. by exists r, c. }
    rewrite (drop_S _ _ _ Hz). cbn [seq for_each].
    etransitivity;
      [apply (bind_ext_r _ _ (λ _, for_each (drop (S i) (zip rw cl))
                                     (λ '(s, t), add_edge s t)));
       intros [] g'; apply IH; lia|].
    apply bind_ext_l.
    erewrite bind_lift_Ok by (by apply py_index_Some).
    by erewrite bind_lift_Ok by (by apply py_index_Some).
Qed.

(** The graph that the matrix describes, built on a new graph. *)
Definition of_entries (n : nat) (pairs : list (Z * Z)) (weights : list Z)
    (dev : option string) : GraphData :=
  let g1 := nodes_added n (GraphData_init dev) in
  let g2 := edges_added pairs.*1 pairs.*2 (registered pairs 0 ∅) g1 in
  with_edge_features (dict_set "edge_weight" (Some (torch_tensor weights)) (_edge_features g2))
    g2.

Lemma of_entries_facts n pairs weights dev :
  NoDup pairs → length weights = length pairs →
  get_node_num (of_entries n pairs weights dev) = n ∧
  edges_of (of_entries n pairs weights dev) = pairs ∧
  dict_get (_edge_features (of_entries n pairs weights dev)) "edge_weight"
  = Some (Some (torch_tensor weights)) ∧
  aligned (of_entries n pairs weights dev) ∧
  index_consistent (of_entries n pairs weights dev).
Proof.
  intros Hnd Hlen. split_and!.
  - unfold get_node_num. cbn. unfold default_node_attrs. by rewrite length_replicate.
  - unfold edges_of. cbn. by rewrite zip_fst_snd.
  - cbn [of_entries with_edge_features _edge_features]. apply dict_get_set_eq.
  - apply (aligned_set_feature Edges "edge_weight" (torch_tensor weights)
             (edges_added pairs.*1 pairs.*2 (registered pairs 0 ∅)
                (nodes_added n (GraphData_init dev)))).
    + apply aligned_edges_added; [by rewrite !length_fmap|].
      apply aligned_nodes_added, aligned_init.
    + unfold shape0, get_edge_num. cbn. by rewrite !length_fmap.
  - eapply (index_consistent_ext
              (edges_added pairs.*1 pairs.*2
                 (registered (zip pairs.*1 pairs.*2)
                    (length (_edge_attributes (nodes_added n (GraphData_init dev))))
                    (_nids_eid_mapping (nodes_added n (GraphData_init dev))))
                 (nodes_added n (GraphData_init dev)))).
    + cbn. by rewrite zip_fst_snd.
    + done.
    + apply edges_added_consistent; try done.
      * by rewrite !length_fmap.
      * apply (dict_ok_init_edge dev).
      * by rewrite zip_fst_snd.
      * by apply index_consistent_empty.
Qed.

Lemma add_edge_each_new_graph n dev pairs :
  NoDup pairs →
  add_edge_each pairs (nodes_added n (GraphData_init dev))
  = Return () (edges_added pairs.*1 pairs.*2 (registered pairs 0 ∅)
                 (nodes_added n (GraphData_init dev))) [].
Proof.
  intros Hnd.
  rewrite (add_edge_each_fresh 0 _ 0);
    [done|done|intros p _; apply lookup_empty|apply (dict_ok_init_edge dev)|done].
Qed.


(** X13. A square COO matrix with at least one row, whose three arrays have
    one length and whose cells are distinct, is imported into a new graph:
    one node per row, one edge per entry from its row to its column, in the
    order of the entries, and the data as the edge feature [edge_weight];
    the result has aligned counts and a consistent edge index map. *)
Theorem from_scipy_sparse_matrix_ok (adj : coo_matrix.t) (dev : option string) :
  (coo_matrix.shape adj).1 = (coo_matrix.shape adj).2 →
  0 < (coo_matrix.shape adj).1 →
  length (coo_matrix.row adj) = length (coo_matrix.col adj) →
  length (coo_matrix.data adj) = length (coo_matrix.row adj) →
  NoDup (zip (coo_matrix.row adj) (coo_matrix.col adj)) →
  ∃ g, from_scipy_sparse_matrix adj (GraphData_init dev) = Return () g [] ∧
       get_node_num g = (coo_matrix.shape adj).1 ∧
       edges_of g = zip (coo_matrix.row adj) (coo_matrix.col adj) ∧
       dict_get (_edge_features g) "edge_weight" = Some (Some (torch_tensor (coo_matrix.data adj))) ∧
       aligned g ∧ index_consistent g.
Proof.
  intros Hsq Hpos Hlen Hdata Hnd.
  exists (of_entries (coo_matrix.shape adj).1 (zip (coo_matrix.row adj) (coo_matrix.col adj)) (coo_matrix.data adj) dev).
  split; [|apply of_entries_facts; [done|rewrite length_zip_with; lia]].
  unfold from_scipy_sparse_matrix.
  erewrite bind_Return; last first.
  { unfold py_assert. rewrite bool_decide_eq_true_2 by done. reflexivity. }
  rewrite after_warnings_nil.
  erewrite bind_Return; last first.
  { apply add_nodes_ok; [lia|apply dict_ok_init_node]. }
  rewrite after_warnings_nil, Nat2Z.id.
  erewrite bind_Return; last first.
  { rewrite coo_loop by (done || lia). rewrite drop_0.
    by apply add_edge_each_new_graph. }
  rewrite after_warnings_nil.
  rewrite edge_features_setitem_ok; [done|].
  unfold shape0, get_edge_num. cbn. rewrite !length_fmap, length_zip_with. lia.
Qed.

Lemma from_scipy_sparse_matrix_ok_witness :
  let adj := coo_matrix.mk (3, 3) [0; 2; 1]%Z [1; 0; 1]%Z [5; 7; 9]%Z in
  ∃ g, from_scipy_sparse_matrix adj (GraphData_init None) = Return () g [] ∧
       get_node_num g = (coo_matrix.shape adj).1 ∧
       edges_of g = zip (coo_matrix.row adj) (coo_matrix.col adj) ∧
       dict_get (_edge_features g) "edge_weight" = Some (Some (torch_tensor (coo_matrix.data adj))) ∧
       aligned g ∧ index_consistent g.
Proof.
  apply from_scipy_sparse_matrix_ok; cbn; try done; try lia.
  apply (bool_decide_unpack _). vm_compute. exact I.
Defined.

(** X14. A COO matrix that lists a cell twice is not imported: the edge of
    the cell is added once, the array of the data has more rows than there
    are edges, and the write of [edge_weight] fails with [AssertionError];
    the nodes and the edges that were added stay in the graph. *)
Theorem from_scipy_sparse_matrix_duplicate (adj : coo_matrix.t) (dev : option string) :
  (coo_matrix.shape adj).1 = (coo_matrix.shape adj).2 →
  0 < (coo_matrix.shape adj).1 →
  length (coo_matrix.row adj) = length (coo_matrix.col adj) →
  length (coo_matrix.data adj) = length (coo_matrix.row adj) →
  ¬ NoDup (zip (coo_matrix.row adj) (coo_matrix.col adj)) →
  ∃ g w, from_scipy_sparse_matrix adj (GraphData_init dev) = Raise AssertionError g w ∧
         get_node_num g = (coo_matrix.shape adj).1 ∧
         edges_of g = first_new ∅ (zip (coo_matrix.row adj) (coo_matrix.col adj)) ∧
         get_edge_num g < length (coo_matrix.data adj) ∧
         dict_get (_edge_features g) "edge_weight" = Some None.
Proof.
  intros Hsq Hpos Hlen Hdata Hdup.
  set (g1 := nodes_added (coo_matrix.shape adj).1 (GraphData_init dev)).
  destruct (add_edge_each_spec (zip (coo_matrix.row adj) (coo_matrix.col adj)) g1) as [m' Hrun].
  { apply (dict_ok_init_edge dev). }
  change (dom (_nids_eid_mapping g1)) with (dom (∅ : gmap (Z * Z) nat)) in Hrun.
  rewrite dom_empty_L in Hrun.
  set (new := first_new ∅ (zip (coo_matrix.row adj) (coo_matrix.col adj))) in *.
  assert (length new < length (coo_matrix.data adj)) as Hless.
  { pose proof (sublist_length _ _ (first_new_sublist (zip (coo_matrix.row adj) (coo_matrix.col adj)) ∅)) as Hle.
    fold new in Hle. rewrite length_zip_with in Hle.
    destruct (decide (length new = length (zip (coo_matrix.row adj) (coo_matrix.col adj)))) as [Heq|Hne].
    - apply length_first_new in Heq as [? _]. done.
    - rewrite length_zip_with in Hne. lia. }
  eexists _, _. split; [|split_and!].
  - unfold from_scipy_sparse_matrix.
    erewrite bind_Return; last first.
    { unfold py_assert. rewrite bool_decide_eq_true_2 by done. reflexivity. }
    rewrite after_warnings_nil.
    erewrite bind_Return; last first.
    { apply add_nodes_ok; [lia|apply dict_ok_init_node]. }
    rewrite after_warnings_nil, Nat2Z.id.
    erewrite bind_Return; last first.
    { rewrite coo_loop by (done || lia). rewrite drop_0. exact Hrun. }
    rewrite edge_features_setitem_wrong_length; [reflexivity|].
    unfold shape0, get_edge_num. cbn. rewrite !length_fmap. lia.
  - unfold get_node_num. cbn. unfold default_node_attrs. by rewrite length_replicate.
  - unfold edges_of. cbn. by rewrite zip_fst_snd.
  - unfold get_edge_num. cbn. by rewrite length_fmap.
  - done.
Qed.

Lemma from_scipy_sparse_matrix_duplicate_witness :
  let adj := coo_matrix.mk (2, 2) [0; 0]%Z [1; 1]%Z [5; 7]%Z in
  ∃ g w, from_scipy_sparse_matrix adj (GraphData_init None) = Raise AssertionError g w ∧
         get_node_num g = (coo_matrix.shape adj).1 ∧
         edges_of g = first_new ∅ (zip (coo_matrix.row adj) (coo_matrix.col adj)) ∧
         get_edge_num g < length (coo_matrix.data adj) ∧
         dict_get (_edge_features g) "edge_weight" = Some None.
Proof.
  apply from_scipy_sparse_matrix_duplicate; cbn; try done; try lia.
  intros Hnd. apply NoDup_cons in Hnd as [Hin _]. apply Hin. left.
Defined.

(** *** Dense matrices *)

(** The cells of the row [i] that are not zero, from the column [j] on. *)
Fixpoint row_cells (i j : nat) (xs : list Z) : list (Z * Z) :=
  match xs with
  | [] => []
  | x :: xs' =>
      if decide (x ≠ 0%Z) then (Z.of_nat i, Z.of_nat j) :: row_cells i (S j) xs'
      else row_cells i (S j) xs'
  end.

Definition row_weights (xs : list Z) : list Z := filter (λ x, x ≠ 0%Z) xs.

(** The cells that are not zero, row by row from the row [i] on. *)
Fixpoint cells_from (i : nat) (rs : list (list Z)) : list (Z * Z) :=
  match rs with
  | [] => []
  | r :: rs' => row_cells i 0 r ++ cells_from (S i) rs'
  end.

Definition nonzero_cells (adj : Tensor) : list (Z * Z) := cells_from 0 (rows adj).
Definition nonzero_weights (adj : Tensor) : list Z := concat (row_weights <$> rows adj).

Lemma row_cells_elem a b : ∀ xs i j,
  (a, b) ∈ row_cells i j xs → a = Z.of_nat i ∧ (Z.of_nat j ≤ b)%Z.
Proof.
  induction xs as [|x xs IH]; intros i j; cbn [row_cells].
  - by intros ?%elem_of_nil.
  - case_decide.
    + intros [[= -> ->]|Hin]%elem_of_cons; [lia|]. apply IH in Hin. lia.
    + intros Hin. apply IH in Hin. lia.
Qed.

Lemma row_cells_NoDup : ∀ xs i j, NoDup (row_cells i j xs).
Proof.
  induction xs as [|x xs IH]; intros i j; cbn [row_cells]; [constructor|].
  case_decide; [|apply IH]. constructor; [|apply IH].
  intros Hin%row_cells_elem. lia.
Qed.

Lemma cells_from_elem a b : ∀ rs i, (a, b) ∈ cells_from i rs → (Z.of_nat i ≤ a)%Z.
Proof.
  induction rs as [|r rs IH]; intros i; cbn [cells_from].
  - by intros ?%elem_of_nil.
  - intros [Hin|Hin]%elem_of_app.
    + apply row_cells_elem in Hin. lia.
    + apply IH in Hin. lia.
Qed.

Lemma cells_from_NoDup : ∀ rs i, NoDup (cells_from i rs).
Proof.
  induction rs as [|r rs IH]; intros i; cbn [cells_from]; [constructor|].
  apply NoDup_app. split_and!; [apply row_cells_NoDup| |apply IH].
  intros [a b] Hin Hin'. apply row_cells_elem in Hin. apply cells_from_elem in Hin'. lia.
Qed.

Lemma length_row_cells : ∀ xs i j, length (row_cells i j xs) = length (row_weights xs).
Proof.
  unfold row_weights.
  induction xs as [|x xs IH]; intros i j; cbn [row_cells]; [done|].
  rewrite filter_cons. case_decide; cbn [length]; by rewrite IH.
Qed.

Lemma length_cells_from : ∀ rs i,
  length (cells_from i rs) = length (concat (row_weights <$> rs)).
Proof.
  induction rs as [|r rs IH]; intros i; cbn [cells_from]; [done|].
  rewrite fmap_cons. cbn [concat]. by rewrite !length_app, length_row_cells, IH.
Qed.

Lemma add_edge_returns s t g :
  dict_ok (_edge_features g) →
  ∃ g1 w1, add_edge s t g = Return () g1 w1 ∧ dict_ok (_edge_features g1).
Proof.
  intros Hok. destruct (_nids_eid_mapping g !! (s, t)) as [e|] eqn:Hst.
  - eexists _, _. split; [by eapply add_edge_duplicate|done].
  - eexists _, _. split; [by apply add_edge_new|]. cbn. by apply dict_ok_pad_table.
Qed.

Section dense.
Variable adj : Tensor.

Lemma dense_row_loop i r :
  rows adj !! i = Some r →
  ∀ xs j0 w g,
  drop j0 r = xs → dict_ok (_edge_features g) →
  ∃ g' ws,
    add_edge_each (row_cells i j0 xs) g = Return () g' ws ∧
    for_fold (seq j0 (length xs)) (from_dense_adj_cell adj i) w g
    = Return (w ++ row_weights xs) g' ws ∧
    dict_ok (_edge_features g').
Proof.
  intros Hr. unfold add_edge_each, row_weights.
  induction xs as [|x xs IH]; intros j0 w g Hdrop Hok.
  - exists g, []. cbn. by rewrite app_nil_r.
  - assert (r !! j0 = Some x) as Hx.
    { rewrite <-(Nat.add_0_r j0), <-lookup_drop, Hdrop. done. }
    assert (drop (S j0) r = xs) as Hdrop'.
    { by rewrite (drop_S _ _ _ Hx) in Hdrop; injection Hdrop. }
    cbn [length seq for_fold row_cells]. rewrite filter_cons.
    assert (∀ g0, from_dense_adj_cell adj i w j0 g0
                  = (if bool_decide (x ≠ 0%Z)
                     then add_edge (Z.of_nat i) (Z.of_nat j0) ;; mret (w ++ [x])
                     else mret w) g0) as Hcell.
    { intros g0. unfold from_dense_adj_cell.
      erewrite bind_lift_Ok by (by apply py_index_Some).
      by erewrite bind_lift_Ok by (by apply py_index_Some). }
    destruct (decide (x ≠ 0%Z)) as [Hnz|Hnz];
      [rewrite ?decide_True by done|rewrite ?decide_False by done].
    + destruct (add_edge_returns (Z.of_nat i) (Z.of_nat j0) g Hok) as (g1 & w1 & Hadd & Hok1).
      destruct (IH (S j0) (w ++ [x]) g1 Hdrop' Hok1) as (g' & ws & Hrun & Hfold & Hok').
      exists g', (w1 ++ ws). split_and!; [| |done].
      * cbn [for_each]. erewrite bind_Return by exact Hadd. by rewrite Hrun.
      * erewrite bind_Return; last first.
        { rewrite Hcell, bool_decide_eq_true_2 by done.
          by rewrite (bind_Return _ _ _ _ _ _ Hadd). }
        rewrite Hfold. cbn. by rewrite !app_nil_r, <-app_assoc.
    + destruct (IH (S j0) w g Hdrop' Hok) as (g' & ws & Hrun & Hfold & Hok').
      exists g', ws. split_and!; [done| |done].
      erewrite bind_Return; last first.
      { rewrite Hcell, bool_decide_eq_false_2 by done. reflexivity. }
      by rewrite after_warnings_nil.
Qed.

Variable n1 : nat.
Hypothesis rows_wf : Forall (λ r, length r = n1) (rows adj).

Lemma dense_rows_loop : ∀ rs i0 w g,
  drop i0 (rows adj) = rs → dict_ok (_edge_features g) →
  ∃ g' ws,
    add_edge_each (cells_from i0 rs) g = Return () g' ws ∧
    for_fold (seq i0 (length rs))
      (λ edge_weight i, for_fold (seq 0 n1) (from_dense_adj_cell adj i) edge_weight) w g
    = Return (w ++ concat (row_weights <$> rs)) g' ws ∧
    dict_ok (_edge_features g').
Proof.
  induction rs as [|r rs IH]; intros i0 w g Hdrop Hok.
  - exists g, []. cbn. by rewrite app_nil_r.
  - assert (rows adj !! i0 = Some r) as Hr.
    { rewrite <-(Nat.add_0_r i0), <-lookup_drop, Hdrop. done. }
    assert (drop (S i0) (rows adj) = rs) as Hdrop'.
    { by rewrite (drop_S _ _ _ Hr) in Hdrop; injection Hdrop. }
    assert (length r = n1) as Hlen.
    { apply (proj1 (Forall_forall _ _) rows_wf r). by eapply list_elem_of_lookup_2. }
    destruct (dense_row_loop i0 r Hr r 0 w g (drop_0 r) Hok) as (g1 & w1 & Hrun1 & Hfold1 & Hok1).
    destruct (IH (S i0) (w ++ row_weights r) g1 Hdrop' Hok1) as (g' & ws & Hrun & Hfold & Hok').
    exists g', (w1 ++ ws). split_and!; [| |done].
    + cbn [cells_from]. unfold add_edge_each in *.
      by rewrite for_each_app, (bind_Return _ _ _ _ _ _ Hrun1), Hrun.
    + cbn [length seq for_fold]. rewrite <-Hlen.
      rewrite (bind_Return _ _ _ _ _ _ Hfold1). rewrite Hlen, Hfold.
      rewrite fmap_cons. cbn. by rewrite <-app_assoc.
Qed.
End dense.

(** X15. A square matrix with a cell that is not zero is imported into a
    new graph: one node per row, one edge per cell that is not zero, from
    its row to its column, in row-major order, and the values of these cells
    as the edge feature [edge_weight]; the result has aligned counts and a
    consistent edge index map. *)
Theorem from_dense_adj_ok (adj : Tensor) (n : nat) (dev : option string) :
  tshape adj = [n] →
  shape0 adj = n →
  tensor_wf adj →
  nonzero_cells adj ≠ [] →
  ∃ g, from_dense_adj adj (GraphData_init dev) = Return () g [] ∧
       get_node_num g = n ∧
       edges_of g = nonzero_cells adj ∧
       dict_get (_edge_features g) "edge_weight"
       = Some (Some (torch_tensor (nonzero_weights adj))) ∧
       aligned g ∧ index_consistent g.
Proof.
  intros Hshape Hn Hwf Hcells.
  assert (0 < n) as Hpos.
  { rewrite <-Hn. unfold shape0, nonzero_cells in *. destruct (rows adj); [done|cbn; lia]. }
  assert (Forall (λ r, length r = n) (rows adj)) as Hrows.
  { unfold tensor_wf in Hwf. rewrite Hshape in Hwf. cbn in Hwf.
    eapply Forall_impl; [exact Hwf|]. cbn. lia. }
  assert (length (nonzero_weights adj) = length (nonzero_cells adj)) as Hlen.
  { unfold nonzero_weights, nonzero_cells. by rewrite length_cells_from. }
  exists (of_entries n (nonzero_cells adj) (nonzero_weights adj) dev).
  split; [|apply of_entries_facts; [apply cells_from_NoDup|done]].
  set (g1 := nodes_added n (GraphData_init dev)).
  destruct (dense_rows_loop adj n Hrows (rows adj) 0 [] g1 (drop_0 _))
    as (g' & ws & Hrun & Hfold & _).
  { apply (dict_ok_init_edge dev). }
  fold (nonzero_cells adj) in Hrun. fold (nonzero_weights adj) in Hfold.
  subst g1. rewrite add_edge_each_new_graph in Hrun by apply cells_from_NoDup.
  injection Hrun as <- <-.
  unfold from_dense_adj.
  erewrite bind_Return; last first.
  { unfold py_assert. rewrite Hshape, bool_decide_eq_true_2 by done. reflexivity. }
  rewrite after_warnings_nil.
  erewrite bind_lift_Ok by (unfold shape1; rewrite Hshape; reflexivity).
  erewrite bind_Return; last first.
  { unfold py_assert. rewrite bool_decide_eq_true_2 by done. reflexivity. }
  rewrite after_warnings_nil.
  erewrite bind_Return; last first.
  { rewrite Hn. apply add_nodes_ok; [lia|apply dict_ok_init_node]. }
  rewrite after_warnings_nil, Nat2Z.id.
  change (length (rows adj)) with (shape0 adj) in Hfold.
  rewrite (bind_Return _ _ _ _ _ _ Hfold), after_warnings_nil.
  assert (torch_stack ([] ++ nonzero_weights adj) = Ok (torch_tensor (nonzero_weights adj)))
    as Hstack.
  { unfold torch_stack. cbn [app]. destruct (nonzero_weights adj); [|reflexivity].
    destruct (nonzero_cells adj); done. }
  rewrite (bind_lift_Ok _ _ _ _ Hstack).
  rewrite edge_features_setitem_ok; [done|].
  unfold shape0, get_edge_num. cbn. by rewrite !length_fmap.
Qed.

Lemma from_dense_adj_ok_witness :
  let adj := mkTensor [2] [[0; 3]; [4; 0]]%Z in
  ∃ g, from_dense_adj adj (GraphData_init None) = Return () g [] ∧
       get_node_num g = 2 ∧
       edges_of g = nonzero_cells adj ∧
       dict_get (_edge_features g) "edge_weight"
       = Some (Some (torch_tensor (nonzero_weights adj))) ∧
       aligned g ∧ index_consistent g.
Proof.
  apply from_dense_adj_ok; [reflexivity|reflexivity| |done].
  repeat constructor.
Defined.

(** X16. What [from_dense_adj] rejects: a tensor that is not a square matrix
    fails an assertion and leaves the graph as it is; a square matrix of
    zeros fails in [torch.stack], which is given no weight, with
    [RuntimeError], after its nodes have been added. *)
Theorem from_dense_adj_rejected (adj : Tensor) (g : GraphData) :
  (length (tshape adj) ≠ 1 → from_dense_adj adj g = Raise AssertionError g []) ∧
  (∀ m, tshape adj = [m] → shape0 adj ≠ m →
        from_dense_adj adj g = Raise AssertionError g []) ∧
  (∀ n, tshape adj = [n] → shape0 adj = n → 0 < n → tensor_wf adj →
        nonzero_cells adj = [] →
        dict_ok (_node_features g) → dict_ok (_edge_features g) →
        from_dense_adj adj g = Raise RuntimeError (nodes_added n g) []).
Proof.
  split_and!.
  - intros Hdim. unfold from_dense_adj. apply bind_Raise.
    unfold py_assert. rewrite bool_decide_eq_false_2; [done|lia].
  - intros m Hshape Hne. unfold from_dense_adj.
    erewrite bind_Return; last first.
    { unfold py_assert. rewrite Hshape, bool_decide_eq_true_2 by done. reflexivity. }
    rewrite after_warnings_nil.
    erewrite bind_lift_Ok by (unfold shape1; rewrite Hshape; reflexivity).
    apply bind_Raise. unfold py_assert. by rewrite bool_decide_eq_false_2.
  - intros n Hshape Hn Hpos Hwf Hcells Hokn Hoke.
    assert (Forall (λ r, length r = n) (rows adj)) as Hrows.
    { unfold tensor_wf in Hwf. rewrite Hshape in Hwf. cbn in Hwf.
      eapply Forall_impl; [exact Hwf|]. cbn. lia. }
    destruct (dense_rows_loop adj n Hrows (rows adj) 0 [] (nodes_added n g) (drop_0 _))
      as (g' & ws & Hrun & Hfold & _).
    { cbn. done. }
    fold (nonzero_cells adj) in Hrun. fold (nonzero_weights adj) in Hfold.
    assert (nonzero_weights adj = []) as Hw.
    { apply length_zero_iff_nil. unfold nonzero_weights.
      rewrite <-(length_cells_from _ 0). fold (nonzero_cells adj). by rewrite Hcells. }
    rewrite Hcells in Hrun. injection Hrun as <- <-. rewrite Hw in Hfold.
    unfold from_dense_adj.
    erewrite bind_Return; last first.
    { unfold py_assert. rewrite Hshape, bool_decide_eq_true_2 by done. reflexivity. }
    rewrite after_warnings_nil.
    erewrite bind_lift_Ok by (unfold shape1; rewrite Hshape; reflexivity).
    erewrite bind_Return; last first.
    { unfold py_assert. rewrite bool_decide_eq_true_2 by done. reflexivity. }
    rewrite after_warnings_nil.
    erewrite bind_Return; last first.
    { rewrite Hn. apply add_nodes_ok; [lia|done]. }
    rewrite after_warnings_nil, Nat2Z.id.
    change (length (rows adj)) with (shape0 adj) in Hfold.
    rewrite (bind_Return _ _ _ _ _ _ Hfold), after_warnings_nil.
    by erewrite bind_lift_Err.
Qed.

Lemma from_dense_adj_rejected_witness :
  from_dense_adj (mkTensor [] [[1%Z]]) three_nodes = Raise AssertionError three_nodes [] ∧
  from_dense_adj (mkTensor [3] [[1; 0; 0]; [0; 1; 0]]%Z) three_nodes
  = Raise AssertionError three_nodes [] ∧
  from_dense_adj (mkTensor [2] [[0; 0]; [0; 0]]%Z) three_nodes
  = Raise RuntimeError (nodes_added 2 three_nodes) [].
Proof.
  split_and!.
  - by apply (from_dense_adj_rejected (mkTensor [] [[1%Z]]) three_nodes).
  - by apply (from_dense_adj_rejected (mkTensor [3] [[1; 0; 0]; [0; 1; 0]]%Z) three_nodes) 
      with (m := 3).
  - apply (from_dense_adj_rejected (mkTensor [2] [[0; 0]; [0; 0]]%Z) three_nodes);
      try done; try lia.
    + repeat constructor.
    + apply (bool_decide_unpack _). vm_compute. exact I.
    + apply (bool_decide_unpack _). vm_compute. exact I.
Defined.

(** ** The batch views of the features *)

Definition batch_counts (o : Owner) (g : GraphData) : option (list nat) :=
  match o with Nodes => _batch_num_nodes g | Edges => _batch_num_edges g end.

Definition split_features (o : Owner) : GraphData → bresult (list (string * list Tensor)) :=
  match o with Nodes => split_node_features | Edges => split_edge_features end.

Definition get_batch_view (o : Owner) : option string → GraphData → bresult BatchFeatures :=
  match o with Nodes => _get_batch_node_features | Edges => _get_batch_edge_features end.

Definition set_batch_view (o : Owner) : string → Tensor → M unit :=
  match o with Nodes => _set_batch_node_features | Edges => _set_batch_edge_features end.

Lemma split_features_unfold o g :
  split_features o g
  = if negb (_is_batch g) then Failed Exception
    else propagate (foldM (split_feature (view_getitem o) (batch_counts o g) g)
                      (view_keys o g) []).
Proof. by destruct o. Qed.

Lemma get_batch_view_unfold o item g :
  get_batch_view o item g
  = get_batch_features (split_features o) (view_keys o) (view_getitem o) item g.
Proof. by destruct o. Qed.

Lemma set_batch_view_unfold o key value g :
  set_batch_view o key value g
  = (individual_features ← lift (individual_features (batch_counts o g) value);
     t ← lift (torch_cat individual_features);
     write_features o slice_all [(key, t)]) g.
Proof.
  destruct o; cbn [set_batch_view batch_counts write_features];
    [unfold _set_batch_node_features|unfold _set_batch_edge_features];
    by rewrite bind_get_self.
Qed.

Lemma split_rows_lookup : ∀ sections (rs : list (list Z)) i n,
  sections !! i = Some n →
  split_rows rs sections !! i = Some (py_slice rs (cum sections i) (cum sections i + n)).
Proof.
  induction sections as [|m sections IH]; intros rs i n; [done|].
  destruct i as [|i]; cbn [split_rows].
  - intros [= ->]. unfold py_slice. rewrite cum_0. cbn. by rewrite Nat.sub_0_r.
  - intros Hi. cbn [lookup list_lookup]. rewrite (IH _ _ _ Hi), cum_cons.
    unfold py_slice. rewrite drop_drop. do 2 f_equal. lia.
Qed.

Lemma length_split_rows : ∀ sections (rs : list (list Z)),
  length (split_rows rs sections) = length sections.
Proof. induction sections as [|m sections IH]; intros rs; cbn; [done|]. by rewrite IH. Qed.

Lemma concat_split_rows : ∀ sections (rs : list (list Z)),
  sum_list sections = length rs → concat (split_rows rs sections) = rs.
Proof.
  induction sections as [|m sections IH]; intros rs; cbn [split_rows concat].
  - cbn. intros Hlen. symmetry. by apply length_zero_iff_nil.
  - intros Hsum. change (sum_list (m :: sections)) with (m + sum_list sections) in Hsum.
    rewrite IH by (rewrite length_drop; lia). apply take_drop.
Qed.

(** The parts of an array of the batch, one for each graph. *)
Definition parts_of (sections : list nat) (t : Tensor) : list Tensor :=
  mkTensor (tshape t) <$> split_rows (rows t) sections.

Lemma split_loop o sections g :
  (∀ k t, dict_get (owner_table o g) k = Some (Some t) → shape0 t = sum_list sections) →
  ∀ ks acc,
  (∀ k, k ∈ ks → is_Some (dict_get (owner_table o g) k)) →
  ∃ d, foldM (split_feature (view_getitem o) (Some sections) g) ks acc = Ok d ∧
       ∀ k, dict_get d k
            = match (if decide (k ∈ ks) then present o k g else None) with
              | Some t => Some (parts_of sections t)
              | None => dict_get acc k
              end.
Proof.
  intros Hshape. induction ks as [|key ks IH]; intros acc Hks.
  - exists acc. split; [done|]. intros k. rewrite decide_False; [done|]. by intros ?%elem_of_nil.
  - destruct (Hks key (list_elem_of_here _ _)) as [v Hv].
    assert (∃ acc', split_feature (view_getitem o) (Some sections) g acc key = Ok acc' ∧
              ∀ k, dict_get acc' k
                   = match (if decide (k = key) then present o k g else None) with
                     | Some t => Some (parts_of sections t)
                     | None => dict_get acc k
                     end) as (acc' & Hstep & Hacc').
    { unfold split_feature, call. rewrite (view_getitem_ok o key v g Hv).
      cbn [mbind result_bind]. destruct v as [t|].
      - unfold torch_split. rewrite decide_True by (symmetry; by apply (Hshape key)).
        cbn [mbind result_bind]. eexists. split; [reflexivity|]. intros k.
        case_decide as Hk.
        + subst k. apply present_Some in Hv. rewrite Hv. apply dict_get_set_eq.
        + by rewrite dict_get_set_ne.
      - exists acc. split; [done|]. intros k. case_decide as Hk; [|done].
        subst k. unfold present. by rewrite Hv. }
    destruct (IH acc') as (d & Hrun & Hd).
    { intros k Hk. apply Hks. by right. }
    exists d. split.
    + cbn [foldM]. rewrite Hstep. exact Hrun.
    + intros k. rewrite Hd, Hacc'. destruct (decide (k ∈ ks)) as [Hin|Hnin].
      * rewrite (decide_True (P := k ∈ key :: ks)) by (by right).
        destruct (present o k g); [done|]. case_decide; [|done].
        subst k. destruct (present o key g); done.
      * case_decide as Hk.
        -- subst k. by rewrite (decide_True (P := key ∈ key :: ks)) by left.
        -- rewrite (decide_False (P := k ∈ key :: ks)); [done|].
           by intros [?|?]%elem_of_cons.
Qed.

Lemma split_features_ok (o : Owner) (b : GraphData) (n : nat) (nn ne : list nat) :
  _is_batch b = true → batch_wf b n nn ne →
  let counts := match o with Nodes => nn | Edges => ne end in
  ∃ d, split_features o b = Done d ∧
       (∀ k t, dict_get (owner_table o b) k = Some (Some t) →
          ∃ parts, dict_get d k = Some parts ∧
                   length parts = n ∧
                   (∀ i, i < n →
                      parts !! i = Some (tensor_slice t (cum counts i)
                                           (cum counts i + counts !!! i))) ∧
                   concat (rows <$> parts) = rows t) ∧
       (∀ k, dict_get (owner_table o b) k = Some None → dict_get d k = None).
Proof.
  intros Hb (Hbs & Hnn & Hne & Hln & Hle & Hpos & Hsn & Hse & Hlens & Hattrs & HTn & HTe & Hnd)
    counts.
  assert (batch_counts o b = Some counts) as Hcounts by (by destruct o).
  assert (length counts = n) as Hlc by (by destruct o).
  assert (∀ k t, dict_get (owner_table o b) k = Some (Some t) →
                 shape0 t = sum_list counts) as Hshape.
  { intros k t Hk%dict_get_Some_elem. destruct o; unfold counts.
    - rewrite Hsn. by apply (HTn k).
    - rewrite Hse. by apply (HTe k). }
  destruct (split_loop o counts b Hshape (view_keys o b) []) as (d & Hrun & Hd).
  { intros k Hk. apply dict_keys_is_Some. by destruct o. }
  exists d. split_and!.
  - rewrite split_features_unfold, Hb, Hcounts. cbn [negb]. by rewrite Hrun.
  - intros k t Hk. exists (parts_of counts t).
    assert (k ∈ view_keys o b) as Hin.
    { apply dict_get_Some_key in Hk. by destruct o. }
    split_and!.
    + rewrite Hd, decide_True by done. apply present_Some in Hk. by rewrite Hk.
    + unfold parts_of. by rewrite length_fmap, length_split_rows.
    + intros i Hi. unfold parts_of. rewrite list_lookup_fmap.
      rewrite (split_rows_lookup counts (rows t) i (counts !!! i)); [done|].
      apply lookup_total_Some. lia.
    + unfold parts_of. rewrite <-list_fmap_compose.
      rewrite (list_fmap_ext (rows ∘ mkTensor (tshape t)) id (split_rows (rows t) counts))
        by done.
      rewrite list_fmap_id. apply concat_split_rows. symmetry. by apply (Hshape k).
  - intros k Hk. rewrite Hd. unfold present. rewrite Hk. by case_decide.
Qed.

(** X17. The split view of a batch: on a graph that is not a batch
    [split_node_features] and [split_edge_features] raise [Exception]; on a
    well-formed batch they return, for every array that is present, one
    part for each graph, in order: the [i]-th part holds the rows of the
    [i]-th graph, the rows that [from_batch] hands to it, and the parts
    together are the rows of the array; a feature that is absent has no
    entry. *)
Theorem split_features_of_batch (o : Owner) (b : GraphData) (n : nat) (nn ne : list nat) :
  (_is_batch b = false → split_features o b = Failed Exception) ∧
  (_is_batch b = true → batch_wf b n nn ne →
   let counts := match o with Nodes => nn | Edges => ne end in
   ∃ d, split_features o b = Done d ∧
        (∀ k t, dict_get (owner_table o b) k = Some (Some t) →
           ∃ parts, dict_get d k = Some parts ∧
                    length parts = n ∧
                    (∀ i, i < n →
                       parts !! i = Some (tensor_slice t (cum counts i)
                                            (cum counts i + counts !!! i))) ∧
                    concat (rows <$> parts) = rows t) ∧
        (∀ k, dict_get (owner_table o b) k = Some None → dict_get d k = None)).
Proof.
  split.
  - intros Hb. rewrite split_features_unfold. by rewrite Hb.
  - apply split_features_ok.
Qed.

Lemma split_features_of_batch_witness :
  split_features Edges one_node = Failed Exception ∧
  ∃ d, split_features Edges small_batch = Done d ∧
       (∀ k t, dict_get (owner_table Edges small_batch) k = Some (Some t) →
          ∃ parts, dict_get d k = Some parts ∧
                   length parts = 2 ∧
                   (∀ i, i < 2 →
                      parts !! i = Some (tensor_slice t (cum [0; 1] i)
                                           (cum [0; 1] i + [0; 1] !!! i))) ∧
                   concat (rows <$> parts) = rows t) ∧
       (∀ k, dict_get (owner_table Edges small_batch) k = Some None → dict_get d k = None).
Proof.
  split.
  - apply (split_features_of_batch Edges one_node 0 [] []). reflexivity.
  - apply (split_features_of_batch Edges small_batch 2 [1; 2] [0; 1]);
      [reflexivity|apply small_batch_wf].
Defined.

(** *** The padded view and its inverse *)

Lemma chunks_rows {A} (sz : nat) (pad : list A) : ∀ (rs : list (list A)) n,
  Forall (λ r, length r = sz) rs → length rs ≤ n →
  take (length rs) (chunks n sz (concat rs ++ pad)) = rs.
Proof.
  intros rs n Hrs Hn. unfold chunks.
  change (map ?f ?l) with (f <$> l). rewrite <-fmap_take, take_seq, Nat.min_l by done.
  clear n Hn. induction Hrs as [|r rs Hr Hrs IH]; [done|].
  cbn [length seq]. rewrite fmap_cons. f_equal.
  - cbn [concat]. rewrite <-app_assoc. cbn. by rewrite drop_0, take_app_length'.
  - rewrite <-fmap_S_seq, <-list_fmap_compose. rewrite <-IH at 2.
    apply list_fmap_ext. intros _ i _. cbn [compose concat].
    rewrite <-app_assoc. f_equal.
    replace (S i * sz) with (length r + i * sz) by lia.
    by rewrite drop_app_add'.
Qed.

Lemma mapM_seq_lookup {B} (f : nat → result B) : ∀ (l : list B) j,
  (∀ i x, l !! i = Some x → f (j + i) = Ok x) →
  mapM f (seq j (length l)) = Ok l.
Proof.
  induction l as [|x l IH]; intros j Hf; [done|].
  cbn [length seq mapM]. rewrite <-(Nat.add_0_r j) at 1. rewrite (Hf 0 x) by done.
  cbn [mbind result_bind]. rewrite (IH (S j)); [done|].
  intros i y Hy. rewrite <-(Hf (S i) y Hy). f_equal. lia.
Qed.

Lemma shape0_parts_of counts t :
  sum_list counts = shape0 t → shape0 <$> parts_of counts t = counts.
Proof.
  intros Hsum. apply list_eq. intros i. unfold parts_of.
  rewrite !list_lookup_fmap.
  destruct (counts !! i) as [c|] eqn:Hc.
  - rewrite (split_rows_lookup _ _ _ _ Hc). cbn. unfold shape0. cbn.
    pose proof (cum_le _ _ _ Hc). unfold shape0 in Hsum.
    rewrite py_slice_length by lia. f_equal. lia.
  - apply lookup_ge_None in Hc.
    rewrite (proj2 (lookup_ge_None _ _)); [done|]. by rewrite length_split_rows.
Qed.

Lemma tensor_wf_parts_of counts t :
  tensor_wf t → Forall (λ p, tensor_wf p ∧ tshape p = tshape t) (parts_of counts t).
Proof.
  intros Hwf. unfold parts_of. apply Forall_fmap. unfold tensor_wf in *.
  generalize (rows t) Hwf. clear Hwf.
  induction counts as [|c counts IH]; intros rs Hrs; cbn [split_rows]; constructor.
  - cbn. split; [|done]. by apply Forall_take.
  - apply IH. by apply Forall_drop.
Qed.

(** The padded array of the parts. *)
Definition padded (parts : list Tensor) (trailing : list nat) : Tensor :=
  mkTensor (max_list (shape0 <$> parts) :: trailing)
    (map (λ t, concat (rows t)
                 ++ replicate ((max_list (shape0 <$> parts) - shape0 t) * numel trailing) 0%Z)
       parts).

Lemma pad_sequence_parts parts trailing :
  parts ≠ [] → Forall (λ p, tshape p = trailing) parts →
  pad_sequence parts = Ok (padded parts trailing).
Proof.
  intros Hne Hshape. destruct parts as [|t0 ts]; [done|].
  apply Forall_cons in Hshape as [H0 Hts]. unfold pad_sequence.
  rewrite (proj2 (forallb_forall _ _)).
  - unfold padded. by rewrite H0.
  - intros t Hin%list_elem_of_In. apply bool_decide_eq_true_2.
    rewrite H0. by apply (proj1 (Forall_forall _ _) Hts).
Qed.

Lemma batch_block_padded parts trailing i p :
  Forall (λ p, tensor_wf p ∧ tshape p = trailing) parts →
  parts !! i = Some p →
  batch_block (padded parts trailing) i (shape0 p) = Ok p.
Proof.
  intros Hparts Hp. unfold batch_block, padded. cbn [tshape rows].
  change (map ?f ?l) with (f <$> l).
  rewrite (py_index_Some _ i (concat (rows p)
            ++ replicate ((max_list (shape0 <$> parts) - shape0 p) * numel trailing) 0%Z))
    by (by rewrite list_lookup_fmap, Hp).
  cbn [mbind result_bind]. f_equal.
  destruct (proj1 (Forall_forall _ _) Hparts p (list_elem_of_lookup_2 _ _ _ Hp)) as [Hwf Hsh].
  unfold shape0 at 1. rewrite chunks_rows.
  - destruct p. cbn in *. by subst.
  - unfold tensor_wf in Hwf. by rewrite Hsh in Hwf.
  - apply max_list_elem_of_le. apply list_elem_of_fmap. exists p. split; [done|].
    by eapply list_elem_of_lookup_2.
Qed.

(** X18. The padded view of a feature and its inverse: on a well-formed
    batch of at least one graph, [_get_batch_node_features(k)] (or its edge
    counterpart) of a present array returns an array with one block for
    each graph, as long as the largest graph, and writing this array back
    with [_set_batch_node_features(k, value)] trims every block to its
    graph and leaves the batch exactly as it was. *)
Theorem batch_view_round_trip (o : Owner) (b : GraphData) (n : nat) (nn ne : list nat)
    (k : string) (t : Tensor) :
  _is_batch b = true →
  batch_wf b n nn ne →
  0 < n →
  dict_ok (owner_table o b) →
  tensor_wf t →
  dict_get (owner_table o b) k = Some (Some t) →
  let counts := match o with Nodes => nn | Edges => ne end in
  ∃ p, get_batch_view o (Some k) b = Done (OneFeature p) ∧
       tshape p = max_list counts :: tshape t ∧
       shape0 p = n ∧
       set_batch_view o k p b = Return () b [].
Proof.
  intros Hb Hwf Hn Hok Htwf Hk counts.
  destruct (split_features_ok o b n nn ne Hb Hwf) as (d & Hd & Hparts & _).
  destruct (Hparts k t Hk) as (parts & Hdk & Hlen & Hlook & Hcat).
  pose proof Hwf as (Hbs & Hnn & Hne & Hln & Hle & Hpos & Hsn & Hse & _ & _ & HTn & HTe & _).
  assert (batch_counts o b = Some counts) as Hcounts by (by destruct o).
  assert (length counts = n) as Hlc by (by destruct o).
  assert (shape0 t = owner_count o b) as Hshape.
  { apply dict_get_Some_elem in Hk. destruct o; [by apply (HTn k)|by apply (HTe k)]. }
  assert (sum_list counts = shape0 t) as Hsum.
  { rewrite Hshape. by destruct o. }
  assert (parts = parts_of counts t) as ->.
  { apply list_eq. intros i. destruct (decide (i < n)) as [Hi|Hi].
    - rewrite (Hlook i Hi). unfold parts_of. rewrite list_lookup_fmap.
      rewrite (split_rows_lookup counts (rows t) i (counts !!! i)); [done|].
      apply lookup_total_Some. lia.
    - rewrite !(proj2 (lookup_ge_None _ _)); [done| |lia].
      unfold parts_of. rewrite length_fmap, length_split_rows. lia. }
  pose proof (tensor_wf_parts_of counts t Htwf) as Hpw.
  assert (parts_of counts t ≠ []) as Hne'.
  { intros Hnil. rewrite Hnil in Hlen. cbn in Hlen. lia. }
  assert (Forall (λ p, tshape p = tshape t) (parts_of counts t)) as Hsh.
  { eapply Forall_impl; [exact Hpw|]. by intros p [_ ?]. }
  exists (padded (parts_of counts t) (tshape t)). split_and!.
  - rewrite get_batch_view_unfold. unfold get_batch_features. rewrite Hb. cbn [negb].
    rewrite bool_decide_eq_false_2; last first.
    { intros Hnot. apply Hnot. apply dict_get_Some_key in Hk. by destruct o. }
    unfold call. rewrite (view_getitem_ok o k (Some t) b Hk).
    cbn [propagate mbind bresult_bind is_None]. rewrite Hd. cbn [mbind bresult_bind].
    rewrite Hdk, (pad_sequence_parts _ (tshape t)) by done. done.
  - cbn. by rewrite shape0_parts_of.
  - unfold shape0, padded. cbn [rows]. by rewrite length_map.
  - rewrite set_batch_view_unfold, Hcounts.
    assert (individual_features (Some counts) (padded (parts_of counts t) (tshape t))
            = Ok (parts_of counts t)) as Hind.
    { unfold individual_features. rewrite Hlc, <-Hlen. apply mapM_seq_lookup.
      intros i p Hp. cbn [Nat.add].
      assert (counts !! i = Some (shape0 p)) as Hci.
      { rewrite <-(shape0_parts_of counts t Hsum) at 1. by rewrite list_lookup_fmap, Hp. }
      rewrite (py_index_Some _ _ _ Hci). cbn [mbind result_bind].
      by apply batch_block_padded. }
    rewrite (bind_lift_Ok _ _ _ _ Hind).
    assert (torch_cat (parts_of counts t) = Ok t) as Hcat'.
    { destruct (parts_of counts t) as [|t0 ts] eqn:Hp; [done|].
      apply Forall_cons in Hsh as [H0 Hts].
      rewrite torch_cat_same_shape.
      - rewrite Hcat, H0. by destruct t.
      - eapply Forall_impl; [exact Hts|]. cbn. congruence. }
    rewrite (bind_lift_Ok _ _ _ _ Hcat').
    transitivity (view_setitem o k t b); [by destruct o|].
    rewrite view_setitem_ok by done.
    by rewrite dict_set_same, with_owner_table_id.
Qed.

Lemma batch_view_round_trip_witness :
  ∃ p, get_batch_view Edges (Some "w"%string) small_batch = Done (OneFeature p) ∧
       tshape p = max_list [0; 1] :: tshape (mkTensor [] [[9%Z]]) ∧
       shape0 p = 2 ∧
       set_batch_view Edges "w" p small_batch = Return () small_batch [].
Proof.
  apply (batch_view_round_trip Edges small_batch 2 [1; 2] [0; 1] "w" (mkTensor [] [[9%Z]])).
  - reflexivity.
  - apply small_batch_wf.
  - lia.
  - apply small_batch_dict_ok.
  - repeat constructor.
  - reflexivity.
Defined.

(** X19. What the padded views reject: on a graph that is not a batch
    [_get_batch_node_features] (and its edge counterpart) raises
    [Exception], whatever is asked for; on a batch it raises [Exception]
    for a name that is not registered and for a feature that is absent; and
    [_set_batch_node_features] on a graph without recorded counts raises
    [TypeError], the graph unchanged. *)
Theorem batch_view_rejected (o : Owner) (g : GraphData) (k : string) :
  (_is_batch g = false → ∀ item, get_batch_view o item g = Failed Exception) ∧
  (_is_batch g = true → dict_get (owner_table o g) k = None →
     get_batch_view o (Some k) g = Failed Exception) ∧
  (_is_batch g = true → dict_get (owner_table o g) k = Some None →
     get_batch_view o (Some k) g = Failed Exception) ∧
  (batch_counts o g = None →
     ∀ value, set_batch_view o k value g = Raise TypeError g []).
Proof.
  split_and!.
  - intros Hb item. rewrite get_batch_view_unfold. unfold get_batch_features. by rewrite Hb.
  - intros Hb Hk. rewrite get_batch_view_unfold. unfold get_batch_features.
    rewrite Hb. cbn [negb]. rewrite bool_decide_eq_true_2; [done|].
    apply dict_get_None in Hk. by destruct o.
  - intros Hb Hk. rewrite get_batch_view_unfold. unfold get_batch_features.
    rewrite Hb. cbn [negb]. rewrite bool_decide_eq_false_2; last first.
    { intros Hnot. apply Hnot. apply dict_get_Some_key in Hk. by destruct o. }
    unfold call. by rewrite (view_getitem_ok o k None g Hk).
  - intros Hc value. rewrite set_batch_view_unfold, Hc. done.
Qed.

Lemma batch_view_rejected_witness :
  (∀ item, get_batch_view Nodes item one_node_x = Failed Exception) ∧
  get_batch_view Nodes (Some "x"%string) small_batch = Failed Exception ∧
  get_batch_view Nodes (Some "node_feat"%string) small_batch = Failed Exception ∧
  (∀ value, set_batch_view Nodes "x" value one_node_x = Raise TypeError one_node_x []).
Proof.
  destruct (batch_view_rejected Nodes one_node_x "x") as (H1 & _ & _ & H4).
  destruct (batch_view_rejected Nodes small_batch "x") as (_ & H2 & _ & _).
  destruct (batch_view_rejected Nodes small_batch "node_feat") as (_ & _ & H3 & _).
  split_and!.
  - apply H1. reflexivity.
  - apply H2; reflexivity.
  - apply H3; reflexivity.
  - apply H4. reflexivity.
Defined.

(** ** Looking edges up *)

Lemma consistent_lookup g s t e :
  index_consistent g →
  _nids_eid_mapping g !! (s, t) = Some e ↔ edges_of g !! e = Some (s, t).
Proof.
  intros [_ Hiff]. rewrite Hiff. unfold edges_of. rewrite lookup_zip_with_Some. split.
  - intros [Hs Ht]. by exists s, t.
  - by intros (s' & t' & [= -> ->] & Hs & Ht).
Qed.

Lemma edge_ids_loop g : ∀ k i acc,
  index_consistent g →
  i + k = length (edges_of g) →
  for_fold (drop i (edges_of g)) (λ eid_list '(src_idx, tgt_idx),
    match _nids_eid_mapping g !! (src_idx, tgt_idx) with
    | Some eid => mret (eid_list ++ [eid])
    | None => raise EdgeNotFoundException
    end) acc g
  = Return (acc ++ seq i k) g [].
Proof.
  induction k as [|k IH]; intros i acc Hc Hik.
  - rewrite drop_ge by lia. cbn. by rewrite app_nil_r.
  - destruct (lookup_lt_is_Some_2 (edges_of g) i ltac:(lia)) as [[s t] Hp].
    rewrite (drop_S _ _ _ Hp). cbn [for_fold seq].
    rewrite (proj2 (consistent_lookup g s t i Hc) Hp), bind_mret.
    rewrite IH by (done || lia). by rewrite <-app_assoc.
Qed.

(** X20. The edge index map inverts the endpoint lists: on a graph with at
    least one edge whose index map is consistent, [edge_ids] of the
    endpoint lists of the graph returns the edge ids [0, 1, ...] in order,
    and [edge_ids] of a pair that is not an edge of the graph raises
    [EdgeNotFoundException]; the graph is as it was. *)
Theorem edge_ids_of_the_edges (g : GraphData) :
  index_consistent g →
  length (src (_edge_indices g)) = length (tgt (_edge_indices g)) →
  0 < get_edge_num g →
  edge_ids (AList (src (_edge_indices g))) (AList (tgt (_edge_indices g))) g
  = Return (seq 0 (get_edge_num g)) g [] ∧
  ∀ s t, (s, t) ∉ edges_of g →
         edge_ids (AnInt s) (AnInt t) g = Raise EdgeNotFoundException g [].
Proof.
  intros Hc Hlens _. split.
  - unfold edge_ids. cbn [int_to_list].
    erewrite bind_lift_Ok by (by apply check_and_expand_same_length).
    cbv beta iota. rewrite bind_get_self.
    pose proof (edge_ids_loop g (get_edge_num g) 0 [] Hc) as Hloop.
    rewrite drop_0 in Hloop. apply Hloop. by rewrite length_edges_of.
  - intros s t Hst. rewrite edge_ids_single.
    destruct (_nids_eid_mapping g !! (s, t)) as [e|] eqn:He; [|done].
    apply consistent_lookup in He; [|done]. exfalso. apply Hst.
    by eapply list_elem_of_lookup_2.
Qed.

Lemma edge_ids_of_the_edges_witness :
  edge_ids (AList (src (_edge_indices two_nodes_x))) (AList (tgt (_edge_indices two_nodes_x)))
    two_nodes_x
  = Return (seq 0 (get_edge_num two_nodes_x)) two_nodes_x [] ∧
  ∀ s t, (s, t) ∉ edges_of two_nodes_x →
         edge_ids (AnInt s) (AnInt t) two_nodes_x
         = Raise EdgeNotFoundException two_nodes_x [].
Proof.
  apply edge_ids_of_the_edges; [apply two_nodes_x_consistent|reflexivity|].
  change (get_edge_num two_nodes_x) with 1. lia.
Defined.

(** ** Writes on a part of the elements *)

Lemma strip_ones_head k n V : n ≠ 1 → strip_ones k (n :: V) = n :: V.
Proof. intros Hn. destruct k as [|k]; [done|]. cbn. by destruct n as [|[|n]]. Qed.

Lemma broadcast_same_rank_head n k V T data :
  n ≠ k → n ≠ 1 → broadcast_same_rank (n :: V) (k :: T) data = None.
Proof.
  intros Hk H1. cbn [broadcast_same_rank]. destruct (mapM _ _); [|done].
  by rewrite !decide_False.
Qed.

Lemma tensor_setitem_part old sel value idx :
  selected_rows (shape0 old) sel = Ok idx →
  tshape value = tshape old →
  shape0 value ≠ 1 →
  (is_slice sel = false ∧ (∃ i, sel = SelInt i)) ∨
  ((∀ i, sel ≠ SelInt i) ∧ length idx ≠ shape0 value) →
  tensor_setitem old sel value = Err RuntimeError.
Proof.
  intros Hidx Hsh H1 Hsel. unfold tensor_setitem. rewrite Hidx. cbn [mbind result_bind].
  assert (broadcast_to (shape0 value :: tshape value)
            match sel with
            | SelInt _ => tshape old
            | _ => length idx :: tshape old
            end (concat (rows value)) = None) as ->; [|done].
  unfold broadcast_to. rewrite strip_ones_head by done. rewrite Hsh.
  destruct Hsel as [[_ [i ->]]|[Hint Hlen]].
  - rewrite decide_False; [done|]. cbn. lia.
  - assert (match sel with
            | SelInt _ => tshape old
            | _ => length idx :: tshape old
            end = length idx :: tshape old) as ->.
    { destruct sel; [by destruct (Hint i)|done..]. }
    rewrite decide_True by done. cbn [length]. rewrite Nat.sub_diag. cbn [replicate app].
    apply broadcast_same_rank_head; [congruence|done].
Qed.

Lemma tensor_setitem_bad_selector old sel value e :
  selected_rows (shape0 old) sel = Err e → tensor_setitem old sel value = Err e.
Proof. intros Hsel. unfold tensor_setitem. by rewrite Hsel. Qed.

Lemma write_present_fails o sel key old value e g :
  dict_get (owner_table o g) key = Some (Some old) →
  shape0 value = owner_count o g →
  eq_slice_all sel = false →
  tensor_setitem old sel value = Err e →
  write_features o sel [(key, value)] g = Raise e g [].
Proof.
  intros Hkey Hval Hnot_all Hset.
  assert (is_new_feature (owner_table o g) key = false) as Hnew.
  { unfold is_new_feature. by rewrite Hkey. }
  destruct o; cbn [write_features owner_table owner_count] in *.
  - unfold set_node_features. cbn [dict_keys map fst for_each].
    erewrite bind_Return; last first.
    { erewrite bind_Return; [|rewrite bind_get_self, Hnew; reflexivity]. reflexivity. }
    rewrite after_warnings_nil. apply bind_Raise. rewrite bind_get_self.
    erewrite bind_Return; last first.
    { unfold py_assert. rewrite bool_decide_eq_true_2 by done. reflexivity. }
    rewrite after_warnings_nil, Hkey, Hnot_all. by erewrite bind_lift_Err.
  - unfold set_edge_feature. cbn [dict_keys map fst for_each].
    erewrite bind_Return; last first.
    { erewrite bind_Return; [|rewrite bind_get_self, Hnew; reflexivity]. reflexivity. }
    rewrite after_warnings_nil. apply bind_Raise. rewrite bind_get_self.
    erewrite bind_Return; last first.
    { unfold py_assert. rewrite bool_decide_eq_true_2 by done. reflexivity. }
    rewrite after_warnings_nil, Hkey, Hnot_all. by erewrite bind_lift_Err.
Qed.

(** X21. On a graph with two elements or more, take a write of one present
    feature whose array has one row per element and the trailing shape of
    the stored array. When the selector is an [int], or a slice or list
    that picks a number of rows other than the element count, the write
    raises [RuntimeError] in the assignment to the stored array; when torch
    does not accept the selector (an index out of range, a step that is not
    positive) the write raises the error of the selector. In both cases the
    graph is left as it is. *)
Theorem write_on_part_fails (o : Owner) (g : GraphData) (sel : Selector) (key : string)
    (old value : Tensor) :
  dict_get (owner_table o g) key = Some (Some old) →
  shape0 old = owner_count o g →
  shape0 value = owner_count o g →
  tshape value = tshape old →
  2 ≤ owner_count o g →
  (∀ idx, selected_rows (owner_count o g) sel = Ok idx →
          (∃ i, sel = SelInt i) ∨ length idx ≠ owner_count o g →
          write_features o sel [(key, value)] g = Raise RuntimeError g []) ∧
  (∀ e, selected_rows (owner_count o g) sel = Err e →
        write_features o sel [(key, value)] g = Raise e g []).
Proof.
  intros Hkey Hold Hval Hsh Hn. split.
  - intros idx Hidx Hsel.
    assert (eq_slice_all sel = false) as Hnot_all.
    { destruct sel as [i|[a|] [b|] [c|]|l]; try done.
      destruct Hsel as [[i [=]]|Hlen]. exfalso. apply Hlen.
      unfold selected_rows in Hidx. rewrite slice_to_list_all in Hidx.
      cbn in Hidx. injection Hidx as <-. by rewrite !length_map, length_seq. }
    apply (write_present_fails o sel key old); [done..|].
    apply (tensor_setitem_part old sel value idx); [by rewrite Hold|done|lia|].
    destruct sel as [i|a b c|l].
    + left. eauto.
    + right. split; [done|]. destruct Hsel as [[i [=]]|Hlen]. lia.
    + right. split; [done|]. destruct Hsel as [[i [=]]|Hlen]. lia.
  - intros e Hsel.
    assert (eq_slice_all sel = false) as Hnot_all.
    { by destruct sel as [i|[a|] [b|] [c|]|l]. }
    apply (write_present_fails o sel key old); [done..|].
    apply tensor_setitem_bad_selector. by rewrite Hold.
Qed.

Lemma write_on_part_fails_witness :
  write_features Nodes (SelSlice (Some 0%Z) (Some 2%Z) None)
    [("node_feat"%string, mkTensor [1] [[7]; [8]; [9]]%Z)] three_nodes_feat
  = Raise RuntimeError three_nodes_feat [] ∧
  write_features Nodes (SelInt 1)
    [("node_feat"%string, mkTensor [1] [[7]; [8]; [9]]%Z)] three_nodes_feat
  = Raise RuntimeError three_nodes_feat [] ∧
  write_features Nodes (SelInt 5)
    [("node_feat"%string, mkTensor [1] [[7]; [8]; [9]]%Z)] three_nodes_feat
  = Raise IndexError three_nodes_feat [].
Proof.
  assert (2 ≤ owner_count Nodes three_nodes_feat) as Hn.
  { change (owner_count Nodes three_nodes_feat) with 3. lia. }
  split_and!.
  - apply (write_on_part_fails Nodes three_nodes_feat (SelSlice (Some 0%Z) (Some 2%Z) None)
             "node_feat" (mkTensor [1] [[1]; [2]; [3]]%Z) (mkTensor [1] [[7]; [8]; [9]]%Z)
             eq_refl eq_refl eq_refl eq_refl Hn) with (idx := [0; 1]); [reflexivity|].
    right. change (owner_count Nodes three_nodes_feat) with 3. cbn. lia.
  - apply (write_on_part_fails Nodes three_nodes_feat (SelInt 1)
             "node_feat" (mkTensor [1] [[1]; [2]; [3]]%Z) (mkTensor [1] [[7]; [8]; [9]]%Z)
             eq_refl eq_refl eq_refl eq_refl Hn) with (idx := [1]); [reflexivity|].
    left. eauto.
  - apply (write_on_part_fails Nodes three_nodes_feat (SelInt 5)
             "node_feat" (mkTensor [1] [[1]; [2]; [3]]%Z) (mkTensor [1] [[7]; [8]; [9]]%Z)
             eq_refl eq_refl eq_refl eq_refl Hn). reflexivity.
Defined.

(** ** Packing the graphs unpacked from a batch *)

Lemma concat_counted_slices {A} (l : list A) counts :
  sum_list counts ≤ length l →
  concat ((λ i, py_slice l (cum counts i) (cum counts i + counts !!! i))
            <$> seq 0 (length counts))
  = take (sum_list counts) l.
Proof.
  induction counts as [|c counts IH] using rev_ind; intros Hs; [done|].
  rewrite sum_list_app in *. simpl in Hs.
  rewrite length_app. simpl. rewrite Nat.add_1_r, seq_S, fmap_app, concat_app.
  simpl. rewrite app_nil_r, Nat.add_0_r.
  rewrite <-take_take_drop, <-IH by lia. f_equal.
  - f_equal. apply Forall_fmap_ext_1. apply Forall_forall. intros i Hi.
    apply elem_of_seq in Hi as [_ Hi]. simpl in Hi.
    unfold cum. rewrite take_app_le by lia. by rewrite lookup_total_app_l by lia.
  - unfold cum, py_slice. rewrite take_app_length.
    rewrite list_lookup_total_middle by done. f_equal. lia.
Qed.

Lemma fmap_seq_lookup_total (l : list nat) : (λ i, l !!! i) <$> seq 0 (length l) = l.
Proof.
  apply list_eq. intros i. rewrite list_lookup_fmap.
  destruct (l !! i) as [x|] eqn:Hx.
  - rewrite lookup_seq_lt by (by eapply lookup_lt_Some). simpl.
    by rewrite (list_lookup_total_correct _ _ _ Hx).
  - rewrite lookup_seq_ge; [done|]. by apply lookup_ge_None.
Qed.

Lemma omap_fmap_Some {A B C} (f : B → option C) (h : A → B) (r : A → C) (l : list A) :
  (∀ x, x ∈ l → f (h x) = Some (r x)) → omap f (h <$> l) = r <$> l.
Proof.
  induction l as [|x l IH]; intros Hf; [done|].
  cbn [fmap list_fmap omap list_omap]. rewrite (Hf x) by left.
  rewrite IH; [done|]. intros y Hy. apply Hf. by right.
Qed.

(** The counts of the elements the tables of [o] describe. *)
Definition owner_counts (o : Owner) (nn ne : list nat) : list nat :=
  match o with Nodes => nn | Edges => ne end.

(** Every edge of the batch joins two nodes of one graph of the batch: the
    edges of the [i]-th range, rebased, are pairs of node ids of the [i]-th
    graph. *)
Definition edges_within (b : GraphData) (nn ne : list nat) : Prop :=
  ∀ i, i < length nn →
    Forall (λ e, (0 ≤ e.1 < Z.of_nat (nn !!! i))%Z ∧ (0 ≤ e.2 < Z.of_nat (nn !!! i))%Z)
      (child_edges nn ne (edges_of b) i).

Lemma child_counts b n nn ne i :
  batch_wf b n nn ne → i < n →
  get_node_num (child b nn ne i) = nn !!! i ∧ get_edge_num (child b nn ne i) = ne !!! i.
Proof.
  intros (Hbs & Hnn & Hne & Hln & Hle & Hpos & Hsn & Hse & Hlens & Hattrs & _) Hi.
  pose proof (cum_le _ _ _ (lookup_total_Some nn i ltac:(lia))) as Hcn.
  split.
  - unfold get_node_num in *. cbn. rewrite py_slice_length by lia. lia.
  - unfold get_edge_num. cbn. rewrite length_fmap.
    apply length_child_edges; [lia|]. rewrite length_edges_of by done. lia.
Qed.

Lemma child_edges_of b nn ne i :
  edges_of (child b nn ne i) = child_edges nn ne (edges_of b) i.
Proof. unfold edges_of at 1. cbn. by rewrite zip_fst_snd. Qed.

Lemma child_present o b nn ne i k :
  dict_ok (owner_table o b) →
  present o k (child b nn ne i)
  = (λ t, tensor_slice t (cum (owner_counts o nn ne) i)
            (cum (owner_counts o nn ne) i + owner_counts o nn ne !!! i))
      <$> present o k b.
Proof.
  intros Hok. unfold present.
  destruct o; cbn; cbn in Hok; rewrite child_table_lookup by done.
  - destruct (dict_get (_node_features b) k) as [[t|]|]; try done;
      simpl; repeat case_decide; done.
  - destruct (dict_get (_edge_features b) k) as [[t|]|]; try done;
      simpl; repeat case_decide; done.
Qed.

Lemma unpacked_packable b n nn ne :
  batch_wf b n nn ne → 0 < n →
  (∀ o, dict_ok (owner_table o b)) →
  edges_within b nn ne →
  packable (child b nn ne <$> seq 0 n).
Proof.
  intros Hwf Hn Hok Hin.
  pose proof Hwf as (Hbs & Hnn & Hne & Hln & Hle & Hpos & Hsn & Hse & Hlens & Hattrs
                     & HTn & HTe & Hnd).
  assert (∀ g, g ∈ child b nn ne <$> seq 0 n → ∃ i, g = child b nn ne i ∧ i < n) as Hret.
  { intros g Hg. apply list_elem_of_fmap in Hg as (i & -> & Hi).
    apply elem_of_seq in Hi. exists i. split; [done|lia]. }
  split_and!.
  - destruct n; [lia|done].
  - apply Forall_forall. intros g Hg. destruct (Hret g Hg) as (i & -> & Hi).
    destruct (child_aligned b n nn ne i Hwf Hok Hi) as [(H1 & H2 & H3 & H4) _].
    destruct (child_counts b n nn ne i Hwf Hi) as [Hcn Hce].
    split_and!; try done.
    + rewrite child_edges_of. by apply child_edges_NoDup.
    + unfold endpoints_in_range. rewrite child_edges_of, Hcn. apply Hin. lia.
  - apply Forall_forall. intros g Hg. destruct (Hret g Hg) as (i & -> & Hi).
    destruct (child_counts b n nn ne i Hwf Hi) as [-> _].
    apply (proj1 (Forall_forall _ _) Hpos). apply list_elem_of_lookup_total_2. lia.
  - intros o k g g' Hg Hg'. destruct (Hret g Hg) as (i & -> & Hi).
    destruct (Hret g' Hg') as (i' & -> & Hi').
    rewrite child_present by done. intros [t Ht]. apply fmap_Some in Ht as (t0 & Ht0 & _).
    assert (is_Some (present o k (child b nn ne i'))) as [t' Ht'].
    { rewrite child_present, Ht0 by done. by eexists. }
    apply present_Some in Ht'. apply dec_stable. intros Hk.
    apply dict_get_None in Hk. by rewrite Hk in Ht'.
  - intros o k g g' t t' _ Hg Hg'. destruct (Hret g Hg) as (i & -> & Hi).
    destruct (Hret g' Hg') as (i' & -> & Hi').
    rewrite !child_present by done. intros Ht Ht'.
    apply fmap_Some in Ht as (t0 & Ht0 & ->). rewrite Ht0 in Ht'.
    by injection Ht' as <-.
Qed.

Lemma packed_table_restored o b n nn ne T k t :
  0 < n → length (owner_counts o nn ne) = n →
  dict_ok (owner_table o b) →
  table_packed o (child b nn ne <$> seq 0 n) (sum_list (owner_counts o nn ne)) T →
  dict_get (owner_table o b) k = Some (Some t) →
  shape0 t = sum_list (owner_counts o nn ne) →
  dict_get T k = Some (Some t).
Proof.
  intros Hn Hlen Hok (_ & _ & HT) Hk Hshape. apply present_Some in Hk.
  set (part := λ i, tensor_slice t (cum (owner_counts o nn ne) i)
                      (cum (owner_counts o nn ne) i + owner_counts o nn ne !!! i)).
  assert (omap (present o k) (child b nn ne <$> seq 0 n) = part <$> seq 0 n) as Hparts.
  { apply omap_fmap_Some. intros i _. by rewrite child_present, Hk by done. }
  destruct (HT k) as (t' & Ht' & Hrows & Hshapes).
  { apply Forall_forall. intros g Hg. apply list_elem_of_fmap in Hg as (i & -> & _).
    rewrite child_present, Hk by done. by eexists. }
  rewrite Ht'. do 2 f_equal. rewrite Hparts in Hrows, Hshapes.
  assert (tshape t' = tshape t) as Hs.
  { rewrite (Hshapes (part 0)); [done|]. apply list_elem_of_fmap. exists 0. split; [done|].
    apply elem_of_seq. lia. }
  assert (rows t' = rows t) as Hr.
  { rewrite Hrows, <-list_fmap_compose, <-Hlen.
    change (rows ∘ part)
      with (λ i, py_slice (rows t) (cum (owner_counts o nn ne) i)
                   (cum (owner_counts o nn ne) i + owner_counts o nn ne !!! i)).
    rewrite concat_counted_slices by (unfold shape0 in Hshape; lia).
    apply take_ge. unfold shape0 in Hshape. lia. }
  clear -Hs Hr. destruct t', t. simpl in *. by subst.
Qed.

(** X22. Packing the graphs unpacked from a well-formed batch, every edge of
    which joins two nodes of one of its graphs, gives the batch back: the
    attribute records, the endpoint lists, the edge index map, the recorded
    counts, the device and every present array of the new batch are those of
    the batch that was unpacked. *)
Theorem pack_after_unpack (b : GraphData) (n : nat) (nn ne : list nat) :
  batch_wf b n nn ne → 0 < n →
  (∀ o, dict_ok (owner_table o b)) →
  index_consistent b →
  edges_within b nn ne →
  ∃ ret b',
    from_batch b = Return ret b [] ∧ to_batch ret = Ok b' ∧
    _node_attributes b' = _node_attributes b ∧
    _edge_indices b' = _edge_indices b ∧
    _nids_eid_mapping b' = _nids_eid_mapping b ∧
    _edge_attributes b' = _edge_attributes b ∧
    _is_batch b' = true ∧ device b' = device b ∧
    batch_size b' = batch_size b ∧
    _batch_num_nodes b' = _batch_num_nodes b ∧
    _batch_num_edges b' = _batch_num_edges b ∧
    ∀ o k t, dict_get (owner_table o b) k = Some (Some t) →
             dict_get (owner_table o b') k = Some (Some t).
Proof.
  intros Hwf Hn Hok Hcons Hin.
  pose proof (unpacked_packable b n nn ne Hwf Hn Hok Hin) as Hpack.
  pose proof Hwf as (Hbs & Hnn & Hne & Hln & Hle & Hpos & Hsn & Hse & Hlens & Hattrs
                     & HTn & HTe & Hnd).
  remember (child b nn ne <$> seq 0 n) as ret eqn:Hret.
  assert (get_node_num <$> ret = nn) as Hnums.
  { subst ret. rewrite <-list_fmap_compose.
    transitivity ((λ i, nn !!! i) <$> seq 0 (length nn)); [|apply fmap_seq_lookup_total].
    rewrite Hln. apply Forall_fmap_ext_1, Forall_forall. intros i Hi.
    apply elem_of_seq in Hi. unfold compose.
    by destruct (child_counts b n nn ne i Hwf) as [-> _]; [lia|]. }
  assert (get_edge_num <$> ret = ne) as Henums.
  { subst ret. rewrite <-list_fmap_compose.
    transitivity ((λ i, ne !!! i) <$> seq 0 (length ne)); [|apply fmap_seq_lookup_total].
    rewrite Hle. apply Forall_fmap_ext_1, Forall_forall. intros i Hi.
    apply elem_of_seq in Hi. unfold compose.
    by destruct (child_counts b n nn ne i Hwf) as [_ ->]; [lia|]. }
  assert (stacked 0 ret = edges_of b) as Hstack.
  { rewrite stacked_concat. unfold stacked_parts. rewrite Hnums. subst ret.
    rewrite imap_fmap_seq.
    transitivity (concat ((λ i, py_slice (edges_of b) (cum ne i) (cum ne i + ne !!! i))
                            <$> seq 0 (length ne))).
    - rewrite Hle. f_equal. apply Forall_fmap_ext_1, Forall_forall. intros i _.
      rewrite child_edges_of. unfold child_edges. rewrite <-list_fmap_compose.
      rewrite <-(list_fmap_id (py_slice _ _ _)) at 2. apply list_fmap_ext.
      intros j [e1 e2] _. unfold shift. simpl. f_equal; lia.
    - rewrite concat_counted_slices by (rewrite length_edges_of by done; lia).
      apply take_ge. rewrite length_edges_of by done. lia. }
  destruct ret as [|g0 gs]; [by destruct Hpack|].
  destruct (to_batch_packed g0 gs Hpack) as (Tn & Te & Hb & HpTn & HpTe).
  exists (g0 :: gs). eexists. split; [by rewrite Hret; apply from_batch_ok|].
  split; [exact Hb|].
  assert (mkEdgeIndex (stacked 0 (g0 :: gs)).*1 (stacked 0 (g0 :: gs)).*2
          = _edge_indices b) as Hei.
  { rewrite Hstack. unfold edges_of. rewrite fst_zip, snd_zip by lia.
    by destruct (_edge_indices b). }
  split_and!.
  - cbn [packed _node_attributes]. rewrite Hret, <-list_fmap_compose, <-Hln.
    change (_node_attributes ∘ child b nn ne)
      with (λ i, py_slice (_node_attributes b) (cum nn i) (cum nn i + nn !!! i)).
    unfold get_node_num in Hsn. rewrite concat_counted_slices by lia.
    apply take_ge. lia.
  - exact Hei.
  - apply consistent_maps_eq; [|done|exact Hei].
    apply packed_consistent. by destruct Hpack as (_ & ? & _).
  - cbn [packed _edge_attributes]. rewrite Hret, <-list_fmap_compose, <-Hle.
    change (_edge_attributes ∘ child b nn ne)
      with (λ i, py_slice (_edge_attributes b) (cum ne i) (cum ne i + ne !!! i)).
    rewrite concat_counted_slices by lia. apply take_ge. lia.
  - done.
  - cbn [packed device]. assert ((g0 :: gs) !! 0 = Some g0) as H0 by done.
    rewrite Hret in H0. by apply lookup_fmap_seq in H0 as [-> _].
  - cbn [packed batch_size]. by rewrite Hbs, Hret, length_fmap, length_seq.
  - cbn [packed _batch_num_nodes]. by rewrite Hnums, Hnn.
  - cbn [packed _batch_num_edges]. by rewrite Henums, Hne.
  - rewrite Hnums in HpTn. rewrite Henums in HpTe. rewrite Hret in HpTn, HpTe.
    intros [] k t Hk.
    + apply (packed_table_restored Nodes b n nn ne Tn k t); try done.
      rewrite (HTn k t); [done|]. by apply dict_get_Some_elem.
    + apply (packed_table_restored Edges b n nn ne Te k t); try done.
      rewrite (HTe k t); [done|]. by apply dict_get_Some_elem.
Qed.

Lemma small_batch_consistent : index_consistent small_batch.
Proof.
  split; [reflexivity|]. intros s t e. cbn [small_batch _nids_eid_mapping _edge_indices src tgt].
  rewrite lookup_singleton_Some. split.
  - by intros [[= <- <-] <-].
  - destruct e as [|e]; [|by intros [[=] _]]. by intros [[= <-] [= <-]].
Qed.

Lemma small_batch_within : edges_within small_batch [1; 2] [0; 1].
Proof.
  intros [|[|i]] Hi; [| |simpl in Hi; lia].
  - apply Forall_nil_2.
  - apply Forall_cons. split; [|apply Forall_nil_2]. vm_compute. repeat split; congruence.
Qed.

Lemma pack_after_unpack_witness :
  ∃ ret b',
    from_batch small_batch = Return ret small_batch [] ∧ to_batch ret = Ok b' ∧
    _node_attributes b' = _node_attributes small_batch ∧
    _edge_indices b' = _edge_indices small_batch ∧
    _nids_eid_mapping b' = _nids_eid_mapping small_batch ∧
    _edge_attributes b' = _edge_attributes small_batch ∧
    _is_batch b' = true ∧ device b' = device small_batch ∧
    batch_size b' = batch_size small_batch ∧
    _batch_num_nodes b' = _batch_num_nodes small_batch ∧
    _batch_num_edges b' = _batch_num_edges small_batch ∧
    ∀ o k t, dict_get (owner_table o small_batch) k = Some (Some t) →
             dict_get (owner_table o b') k = Some (Some t).
Proof.
  apply (pack_after_unpack small_batch 2 [1; 2] [0; 1]).
  - apply small_batch_wf.
  - lia.
  - apply small_batch_dict_ok.
  - apply small_batch_consistent.
  - apply small_batch_within.
Defined.

(** ** Splitting the features of a packed batch *)

(** X23. Splitting the features of the batch of a packable list gives, for
    a feature that is present on every graph, the arrays of the graphs
    themselves, in the order of the graphs. *)
Theorem split_of_packed (o : Owner) (graphs : list GraphData) (k : string) :
  packable graphs →
  present_on_all o k graphs →
  ∃ b d, to_batch graphs = Ok b ∧ split_features o b = Done d ∧
         dict_get d k = Some (omap (present o k) graphs).
Proof.
  intros Hpack Hall. pose proof Hpack as (Hne & Hwf & Hpos & Hreg & Hshapes).
  destruct graphs as [|g0 gs]; [done|].
  destruct (to_batch_packed g0 gs Hpack) as (Tn & Te & Hb & HTn & HTe).
  set (graphs := g0 :: gs) in *.
  set (m := registered _ _ _) in Hb.
  set (b := packed graphs (device g0) Tn Te m) in *.
  set (nn := get_node_num <$> graphs) in *. set (ne := get_edge_num <$> graphs) in *.
  pose proof (packed_wf graphs (device g0) Tn Te m Hne Hwf Hpos HTn HTe) as Hbwf.
  destruct (split_features_ok o b (length graphs) nn ne eq_refl Hbwf) as (d & Hd & Hsome & _).
  exists b, d. split_and!; [done|done|].
  assert (table_packed o graphs (sum_list (owner_count o <$> graphs)) (owner_table o b))
    as HT by (by destruct o).
  assert (match o with Nodes => nn | Edges => ne end = owner_count o <$> graphs) as Hcounts
    by (by destruct o).
  rewrite Hcounts in Hsome. clear Hcounts.
  pose proof HT as (HokT & _ & HTk). destruct (HTk k Hall) as (t & Ht & _).
  destruct (Hsome k t Ht) as (parts & -> & Hlen & Hparts & _). f_equal.
  destruct (gathered_present_all o k graphs Hall) as [_ Hlen'].
  apply list_eq. intros i. destruct (graphs !! i) as [g|] eqn:Hg.
  - rewrite Hparts by (by eapply lookup_lt_Some).
    rewrite (omap_present_lookup o k graphs i g Hall Hg).
    assert (Forall (rows_match o) graphs) as Hrows.
    { eapply Forall_impl; [exact Hwf|]. intros g' (_ & Hr & _). apply (Hr o). }
    pose proof (child_feature_restored o graphs _ _ i g k [] HT Hrows Hg Hall) as Hc.
    rewrite child_table_lookup, Ht in Hc by done.
    unfold present. by rewrite <-Hc.
  - apply lookup_ge_None in Hg.
    rewrite (proj2 (lookup_ge_None _ _)) by lia. symmetry. apply lookup_ge_None. lia.
Qed.

Lemma x_present_on_all : present_on_all Nodes "x" [one_node_x; two_nodes_x].
Proof. repeat (apply Forall_cons; split); try apply Forall_nil_2; by eexists. Qed.

Lemma split_of_packed_witness :
  ∃ b d, to_batch [one_node_x; two_nodes_x] = Ok b ∧ split_features Nodes b = Done d ∧
         dict_get d "x" = Some (omap (present Nodes "x") [one_node_x; two_nodes_x]).
Proof.
  apply (split_of_packed Nodes [one_node_x; two_nodes_x] "x").
  - apply x_graphs_packable.
  - apply x_present_on_all.
Defined.

(** ** Feature writes of a whole dictionary *)

(** The two loops of [set_node_features] and [set_edge_feature], with the
    table, the element count and the exception of the owner. *)
Definition write_check (o : Owner) (sel : Selector) (key : string) : M unit :=
  g ← get_self;
  if is_new_feature (owner_table o g) key then
    if negb (is_slice sel) then raise (new_feature_error o)
    else
      full ← lift (covers_all sel (owner_count o g));
      if negb full then raise (new_feature_error o) else mret ()
  else mret ().

Definition write_entry (o : Owner) (sel : Selector) (kv : string * Tensor) : M unit :=
  let '(key, value) := kv in
  g ← get_self;
  py_assert (bool_decide (shape0 value = owner_count o g)) ;;
  match dict_get (owner_table o g) key with
  | None | Some None =>
      modify (with_owner_table o (dict_set key (Some value) (owner_table o g)))
  | Some (Some old) =>
      if eq_slice_all sel then
        modify (with_owner_table o (dict_set key (Some value) (owner_table o g)))
      else
        t ← lift (tensor_setitem old sel value);
        modify (with_owner_table o (dict_set key (Some t) (owner_table o g)))
  end.

Lemma write_features_unfold o sel new_data :
  write_features o sel new_data
  = (for_each (dict_keys new_data) (write_check o sel) ;;
     for_each new_data (write_entry o sel)).
Proof. by destruct o. Qed.

(** The outcome of the check of a new name: the exception, if any. *)
Definition check_error (o : Owner) (sel : Selector) (n : nat) : option Exn :=
  match covers_all sel n with
  | Ok true => None
  | Ok false => Some (new_feature_error o)
  | Err e => Some e
  end.

Lemma write_check_run o sel key g :
  write_check o sel key g
  = if is_new_feature (owner_table o g) key then
      match check_error o sel (owner_count o g) with
      | None => Return () g []
      | Some e => Raise e g []
      end
    else Return () g [].
Proof.
  unfold write_check. rewrite bind_get_self. destruct (is_new_feature _ _); [|done].
  unfold check_error. destruct (negb (is_slice sel)) eqn:Hs.
  - by destruct sel.
  - destruct (covers_all sel (owner_count o g)) as [[]|e].
    + by erewrite bind_lift_Ok by done.
    + by erewrite bind_lift_Ok by done.
    + by erewrite bind_lift_Err by done.
Qed.

Lemma check_loop o sel g : ∀ keys,
  for_each keys (write_check o sel) g
  = if existsb (is_new_feature (owner_table o g)) keys then
      match check_error o sel (owner_count o g) with
      | None => Return () g []
      | Some e => Raise e g []
      end
    else Return () g [].
Proof.
  induction keys as [|k keys IH]; [done|]. cbn [for_each existsb].
  destruct (is_new_feature (owner_table o g) k) eqn:Hk; cbn [orb].
  - destruct (check_error o sel (owner_count o g)) as [e|] eqn:Hce.
    + apply bind_Raise. by rewrite write_check_run, Hk, Hce.
    + erewrite bind_Return by (by rewrite write_check_run, Hk, Hce).
      rewrite after_warnings_nil, IH. by destruct (existsb _ _).
  - erewrite bind_Return by (by rewrite write_check_run, Hk).
    by rewrite after_warnings_nil, IH.
Qed.

(** What the write of one entry stores under its name. *)
Definition stored_for (sel : Selector) (old : option (option Tensor)) (value : Tensor)
    : result Tensor :=
  match old with
  | Some (Some old) => if eq_slice_all sel then Ok value else tensor_setitem old sel value
  | _ => Ok value
  end.

Lemma write_entry_run o sel key value g :
  write_entry o sel (key, value) g
  = if decide (shape0 value = owner_count o g) then
      match stored_for sel (dict_get (owner_table o g) key) value with
      | Ok t =>
          Return () (with_owner_table o (dict_set key (Some t) (owner_table o g)) g) []
      | Err e => Raise e g []
      end
    else Raise AssertionError g [].
Proof.
  unfold write_entry. rewrite bind_get_self. unfold py_assert. case_decide as Hn.
  - rewrite bool_decide_eq_true_2 by done. rewrite bind_mret.
    destruct (dict_get (owner_table o g) key) as [[old|]|]; cbn [stored_for]; [|done..].
    destruct (eq_slice_all sel); [done|].
    destruct (tensor_setitem old sel value) as [t|e].
    + by erewrite bind_lift_Ok by done.
    + by erewrite bind_lift_Err by done.
  - by rewrite bool_decide_eq_false_2 by done.
Qed.

(** The loop of the modification as a function of the table: the table that
    it leaves, and the exception that ends it, if any. *)
Fixpoint write_all (sel : Selector) (n : nat) (d : FeatureTable)
    (new_data : list (string * Tensor)) : FeatureTable * option Exn :=
  match new_data with
  | [] => (d, None)
  | (key, value) :: rest =>
      if decide (shape0 value = n) then
        match stored_for sel (dict_get d key) value with
        | Ok t => write_all sel n (dict_set key (Some t) d) rest
        | Err e => (d, Some e)
        end
      else (d, Some AssertionError)
  end.

Lemma write_loop o sel : ∀ new_data g,
  for_each new_data (write_entry o sel) g
  = match write_all sel (owner_count o g) (owner_table o g) new_data with
    | (d, None) => Return () (with_owner_table o d g) []
    | (d, Some e) => Raise e (with_owner_table o d g) []
    end.
Proof.
  induction new_data as [|[key value] nd IH]; intros g; cbn [for_each write_all].
  - by rewrite with_owner_table_id.
  - case_decide as Hn.
    + destruct (stored_for sel (dict_get (owner_table o g) key) value) as [t|e] eqn:Hst.
      * erewrite bind_Return; last first.
        { rewrite write_entry_run, decide_True, Hst by done. reflexivity. }
        rewrite after_warnings_nil, IH, owner_count_with, owner_table_with.
        destruct (write_all _ _ _ _) as [d [e|]]; by rewrite with_owner_table_twice.
      * rewrite with_owner_table_id. apply bind_Raise.
        by rewrite write_entry_run, decide_True, Hst by done.
    + rewrite with_owner_table_id. apply bind_Raise.
      by rewrite write_entry_run, decide_False by done.
Qed.

Lemma write_features_run o sel new_data g :
  write_features o sel new_data g
  = match (if existsb (is_new_feature (owner_table o g)) (dict_keys new_data)
           then check_error o sel (owner_count o g) else None) with
    | Some e => Raise e g []
    | None =>
        match write_all sel (owner_count o g) (owner_table o g) new_data with
        | (d, None) => Return () (with_owner_table o d g) []
        | (d, Some e) => Raise e (with_owner_table o d g) []
        end
    end.
Proof.
  rewrite write_features_unfold.
  pose proof (check_loop o sel g (dict_keys new_data)) as Hc.
  destruct (existsb _ _).
  - destruct (check_error o sel (owner_count o g)) as [e|].
    + by apply bind_Raise.
    + erewrite bind_Return by done. by rewrite after_warnings_nil, write_loop.
  - erewrite bind_Return by done. by rewrite after_warnings_nil, write_loop.
Qed.

(** *** The table that the loop leaves *)

Lemma write_all_shapes sel n : ∀ new_data d d',
  write_all sel n d new_data = (d', None) →
  ∀ key value, (key, value) ∈ new_data → shape0 value = n.
Proof.
  induction new_data as [|[k v] nd IH]; intros d d' Hrun key value Hin.
  - by apply elem_of_nil in Hin.
  - cbn [write_all] in Hrun. case_decide as Hn; [|done].
    destruct (stored_for sel (dict_get d k) v) as [t|e]; [|done].
    apply elem_of_cons in Hin as [[= -> ->]|Hin]; [done|]. by eapply IH.
Qed.

Lemma write_all_frame sel n : ∀ new_data d d' r,
  write_all sel n d new_data = (d', r) →
  ∀ name, name ∉ dict_keys new_data → dict_get d' name = dict_get d name.
Proof.
  induction new_data as [|[k v] nd IH]; intros d d' r Hrun name Hname.
  - by injection Hrun as <- _.
  - cbn [write_all] in Hrun. cbn [dict_keys map fst] in Hname.
    apply not_elem_of_cons in Hname as [Hk Hname].
    case_decide as Hn; [|by injection Hrun as <- _].
    destruct (stored_for sel (dict_get d k) v) as [t|e]; [|by injection Hrun as <- _].
    rewrite (IH _ _ _ Hrun name Hname). by apply dict_get_set_ne.
Qed.

Lemma write_all_ok sel n : ∀ new_data d d',
  dict_ok new_data →
  write_all sel n d new_data = (d', None) →
  ∀ key value, (key, value) ∈ new_data →
    ∃ t, stored_for sel (dict_get d key) value = Ok t ∧ dict_get d' key = Some (Some t).
Proof.
  induction new_data as [|[k v] nd IH]; intros d d' Hok Hrun key value Hin.
  - by apply elem_of_nil in Hin.
  - unfold dict_ok in Hok. cbn [dict_keys map fst] in Hok.
    apply NoDup_cons in Hok as [Hk Hok].
    cbn [write_all] in Hrun. case_decide as Hn; [|done].
    destruct (stored_for sel (dict_get d k) v) as [t|e] eqn:Hst; [|done].
    apply elem_of_cons in Hin as [[= -> ->]|Hin].
    + exists t. split; [done|].
      rewrite (write_all_frame _ _ _ _ _ _ Hrun k Hk). apply dict_get_set_eq.
    + destruct (IH _ _ Hok Hrun key value Hin) as (t' & Ht' & Hget).
      exists t'. split; [|done]. rewrite dict_get_set_ne in Ht'; [done|].
      intros ->. apply Hk. by apply (list_elem_of_fmap_2 fst) in Hin.
Qed.




Lemma write_all_succeeds sel n : ∀ new_data d,
  dict_ok new_data →
  (∀ key value, (key, value) ∈ new_data →
     shape0 value = n ∧ ∃ t, stored_for sel (dict_get d key) value = Ok t) →
  ∃ d', write_all sel n d new_data = (d', None).
Proof.
  induction new_data as [|[k v] nd IH]; intros d Hok Hall; [by eexists|].
  unfold dict_ok in Hok. cbn [dict_keys map fst] in Hok.
  apply NoDup_cons in Hok as [Hk Hok].
  destruct (Hall k v) as (Hn & t & Ht); [left|].
  cbn [write_all]. rewrite decide_True, Ht by done. apply IH; [done|].
  intros key value Hin. destruct (Hall key value) as (Hn' & t' & Ht'); [by right|].
  split; [done|]. exists t'. rewrite dict_get_set_ne; [done|].
  intros ->. apply Hk. by apply (list_elem_of_fmap_2 fst) in Hin.
Qed.

(** The entries of [new_data] as entries of a feature table. *)
Definition as_table (new_data : list (string * Tensor)) : FeatureTable :=
  (λ kv, (kv.1, Some kv.2)) <$> new_data.

Lemma dict_keys_as_table new_data : dict_keys (as_table new_data) = dict_keys new_data.
Proof.
  unfold as_table, dict_keys. change (map ?f ?l) with (f <$> l).
  by rewrite <-list_fmap_compose.
Qed.

Lemma dict_get_as_table new_data key value :
  dict_ok new_data → (key, value) ∈ new_data →
  dict_get (as_table new_data) key = Some (Some value).
Proof.
  intros Hok Hin. apply dict_get_elem.
  - unfold dict_ok. by rewrite dict_keys_as_table.
  - unfold as_table. apply list_elem_of_fmap. by exists (key, value).
Qed.

(** Every entry is stored as it is given when the stored array, if there
    is one, is replaced. *)
Lemma write_all_stored sel n : ∀ new_data d,
  dict_ok new_data →
  (∀ key value, (key, value) ∈ new_data →
     shape0 value = n ∧ stored_for sel (dict_get d key) value = Ok value) →
  write_all sel n d new_data = (updated (as_table new_data) d, None).
Proof.
  induction new_data as [|[k v] nd IH]; intros d Hok Hall; [done|].
  unfold dict_ok in Hok. cbn [dict_keys map fst] in Hok.
  apply NoDup_cons in Hok as [Hk Hok].
  destruct (Hall k v) as (Hn & Ht); [left|].
  cbn [write_all]. rewrite decide_True, Ht by done.
  unfold updated. cbn [as_table fmap list_fmap foldl fst snd]. apply IH; [done|].
  intros key value Hin. destruct (Hall key value) as (Hn' & Ht'); [by right|].
  split; [done|]. rewrite dict_get_set_ne; [done|].
  intros ->. apply Hk. by apply (list_elem_of_fmap_2 fst) in Hin.
Qed.

Lemma existsb_is_new table keys :
  existsb (is_new_feature table) keys = true ↔
  ∃ key, key ∈ keys ∧ is_new_feature table key = true.
Proof.
  rewrite existsb_exists. split; intros (key & Hin & Hnew); exists key;
    (split; [by apply list_elem_of_In|done]).
Qed.

(** *** Assignment in place *)




















(** *** New names *)

(** Every selector covers all elements, or is not a slice or denotes
    another number of ids, or is a slice whose ids cannot be computed. *)
Lemma selector_cases sel n :
  covers_all sel n = Ok true ∨
  not_full_range sel n ∨
  ∃ start stop step e,
    sel = SelSlice start stop step ∧ slice_to_list start stop step n = Err e.
Proof.
  destruct sel as [i|a b c|l]; [right; left; by left| |right; left; by left].
  destruct (slice_to_list a b c n) as [l|e] eqn:Hl.
  - destruct (decide (length l = n)) as [Hlen|Hlen].
    + left. cbn [covers_all]. rewrite Hl. cbn [mbind result_bind].
      by rewrite bool_decide_eq_true_2.
    + right. left. right. by exists a, b, c, l.
  - right. right. by exists a, b, c, e.
Qed.

Lemma check_error_not_full o sel n :
  not_full_range sel n → check_error o sel n = Some (new_feature_error o).
Proof.
  unfold check_error. intros [Hs|(a & b & c & l & -> & Hl & Hlen)].
  - by destruct sel.
  - cbn [covers_all]. rewrite Hl. cbn [mbind result_bind].
    by rewrite bool_decide_eq_false_2.
Qed.

Lemma check_error_bad_slice o a b c n e :
  slice_to_list a b c n = Err e → check_error o (SelSlice a b c) n = Some e.
Proof. intros Hl. unfold check_error. cbn [covers_all]. by rewrite Hl. Qed.

(** C8, amended. A write that carries a brand-new feature name (one that
    is not registered, or registered as absent) fails before anything is
    written, and leaves the graph unchanged, when its selector is not a
    slice denoting as many ids as there are elements: with [ValueError] for
    the node feature table and with [SizeMismatchException] for the edge
    feature table when the selector is not a slice or is a slice that denotes
    another number of ids, and with the error of the slice itself when its
    ids cannot be computed (a zero step); a selector is in one of these cases
    or covers all elements. A write of new names whose selector covers all
    elements and whose arrays have one row per element succeeds, and the
    given arrays become the full storage of the features; whenever a write
    returns, the array of each of its new names is stored as given. *)
Theorem C8_new_feature_write (o : Owner) (g : GraphData) (sel : Selector)
    (new_data : list (string * Tensor)) :
  dict_ok new_data →
  (covers_all sel (owner_count o g) = Ok true ∨
   not_full_range sel (owner_count o g) ∨
   ∃ start stop step e,
     sel = SelSlice start stop step ∧
     slice_to_list start stop step (owner_count o g) = Err e) ∧
  ((∃ key, key ∈ dict_keys new_data ∧ is_new_feature (owner_table o g) key = true) →
     (not_full_range sel (owner_count o g) →
        write_features o sel new_data g = Raise (new_feature_error o) g []) ∧
     (∀ start stop step e,
        sel = SelSlice start stop step →
        slice_to_list start stop step (owner_count o g) = Err e →
        write_features o sel new_data g = Raise e g [])) ∧
  (covers_all sel (owner_count o g) = Ok true →
   (∀ key value, (key, value) ∈ new_data →
      is_new_feature (owner_table o g) key = true ∧ shape0 value = owner_count o g) →
   write_features o sel new_data g
   = Return () (with_owner_table o (updated (as_table new_data) (owner_table o g)) g) [] ∧
   ∀ key value, (key, value) ∈ new_data →
     dict_get (updated (as_table new_data) (owner_table o g)) key = Some (Some value)) ∧
  (∀ g' w,
     write_features o sel new_data g = Return () g' w →
     ∀ key value, (key, value) ∈ new_data →
       is_new_feature (owner_table o g) key = true →
       covers_all sel (owner_count o g) = Ok true ∧
       shape0 value = owner_count o g ∧
       dict_get (owner_table o g') key = Some (Some value)).
Proof.
  intros Hok. split_and!.
  - apply selector_cases.
  - intros Hnew. apply existsb_is_new in Hnew. split.
    + intros Hsel. by rewrite write_features_run, Hnew, check_error_not_full.
    + intros a b c e -> Hl.
      by rewrite write_features_run, Hnew, (check_error_bad_slice _ _ _ _ _ _ Hl).
  - intros Hsel Hall. rewrite write_features_run.
    assert (check_error o sel (owner_count o g) = None) as ->.
    { unfold check_error. by rewrite Hsel. }
    rewrite write_all_stored.
    + split; [by destruct (existsb _ _)|].
      intros key value Hin. rewrite dict_get_updated.
      * by rewrite (dict_get_as_table _ _ _ Hok Hin).
      * unfold dict_ok. by rewrite dict_keys_as_table.
    + done.
    + intros key value Hin. destruct (Hall key value Hin) as [Hnew Hn].
      split; [done|]. unfold stored_for, is_new_feature in *.
      by destruct (dict_get _ _) as [[?|]|].
  - intros g' w Hrun key value Hin Hnew. rewrite write_features_run in Hrun.
    assert (existsb (is_new_feature (owner_table o g)) (dict_keys new_data) = true) as Hex.
    { apply existsb_is_new. exists key. split; [|done].
      by apply (list_elem_of_fmap_2 fst) in Hin. }
    rewrite Hex in Hrun.
    destruct (check_error o sel (owner_count o g)) as [e|] eqn:Hce; [done|].
    destruct (write_all sel (owner_count o g) (owner_table o g) new_data)
      as [d [e|]] eqn:Hall; [done|]. injection Hrun as <- <-.
    split_and!.
    + unfold check_error in Hce. by destruct (covers_all _ _) as [[]|].
    + by eapply write_all_shapes.
    + destruct (write_all_ok _ _ _ _ _ Hok Hall key value Hin) as (t & Ht & Hget).
      rewrite owner_table_with, Hget. unfold stored_for, is_new_feature in *.
      destruct (dict_get (owner_table o g) key) as [[?|]|]; [done|..]; by injection Ht as <-.
Qed.

Lemma C8_new_feature_write_witness :
  write_features Edges (SelSlice (Some 0%Z) (Some 1%Z) None)
    [("w"%string, mkTensor [] [[5%Z]])] two_edges
  = Raise SizeMismatchException two_edges [] ∧
  write_features Nodes (SelInt 0)
    [("node_feat"%string, mkTensor [] [[5]; [6]; [7]]%Z); ("x"%string, mkTensor [] [[5%Z]])]
    three_nodes_feat
  = Raise ValueError three_nodes_feat [] ∧
  write_features Edges (SelSlice None None (Some 0%Z))
    [("w"%string, mkTensor [] [[5]; [6]]%Z)] two_edges
  = Raise ValueError two_edges [] ∧
  write_features Nodes slice_all
    [("x"%string, mkTensor [] [[5]; [6]; [7]]%Z); ("y"%string, mkTensor [1] [[1]; [2]; [3]]%Z)]
    three_nodes
  = Return ()
      (with_owner_table Nodes
         (updated
            (as_table [("x"%string, mkTensor [] [[5]; [6]; [7]]%Z);
                       ("y"%string, mkTensor [1] [[1]; [2]; [3]]%Z)])
            (owner_table Nodes three_nodes)) three_nodes) [].
Proof.
  split_and!.
  - destruct (C8_new_feature_write Edges two_edges (SelSlice (Some 0%Z) (Some 1%Z) None)
                [("w"%string, mkTensor [] [[5%Z]])]) as (_ & H2 & _).
    { apply (bool_decide_unpack _). vm_compute. exact I. }
    destruct H2 as [H2 _].
    + exists "w"%string. split; [left|reflexivity].
    + apply H2. right. exists (Some 0%Z), (Some 1%Z), None, [0%Z].
      split_and!; [done|done|]. vm_compute. lia.
  - destruct (C8_new_feature_write Nodes three_nodes_feat (SelInt 0)
                [("node_feat"%string, mkTensor [] [[5]; [6]; [7]]%Z);
                 ("x"%string, mkTensor [] [[5%Z]])]) as (_ & H2 & _).
    { apply (bool_decide_unpack _). vm_compute. exact I. }
    destruct H2 as [H2 _].
    + exists "x"%string. split; [right; left|reflexivity].
    + apply H2. by left.
  - destruct (C8_new_feature_write Edges two_edges (SelSlice None None (Some 0%Z))
                [("w"%string, mkTensor [] [[5]; [6]]%Z)]) as (_ & H2 & _).
    { apply (bool_decide_unpack _). vm_compute. exact I. }
    destruct H2 as [_ H2].
    + exists "w"%string. split; [left|reflexivity].
    + by apply (H2 None None (Some 0%Z)).
  - destruct (C8_new_feature_write Nodes three_nodes slice_all
                [("x"%string, mkTensor [] [[5]; [6]; [7]]%Z);
                 ("y"%string, mkTensor [1] [[1]; [2]; [3]]%Z)]) as (_ & _ & H3 & _).
    { apply (bool_decide_unpack _). vm_compute. exact I. }
    apply H3; [reflexivity|]. intros key value Hin.
    apply elem_of_cons in Hin as [[= -> ->]|Hin]; [by split|].
    apply list_elem_of_singleton in Hin. injection Hin as -> ->. by split.
Defined.

(** ** Features that were never written *)


Section keeps.
Context (P : GraphData → Prop).











End keeps.

#[global] Instance Owner_eq_dec : EqDecision Owner.
Proof. solve_decision. Defined.

(** The feature [k] of the owner [o] is registered as absent, and the names
    of both tables are distinct. *)
Definition still_absent (o : Owner) (k : string) (g : GraphData) : Prop :=
  (∀ o', dict_ok (owner_table o' g)) ∧ dict_get (owner_table o g) k = Some None.

Section absent.
Context (o : Owner) (k : string).


Lemma owner_table_other o1 o2 x g :
  o1 ≠ o2 → owner_table o1 (with_owner_table o2 x g) = owner_table o1 g.
Proof. by destruct o1, o2, g. Qed.



Lemma absent_updated o' items g :
  (o' = o → dict_ok items ∧ dict_get items k = Some None) →
  (still_absent o k) g → (still_absent o k) (with_owner_table o' (updated items (owner_table o' g)) g).
Proof.
  intros Hitems [Hok Hk]. split.
  - intros o''. destruct (decide (o'' = o')) as [->|Hne].
    + rewrite owner_table_with. apply dict_ok_updated, Hok.
    + rewrite owner_table_other by done. apply Hok.
  - destruct (decide (o = o')) as [<-|Hne].
    + rewrite owner_table_with. destruct (Hitems eq_refl) as [Hi Hget].
      by rewrite dict_get_updated, Hget.
    + by rewrite owner_table_other.
Qed.


















End absent.

(** *** Packing and unpacking *)





Section batches.
Context (o : Owner) (k : string).



End batches.

Section batches_absent.
Context (o : Owner) (k : string).



End batches_absent.

Section unpacked_absent.
Context (o : Owner) (k : string).








End unpacked_absent.

(** *** The graphs on which a feature was never written *)
















